(* ===== verification/_CoqProject ===== *)
-Q . S2P
Prelude.v
GoStrings.v
Json.v
Crypto.v
Envelope.v
MasterKey.v
GoTime.v
TimeParse.v
JsonValue.v
AuditEvent.v
Credential.v
Builtin.v
Backend.v
MemoryBackend.v
Manager.v
Vault.v
Bindings.v
Rotations.v
Spool.v
Identity.v
Wire.v
WireSize.v
AuditSink.v
Delivery.v
Storage.v
Server.v
Routing.v
Service.v
GoParse.v
Config.v
Responses.v
Files.v
Client.v
Exchange.v
EndToEnd.v
Postgres.v
PostgresBindings.v
PostgresRotation.v
Audited.v
Mirror.v
Parity.v
Listener.v
Lifecycle.v
Migrations.v
Process.v
Trim.v
Bootstrap.v
MutationGate.v
