(* ===== verification/Prelude.v ===== *)
(** * Verification of the Praetor Secrets Service

    The service keeps machine credentials encrypted and hands them to the
    executor a run was bound to, within a window and a limit.  This library
    models its Go code under src/ and proves what makes it correct.

    ** The program

    - [src/envelope], [src/masterkey]: two-layer encryption of one secret
      payload, bound to the credential, organization, schema and version it
      belongs to; loading of the current and the previous master key.
    - [src/builtin]: the one credential type, its validation and the rendering
      of inputs into environment variables and files.
    - [src/credential]: the manager (create, read, replace, rename, retire; run
      bindings and their resolution; key rotation; recovery and backups) over
      the [backend] interface, with an in-memory and a PostgreSQL store.
    - [src/audit], [src/auditsink]: an authenticated, hash-chained spool of
      audit events in the same database, a worker that delivers it, and the
      remote append-only store with its HTTP handler.
    - [src/transport]: mutual TLS identities, roles, routes, strict JSON bodies
      and completion events in front of the manager.
    - [src/client]: the client library.
    - [src/app], [src/auditsink], [src/cmd]: the configuration, the start and
      the life of the two processes; [src/devbootstrap]: the files a development
      deployment is started with.

    A request enters at [Server.ServeHTTP], which maps the certificate to an
    identity, checks the role of the route, decodes the body and calls the
    [CredentialService].  [Service.manager_service] is that service: the
    manager over a backend, in the audit context of the request.  The manager
    seals and opens records with [Envelope] under keys from [MasterKey] and
    renders with [Builtin].  The PostgreSQL store writes its audit events in
    the transaction of the change; the in-memory store has none, and the server
    records the completion itself through the [Recorder].  [Delivery] moves the
    spool to the [AuditSink].

    ** The files

    - Foundations: [Prelude] (results, machine integers, time, map iteration
      order, tactics), [GoStrings] (strings, UTF-8, hex), [Json], [JsonValue]
      (encoding/json: writing, and parsing with typed decoding), [GoTime],
      [TimeParse] (RFC 3339), [Crypto] (the primitives and their laws).
    - [Envelope], [MasterKey], [Builtin], [Credential] (types, validators and
      digests of the package), [Backend] (the interface and its laws),
      [MemoryBackend], [Manager]: a definition per function of the code, under
      its name.
    - [Vault] (the manager implements a plaintext vault), [Bindings] (the
      binding state machine and its ledger), [Rotations] (batches, completion,
      fences).
    - [AuditEvent], [Spool], [Wire], [WireSize], [AuditSink], [Delivery].
    - [Identity], [Server], [Routing] (what a request may do), [Service] (the
      manager behind the server, and histories of requests).
    - [Storage] (stored documents), [Postgres], [PostgresBindings],
      [PostgresRotation]: the production backend statement by statement over
      the tables of the migrations; [Audited] (nothing is committed but with its
      audit events), [Mirror] and [Parity] (the production store answers like
      the in-memory one or reports that storage is unavailable, so the ledger
      of bindings holds of its rows).
    - [Responses], [Client], [Exchange] and [EndToEnd]: the bodies of answers,
      the client library, and a client that talks to the server through them.
    - [GoParse], [Config] (numbers, durations, addresses; the environment of
      both processes), [Files] (keys, texts and certificates read at startup),
      [Migrations] (ApplyPostgresMigrations and both ApplyMigration over a
      database whose tables may be missing), [Process] (Build of both processes
      and their commands), [Lifecycle] (Run of both: goroutines, shutdown, health
      answers), [Listener] (the connection limit of both).
    - [Trim], [Bootstrap]: what the development bootstrap generates, and that
      the processes start with it.  [MutationGate]: the script that makes sure
      that the tests notice faults.

    ** How code becomes definitions

    A Go function that returns a value and an error is a [result]; a method
    that changes its receiver takes and returns the state.  Strings and byte
    slices are sequences of bytes, integers are [Z] with the wrap-around of
    their width written out ([u32], [u64], [i64]), an instant counts
    nanoseconds from year 1 with its zone apart where a rendering shows it.  A
    map is a [gmap], and a loop over one follows [iterate], an arbitrary order
    that every theorem quantifies over.  Clocks, random bytes and identifiers
    are arguments.  A store behind a lock or a transaction makes each operation
    one atomic step; reads that the code issues outside a transaction take
    separate snapshots.  What fails outside the program is an argument as well:
    statements ([Spool]), round trips, result sets and commits ([Postgres.world]),
    requests and answers on the network ([Delivery]).

    Code outside src/ is a parameter with its documented behaviour as laws:
    [Crypto]/[CryptoLaws] (AES-GCM, SHA-256, HMAC), [Jsonb] and [PgTypes] with
    their laws (what PostgreSQL does to a document, a uuid, an instant),
    [UnicodeTables], [SchemaRegistry] and [InjectorRegistry] where the manager
    takes any.  Digests are never assumed injective: a theorem that needs it
    assumes of the messages digested in its own run, and of no others, that they
    do not collide ([collision_free], for registrations [unambiguous]).  Concrete instances of every parameter run
    the examples and witnesses.  At the start of a process they are the file
    system, the clock, certificates ([X509], [PKI], [PKILaws]) and the connection
    pool ([Process.outside]).

    Goroutines are interleaved: a state says where each of them stands, and a
    step relation by functions ([Listener.step], [Lifecycle.step]) what one of
    them does next, a blocked one having no step.

    ** What the theorems show

    - Envelope: a record opens exactly under its own context and keys and
      survives rewrapping; the associated data separates all fields.
    - Manager: over any lawful store it refines the vault, versions are
      immutable, retirement is final, creation is idempotent.
    - Bindings: count, limit and state agree with the attempts recorded, in
      memory, in the database and behind HTTP; only the bound executor resolves,
      in its window, the pinned version; cancellation revokes; refusals look alike.
    - Rotation: batches progress, a started rotation completes and is fenced,
      plaintexts do not change.
    - Audit: the spool is tamper-evident and bounded, events are decodable,
      delivery appends each event to the remote store exactly once and drains;
      database changes commit only with their events; every HTTP request is
      accounted for.
    - HTTP: an authenticated request does only what its role permits.
    - Client: through a network that delivers, an operation answers what the
      manager answered behind the server, up to the size the client reads; it
      takes exactly the expected, short and well-formed replies for results.
    - Processes: exactly the acceptable environments load; a process starts
      exactly when what its configuration names is in order, and otherwise
      leaves no pool open; migrations are applied once, whatever happened to
      earlier starts; [Run] closes the pool last and always returns once it has
      to stop; the connection limit holds, and a closed listener of the sink
      lets go of every waiting [Accept], one of the service does not.
    - Bootstrap: all or nothing, for the owner only, and what it generates starts
      both processes, each trusting the one authority that signed its peers, and
      take each certificate for the workload it names.

    ** Fuel and bounds

    Parsers of documents take the length of the input as fuel (twice it and two
    more for nested values, since each step consumes a byte) and the depth
    limit of encoding/json; the proofs of the round trips show that this is
    enough.  Loops of the code that end by themselves are structural over the
    list they run through.  [rotation_completes] and [delivery_drains] bound the
    number of rounds by the work left, and [run_returns] the steps of a process
    by those its goroutines have left.

    ** Not modelled

    Concurrency inside one database beyond what the locks serialize:
    transactions run one after another, and [SKIP LOCKED] sees an arbitrary set
    of locked rows.  Clearing of buffers and defensive copies.  HTTP framing,
    TLS handshakes, connection pools, timers and contexts that expire: these are
    the standard library's and pgx's.  *)

From Stdlib Require Export ZArith Lia.
From stdpp Require Export prelude gmap strings sorting pretty.

#[global] Open Scope Z_scope.

(** ** Go results

    A Go function returning [(T, error)] is a [result E T]: the value on the
    path with a nil error, the error otherwise.  The code returns the zero
    value beside every non-nil error, so nothing is lost. *)

Inductive result (E A : Type) : Type :=
| Ok (val : A)
| Err (err : E).
Arguments Ok {E A} val.
Arguments Err {E A} err.

#[export] Instance result_eq_dec {E A} `{EqDecision E, EqDecision A} :
  EqDecision (result E A).
Proof. solve_decision. Defined.

#[export] Instance result_ret {E} : MRet (result E) := @Ok E.
#[export] Instance result_bind {E} : MBind (result E) :=
  λ A B f m, match m with Ok a => f a | Err e => Err e end.
#[export] Instance result_fmap {E} : FMap (result E) :=
  λ A B f m, match m with Ok a => Ok (f a) | Err e => Err e end.

Definition is_ok {E A} (r : result E A) : bool :=
  match r with Ok _ => true | Err _ => false end.

(** [map_err f r] is the code's [if err != nil { return ..., f err }]. *)
Definition map_err {E F A} (f : E → F) (r : result E A) : result F A :=
  match r with Ok a => Ok a | Err e => Err (f e) end.

(** [if cond { return err }]. *)
Definition guard_err {E} (c : bool) (e : E) : result E unit :=
  if c then Err e else Ok ().

(** [of_option e o] is the comma-ok lookup followed by [if !ok]. *)
Definition of_option {E A} (e : E) (o : option A) : result E A :=
  match o with Some a => Ok a | None => Err e end.

Section ResultLemmas.
Context {E A B : Type}.

Lemma bind_Ok (m : result E A) (f : A → result E B) (b : B) :
  m ≫= f = Ok b ↔ ∃ a, m = Ok a ∧ f a = Ok b.
Proof. destruct m; naive_solver. Qed.

Lemma bind_Err (m : result E A) (f : A → result E B) (e : E) :
  m ≫= f = Err e ↔ m = Err e ∨ ∃ a, m = Ok a ∧ f a = Err e.
Proof. destruct m; naive_solver. Qed.

Lemma guard_bind (c : bool) (e : E) (f : unit → result E B) (b : B) :
  (guard_err c e ≫= f) = Ok b ↔ c = false ∧ f () = Ok b.
Proof. destruct c; naive_solver. Qed.

Lemma of_option_bind (o : option A) (e : E) (f : A → result E B) (b : B) :
  (of_option e o ≫= f) = Ok b ↔ ∃ a, o = Some a ∧ f a = Ok b.
Proof. destruct o; naive_solver. Qed.

Lemma guard_err_Ok (c : bool) (e : E) : guard_err c e = Ok () ↔ c = false.
Proof. destruct c; naive_solver. Qed.

Lemma map_err_Ok {F} (f : E → F) (m : result E A) (a : A) :
  map_err f m = Ok a ↔ m = Ok a.
Proof. destruct m; naive_solver. Qed.

Lemma of_option_Ok (e : E) (o : option A) (a : A) :
  of_option e o = Ok a ↔ o = Some a.
Proof. destruct o; naive_solver. Qed.
End ResultLemmas.

(** ** Proof automation

    [go_cases H] splits a hypothesis about a guarded function body along its
    conditionals, discarding the branches whose result cannot match. *)

Create HintDb praetor discriminated.
Create Rewrite HintDb praetor_ok.
Create Rewrite HintDb praetor_int.

#[export] Hint Rewrite @guard_bind @of_option_bind @bind_Ok @guard_err_Ok @map_err_Ok @of_option_Ok : praetor_ok.

Ltac bool_facts :=
  repeat match goal with
  | H : (_ && _)%bool = true |- _ => apply andb_prop in H as [? ?]
  | H : (_ || _)%bool = false |- _ => apply orb_false_elim in H as [? ?]
  | H : negb _ = true |- _ => apply negb_true_iff in H
  | H : negb _ = false |- _ => apply negb_false_iff in H
  | H : bool_decide _ = true |- _ => apply bool_decide_eq_true in H
  | H : bool_decide _ = false |- _ => apply bool_decide_eq_false in H
  | H : String.eqb _ _ = true |- _ => apply String.eqb_eq in H
  | H : String.eqb _ _ = false |- _ => apply String.eqb_neq in H
  | H : (_ =? _)%Z = true |- _ => apply Z.eqb_eq in H
  | H : (_ =? _)%Z = false |- _ => apply Z.eqb_neq in H
  | H : (_ <? _)%Z = true |- _ => apply Z.ltb_lt in H
  | H : (_ <? _)%Z = false |- _ => apply Z.ltb_ge in H
  | H : (_ <=? _)%Z = true |- _ => apply Z.leb_le in H
  | H : (_ <=? _)%Z = false |- _ => apply Z.leb_gt in H
  end.

(** Boolean conditions as propositions, in the goal and the hypotheses. *)
Lemma is_ok_true {E A} (r : result E A) : is_ok r = true ↔ ∃ a, r = Ok a.
Proof. destruct r; naive_solver. Qed.
Lemma is_ok_false {E A} (r : result E A) : is_ok r = false ↔ ∃ e, r = Err e.
Proof. destruct r; naive_solver. Qed.
Lemma is_ok_unit {E} (r : result E unit) : is_ok r = true ↔ r = Ok ().
Proof. destruct r as [[]|]; naive_solver. Qed.

Create Rewrite HintDb praetor_bool.
#[export] Hint Rewrite @is_ok_unit orb_false_iff orb_true_iff andb_true_iff
  negb_true_iff negb_false_iff bool_decide_eq_true bool_decide_eq_false
  Z.eqb_eq Z.eqb_neq Z.ltb_lt Z.ltb_ge Z.leb_le Z.leb_gt
  String.eqb_eq String.eqb_neq : praetor_bool.
Ltac bool_prop := autorewrite with praetor_bool in *.

Ltac go_step :=
  match goal with
  | H : context [match ?x with _ => _ end] |- _ => destruct x eqn:?; simplify_eq/=
  end.
Ltac go_cases := repeat (go_step; try done); bool_facts; simplify_eq/=.
Ltac go_goal := repeat (case_match; simplify_eq/=; try done); bool_facts; simplify_eq/=.

(** ** Machine integers

    Go's unsigned arithmetic wraps; [int64] wraps in two's complement. *)

Definition u8 (z : Z) : Z := z `mod` 2 ^ 8.
Definition u32 (z : Z) : Z := z `mod` 2 ^ 32.
Definition u64 (z : Z) : Z := z `mod` 2 ^ 64.
Definition i64 (z : Z) : Z := (z + 2 ^ 63) `mod` 2 ^ 64 - 2 ^ 63.

Definition max_int64 : Z := 2 ^ 63 - 1.
Definition min_int64 : Z := - 2 ^ 63.

Lemma u64_small z : 0 ≤ z < 2 ^ 64 → u64 z = z.
Proof. intros. by apply Z.mod_small. Qed.
Lemma u32_small z : 0 ≤ z < 2 ^ 32 → u32 z = z.
Proof. intros. by apply Z.mod_small. Qed.
Lemma i64_small z : - 2 ^ 63 ≤ z < 2 ^ 63 → i64 z = z.
Proof. intros. unfold i64. rewrite Z.mod_small; lia. Qed.
Lemma u64_range z : 0 ≤ u64 z < 2 ^ 64.
Proof. by apply Z.mod_pos_bound. Qed.
Lemma u32_range z : 0 ≤ u32 z < 2 ^ 32.
Proof. by apply Z.mod_pos_bound. Qed.

#[export] Hint Resolve u64_range u32_range : praetor.
#[export] Hint Rewrite u64_small u32_small i64_small using lia : praetor_int.

(** ** Time

    [time.Time] is an instant: nanoseconds since Go's zero time (January 1,
    year 1, 00:00 UTC), so that [IsZero] is a comparison with 0.  Locations and
    monotonic readings do not affect the comparisons the service makes, and
    [UTC()] does not move an instant.  A [time.Duration] is a signed 64-bit
    count of nanoseconds; [Sub] saturates at its ends as Go's does. *)

Abbreviation time := Z (only parsing).
Abbreviation duration := Z (only parsing).

Definition Nanosecond : duration := 1.
Definition Millisecond : duration := 1000000.
Definition Second : duration := 1000 * Millisecond.
Definition Minute : duration := 60 * Second.
Definition Hour : duration := 60 * Minute.

Definition zero_time : time := 0.
Definition IsZero (t : time) : bool := t =? 0.
Definition Before (t u : time) : bool := t <? u.
Definition After (t u : time) : bool := u <? t.
Definition Add (t : time) (d : duration) : time := t + d.
Definition Sub (t u : time) : duration := Z.max min_int64 (Z.min max_int64 (t - u)).
Definition UTC (t : time) : time := t.

Lemma Before_true t u : Before t u = true ↔ t < u.
Proof. apply Z.ltb_lt. Qed.
Lemma Before_false t u : Before t u = false ↔ u ≤ t.
Proof. apply Z.ltb_ge. Qed.
Lemma After_true t u : After t u = true ↔ u < t.
Proof. apply Z.ltb_lt. Qed.
Lemma After_false t u : After t u = false ↔ t ≤ u.
Proof. apply Z.ltb_ge. Qed.

(** A saturated difference within a bound below the saturation point is exact. *)
Lemma Sub_le_bound t u d : d < max_int64 → Sub t u ≤ d → t - u ≤ d.
Proof. unfold Sub, max_int64, min_int64. lia. Qed.

(** ** Map iteration

    Go's [range] over a map visits the entries in an unspecified order.  A
    [MapOrder] is one such order: an arbitrary enumeration of each map. *)

Class MapOrder : Type := {
  iterate : ∀ {K : Type} `{Countable K} {V : Type}, gmap K V → list (K * V);
  iterate_perm : ∀ {K : Type} `{Countable K} {V : Type} (m : gmap K V),
      iterate m ≡ₚ map_to_list m
}.

(** The enumeration stdpp chooses, for executing the model. *)
Definition canonical_order : MapOrder :=
  {| iterate := λ K _ _ V m, map_to_list m;
     iterate_perm := λ K _ _ V m, Permutation_refl _ |}.

(** The same enumeration backwards: a second order to execute. *)
#[program] Definition reverse_order : MapOrder :=
  {| iterate := λ K _ _ V m, reverse (map_to_list m) |}.
Next Obligation. intros. apply reverse_Permutation. Qed.

Section MapOrderLemmas.
Context `{MO : MapOrder} {K V : Type} `{Countable K}.
Implicit Types m : gmap K V.

Lemma elem_of_iterate m k v : (k, v) ∈ iterate m ↔ m !! k = Some v.
Proof. rewrite iterate_perm. apply elem_of_map_to_list. Qed.

Lemma NoDup_iterate_keys m : NoDup (iterate m).*1.
Proof. rewrite iterate_perm. apply NoDup_fst_map_to_list. Qed.

Lemma length_iterate m : length (iterate m) = size m.
Proof. rewrite iterate_perm. apply length_map_to_list. Qed.
End MapOrderLemmas.

(** ** Lists *)

Section ListLemmas.
Context {A B : Type}.

(** Sum of a measure along a list: Go's accumulating [for range]. *)
Definition sum_by (f : A → Z) (l : list A) : Z := foldr (λ x a, f x + a) 0 l.

Lemma sum_by_cons f x l : sum_by f (x :: l) = f x + sum_by f l.
Proof. done. Qed.

Lemma sum_by_app f l k : sum_by f (l ++ k) = sum_by f l + sum_by f k.
Proof. induction l as [|x l IH]; simpl; lia. Qed.

Lemma sum_by_nonneg f l : (∀ x, 0 ≤ f x) → 0 ≤ sum_by f l.
Proof. intros Hf. induction l as [|x l IH]; simpl; [lia|]. specialize (Hf x). lia. Qed.

#[export] Instance sum_by_perm f : Proper ((≡ₚ) ==> (=)) (sum_by f).
Proof. intros l k. induction 1; simpl; lia. Qed.

(** [count_by p l]: how often a counting loop increments. *)
Definition count_by (p : A → bool) (l : list A) : Z :=
  sum_by (λ x, if p x then 1 else 0) l.

Lemma count_by_nonneg p l : 0 ≤ count_by p l.
Proof. apply sum_by_nonneg. intros x. destruct (p x); lia. Qed.

Lemma count_by_zero p l : count_by p l = 0 ↔ Forall (λ x, p x = false) l.
Proof.
  induction l as [|x l IH]; [split; [constructor|done]|].
  unfold count_by in *. simpl. pose proof (count_by_nonneg p l) as Hn. unfold count_by in Hn.
  rewrite Forall_cons, <-IH. destruct (p x); split; intros; [lia|naive_solver|split; [done|lia]|lia].
Qed.

Lemma count_by_app p l k : count_by p (l ++ k) = count_by p l + count_by p k.
Proof. apply sum_by_app. Qed.

Lemma count_by_le_length p l : count_by p l ≤ Z.of_nat (length l).
Proof.
  induction l as [|x l IH]; [done|].
  unfold count_by in *. cbn [sum_by foldr length]. destruct (p x); fold (sum_by (λ x, if p x then 1 else 0) l); lia.
Qed.
End ListLemmas.
#[export] Hint Resolve count_by_nonneg : praetor.

(** ** Maps *)

Lemma alter_Some {K V} `{Countable K} (f : V → V) (m : gmap K V) k v :
  m !! k = Some v → alter f k m = <[k := f v]> m.
Proof.
  intros Hk. apply map_eq. intros i. destruct (decide (k = i)) as [<-|Hne].
  - by rewrite lookup_alter_eq, Hk, lookup_insert_eq.
  - by rewrite lookup_alter_ne, lookup_insert_ne.
Qed.

Lemma alter_None {K V} `{Countable K} (f : V → V) (m : gmap K V) k :
  m !! k = None → alter f k m = m.
Proof.
  intros Hk. apply map_eq. intros i. destruct (decide (k = i)) as [<-|Hne].
  - by rewrite lookup_alter_eq, Hk.
  - by rewrite lookup_alter_ne.
Qed.
