(* ===== verification/GoStrings.v ===== *)
(** * Go strings and byte slices

    A Go [string] or [[]byte] is a Rocq [string]: a sequence of bytes.  This
    file gives the standard-library functions the service applies to them:
    UTF-8 decoding as [range] and [DecodeRune] do it, [strings.TrimSpace],
    prefixes and suffixes, [encoding/hex] and the Latin-1 part of [unicode].
    [range_string] is the sequence of (byte index, rune) pairs of a [for range]. *)

From Stdlib Require Import Ascii.
From S2P Require Import Prelude.

Ltac Zify.zify_post_hook ::= Z.to_euclidean_division_equations.

(** ** Bytes *)

Definition bz (a : ascii) : Z := Z.of_N (N_of_ascii a).
Definition zb (z : Z) : ascii := ascii_of_N (Z.to_N z).

Lemma bz_range a : 0 ≤ bz a < 256.
Proof. unfold bz. pose proof (N_ascii_bounded a). lia. Qed.
Lemma zb_bz a : zb (bz a) = a.
Proof. unfold zb, bz. rewrite N2Z.id. apply ascii_N_embedding. Qed.
Lemma bz_zb z : 0 ≤ z < 256 → bz (zb z) = z.
Proof. intros. unfold zb, bz. rewrite N_ascii_embedding; lia. Qed.
#[export] Instance bz_inj : Inj (=) (=) bz.
Proof. intros a b Hab. by rewrite <-(zb_bz a), <-(zb_bz b), Hab. Qed.

Definition len (s : string) : Z := Z.of_nat (String.length s).

Lemma len_nonneg s : 0 ≤ len s.
Proof. unfold len. lia. Qed.
Lemma len_cons a s : len (String a s) = len s + 1.
Proof. unfold len. simpl. lia. Qed.
Lemma len_zero s : len s = 0 ↔ s = "".
Proof. unfold len. destruct s; simpl; split; [done..|lia|done]. Qed.
Lemma app_cons a s t : String a s +:+ t = String a (s +:+ t).
Proof. done. Qed.
Lemma app_nil_l_str t : "" +:+ t = t.
Proof. done. Qed.
Lemma app_nil_r_str s : s +:+ "" = s.
Proof. induction s as [|a s IH]; [done|]. by rewrite app_cons, IH. Qed.
Lemma app_assoc_str s t u : s +:+ (t +:+ u) = (s +:+ t) +:+ u.
Proof. induction s as [|a s IH]; [done|]. by rewrite !app_cons, IH. Qed.
Lemma len_app s t : len (s +:+ t) = len s + len t.
Proof. induction s as [|a s IH]; [done|]. rewrite app_cons, !len_cons. lia. Qed.
Lemma app_inv_len s t s' t' :
  String.length s = String.length s' → s +:+ t = s' +:+ t' → s = s' ∧ t = t'.
Proof.
  revert s'. induction s as [|a s IH]; intros [|a' s'] Hl He; simpl in Hl; try done.
  rewrite !app_cons in He. simplify_eq. destruct (IH s'); naive_solver.
Qed.
#[export] Hint Resolve len_nonneg bz_range : praetor.
Create Rewrite HintDb praetor_str.
#[export] Hint Rewrite app_cons app_nil_l_str app_nil_r_str len_app len_cons : praetor_str.

(** [s[:n]] and [s[n:]] for [n] within range. *)
Fixpoint take_str (n : nat) (s : string) : string :=
  match n, s with S n', String a s' => String a (take_str n' s') | _, _ => "" end.
Fixpoint drop_str (n : nat) (s : string) : string :=
  match n, s with S n', String _ s' => drop_str n' s' | _, _ => s end.

Lemma take_drop_str n s : take_str n s +:+ drop_str n s = s.
Proof.
  revert s. induction n as [|n IH]; intros [|a s]; [done..|].
  simpl. by rewrite app_cons, IH.
Qed.
Lemma length_take_str n s : (n ≤ String.length s)%nat → String.length (take_str n s) = n.
Proof. revert s. induction n as [|n IH]; intros [|a s] H; simpl in *; [done|done|lia|]. f_equal. apply IH. lia. Qed.
Lemma length_drop_str n s : String.length (drop_str n s) = (String.length s - n)%nat.
Proof. revert s. induction n as [|n IH]; intros [|a s]; simpl; [done..|]. apply IH. Qed.
Lemma take_str_app s t : take_str (String.length s) (s +:+ t) = s.
Proof. induction s as [|a s IH]; [done|]. rewrite app_cons. simpl. by rewrite IH. Qed.
Lemma drop_str_app s t : drop_str (String.length s) (s +:+ t) = t.
Proof. induction s as [|a s IH]; [done|]. rewrite app_cons. simpl. by rewrite IH. Qed.

Lemma take_str_app' n s t : String.length s = n → take_str n (s +:+ t) = s.
Proof. intros <-. apply take_str_app. Qed.
Lemma drop_str_app' n s t : String.length s = n → drop_str n (s +:+ t) = t.
Proof. intros <-. apply drop_str_app. Qed.

(** ** UTF-8

    [decode_rune s] is [utf8.DecodeRuneInString s] on a non-empty [s]: the rune
    and its width, [(RuneError, 1)] for an encoding that is not valid UTF-8
    (overlong forms, surrogates and runes above U+10FFFF included). *)

Definition RuneError : Z := 0xFFFD.

Definition in_range (lo hi z : Z) : bool := (lo <=? z) && (z <=? hi).
Definition continuation (a : ascii) : bool := in_range 0x80 0xBF (bz a).
Definition low6 (a : ascii) : Z := Z.land (bz a) 0x3F.

Definition decode_two (b0 b1 : ascii) : option Z :=
  if in_range 0xC2 0xDF (bz b0) && continuation b1
  then Some (Z.lor (Z.shiftl (Z.land (bz b0) 0x1F) 6) (low6 b1)) else None.

Definition second_of_three (b0 b1 : ascii) : bool :=
  if bz b0 =? 0xE0 then in_range 0xA0 0xBF (bz b1)
  else if bz b0 =? 0xED then in_range 0x80 0x9F (bz b1)
  else in_range 0xE1 0xEF (bz b0) && continuation b1.

Definition decode_three (b0 b1 b2 : ascii) : option Z :=
  if second_of_three b0 b1 && continuation b2
  then Some (Z.lor (Z.shiftl (Z.land (bz b0) 0x0F) 12)
                   (Z.lor (Z.shiftl (low6 b1) 6) (low6 b2))) else None.

Definition second_of_four (b0 b1 : ascii) : bool :=
  if bz b0 =? 0xF0 then in_range 0x90 0xBF (bz b1)
  else if bz b0 =? 0xF4 then in_range 0x80 0x8F (bz b1)
  else in_range 0xF1 0xF3 (bz b0) && continuation b1.

Definition decode_four (b0 b1 b2 b3 : ascii) : option Z :=
  if second_of_four b0 b1 && continuation b2 && continuation b3
  then Some (Z.lor (Z.shiftl (Z.land (bz b0) 0x07) 18)
             (Z.lor (Z.shiftl (low6 b1) 12) (Z.lor (Z.shiftl (low6 b2) 6) (low6 b3))))
  else None.

Definition decode_multi (s : string) : option (Z * nat) :=
  match s with
  | String b0 (String b1 rest) =>
      match decode_two b0 b1, rest with
      | Some r, _ => Some (r, 2%nat)
      | None, String b2 rest' =>
          match decode_three b0 b1 b2, rest' with
          | Some r, _ => Some (r, 3%nat)
          | None, String b3 _ =>
              match decode_four b0 b1 b2 b3 with Some r => Some (r, 4%nat) | None => None end
          | None, "" => None
          end
      | None, "" => None
      end
  | _ => None
  end.

Arguments decode_multi : simpl never.

Definition decode_rune (s : string) : Z * nat :=
  match s with
  | "" => (RuneError, 0%nat)
  | String b0 _ =>
      if bz b0 <? 0x80 then (bz b0, 1%nat) else default (RuneError, 1%nat) (decode_multi s)
  end.

(** The pairs visited by [for index, character := range s].  [skip] counts the
    bytes of the current rune still to be passed over. *)
Fixpoint range_from (i skip : nat) (s : string) : list (nat * Z) :=
  match s with
  | "" => []
  | String _ s' =>
      match skip with
      | S k => range_from (S i) k s'
      | O => let '(r, w) := decode_rune s in (i, r) :: range_from (S i) (pred w) s'
      end
  end.
Definition range_string (s : string) : list (nat * Z) := range_from 0 0 s.
Definition runes (s : string) : list Z := (range_string s).*2.

(** Every byte sequence of [s] is a valid encoding ([utf8.ValidString]). *)
Fixpoint valid_from (skip : nat) (s : string) : bool :=
  match s with
  | "" => true
  | String b0 s' =>
      match skip with
      | S k => valid_from k s'
      | O => if bz b0 <? 0x80 then valid_from 0 s'
             else match decode_multi s with
                  | Some (_, w) => valid_from (pred w) s'
                  | None => false
                  end
      end
  end.
Definition valid_utf8 (s : string) : bool := valid_from 0 s.

(** [for _, b := range []byte(s)] with every byte satisfying [p]. *)
Fixpoint forall_bytes (p : ascii → bool) (s : string) : bool :=
  match s with "" => true | String a s' => p a && forall_bytes p s' end.
Definition ascii_only : string → bool := forall_bytes (λ a, bz a <? 0x80).

Lemma forall_bytes_app p s t : forall_bytes p (s +:+ t) = forall_bytes p s && forall_bytes p t.
Proof. induction s as [|a s IH]; [done|]. rewrite app_cons. simpl. by rewrite IH, andb_assoc. Qed.
Lemma forall_bytes_impl p q s :
  (∀ a, p a = true → q a = true) → forall_bytes p s = true → forall_bytes q s = true.
Proof. intros Hpq. induction s as [|a s IH]; [done|]. simpl. rewrite !andb_true_iff. naive_solver. Qed.

(** Over ASCII text a rune loop is a byte loop. *)
Fixpoint byte_range (i : nat) (s : string) : list (nat * Z) :=
  match s with "" => [] | String a s' => (i, bz a) :: byte_range (S i) s' end.

Lemma range_ascii i s : ascii_only s = true → range_from i 0 s = byte_range i s.
Proof.
  revert i. induction s as [|a s IH]; intros i Ha; [done|].
  unfold ascii_only in *. simpl in *. apply andb_prop in Ha as [Ha Hs].
  rewrite Ha. simpl. by rewrite IH.
Qed.

Lemma valid_utf8_ascii s : ascii_only s = true → valid_utf8 s = true.
Proof.
  unfold valid_utf8, ascii_only. induction s as [|a s IH]; [done|].
  simpl. intros [-> Hs]%andb_prop. by apply IH.
Qed.

Lemma in_range_true lo hi z : in_range lo hi z = true ↔ lo ≤ z ≤ hi.
Proof. unfold in_range. rewrite andb_true_iff, !Z.leb_le. done. Qed.

Lemma decode_multi_width s r w : decode_multi s = Some (r, w) → (2 ≤ w ≤ 4 ∧ w ≤ String.length s)%nat.
Proof. unfold decode_multi. intros H. repeat go_step; simpl; lia. Qed.

Lemma decode_multi_nonascii s r w a s' :
  s = String a s' → decode_multi s = Some (r, w) → 0x80 ≤ bz a.
Proof.
  intros -> H. unfold decode_multi in H. destruct s' as [|b1 rest]; [done|].
  unfold decode_two, decode_three, decode_four, second_of_three, second_of_four in H.
  repeat go_step; bool_facts; rewrite ?in_range_true in *; lia.
Qed.

(** A rune that takes several bytes lies outside ASCII. *)
Lemma land_low b n : 0 ≤ n → Z.land b (2 ^ n - 1) = b `mod` 2 ^ n.
Proof. intros. by rewrite <-Z.land_ones, Z.ones_equiv, <-Z.sub_1_r. Qed.

Lemma low6_eq a : low6 a = bz a `mod` 64.
Proof. apply (land_low _ 6). lia. Qed.

Lemma lor_sum x y n : 0 ≤ n → 0 ≤ y < 2 ^ n → Z.lor (Z.shiftl x n) y = x * 2 ^ n + y.
Proof.
  intros Hn Hy. rewrite <-Z.shiftl_mul_pow2 by done.
  assert (Z.land (Z.shiftl x n) y = 0) as Hd.
  { apply Z.bits_inj_0. intros m. rewrite Z.land_spec.
    destruct (decide (m < n)); [by rewrite Z.shiftl_spec_low|].
    destruct (decide (y = 0)) as [->|Hy0]; [by rewrite Z.bits_0, andb_false_r|].
    assert (Z.log2 y < n) by (apply Z.log2_lt_pow2; lia).
    rewrite (Z.bits_above_log2 y m), andb_false_r; [done|lia..]. }
  rewrite (Z.add_nocarry_lxor _ _ Hd). symmetry. by apply Z.lxor_lor.
Qed.

(** The rune each encoding denotes, as arithmetic. *)
Lemma decode_two_sum b0 b1 r : decode_two b0 b1 = Some r →
  0xC2 ≤ bz b0 ≤ 0xDF ∧ 0x80 ≤ bz b1 ≤ 0xBF ∧ r = (bz b0 - 0xC0) * 64 + (bz b1 - 0x80).
Proof.
  unfold decode_two, continuation. case_match; [|done]. intros. simplify_eq. bool_facts.
  rewrite ?in_range_true in *. rewrite (land_low _ 5), low6_eq, lor_sum by lia.
  change (2 ^ 5) with 32. change (2 ^ 6) with 64. lia.
Qed.

Lemma decode_three_sum b0 b1 b2 r : decode_three b0 b1 b2 = Some r →
  0xE0 ≤ bz b0 ≤ 0xEF ∧ 0x80 ≤ bz b1 ≤ 0xBF ∧ 0x80 ≤ bz b2 ≤ 0xBF ∧ 0x800 ≤ r ∧
  r = (bz b0 - 0xE0) * 4096 + (bz b1 - 0x80) * 64 + (bz b2 - 0x80).
Proof.
  unfold decode_three, second_of_three, continuation. case_match; [|done]. intros. simplify_eq. bool_facts.
  rewrite (land_low _ 4), !low6_eq by lia.
  rewrite (lor_sum (bz b1 `mod` 64) _ 6), (lor_sum _ _ 12) by lia.
  change (2 ^ 4) with 16. change (2 ^ 6) with 64. change (2 ^ 12) with 4096.
  repeat case_match; bool_facts; rewrite ?in_range_true in *; lia.
Qed.

Lemma decode_four_sum b0 b1 b2 b3 r : decode_four b0 b1 b2 b3 = Some r → 0x10000 ≤ r ≤ 0x10FFFF.
Proof.
  unfold decode_four, second_of_four, continuation. case_match; [|done]. intros. simplify_eq. bool_facts.
  rewrite (land_low _ 3), !low6_eq by lia.
  rewrite (lor_sum (bz b2 `mod` 64) _ 6), (lor_sum (bz b1 `mod` 64) _ 12), (lor_sum _ _ 18) by lia.
  change (2 ^ 3) with 8. change (2 ^ 6) with 64. change (2 ^ 12) with 4096. change (2 ^ 18) with 262144.
  repeat case_match; bool_facts; rewrite ?in_range_true in *; lia.
Qed.

Lemma decode_multi_ge s r w : decode_multi s = Some (r, w) → 0x80 ≤ r.
Proof.
  unfold decode_multi. intros H. repeat go_step; repeat match goal with
  | H : decode_two _ _ = Some _ |- _ => apply decode_two_sum in H
  | H : decode_three _ _ _ = Some _ |- _ => apply decode_three_sum in H
  | H : decode_four _ _ _ _ = Some _ |- _ => apply decode_four_sum in H
  end; lia.
Qed.

(** A rune loop that rejects everything outside ASCII is a byte loop. *)
Lemma rune_loop_bytes (p : Z → bool) i s :
  (∀ r, 0x80 ≤ r → p r = false) →
  forallb (λ x, p x.2) (range_from i 0 s) = forall_bytes (λ a, p (bz a)) s.
Proof.
  intros Hp. revert i. induction s as [|b s IH]; intros i; [done|].
  cbn [range_from forall_bytes decode_rune]. destruct (bz b <? 0x80) eqn:Hb; simpl; [by rewrite IH|].
  apply Z.ltb_ge in Hb. rewrite (Hp (bz b)) by done. simpl.
  destruct (decode_multi (String b s)) as [[r w]|] eqn:E; simpl; rewrite Hp; try done.
  by eapply decode_multi_ge.
Qed.

(** ** Functions of the [strings] package *)

Fixpoint contains_byte (a : ascii) (s : string) : bool :=
  match s with "" => false | String b s' => (bz a =? bz b) || contains_byte a s' end.

(** [strings.ContainsAny(s, chars)] for ASCII [chars]. *)
Definition ContainsAny (s chars : string) : bool :=
  negb (forall_bytes (λ a, negb (contains_byte a chars)) s).

Fixpoint HasPrefix (s prefix : string) : bool :=
  match prefix, s with
  | "", _ => true
  | String a p', String b s' => (bz a =? bz b) && HasPrefix s' p'
  | _, "" => false
  end.
Definition HasSuffix (s suffix : string) : bool :=
  (String.length suffix <=? String.length s)%nat &&
  String.eqb (drop_str (String.length s - String.length suffix) s) suffix.
Definition TrimPrefix (s prefix : string) : string :=
  if HasPrefix s prefix then drop_str (String.length prefix) s else s.
Definition TrimSuffix (s suffix : string) : string :=
  if HasSuffix s suffix then take_str (String.length s - String.length suffix) s else s.
Fixpoint Contains (s sub : string) : bool :=
  HasPrefix s sub || match s with "" => false | String _ s' => Contains s' sub end.

Lemma HasPrefix_app p s : HasPrefix (p +:+ s) p = true.
Proof. induction p as [|a p IH]; [by destruct s|]. rewrite app_cons. simpl. by rewrite Z.eqb_refl. Qed.
Lemma HasPrefix_true s p : HasPrefix s p = true ↔ ∃ t, s = p +:+ t.
Proof.
  split; [|intros [t ->]; apply HasPrefix_app].
  revert s. induction p as [|a p IH]; intros s H; [by exists s|].
  destruct s as [|b s]; [done|]. simpl in H. bool_facts. apply bz_inj in H as ->.
  destruct (IH s) as [t ->]; [done|]. by exists t.
Qed.

(** [unicode.IsSpace]: the White_Space property. *)
Definition IsSpace (r : Z) : bool :=
  in_range 0x09 0x0D r || (r =? 0x20) || (r =? 0x85) || (r =? 0xA0) || (r =? 0x1680) ||
  in_range 0x2000 0x200A r || (r =? 0x2028) || (r =? 0x2029) || (r =? 0x202F) ||
  (r =? 0x205F) || (r =? 0x3000).

(** [s] cut at its rune boundaries. *)
Fixpoint chunks_from (skip : nat) (s : string) : list (Z * string) :=
  match s with
  | "" => []
  | String _ s' =>
      match skip with
      | S k => chunks_from k s'
      | O => let '(r, w) := decode_rune s in (r, take_str w s) :: chunks_from (pred w) s'
      end
  end.
Fixpoint drop_space (l : list (Z * string)) : list (Z * string) :=
  match l with [] => [] | (r, c) :: l' => if IsSpace r then drop_space l' else l end.
Definition concat_chunks (l : list (Z * string)) : string :=
  foldr (λ x acc, x.2 +:+ acc) "" l.
Definition TrimSpace (s : string) : string :=
  concat_chunks (reverse (drop_space (reverse (drop_space (chunks_from 0 s))))).

(** [unicode.IsLower] and [unicode.IsDigit]: exact on Latin-1; above it they
    read the Unicode tables, which stay abstract. *)
Class UnicodeTables : Type := { lower_table : Z → bool; digit_table : Z → bool }.

Definition IsLower `{UnicodeTables} (r : Z) : bool :=
  if r <=? 0xFF then in_range 0x61 0x7A r || (r =? 0xB5) || in_range 0xDF 0xF6 r || in_range 0xF8 0xFF r
  else lower_table r.
Definition IsDigit `{UnicodeTables} (r : Z) : bool :=
  if r <=? 0xFF then in_range 0x30 0x39 r else digit_table r.

(** ** sort.Strings *)

Definition sort_strings (l : list string) : list string := merge_sort String.le l.

Lemma sort_strings_perm l : sort_strings l ≡ₚ l.
Proof. apply merge_sort_Permutation. Qed.
Lemma sort_strings_sorted l : Sorted String.le (sort_strings l).
Proof. apply Sorted_merge_sort. apply _. Qed.
Lemma sort_strings_unique l k : l ≡ₚ k → sort_strings l = sort_strings k.
Proof.
  intros Hp. apply (Sorted_unique String.le); auto using sort_strings_sorted.
  by rewrite !sort_strings_perm.
Qed.
Lemma sort_strings_id l : Sorted String.le l → sort_strings l = l.
Proof.
  intros Hs. apply (Sorted_unique String.le); auto using sort_strings_sorted, sort_strings_perm.
Qed.

(** ** encoding/hex *)

Definition hex_digit (z : Z) : ascii := if z <? 10 then zb (48 + z) else zb (87 + z).
Fixpoint EncodeToString (s : string) : string :=
  match s with
  | "" => ""
  | String a s' => String (hex_digit (bz a / 16)) (String (hex_digit (bz a `mod` 16)) (EncodeToString s'))
  end.

Definition lower_hex (a : ascii) : bool := in_range 48 57 (bz a) || in_range 97 102 (bz a).
Definition any_hex (a : ascii) : bool := lower_hex a || in_range 65 70 (bz a).
Definition hex_value (a : ascii) : Z :=
  if in_range 48 57 (bz a) then bz a - 48 else if in_range 97 102 (bz a) then bz a - 87 else bz a - 55.

Fixpoint DecodeString (s : string) : option string :=
  match s with
  | "" => Some ""
  | String _ "" => None
  | String a (String b s') =>
      if any_hex a && any_hex b
      then String (zb (16 * hex_value a + hex_value b)) <$> DecodeString s' else None
  end.

Lemma hex_digit_bz z : 0 ≤ z < 16 → bz (hex_digit z) = if z <? 10 then 48 + z else 87 + z.
Proof. intros. unfold hex_digit. case_match; bool_facts; rewrite bz_zb; lia. Qed.

Lemma hex_digit_lower z : 0 ≤ z < 16 → lower_hex (hex_digit z) = true.
Proof.
  intros. unfold lower_hex. rewrite hex_digit_bz by done. apply orb_true_iff.
  rewrite !in_range_true. case_match; bool_facts; lia.
Qed.

Lemma hex_value_digit z : 0 ≤ z < 16 → hex_value (hex_digit z) = z.
Proof.
  intros. unfold hex_value. rewrite !hex_digit_bz by done. unfold in_range.
  repeat case_match; bool_facts; try lia.
  all: repeat match goal with H : (_ && _)%bool = false |- _ => apply andb_false_iff in H as [?|?] end; bool_facts; lia.
Qed.

Lemma nibbles a : 0 ≤ bz a / 16 < 16 ∧ 0 ≤ bz a `mod` 16 < 16.
Proof. pose proof (bz_range a). split; [split; [apply Z.div_pos; lia|apply Z.div_lt_upper_bound; lia]|apply Z.mod_pos_bound; lia]. Qed.

Lemma len_EncodeToString s : len (EncodeToString s) = 2 * len s.
Proof. induction s as [|a s IH]; [done|]. simpl. rewrite !len_cons. lia. Qed.

Lemma EncodeToString_lower s : forall_bytes lower_hex (EncodeToString s) = true.
Proof.
  induction s as [|a s IH]; [done|]. simpl. destruct (nibbles a).
  by rewrite !hex_digit_lower, IH.
Qed.

(** Hex round trip: decoding the encoding returns the bytes. *)
Lemma DecodeString_EncodeToString s : DecodeString (EncodeToString s) = Some s.
Proof.
  induction s as [|a s IH]; [done|]. simpl. destruct (nibbles a) as [H1 H2].
  unfold any_hex. rewrite !hex_digit_lower, !hex_value_digit by done. simpl. rewrite IH.
  simpl. by rewrite <-Z_div_mod_eq_full, zb_bz.
Qed.
#[export] Instance EncodeToString_inj : Inj (=) (=) EncodeToString.
Proof.
  intros s t H. apply (f_equal DecodeString) in H.
  rewrite !DecodeString_EncodeToString in H. by simplify_eq.
Qed.

Lemma lower_hex_ascii s : forall_bytes lower_hex s = true → ascii_only s = true.
Proof.
  apply forall_bytes_impl. intros a. unfold lower_hex.
  rewrite orb_true_iff, !in_range_true, Z.ltb_lt. lia.
Qed.
