(* ===== verification/Json.v ===== *)
(** * encoding/json, the part the service uses

    [json_string], [json_uint], [json_struct] and [json_map] are what
    [json.Marshal] writes for strings (with HTML escaping), unsigned integers,
    structs in field order and [map[string]string] (keys in byte order).
    [unmarshal_map] is [json.Unmarshal] into a [map[string]string]: it succeeds
    exactly on [null] and on objects whose values are strings or [null].
    The file proves the round trip of input maps and that encoded fields can be
    told apart inside a larger document. *)

From Stdlib Require Import Ascii.
From S2P Require Import Prelude GoStrings.

Definition dquote : ascii := "034"%char.
(** A text in the pieces between its double quotes. *)
Fixpoint between_quotes (l : list string) : string :=
  match l with [] => "" | [p] => p | p :: l => p +:+ String dquote (between_quotes l) end.
Definition backslash : ascii := "092"%char.
Definition comma : ascii := ","%char.
Definition colon : ascii := ":"%char.
Definition lbrace : ascii := "{"%char.
Definition rbrace : ascii := "}"%char.

(** ** Encoding *)

(** [htmlSafeSet]: bytes that stand for themselves. *)
Definition html_safe (a : ascii) : bool :=
  in_range 0x20 0x7F (bz a) && negb (contains_byte a (String dquote (String backslash "<>&"))).

Definition escape_byte (a : ascii) : string :=
  if html_safe a then String a ""
  else if (bz a =? 92) || (bz a =? 34) then String backslash (String a "")
  else if bz a =? 8 then String backslash "b"
  else if bz a =? 12 then String backslash "f"
  else if bz a =? 10 then String backslash "n"
  else if bz a =? 13 then String backslash "r"
  else if bz a =? 9 then String backslash "t"
  else String backslash ("u00" +:+ EncodeToString (String a "")).

(** The body of a string literal; [skip] passes over the bytes of a rune that
    has been written already. *)
Fixpoint escape_from (skip : nat) (s : string) : string :=
  match s with
  | "" => ""
  | String a s' =>
      match skip with
      | S k => escape_from k s'
      | O =>
          if bz a <? 0x80 then escape_byte a +:+ escape_from 0 s'
          else match decode_multi s with
               | None => String backslash "ufffd" +:+ escape_from 0 s'
               | Some (r, w) =>
                   (if r =? 0x2028 then String backslash "u2028"
                    else if r =? 0x2029 then String backslash "u2029"
                    else take_str w s) +:+ escape_from (pred w) s'
               end
      end
  end.

Definition json_string (s : string) : string :=
  String dquote (escape_from 0 s +:+ String dquote "").
Definition json_uint (z : Z) : string := pretty (Z.to_N z).

(** Comma-separated [key:value] members, the values already encoded. *)
Fixpoint json_members (l : list (string * string)) : string :=
  match l with
  | [] => ""
  | [(k, v)] => json_string k +:+ String colon v
  | (k, v) :: l' => json_string k +:+ String colon (v +:+ String comma (json_members l'))
  end.
Definition json_struct (l : list (string * string)) : string :=
  String lbrace (json_members l +:+ String rbrace "").

(** Map keys are written in increasing byte order. *)
Definition key_le (x y : string * string) : Prop := String.le x.1 y.1.
#[export] Instance key_le_dec : RelDecision key_le := λ x y, String.le_dec x.1 y.1.
Definition sorted_entries (m : gmap string string) : list (string * string) :=
  merge_sort key_le (map_to_list m).
Definition json_map (m : gmap string string) : string :=
  json_struct (prod_map id json_string <$> sorted_entries m).

(** ** Decoding *)

Definition space_byte (a : ascii) : bool :=
  (bz a =? 0x20) || (bz a =? 0x09) || (bz a =? 0x0A) || (bz a =? 0x0D).
Fixpoint skip_ws (s : string) : string :=
  match s with String a s' => if space_byte a then skip_ws s' else s | "" => "" end.

Definition hex4 (a b c d : ascii) : option Z :=
  if any_hex a && any_hex b && any_hex c && any_hex d
  then Some (4096 * hex_value a + 256 * hex_value b + 16 * hex_value c + hex_value d) else None.

Definition simple_escape (a : ascii) : option ascii :=
  if (bz a =? 34) || (bz a =? 92) || (bz a =? 47) then Some a
  else if bz a =? 98 then Some (zb 8)
  else if bz a =? 102 then Some (zb 12)
  else if bz a =? 110 then Some (zb 10)
  else if bz a =? 114 then Some (zb 13)
  else if bz a =? 116 then Some (zb 9)
  else None.

(** [utf8.EncodeRune]. *)
Definition encode_rune (r : Z) : string :=
  let tail n := zb (Z.lor 0x80 (Z.land (Z.shiftr r n) 0x3F)) in
  if r <? 0x80 then String (zb r) ""
  else if r <? 0x800 then String (zb (Z.lor 0xC0 (Z.shiftr r 6))) (String (tail 0) "")
  else if r <? 0x10000
  then String (zb (Z.lor 0xE0 (Z.shiftr r 12))) (String (tail 6) (String (tail 0) ""))
  else String (zb (Z.lor 0xF0 (Z.shiftr r 18))) (String (tail 12) (String (tail 6) (String (tail 0) ""))).

Definition high_surrogate (r : Z) : bool := in_range 0xD800 0xDBFF r.
Definition low_surrogate (r : Z) : bool := in_range 0xDC00 0xDFFF r.

(** [utf16.DecodeRune] of the pair [\uXXXX\uYYYY], when it is one. *)
Definition surrogate_pair (r : Z) (s : string) : option (Z * string) :=
  match s with
  | String b (String u (String a1 (String a2 (String a3 (String a4 rest))))) =>
      if (bz b =? 92) && (bz u =? 117) then
        match hex4 a1 a2 a3 a4 with
        | Some r1 => if high_surrogate r && low_surrogate r1
                     then Some (0x10000 + 1024 * (r - 0xD800) + (r1 - 0xDC00), rest) else None
        | None => None
        end
      else None
  | _ => None
  end.

Definition prepend (c : string) (o : option (string * string)) : option (string * string) :=
  match o with Some (s, t) => Some (c +:+ s, t) | None => None end.

(** The literal after its opening quote: its value and the text after the
    closing quote. *)
Fixpoint parse_body (skip : nat) (s : string) : option (string * string) :=
  match s with
  | "" => None
  | String a s1 =>
      match skip with
      | S k => parse_body k s1
      | O =>
          if bz a =? 34 then Some ("", s1)
          else if bz a =? 92 then
            match s1 with
            | "" => None
            | String e s2 =>
                match simple_escape e with
                | Some c => prepend (String c "") (parse_body 0 s2)
                | None =>
                    if bz e =? 117 then
                      match s2 with
                      | String h1 (String h2 (String h3 (String h4 s3))) =>
                          match hex4 h1 h2 h3 h4 with
                          | None => None
                          | Some r =>
                              if high_surrogate r || low_surrogate r then
                                match surrogate_pair r s3 with
                                | Some (r2, _) => prepend (encode_rune r2) (parse_body 6 s3)
                                | None => prepend (encode_rune RuneError) (parse_body 0 s3)
                                end
                              else prepend (encode_rune r) (parse_body 0 s3)
                          end
                      | _ => None
                      end
                    else None
                end
            end
          else if bz a <? 0x20 then None
          else if bz a <? 0x80 then prepend (String a "") (parse_body 0 s1)
          else match decode_multi s with
               | Some (_, w) => prepend (take_str w s) (parse_body (pred w) s1)
               | None => prepend (encode_rune RuneError) (parse_body 0 s1)
               end
      end
  end.

Definition parse_string (s : string) : option (string * string) :=
  match s with String a s1 => if bz a =? 34 then parse_body 0 s1 else None | "" => None end.

(** A map value: a string, or [null] which leaves the element empty. *)
Definition parse_value (s : string) : option (string * string) :=
  if HasPrefix s "null" then Some ("", drop_str 4 s) else parse_string s.

(** [key : value] and the [,] or [}] that follows, repeatedly. *)
Fixpoint parse_members (fuel : nat) (acc : gmap string string) (s : string)
  : option (gmap string string * string) :=
  match fuel with
  | O => None
  | S fuel' =>
      '(k, s1) ← parse_string (skip_ws s);
      match skip_ws s1 with
      | String c s2 =>
          if bz c =? 58 then
            '(v, s3) ← parse_value (skip_ws s2);
            match skip_ws s3 with
            | String d s4 =>
                if bz d =? 44 then parse_members fuel' (<[k := v]> acc) s4
                else if bz d =? 125 then Some (<[k := v]> acc, s4) else None
            | "" => None
            end
          else None
      | "" => None
      end
  end.

Definition parse_object (s : string) : option (gmap string string * string) :=
  match s with
  | String a s1 =>
      if bz a =? 123 then
        match skip_ws s1 with
        | String b s2 => if bz b =? 125 then Some (∅, s2)
                         else parse_members (String.length s) ∅ s1
        | "" => None
        end
      else None
  | "" => None
  end.

Definition unmarshal_map (s : string) : option (gmap string string) :=
  let t := skip_ws s in
  '(m, rest) ← (if HasPrefix t "null" then Some (∅, drop_str 4 t) else parse_object t);
  match skip_ws rest with "" => Some m | _ => None end.

(** ** Round trip of string literals *)

Lemma escape_skip k s : escape_from k s = escape_from 0 (drop_str k s).
Proof. revert s. induction k as [|k IH]; intros [|a s]; [done..|]. apply IH. Qed.
Lemma parse_skip k s : parse_body k s = parse_body 0 (drop_str k s).
Proof. revert s. induction k as [|k IH]; intros [|a s]; [done..|]. apply IH. Qed.
Lemma valid_skip k s : valid_from k s = valid_utf8 (drop_str k s).
Proof. unfold valid_utf8. revert s. induction k as [|k IH]; intros [|a s]; [done..|]. apply IH. Qed.

(** Decoding reads only the bytes of the rune it decodes. *)
Lemma decode_multi_take s t r w :
  decode_multi s = Some (r, w) → decode_multi (take_str w s +:+ t) = Some (r, w).
Proof.
  unfold decode_multi. intros H.
  destruct s as [|b0 [|b1 rest]]; [done..|].
  destruct (decode_two b0 b1) eqn:E2; [simplify_eq/=; by rewrite E2|].
  destruct rest as [|b2 rest]; [done|].
  destruct (decode_three b0 b1 b2) eqn:E3; [simplify_eq/=; by rewrite E2, E3|].
  destruct rest as [|b3 rest]; [done|].
  destruct (decode_four b0 b1 b2 b3) eqn:E4; [|done].
  simplify_eq/=. by rewrite E2, E3, E4.
Qed.

Lemma parse_escape_byte a t :
  bz a < 0x80 → parse_body 0 (escape_byte a +:+ t) = prepend (String a "") (parse_body 0 t).
Proof.
  destruct a as [[] [] [] [] [] [] [] []]; intros H; try (exfalso; vm_compute in H; done); reflexivity.
Qed.

Lemma parse_raw_multi s t r w :
  decode_multi s = Some (r, w) →
  parse_body 0 (take_str w s +:+ t) = prepend (take_str w s) (parse_body 0 t).
Proof.
  intros H. pose proof (decode_multi_width _ _ _ H) as [[Hw _] Hl].
  pose proof (decode_multi_take _ t _ _ H) as Ht.
  destruct s as [|a s]; [done|]. pose proof (decode_multi_nonascii _ _ _ a s eq_refl H) as Ha.
  destruct w as [|w]; [lia|]. simpl in Hl. simpl take_str in *. rewrite app_cons in *.
  cbn [parse_body]. rewrite (proj2 (Z.eqb_neq _ _)), (proj2 (Z.eqb_neq (bz a) 92)) by lia.
  rewrite (proj2 (Z.ltb_ge _ _)), (proj2 (Z.ltb_ge _ 128)), Ht by lia. simpl.
  rewrite parse_skip. assert (String.length (take_str w s) = w) as Hlen by (apply length_take_str; lia).
  by rewrite (take_str_app' _ _ _ Hlen), (drop_str_app' _ _ _ Hlen).
Qed.

(** The only encodings of U+2028 and U+2029 are those [encode_rune] writes. *)
Lemma decode_separator s r w :
  r = 0x2028 ∨ r = 0x2029 → decode_multi s = Some (r, w) → take_str w s = encode_rune r.
Proof.
  intros Hr H. unfold decode_multi in H. repeat go_step.
  - apply decode_two_sum in Heqo. lia.
  - apply decode_three_sum in Heqo0 as (? & ? & ? & ? & ?).
    assert (bz a = 0xE2 ∧ bz a0 = 0x80 ∧ bz a1 = 0x80 + r - 0x2000) as (E0 & E1 & E2) by lia.
    rewrite <-(zb_bz a), <-(zb_bz a0), <-(zb_bz a1), E0, E1, E2. by destruct Hr as [->| ->].
  - apply decode_four_sum in Heqo1. lia.
Qed.

Theorem parse_escape s t :
  valid_utf8 s = true → parse_body 0 (escape_from 0 s +:+ String dquote t) = Some (s, t).
Proof.
  remember (String.length s) as n eqn:Hn. revert s Hn.
  induction (lt_wf n) as [n _ IH]; intros s -> Hv.
  destruct s as [|a s]; [done|].
  unfold valid_utf8 in Hv. cbn [escape_from valid_from] in *.
  destruct (bz a <? 0x80) eqn:Ha; bool_facts.
  - rewrite <-app_assoc_str, parse_escape_byte by done.
    rewrite (IH (String.length s)); [done|simpl; lia|done..].
  - destruct (decode_multi (String a s)) as [[r w]|] eqn:E; [|done].
    pose proof (decode_multi_width _ _ _ E) as [[Hw _] Hl].
    rewrite valid_skip in Hv. rewrite <-app_assoc_str, escape_skip.
    assert (drop_str (pred w) s = drop_str w (String a s)) as Hd by (by destruct w; [lia|]).
    assert (parse_body 0 (escape_from 0 (drop_str (pred w) s) +:+ String dquote t)
            = Some (drop_str w (String a s), t)) as Hrest.
    { rewrite (IH (String.length (drop_str (pred w) s))); [by rewrite Hd| |done..].
      clear -Hw. simpl. revert s. generalize (pred w). intros k s.
      assert (String.length (drop_str k s) ≤ String.length s)%nat; [|lia].
      revert s. induction k as [|k IH]; intros [|b s]; simpl; try lia. specialize (IH s). lia. }
    repeat case_match; bool_facts; subst.
    + rewrite app_cons. change (parse_body 0 _) with
        (prepend (encode_rune 0x2028) (parse_body 0 (escape_from 0 (drop_str (pred w) s) +:+ String dquote t))).
      rewrite Hrest. simpl. rewrite <-(decode_separator _ _ _ (or_introl eq_refl) E). by rewrite take_drop_str.
    + change (parse_body 0 _) with
        (prepend (encode_rune 0x2029) (parse_body 0 (escape_from 0 (drop_str (pred w) s) +:+ String dquote t))).
      rewrite Hrest. simpl. rewrite <-(decode_separator _ _ _ (or_intror eq_refl) E). by rewrite take_drop_str.
    + rewrite (parse_raw_multi _ _ _ _ E), Hrest. simpl. by rewrite take_drop_str.
Qed.

Lemma parse_json_string s t :
  valid_utf8 s = true → parse_string (json_string s +:+ t) = Some (s, t).
Proof.
  intros Hv. unfold json_string. rewrite app_cons, <-app_assoc_str, app_cons. simpl.
  by apply parse_escape.
Qed.

Lemma skip_ws_string s t : skip_ws (json_string s +:+ t) = json_string s +:+ t.
Proof. done. Qed.

Lemma parse_value_string s t :
  valid_utf8 s = true → parse_value (json_string s +:+ t) = Some (s, t).
Proof. intros Hv. unfold parse_value. simpl. by apply parse_json_string. Qed.

(** Equal documents that start with a string literal start with the same
    string, and continue alike. *)
Lemma json_string_inj s s' t t' :
  valid_utf8 s = true → valid_utf8 s' = true →
  json_string s +:+ t = json_string s' +:+ t' → s = s' ∧ t = t'.
Proof.
  intros Hs Hs' He. apply (f_equal parse_string) in He.
  rewrite !parse_json_string in He by done. by simplify_eq.
Qed.

(** ** Round trip of maps *)

Definition insert_all (acc : gmap string string) (l : list (string * string)) :=
  foldl (λ m x, <[x.1 := x.2]> m) acc l.

Definition valid_entry (x : string * string) : Prop :=
  valid_utf8 x.1 = true ∧ valid_utf8 x.2 = true.
Definition valid_inputs (m : gmap string string) : Prop :=
  map_Forall (λ k v, valid_entry (k, v)) m.
#[export] Instance valid_entry_dec x : Decision (valid_entry x).
Proof. unfold valid_entry. apply _. Defined.
#[export] Instance valid_inputs_dec m : Decision (valid_inputs m).
Proof. unfold valid_inputs. apply _. Defined.

(** One member is consumed by one unit of fuel. *)
Lemma parse_member_step fuel acc k v d s :
  valid_utf8 k = true → valid_utf8 v = true → d = comma ∨ d = rbrace →
  parse_members (S fuel) acc (json_string k +:+ String colon (json_string v +:+ String d s))
  = if bz d =? 44 then parse_members fuel (<[k := v]> acc) s else Some (<[k := v]> acc, s).
Proof.
  intros Hk Hv Hd. cbn [parse_members]. rewrite skip_ws_string, parse_json_string by done.
  cbn [mbind option_bind]. change (skip_ws (String colon ?z)) with (String colon z). cbv iota beta.
  change (bz colon =? 58) with true. cbv iota.
  rewrite skip_ws_string, parse_value_string by done. cbv iota beta.
  by destruct Hd as [->| ->].
Qed.

Lemma parse_members_json fuel acc x l t :
  (length l < fuel)%nat → Forall valid_entry (x :: l) →
  parse_members fuel acc (json_members (prod_map id json_string <$> (x :: l)) +:+ String rbrace t)
  = Some (insert_all acc (x :: l), t).
Proof.
  revert acc x fuel. induction l as [|y l IH]; intros acc [k v] [|fuel] Hf Hv;
    simpl in Hf; try lia; apply Forall_cons in Hv as [[Hk Hw] Hv]; simpl in Hk, Hw.
  - change (json_members _) with (json_string k +:+ String colon (json_string v)).
    by rewrite <-app_assoc_str, (app_cons colon), parse_member_step by auto.
  - set (rest := json_members (prod_map id json_string <$> y :: l)).
    change (json_members _) with (json_string k +:+ String colon (json_string v +:+ String comma rest)).
    rewrite <-app_assoc_str, (app_cons colon), <-app_assoc_str, (app_cons comma), parse_member_step by auto.
    apply (IH (<[k:=v]> acc) y fuel); [lia|done].
Qed.

Lemma length_json_members l : (length l ≤ String.length (json_members l))%nat.
Proof.
  induction l as [|[k v] l IH]; [simpl; lia|]. destruct l as [|y l]; [simpl; lia|].
  set (rest := y :: l) in *. change (length ((k, v) :: rest)) with (S (length rest)).
  change (json_members _) with (json_string k +:+ String colon (v +:+ String comma (json_members rest))).
  pose proof (len_app (json_string k) (String colon (v +:+ String comma (json_members rest)))) as H.
  rewrite (len_cons colon), (len_app v), (len_cons comma) in H. unfold len in H. lia.
Qed.

Lemma insert_all_list_to_map l : insert_all ∅ l = list_to_map (reverse l).
Proof.
  unfold insert_all. induction l as [|x l IH] using rev_ind; [done|].
  rewrite foldl_app, reverse_app. simpl. rewrite IH. by destruct x.
Qed.

Lemma insert_all_entries m : insert_all ∅ (sorted_entries m) = m.
Proof.
  rewrite insert_all_list_to_map.
  assert (reverse (sorted_entries m) ≡ₚ map_to_list m) as Hp.
  { rewrite reverse_Permutation. apply merge_sort_Permutation. }
  rewrite (list_to_map_proper _ (map_to_list m)); [apply list_to_map_to_list| |done].
  rewrite Hp. apply NoDup_fst_map_to_list.
Qed.

(** [json.Unmarshal] inverts [json.Marshal] on maps of valid UTF-8 strings. *)
Theorem unmarshal_json_map m : valid_inputs m → unmarshal_map (json_map m) = Some m.
Proof.
  intros Hm. unfold json_map, unmarshal_map.
  change (skip_ws (json_struct ?l)) with (json_struct l).
  assert (∀ l, HasPrefix (json_struct l) "null" = false) as -> by done. cbv iota.
  assert (Forall valid_entry (sorted_entries m)) as Hv.
  { unfold sorted_entries. rewrite merge_sort_Permutation. apply map_Forall_to_list in Hm.
    eapply Forall_impl; [exact Hm|]. by intros []. }
  rewrite <-(insert_all_entries m) at 2.
  destruct (sorted_entries m) as [|x l] eqn:E; [done|].
  unfold json_struct. set (body := json_members (prod_map id json_string <$> x :: l)).
  assert (skip_ws (body +:+ String rbrace "") = body +:+ String rbrace "") as Hws
    by (unfold body; destruct x, l; done).
  unfold parse_object. change (bz lbrace =? 123) with true. cbv iota. rewrite Hws.
  assert (∃ b s, body +:+ String rbrace "" = String b s ∧ bz b =? 125 = false) as (b & s & Hb & Hb2)
    by (unfold body; destruct x, l; do 2 eexists; done).
  rewrite Hb at 1. cbv iota. rewrite Hb2. unfold body. rewrite parse_members_json; [done| |done].
  pose proof (length_json_members (prod_map id json_string <$> x :: l)) as Hl.
  rewrite length_fmap in Hl. fold body in Hl |- *. simpl in Hl |- *.
  pose proof (len_app body (String rbrace "")) as Hlen. unfold len in Hlen. simpl in Hlen. lia.
Qed.

(** ** Numbers inside a document *)

Definition digit_byte (a : ascii) : bool := in_range 48 57 (bz a).

Lemma pretty_N_digit x : (x < 10)%N → digit_byte (pretty_N_char x) = true.
Proof.
  intros Hx. rewrite <-(N2Nat.id x) in *. set (n := N.to_nat x) in *. assert (n < 10)%nat as Hn by lia.
  clearbody n. clear Hx. do 10 (destruct n as [|n]; [done|]). lia.
Qed.

Lemma pretty_N_go_digits x s :
  forall_bytes digit_byte s = true → forall_bytes digit_byte (pretty_N_go x s) = true.
Proof.
  revert s. induction (N.lt_wf_0 x) as [x _ IH]; intros s Hs.
  destruct (decide (x = 0)%N) as [->|]; [by rewrite pretty_N_go_0|].
  rewrite pretty_N_go_step by lia. apply IH; [apply N.div_lt; lia|]. simpl.
  rewrite pretty_N_digit; [done|]. apply N.mod_lt. lia.
Qed.

Lemma json_uint_digits z : forall_bytes digit_byte (json_uint z) = true.
Proof.
  unfold json_uint, pretty, pretty_N. case_decide; [done|]. by apply pretty_N_go_digits.
Qed.

(** A digit run is delimited by any byte that is not a digit. *)
Lemma digits_delimited u v a b s t :
  forall_bytes digit_byte u = true → forall_bytes digit_byte v = true →
  digit_byte a = false → digit_byte b = false →
  u +:+ String a s = v +:+ String b t → u = v ∧ String a s = String b t.
Proof.
  revert v. induction u as [|c u IH]; intros [|d v] Hu Hv Ha Hb He; rewrite ?app_cons, ?app_nil_l_str in He;
    simpl in Hu, Hv; bool_facts; simplify_eq; try congruence; [done|].
  destruct (IH v) as [-> ?]; auto.
Qed.

Lemma json_uint_inj z z' a b t t' :
  0 ≤ z → 0 ≤ z' → digit_byte a = false → digit_byte b = false →
  json_uint z +:+ String a t = json_uint z' +:+ String b t' → z = z' ∧ String a t = String b t'.
Proof.
  intros Hz Hz' Ha Hb He.
  apply digits_delimited in He as [He ?]; auto using json_uint_digits. split; [|done].
  apply pretty_N_inj in He. lia.
Qed.

(** ** Telling members apart *)

Lemma String_tail_inj a s t : String a s = String a t → s = t.
Proof. congruence. Qed.

Lemma member_cons k v x l u :
  json_members ((k, v) :: x :: l) +:+ u =
  json_string k +:+ String colon (v +:+ String comma (json_members (x :: l) +:+ u)).
Proof.
  change (json_members ((k, v) :: x :: l)) with
    (json_string k +:+ String colon (v +:+ String comma (json_members (x :: l)))).
  generalize (json_string k), (json_members (x :: l)). intros a b.
  by rewrite <-app_assoc_str, (app_cons colon), <-app_assoc_str, (app_cons comma).
Qed.

Lemma member_last k v u :
  json_members [(k, v)] +:+ u = json_string k +:+ String colon (v +:+ u).
Proof.
  change (json_members [(k, v)]) with (json_string k +:+ String colon v).
  generalize (json_string k). intros a. by rewrite <-app_assoc_str, (app_cons colon).
Qed.

Lemma members_string_inj k v v' x l x' l' u u' :
  valid_utf8 v = true → valid_utf8 v' = true →
  json_members ((k, json_string v) :: x :: l) +:+ u = json_members ((k, json_string v') :: x' :: l') +:+ u' →
  v = v' ∧ json_members (x :: l) +:+ u = json_members (x' :: l') +:+ u'.
Proof.
  intros Hv Hv'. rewrite !member_cons. intros He%(inj (String.append _)).
  apply String_tail_inj in He. apply json_string_inj in He as [-> He]; [|done..]. by apply String_tail_inj in He.
Qed.

Lemma members_uint_inj k z z' x l x' l' u u' :
  0 ≤ z → 0 ≤ z' →
  json_members ((k, json_uint z) :: x :: l) +:+ u = json_members ((k, json_uint z') :: x' :: l') +:+ u' →
  z = z' ∧ json_members (x :: l) +:+ u = json_members (x' :: l') +:+ u'.
Proof.
  intros Hz Hz'. rewrite !member_cons. intros He%(inj (String.append _)).
  apply String_tail_inj in He. apply json_uint_inj in He as [-> He]; [|done..]. by apply String_tail_inj in He.
Qed.

Lemma last_uint_inj k z z' u u' :
  0 ≤ z → 0 ≤ z' →
  json_members [(k, json_uint z)] +:+ String rbrace u = json_members [(k, json_uint z')] +:+ String rbrace u' →
  z = z'.
Proof.
  intros Hz Hz'. rewrite !member_last. intros He%(inj (String.append _)).
  apply String_tail_inj in He. by apply json_uint_inj in He as [-> _].
Qed.

Lemma app_last_inj u v a : u +:+ String a "" = v +:+ String a "" → u = v.
Proof.
  revert v. induction u as [|b u IH]; intros [|c v]; rewrite ?app_cons, ?app_nil_l_str; intros He.
  - done.
  - apply (f_equal len) in He. rewrite !len_cons, len_app, len_cons in He. pose proof (len_nonneg v).
    change (len "") with 0 in He. lia.
  - apply (f_equal len) in He. rewrite !len_cons, len_app, len_cons in He. pose proof (len_nonneg u).
    change (len "") with 0 in He. lia.
  - injection He as -> He. f_equal. by apply IH.
Qed.

Lemma json_map_inj m m' : valid_inputs m → valid_inputs m' → json_map m = json_map m' → m = m'.
Proof.
  intros H%unmarshal_json_map H'%unmarshal_json_map He. rewrite He in H. congruence.
Qed.

Lemma last_map_inj k m m' :
  valid_inputs m → valid_inputs m' →
  json_members [(k, json_map m)] +:+ String rbrace "" = json_members [(k, json_map m')] +:+ String rbrace "" →
  m = m'.
Proof.
  intros Hm Hm'. rewrite !member_last. intros He%(inj (String.append _)).
  apply String_tail_inj in He. apply app_last_inj in He. by apply json_map_inj.
Qed.
