(* ===== verification/Crypto.v ===== *)
(** * Cryptographic primitives

    The service composes primitives it does not implement: AES-GCM, SHA-256,
    HMAC-SHA-256 and a source of random bytes.  [Crypto] names them and
    [CryptoLaws] states the documented behaviour the code relies on.  Both laws
    about AES-GCM are facts of the (deterministic) mode: [Open] inverts [Seal],
    and it accepts nothing that [Seal] would not have produced.  A digest is not
    injective: a theorem that needs digests to differ says of which messages,
    those that were digested in the situation it is about, and assumes that
    these do not collide ([collision_free]). *)

From Stdlib Require Import Ascii.
From S2P Require Import Prelude GoStrings.

Class Crypto : Type := {
  gcm_seal : string → string → string → string → string;
  gcm_open : string → string → string → string → option string;
  sha256 : string → string;
  hmac_sha256 : string → string → string
}.

(** The key lengths [aes.NewCipher] accepts. *)
Definition aes_key (k : string) : bool := (len k =? 16) || (len k =? 24) || (len k =? 32).

Class CryptoLaws `{Crypto} : Prop := {
  open_seal k n p a : aes_key k = true → len n = 12 → gcm_open k n (gcm_seal k n p a) a = Some p;
  seal_open k n c p a : aes_key k = true → len n = 12 → gcm_open k n c a = Some p → c = gcm_seal k n p a;
  len_seal k n p a : aes_key k = true → len n = 12 → len (gcm_seal k n p a) = len p + 16;
  len_sha256 m : len (sha256 m) = 32;
  len_hmac k m : len (hmac_sha256 k m) = 32
}.

(** No two of the given messages have one digest. *)
Definition collision_free (digest : string → string) (messages : list string) : Prop :=
  ∀ m m', m ∈ messages → m' ∈ messages → digest m = digest m' → m = m'.
Lemma collision_free_sub digest l l' : l ⊆ l' → collision_free digest l' → collision_free digest l.
Proof. intros Hl Hc m m' Hm Hm'. apply Hc; by apply Hl. Qed.
Lemma collision_free_twice digest l : collision_free digest l → collision_free digest (l ++ l).
Proof. apply collision_free_sub. set_solver. Qed.
(** Distinct digests of distinct messages, for executing the model. *)
Lemma collision_free_NoDup digest l : NoDup (digest <$> l) → collision_free digest l.
Proof.
  intros Hnd m m' [i Hi]%list_elem_of_lookup [j Hj]%list_elem_of_lookup He.
  assert (i = j) as ->; [|congruence]. eapply NoDup_lookup; [exact Hnd|by rewrite list_lookup_fmap, Hi|].
  rewrite list_lookup_fmap, Hj. simpl. by rewrite He.
Qed.

(** ** Random bytes

    An [io.Reader] used as entropy is the finite sequence of bytes it will
    deliver; [randomBytes] is [io.ReadFull] into a fresh slice and fails, like
    it, when the source runs dry. *)

Abbreviation reader := string (only parsing).

Definition randomBytes (source : reader) (n : nat) : option (string * reader) :=
  if (n <=? String.length source)%nat then Some (take_str n source, drop_str n source) else None.

Lemma randomBytes_len source n b rest :
  randomBytes source n = Some (b, rest) → len b = Z.of_nat n.
Proof.
  unfold randomBytes. case_match eqn:E; [|done]. intros. simplify_eq.
  apply Nat.leb_le in E. unfold len. by rewrite length_take_str.
Qed.

(** A number as [n] bytes, big-endian. *)
Fixpoint be_bytes (n : nat) (z : Z) : string :=
  match n with O => "" | S n' => be_bytes n' (z / 256) +:+ String (zb (z `mod` 256)) "" end.

Lemma len_be_bytes n z : len (be_bytes n z) = Z.of_nat n.
Proof. revert z. induction n as [|n IH]; intros z; [done|]. simpl. rewrite len_app, IH, len_cons. change (len "") with 0. lia. Qed.

(** ** A concrete instance, for execution

    A checksum of forty bits, spread over as many bytes as it takes, in place
    of the authentication tag and the digests.  It satisfies every law above and
    computes quickly. *)

Definition forty_bits : Z := 2 ^ 40 - 1.
Fixpoint checksum (acc : Z) (s : string) : Z :=
  match s with "" => acc | String a s' => checksum (Z.land (acc * 257 + bz a + 1) forty_bits) s' end.
Fixpoint spread (n : nat) (z : Z) : string :=
  match n with O => "" | S n' => String (zb (Z.land (Z.shiftr z 16) 255)) (spread n' (Z.land (z * 29 + 7) forty_bits)) end.

Lemma len_spread n z : len (spread n z) = Z.of_nat n.
Proof. revert z. induction n as [|n IH]; intros z; [done|]. cbn [spread]. rewrite len_cons, IH. lia. Qed.

Definition toy_tag (k n p a : string) : string :=
  spread 16 (checksum (checksum (checksum (checksum 7 k) n) a) p).

#[local] Instance toy_crypto : Crypto := {|
  gcm_seal k n p a := toy_tag k n p a +:+ p;
  gcm_open k n c a :=
    let p := drop_str 16 c in
    if bool_decide (c = toy_tag k n p a +:+ p) then Some p else None;
  sha256 m := spread 32 (checksum 11 m);
  hmac_sha256 k m := spread 32 (checksum (checksum 13 k) m)
|}.

Lemma drop_tag k n p a : drop_str 16 (toy_tag k n p a +:+ p) = p.
Proof.
  apply drop_str_app'. pose proof (len_spread 16 (checksum (checksum (checksum (checksum 7 k) n) a) p)).
  unfold len, toy_tag in *. lia.
Qed.

#[local] Instance toy_crypto_laws : CryptoLaws.
Proof.
  split; cbn [gcm_open gcm_seal sha256 hmac_sha256 toy_crypto]; cbv zeta; intros.
  - rewrite !drop_tag. by rewrite bool_decide_eq_true_2.
  - case_bool_decide; naive_solver.
  - rewrite len_app. unfold toy_tag. rewrite len_spread. lia.
  - apply len_spread.
  - apply len_spread.
Qed.

(** A deterministic byte stream for witnesses. *)
Fixpoint stream (n : nat) (z : Z) : reader :=
  match n with O => "" | S n' => String (zb (z `mod` 256)) (stream n' (Z.land (z * 29 + 7) 255)) end.
