(* ===== verification/Envelope.v ===== *)
(** * Package envelope (src/envelope/envelope.go)

    The versioned two-layer record: a fresh data key encrypts the payload, a
    named master key wraps the data key, and the associated data of both layers
    binds the credential's identity and version.  [Encrypt], [Decrypt],
    [Rewrap] and [RotateDataKey] are the package's entry points. *)

From Stdlib Require Import Ascii.
From S2P Require Import Prelude GoStrings Json Crypto.

Definition FormatVersion : Z := 1.
Definition Algorithm : string := "AES-256-GCM-DEK+AES-256-GCM-KEK".
Definition keySize : nat := 32.
Definition recordIDSize : nat := 16.
Definition nonceSize : nat := 12.

(** The package's errors.  [ErrEntropy what] is [fmt.Errorf("what: %w", err)]
    around an error of the random source or of cipher construction. *)
Inductive EnvError : Type :=
| ErrInvalidRecord
| ErrUnsupported
| ErrUnknownKey
| ErrContextMismatch
| ErrAuthentication
| ErrEntropy (what : string).

#[export] Instance EnvError_eq_dec : EqDecision EnvError.
Proof. solve_decision. Defined.

Record EnvContext : Type := mkContext {
  ctxCredentialID : string;
  ctxOrganizationID : string;
  ctxSchemaVersion : Z;
  ctxCredentialVersion : Z
}.
#[export] Instance EnvContext_eq_dec : EqDecision EnvContext.
Proof. solve_decision. Defined.

Definition validate (c : EnvContext) : result EnvError unit :=
  if String.eqb (ctxCredentialID c) "" || String.eqb (ctxOrganizationID c) "" ||
     (ctxSchemaVersion c =? 0) || (ctxCredentialVersion c =? 0)
  then Err ErrContextMismatch else Ok ().

Definition equal (c other : EnvContext) : bool :=
  String.eqb (ctxCredentialID c) (ctxCredentialID other) &&
  String.eqb (ctxOrganizationID c) (ctxOrganizationID other) &&
  (ctxSchemaVersion c =? ctxSchemaVersion other) &&
  (ctxCredentialVersion c =? ctxCredentialVersion other).

(** [key] is a 32-byte array in the code; [master_ok] states its length. *)
Record MasterKey : Type := mkMasterKey { mkID : string; mkKey : string }.
#[export] Instance MasterKey_eq_dec : EqDecision MasterKey.
Proof. solve_decision. Defined.
Definition master_ok (k : MasterKey) : Prop := mkID k ≠ "" ∧ len (mkKey k) = 32.

Definition NewMasterKey (id raw : string) : result EnvError MasterKey :=
  if String.eqb id "" || negb (len raw =? Z.of_nat keySize) then Err ErrUnknownKey
  else Ok (mkMasterKey id raw).

Record EnvRecord : Type := mkRecord {
  recVersion : Z;
  recAlgorithm : string;
  recRecordID : string;
  recMasterKeyID : string;
  recContext : EnvContext;
  recPayloadNonce : string;
  recCiphertext : string;
  recWrapNonce : string;
  recWrappedDataKey : string
}.
#[export] Instance EnvRecord_eq_dec : EqDecision EnvRecord.
Proof. solve_decision. Defined.

(** The associated data: JSON of a fixed struct.  The master key is bound only
    when it is the wrapping layer that is authenticated. *)
Definition aad (purpose : string) (r : EnvRecord) (expected : EnvContext) : string :=
  let masterKeyID := if String.eqb purpose "data-key-wrap" then recMasterKeyID r else "" in
  json_struct [
    ("purpose", json_string purpose);
    ("version", json_uint (recVersion r));
    ("algorithm", json_string (recAlgorithm r));
    ("record_id", json_string (recRecordID r));
    ("master_key_id", json_string masterKeyID);
    ("credential_id", json_string (ctxCredentialID expected));
    ("organization_id", json_string (ctxOrganizationID expected));
    ("schema_version", json_uint (ctxSchemaVersion expected));
    ("credential_version", json_uint (ctxCredentialVersion expected))].

(** Field updates of the mutable [record] local of [Encrypt] and [Rewrap]. *)
Definition with_payload (n c : string) (r : EnvRecord) : EnvRecord :=
  mkRecord (recVersion r) (recAlgorithm r) (recRecordID r) (recMasterKeyID r) (recContext r)
    n c (recWrapNonce r) (recWrappedDataKey r).
Definition with_wrap (n w : string) (r : EnvRecord) : EnvRecord :=
  mkRecord (recVersion r) (recAlgorithm r) (recRecordID r) (recMasterKeyID r) (recContext r)
    (recPayloadNonce r) (recCiphertext r) n w.
Definition with_master (id : string) (r : EnvRecord) : EnvRecord :=
  mkRecord (recVersion r) (recAlgorithm r) (recRecordID r) id (recContext r)
    (recPayloadNonce r) (recCiphertext r) (recWrapNonce r) (recWrappedDataKey r).

Section Envelope.
Context `{CR : Crypto}.

(** [newGCM] fails exactly when [aes.NewCipher] rejects the key length. *)
Definition newGCM {E} (key : string) (e : E) : result E unit :=
  if aes_key key then Ok () else Err e.

Definition draw (what : string) (source : reader) (n : nat) : result EnvError (string * reader) :=
  of_option (ErrEntropy what) (randomBytes source n).

Definition Encrypt (plaintext : string) (context : EnvContext) (master : MasterKey)
    (source : reader) : result EnvError EnvRecord :=
  _ ← guard_err (negb (is_ok (validate context)) || String.eqb (mkID master) "") ErrContextMismatch;
  '(recordID, source) ← draw "record id" source recordIDSize;
  '(dataKey, source) ← draw "data key" source keySize;
  let record := mkRecord FormatVersion Algorithm (EncodeToString recordID) (mkID master)
                  context "" "" "" "" in
  _ ← newGCM dataKey (ErrEntropy "payload cipher");
  '(payloadNonce, source) ← draw "payload nonce" source nonceSize;
  let record := with_payload payloadNonce "" record in
  let payloadAAD := aad "credential-payload" record context in
  let record := with_payload payloadNonce
                  (gcm_seal dataKey payloadNonce plaintext payloadAAD) record in
  _ ← newGCM (mkKey master) (ErrEntropy "wrapping cipher");
  '(wrapNonce, source) ← draw "wrap nonce" source nonceSize;
  let record := with_wrap wrapNonce "" record in
  let wrapAAD := aad "data-key-wrap" record context in
  Ok (with_wrap wrapNonce (gcm_seal (mkKey master) wrapNonce dataKey wrapAAD) record).

Definition unwrapDataKey (record : EnvRecord) (expected : EnvContext)
    (keyring : gmap string MasterKey) : result EnvError string :=
  _ ← guard_err (negb (is_ok (validate expected))) ErrContextMismatch;
  _ ← guard_err (negb (recVersion record =? FormatVersion) ||
                 negb (String.eqb (recAlgorithm record) Algorithm)) ErrUnsupported;
  _ ← guard_err (String.eqb (recRecordID record) "" || String.eqb (recMasterKeyID record) "" ||
                 negb (equal (recContext record) expected)) ErrContextMismatch;
  master ← of_option ErrUnknownKey (keyring !! recMasterKeyID record);
  _ ← guard_err (negb (String.eqb (mkID master) (recMasterKeyID record))) ErrUnknownKey;
  _ ← guard_err ((len (recPayloadNonce record) =? 0) || (len (recCiphertext record) =? 0) ||
                 (len (recWrapNonce record) =? 0) || (len (recWrappedDataKey record) =? 0))
        ErrInvalidRecord;
  _ ← newGCM (mkKey master) ErrInvalidRecord;
  _ ← guard_err (negb (len (recWrapNonce record) =? Z.of_nat nonceSize)) ErrInvalidRecord;
  let wrapAAD := aad "data-key-wrap" record expected in
  dataKey ← of_option ErrAuthentication
              (gcm_open (mkKey master) (recWrapNonce record) (recWrappedDataKey record) wrapAAD);
  _ ← guard_err (negb (len dataKey =? Z.of_nat keySize)) ErrAuthentication;
  Ok dataKey.

Definition decryptPayload (record : EnvRecord) (expected : EnvContext) (dataKey : string)
  : result EnvError string :=
  _ ← newGCM dataKey ErrInvalidRecord;
  _ ← guard_err (negb (len (recPayloadNonce record) =? Z.of_nat nonceSize)) ErrInvalidRecord;
  let payloadAAD := aad "credential-payload" record expected in
  of_option ErrAuthentication
    (gcm_open dataKey (recPayloadNonce record) (recCiphertext record) payloadAAD).

Definition Decrypt (record : EnvRecord) (expected : EnvContext)
    (keyring : gmap string MasterKey) : result EnvError string :=
  dataKey ← unwrapDataKey record expected keyring;
  decryptPayload record expected dataKey.

Definition Rewrap (record : EnvRecord) (expected : EnvContext)
    (keyring : gmap string MasterKey) (target : MasterKey) (source : reader)
  : result EnvError EnvRecord :=
  _ ← guard_err (String.eqb (mkID target) "") ErrUnknownKey;
  dataKey ← unwrapDataKey record expected keyring;
  _ ← decryptPayload record expected dataKey;
  let rewrapped := with_master (mkID target) record in
  _ ← newGCM (mkKey target) ErrAuthentication;
  '(wrapNonce, source) ← draw "wrap nonce" source nonceSize;
  let rewrapped := with_wrap wrapNonce (recWrappedDataKey rewrapped) rewrapped in
  let wrapAAD := aad "data-key-wrap" rewrapped expected in
  Ok (with_wrap wrapNonce (gcm_seal (mkKey target) wrapNonce dataKey wrapAAD) rewrapped).

Definition RotateDataKey (record : EnvRecord) (expected : EnvContext)
    (keyring : gmap string MasterKey) (target : MasterKey) (source : reader)
  : result EnvError EnvRecord :=
  plaintext ← Decrypt record expected keyring;
  Encrypt plaintext expected target source.
End Envelope.

(** ** Contexts and associated data *)

Lemma validate_Ok c : validate c = Ok () ↔
  ctxCredentialID c ≠ "" ∧ ctxOrganizationID c ≠ "" ∧ ctxSchemaVersion c ≠ 0 ∧ ctxCredentialVersion c ≠ 0.
Proof.
  unfold validate. split.
  - intros H. repeat (case_match; try done). repeat apply orb_false_elim in H0 as [H0 ?].
    rewrite ?String.eqb_neq, ?Z.eqb_neq in *. done.
  - intros (H1 & H2 & H3 & H4). apply String.eqb_neq in H1, H2. apply Z.eqb_neq in H3, H4.
    by rewrite H1, H2, H3, H4.
Qed.

Lemma equal_true c d : equal c d = true ↔ c = d.
Proof.
  unfold equal. rewrite !andb_true_iff, !String.eqb_eq, !Z.eqb_eq.
  destruct c, d; simpl; naive_solver.
Qed.

(** The strings that enter the associated data are valid UTF-8 and its numbers
    are unsigned: what JSON-decoded requests and the service itself produce. *)
Record aad_clean (r : EnvRecord) (c : EnvContext) : Prop := {
  clean_version : 0 ≤ recVersion r;
  clean_algorithm : valid_utf8 (recAlgorithm r) = true;
  clean_record : valid_utf8 (recRecordID r) = true;
  clean_master : valid_utf8 (recMasterKeyID r) = true;
  clean_credential : valid_utf8 (ctxCredentialID c) = true;
  clean_organization : valid_utf8 (ctxOrganizationID c) = true;
  clean_schema : 0 ≤ ctxSchemaVersion c;
  clean_cversion : 0 ≤ ctxCredentialVersion c
}.

Lemma aad_injective purpose purpose' r r' c c' :
  valid_utf8 purpose = true → valid_utf8 purpose' = true →
  aad_clean r c → aad_clean r' c' →
  aad purpose r c = aad purpose' r' c' →
  purpose = purpose' ∧ recVersion r = recVersion r' ∧ recAlgorithm r = recAlgorithm r' ∧
  recRecordID r = recRecordID r' ∧ c = c' ∧
  (purpose = "data-key-wrap" → recMasterKeyID r = recMasterKeyID r').
Proof.
  intros Hp Hp' [] [] He. unfold aad, json_struct in He. apply String_tail_inj in He.
  apply members_string_inj in He as [-> He]; [|done..].
  apply members_uint_inj in He as [? He]; [|done..].
  apply members_string_inj in He as [? He]; [|done..].
  apply members_string_inj in He as [? He]; [|done..].
  apply members_string_inj in He as [Hm He]; [|by case_match..].
  apply members_string_inj in He as [? He]; [|done..].
  apply members_string_inj in He as [? He]; [|done..].
  apply members_uint_inj in He as [? He]; [|done..].
  apply last_uint_inj in He; [|done..].
  repeat split; try done; [destruct c, c'; simpl in *; congruence|].
  intros ->. by rewrite String.eqb_refl in Hm.
Qed.

(** The payload layer does not depend on the master key or on the wrapping. *)
Lemma aad_payload_ext r r' c :
  recVersion r = recVersion r' → recAlgorithm r = recAlgorithm r' → recRecordID r = recRecordID r' →
  aad "credential-payload" r c = aad "credential-payload" r' c.
Proof. intros H1 H2 H3. unfold aad. by rewrite H1, H2, H3. Qed.

(** ** What a record promises

    [sealed r c m dk p]: [r] is the version-1 record of payload [p] for context
    [c], wrapped by master key [m] around data key [dk].  It is the abstract
    specification the four operations are proved against. *)

Section EnvelopeSpec.
Context `{CL : CryptoLaws}.

Record sealed (r : EnvRecord) (c : EnvContext) (m : MasterKey) (dk p : string) : Prop := {
  sealed_context : validate c = Ok () ∧ recContext r = c;
  sealed_format : recVersion r = FormatVersion ∧ recAlgorithm r = Algorithm;
  sealed_names : recRecordID r ≠ "" ∧ recMasterKeyID r ≠ "" ∧ mkID m = recMasterKeyID r;
  sealed_keys : aes_key (mkKey m) = true ∧ len dk = 32;
  sealed_nonces : len (recPayloadNonce r) = 12 ∧ len (recWrapNonce r) = 12;
  sealed_payload : recCiphertext r = gcm_seal dk (recPayloadNonce r) p (aad "credential-payload" r c);
  sealed_wrap : recWrappedDataKey r = gcm_seal (mkKey m) (recWrapNonce r) dk (aad "data-key-wrap" r c)
}.

Lemma aes_key_32 k : len k = 32 → aes_key k = true.
Proof. unfold aes_key. intros ->. done. Qed.

Lemma newGCM_Ok {E} key (e : E) : newGCM key e = Ok () ↔ aes_key key = true.
Proof. unfold newGCM. by destruct (aes_key key). Qed.

Lemma newGCM_bind {E A} key (e : E) (f : unit → result E A) a :
  (newGCM key e ≫= f) = Ok a ↔ aes_key key = true ∧ f () = Ok a.
Proof. unfold newGCM. destruct (aes_key key); naive_solver. Qed.

Lemma unwrapDataKey_spec r c kr dk :
  unwrapDataKey r c kr = Ok dk ↔
  ∃ m, kr !! recMasterKeyID r = Some m ∧ validate c = Ok () ∧ recContext r = c ∧
    recVersion r = FormatVersion ∧ recAlgorithm r = Algorithm ∧
    recRecordID r ≠ "" ∧ recMasterKeyID r ≠ "" ∧ mkID m = recMasterKeyID r ∧
    recPayloadNonce r ≠ "" ∧ recCiphertext r ≠ "" ∧
    aes_key (mkKey m) = true ∧ len dk = 32 ∧ len (recWrapNonce r) = 12 ∧
    recWrappedDataKey r = gcm_seal (mkKey m) (recWrapNonce r) dk (aad "data-key-wrap" r c).
Proof.
  unfold unwrapDataKey. repeat setoid_rewrite guard_bind.
  repeat setoid_rewrite of_option_bind.
  repeat setoid_rewrite guard_bind. repeat setoid_rewrite newGCM_bind.
  repeat setoid_rewrite guard_bind. bool_prop. rewrite equal_true. split.
  - intros (Hv & [Hf Ha] & [[Hr Hm] Hc] & m & Hk & Hid & Hne & Hkey & Hn & HR).
    bool_prop. rewrite !len_zero in Hne. apply of_option_bind in HR as (dk' & Ho & HR).
    apply guard_bind in HR as [Hl [= ->]]. bool_prop.
    apply seal_open in Ho; [|done..]. exists m. split_and!; tauto.
  - intros (m & Hk & Hv & Hc & Hf & Ha & Hr & Hm & Hid & Hpn & Hct & Hkey & Hl & Hn & Hw).
    split_and!; try done. exists m. bool_prop. rewrite !len_zero. split_and!; try done.
    + intros Hz. by rewrite Hz in Hn.
    + intros Hz. rewrite Hw in Hz. apply (f_equal len) in Hz. rewrite len_seal in Hz; [|done..].
      change (len "") with 0 in Hz. lia.
    + rewrite Hw, open_seal by done. cbn. by rewrite Hl.
Qed.

Lemma decryptPayload_spec r c dk p :
  len dk = 32 →
  decryptPayload r c dk = Ok p ↔
  len (recPayloadNonce r) = 12 ∧
  recCiphertext r = gcm_seal dk (recPayloadNonce r) p (aad "credential-payload" r c).
Proof.
  intros Hk%aes_key_32. unfold decryptPayload. rewrite newGCM_bind, guard_bind, of_option_Ok.
  rewrite negb_false_iff, Z.eqb_eq. split.
  - intros (_ & Hn & Ho). split; [done|]. by apply seal_open.
  - intros (Hn & ->). split_and!; [done..|]. by apply open_seal.
Qed.

Lemma Decrypt_sealed r c kr p :
  Decrypt r c kr = Ok p ↔ ∃ m dk, kr !! recMasterKeyID r = Some m ∧ sealed r c m dk p.
Proof.
  unfold Decrypt. rewrite bind_Ok. setoid_rewrite unwrapDataKey_spec. split.
  - intros (dk & (m & ? & Hm) & [? ?]%decryptPayload_spec); [|tauto].
    exists m, dk. split; [done|]. split; tauto.
  - intros (m & dk & Hk & []). exists dk. split; [|apply decryptPayload_spec; tauto].
    exists m. split_and!; try tauto.
    + intros Hz. rewrite Hz in *. naive_solver.
    + intros Hz. rewrite sealed_payload0 in Hz. apply (f_equal len) in Hz.
      rewrite len_seal in Hz; [|apply aes_key_32|]; try tauto.
      change (len "") with 0 in Hz. pose proof (len_nonneg p). lia.
Qed.

Lemma sealed_unwrap r c kr m dk p :
  kr !! recMasterKeyID r = Some m → sealed r c m dk p → unwrapDataKey r c kr = Ok dk.
Proof.
  intros Hk Hs. assert (Decrypt r c kr = Ok p) as Hd by (apply Decrypt_sealed; eauto).
  unfold Decrypt in Hd. apply bind_Ok in Hd as (dk' & Hu & _).
  apply unwrapDataKey_spec in Hu as Hu'. destruct Hu' as (m' & Hk' & Hu'). simplify_eq.
  destruct Hs. destruct Hu' as (_ & _ & _ & _ & _ & _ & _ & _ & _ & Ha & _ & Hn & Hw).
  rewrite sealed_wrap0 in Hw. apply (f_equal (λ w, gcm_open (mkKey m) (recWrapNonce r) w
    (aad "data-key-wrap" r c))) in Hw. rewrite !open_seal in Hw by done. naive_solver.
Qed.

Lemma draw_Ok what src n b src' :
  draw what src n = Ok (b, src') ↔ (n ≤ String.length src)%nat ∧ b = take_str n src ∧ src' = drop_str n src.
Proof.
  unfold draw, randomBytes. rewrite of_option_Ok. case_match eqn:E.
  - apply Nat.leb_le in E. naive_solver.
  - apply Nat.leb_gt in E. naive_solver lia.
Qed.

Lemma draw_enough what src n :
  (n ≤ String.length src)%nat → draw what src n = Ok (take_str n src, drop_str n src).
Proof. intros. by apply draw_Ok. Qed.

Lemma take_str_len n src : (n ≤ String.length src)%nat → len (take_str n src) = Z.of_nat n.
Proof. intros. unfold len. by rewrite length_take_str. Qed.

(** The record [Encrypt] builds from the first 72 bytes of entropy. *)
Lemma Encrypt_total p c m src :
  validate c = Ok () → master_ok m → (72 ≤ String.length src)%nat →
  ∃ r dk, Encrypt p c m src = Ok r ∧ sealed r c m dk p ∧
    recMasterKeyID r = mkID m ∧ dk = take_str 32 (drop_str 16 src) ∧
    recRecordID r = EncodeToString (take_str 16 src).
Proof.
  intros Hc [Hid Hk] Hsrc. unfold Encrypt. rewrite Hc, (proj2 (String.eqb_neq _ _) Hid).
  cbn [is_ok negb orb guard_err mbind result_bind].
  rewrite draw_enough by (unfold recordIDSize; lia). cbn [mbind result_bind].
  rewrite draw_enough by (rewrite length_drop_str; unfold keySize, recordIDSize; lia).
  cbn [mbind result_bind]. set (dk := take_str keySize _).
  assert (len dk = 32) as Hdk.
  { unfold dk. rewrite take_str_len; [done|]. rewrite length_drop_str. unfold keySize, recordIDSize; lia. }
  unfold newGCM. rewrite !aes_key_32 by done. cbn [mbind result_bind].
  rewrite draw_enough by (rewrite !length_drop_str; unfold keySize, recordIDSize, nonceSize; lia).
  cbn [mbind result_bind].
  rewrite draw_enough by (rewrite !length_drop_str; unfold keySize, recordIDSize, nonceSize; lia).
  cbn [mbind result_bind]. do 2 eexists. split; [reflexivity|]. split_and!; try reflexivity.
  split; cbn [with_wrap with_payload recContext recVersion recAlgorithm recRecordID recMasterKeyID
    recPayloadNonce recWrapNonce recCiphertext recWrappedDataKey];
    rewrite ?take_str_len; rewrite ?length_drop_str; unfold keySize, recordIDSize, nonceSize; try lia;
    try done; split_and!; try done.
  - intros Hz. apply (f_equal len) in Hz. rewrite len_EncodeToString, take_str_len in Hz by lia. done.
  - by apply aes_key_32.
Qed.

Lemma Rewrap_total r c kr target src m dk p :
  kr !! recMasterKeyID r = Some m → sealed r c m dk p → master_ok target →
  (12 ≤ String.length src)%nat →
  ∃ r', Rewrap r c kr target src = Ok r' ∧ sealed r' c target dk p ∧
    recMasterKeyID r' = mkID target ∧ recRecordID r' = recRecordID r ∧ recContext r' = recContext r ∧
    recPayloadNonce r' = recPayloadNonce r ∧ recCiphertext r' = recCiphertext r.
Proof.
  intros Hk Hs [Hid Hkey] Hsrc. unfold Rewrap.
  rewrite (proj2 (String.eqb_neq _ _) Hid), (sealed_unwrap _ _ _ _ _ _ Hk Hs).
  cbn [guard_err mbind result_bind]. destruct Hs as [[Hv Hc] [Hf Ha] [Hr [Hm Hi]] [Haes Hdk] [Hn Hw] Hp Hwr].
  assert (decryptPayload r c dk = Ok p) as -> by by apply decryptPayload_spec.
  cbn [mbind result_bind]. unfold newGCM. rewrite aes_key_32 by done. cbn [mbind result_bind].
  rewrite draw_enough by done. cbn [mbind result_bind]. eexists. split; [reflexivity|].
  split_and!; try reflexivity.
  split; cbn [with_wrap with_master recContext recVersion recAlgorithm recRecordID recMasterKeyID
    recPayloadNonce recWrapNonce recCiphertext recWrappedDataKey]; try done; split_and!; try done.
  - by apply aes_key_32.
  - by rewrite take_str_len.
Qed.

(** C9: [Decrypt] accepts exactly the records sealed for the expected
    context under the keyring's key of the record's own key identifier, and
    then returns the payload they were sealed from; in particular it accepts
    no other context, format version, algorithm or key. *)
Theorem decrypt_exact r c kr p :
  Decrypt r c kr = Ok p ↔
  ∃ m dk, kr !! recMasterKeyID r = Some m ∧ sealed r c m dk p.
Proof. apply Decrypt_sealed. Qed.

(** C10: encryption followed by decryption is the identity: with a valid
    context, a well-formed master key and 72 bytes of entropy [Encrypt]
    produces a record, bound to that context and key, that [Decrypt] opens to
    the same plaintext with every keyring holding the key. *)
Theorem encrypt_decrypt_roundtrip p c m src kr :
  validate c = Ok () → master_ok m → (72 ≤ String.length src)%nat → kr !! mkID m = Some m →
  ∃ r, Encrypt p c m src = Ok r ∧ recContext r = c ∧ recMasterKeyID r = mkID m ∧
       Decrypt r c kr = Ok p.
Proof.
  intros Hc Hm Hs Hk. destruct (Encrypt_total p c m src Hc Hm Hs) as (r & dk & He & Hse & Hi & _).
  exists r. split_and!; [done|apply Hse|done|]. apply Decrypt_sealed. exists m, dk. by rewrite Hi.
Qed.

(** [Rewrap] either reports the error [Decrypt] reports, or produces a
    record under the target key whose payload ciphertext, payload nonce,
    record identifier and context are those of the original and which
    decrypts to the same plaintext with any keyring holding the target. *)
Lemma rewrap_preserves r c kr target src :
  master_ok target → (12 ≤ String.length src)%nat →
  match Decrypt r c kr with
  | Err e => Rewrap r c kr target src = Err e
  | Ok p => ∃ r', Rewrap r c kr target src = Ok r' ∧
      recMasterKeyID r' = mkID target ∧ recRecordID r' = recRecordID r ∧
      recContext r' = c ∧ recPayloadNonce r' = recPayloadNonce r ∧
      recCiphertext r' = recCiphertext r ∧
      ∀ kr', kr' !! mkID target = Some target → Decrypt r' c kr' = Ok p
  end.
Proof.
  intros Ht Hs. destruct (Decrypt r c kr) as [p|e] eqn:Hd.
  - apply Decrypt_sealed in Hd as (m & dk & Hk & Hse).
    destruct (Rewrap_total r c kr target src m dk p Hk Hse Ht Hs)
      as (r' & He & Hse' & Hi & Hr & Hc & Hn & Hct).
    exists r'. split_and!; try done; [rewrite Hc; apply Hse|].
    intros kr' Hk'. apply Decrypt_sealed. exists target, dk. by rewrite Hi.
  - unfold Rewrap. destruct Ht as [Hid _]. rewrite (proj2 (String.eqb_neq _ _) Hid).
    unfold Decrypt in Hd. cbn [guard_err mbind result_bind].
    destruct (unwrapDataKey r c kr) as [dk|]; [|by simplify_eq/=]. cbn [mbind result_bind] in *. by rewrite Hd.
Qed.

(** [RotateDataKey] re-encrypts: on every record [Decrypt] opens it
    produces a record of the same context under the target key and the fresh
    data key drawn from the entropy, with the same plaintext; it fails with
    [Decrypt]'s error otherwise. *)
Lemma rotate_data_key_preserves r c kr target src :
  master_ok target → (72 ≤ String.length src)%nat →
  match Decrypt r c kr with
  | Err e => RotateDataKey r c kr target src = Err e
  | Ok p => ∃ r', RotateDataKey r c kr target src = Ok r' ∧
      sealed r' c target (take_str 32 (drop_str 16 src)) p ∧
      ∀ kr', kr' !! mkID target = Some target → Decrypt r' c kr' = Ok p
  end.
Proof.
  intros Ht Hs. unfold RotateDataKey. destruct (Decrypt r c kr) as [p|e] eqn:Hd; [|done].
  cbn [mbind result_bind]. apply Decrypt_sealed in Hd as (m & dk & Hk & Hse).
  destruct (Encrypt_total p c target src) as (r' & dk' & He & Hse' & Hi & -> & _); try done; [apply Hse|].
  exists r'. split_and!; try done. intros kr' Hk'. apply Decrypt_sealed. exists target, (take_str 32 (drop_str 16 src)). by rewrite Hi.
Qed.
End EnvelopeSpec.

(** C27: the associated data separates purposes and binds every field: two
    associated-data strings over UTF-8 fields agree only for the same purpose,
    format version, algorithm, record, organization, credential, schema and
    credential version and, for a wrapped data key, the same master key. *)
Theorem aad_binds_every_field purpose purpose' r r' c c' :
  valid_utf8 purpose = true → valid_utf8 purpose' = true →
  aad_clean r c → aad_clean r' c' →
  aad purpose r c = aad purpose' r' c' →
  purpose = purpose' ∧ recVersion r = recVersion r' ∧ recAlgorithm r = recAlgorithm r' ∧
  recRecordID r = recRecordID r' ∧ c = c' ∧
  (purpose = "data-key-wrap" → recMasterKeyID r = recMasterKeyID r').
Proof. apply aad_injective. Qed.

(** ** Concrete records *)

Module EnvelopeExample.
#[local] Existing Instances toy_crypto toy_crypto_laws.
Definition context : EnvContext := mkContext "credential-a" "org-a" 1 1.
Definition old_key : MasterKey := mkMasterKey "key-a" (stream 32 5).
Definition new_key : MasterKey := mkMasterKey "key-b" (stream 32 90).
Definition ring : gmap string MasterKey := {[ "key-a" := old_key; "key-b" := new_key ]}.
Definition record : EnvRecord :=
  match Encrypt "payload" context old_key (stream 72 1) with Ok r => r | Err _ => mkRecord 0 "" "" "" context "" "" "" "" end.
End EnvelopeExample.
Import EnvelopeExample.

Lemma decrypt_exact_witness :
  ∃ m dk, ring !! recMasterKeyID record = Some m ∧ sealed (H:=toy_crypto) record context m dk "payload".
Proof. apply (decrypt_exact (CL:=toy_crypto_laws)). vm_compute. reflexivity. Defined.

Lemma encrypt_decrypt_roundtrip_witness :
  ∃ r, Encrypt (CR:=toy_crypto) "payload" context old_key (stream 72 1) = Ok r ∧ recContext r = context ∧
       recMasterKeyID r = "key-a" ∧ Decrypt (CR:=toy_crypto) r context ring = Ok "payload".
Proof.
  apply (encrypt_decrypt_roundtrip (CL:=toy_crypto_laws)); [reflexivity|split; [done|reflexivity]| |reflexivity].
  vm_compute. lia.
Defined.

Lemma rewrap_preserves_witness :
  ∃ r', Rewrap (CR:=toy_crypto) record context ring new_key (stream 12 3) = Ok r' ∧
        recMasterKeyID r' = "key-b" ∧ Decrypt (CR:=toy_crypto) r' context ring = Ok "payload".
Proof.
  pose proof (rewrap_preserves (CL:=toy_crypto_laws) record context ring new_key (stream 12 3)) as H.
  assert (Decrypt (CR:=toy_crypto) record context ring = Ok "payload") as Hd by (vm_compute; reflexivity).
  rewrite Hd in H.
  destruct H as (r' & Hr & Hi & _ & _ & _ & _ & Ho); [split; [done|reflexivity]|vm_compute; lia|].
  exists r'. split; [exact Hr|]. split; [exact Hi|]. apply Ho. reflexivity.
Defined.

Lemma rotate_data_key_preserves_witness :
  ∃ r', RotateDataKey (CR:=toy_crypto) record context ring new_key (stream 72 3) = Ok r' ∧
        Decrypt (CR:=toy_crypto) r' context ring = Ok "payload".
Proof.
  pose proof (rotate_data_key_preserves (CL:=toy_crypto_laws) record context ring new_key (stream 72 3)) as H.
  assert (Decrypt (CR:=toy_crypto) record context ring = Ok "payload") as Hd by (vm_compute; reflexivity).
  rewrite Hd in H.
  destruct H as (r' & Hr & _ & Ho); [split; [done|reflexivity]|vm_compute; lia|].
  exists r'. split; [exact Hr|]. apply Ho. reflexivity.
Defined.

Lemma aad_binds_every_field_witness :
  "credential-payload" = "credential-payload" ∧ recVersion record = 1 ∧ context = context.
Proof.
  destruct (aad_binds_every_field "credential-payload" "credential-payload" record record context context)
    as (H1 & H2 & H3 & H4 & H5 & _);
    [reflexivity|reflexivity|split; vm_compute; (reflexivity || discriminate)
    |split; vm_compute; (reflexivity || discriminate)|reflexivity|].
  split; [exact H1|split; [reflexivity|exact H5]].
Defined.
