(* ===== verification/MasterKey.v ===== *)
(** * Package masterkey (src/masterkey/loader.go)

    The loader of the current and the optional previous master key: [Load]
    reads both files, accepts only private regular files of exactly 32 bytes
    and builds the keyring.  The file system is a finite map from paths to
    files, each with what its metadata and its reads report. *)

From S2P Require Import Prelude GoStrings Crypto Envelope.

Definition keySize : nat := 32.

Inductive KeyError : Type :=
| ErrKeyFile (label : string)
| ErrKeyPermissions (label : string)
| ErrKeyLength (label : string)
| ErrDuplicateKey.
#[export] Instance KeyError_eq_dec : EqDecision KeyError.
Proof. solve_decision. Defined.

(** What a read at the end of the content reports. *)
Inductive read_end : Type := ReadEOF | ReadError | ReadMore.

(** A file that can be opened: [fInfo] is [None] when [Stat] fails, otherwise
    whether the file is regular and its permission bits; [fContent] are the
    bytes it delivers before end of file or, if [fFault], before an I/O error;
    [fAgain] is what one more read reports after end of file. *)
Record file : Type := mkFile {
  fInfo : option (bool * Z);
  fContent : string;
  fFault : bool;
  fAgain : read_end
}.

Record Config : Type := mkConfig { CurrentPath : string; PreviousPath : string }.

Record KeySet : Type := mkKeySet {
  Current : MasterKey;
  Previous : option MasterKey;
  Keyring : gmap string MasterKey
}.

Section Loader.
Context `{CR : Crypto}.

(** [io.ReadFull] into [n] bytes: the count, with the error [EOF] when
    nothing was read, [ErrUnexpectedEOF] when the buffer was not filled, and
    the reader's own error otherwise. *)
Inductive read_full_error : Type := EOF | ErrUnexpectedEOF | ErrIO.
Definition ReadFull (f : file) (n : nat) : nat * option read_full_error :=
  let k := String.length (fContent f) in
  if (n <=? k)%nat then (n, None)
  else (k, Some (if fFault f then ErrIO else if (k =? 0)%nat then EOF else ErrUnexpectedEOF)).

Definition key_id (raw : string) : string :=
  "sha256:" +:+ EncodeToString (take_str 16 (sha256 raw)).

Definition loadOne (fs : gmap string file) (label path : string) : result KeyError MasterKey :=
  _ ← guard_err (String.eqb path "") (ErrKeyFile label);
  f ← of_option (ErrKeyFile label) (fs !! path);
  info ← of_option (ErrKeyFile label) (fInfo f);
  _ ← guard_err (negb info.1) (ErrKeyFile label);
  _ ← guard_err (negb (Z.land info.2 0x3F =? 0)) (ErrKeyPermissions label);
  match ReadFull f (S keySize) with
  | (_, Some EOF) | (_, Some ErrIO) => Err (ErrKeyFile label)
  | (n, _) =>
      _ ← guard_err (negb (n =? keySize)%nat) (ErrKeyLength label);
      _ ← match fAgain f with
          | ReadEOF => Ok ()
          | ReadError => Err (ErrKeyFile label)
          | ReadMore => Err (ErrKeyLength label)
          end;
      let raw := take_str keySize (fContent f) in
      map_err (λ _, ErrKeyLength label) (NewMasterKey (key_id raw) raw)
  end.

Definition Load (fs : gmap string file) (config : Config) : result KeyError KeySet :=
  current ← loadOne fs "current" (CurrentPath config);
  let keyring := {[ mkID current := current ]} in
  if String.eqb (PreviousPath config) "" then Ok (mkKeySet current None keyring)
  else
    previous ← loadOne fs "previous" (PreviousPath config);
    _ ← guard_err (String.eqb (mkID previous) (mkID current)) ErrDuplicateKey;
    Ok (mkKeySet current (Some previous) (<[mkID previous := previous]> keyring)).
End Loader.

(** ** What the loader accepts *)

Section LoaderSpec.
Context `{CR : Crypto}.

(** A private regular file holding exactly one raw key. *)
Definition key_file (fs : gmap string file) (path raw : string) : Prop :=
  path ≠ "" ∧ len raw = 32 ∧
  ∃ f perm, fs !! path = Some f ∧ fInfo f = Some (true, perm) ∧ Z.land perm 0x3F = 0 ∧
    fContent f = raw ∧ fFault f = false ∧ fAgain f = ReadEOF.

Definition key_of (raw : string) : MasterKey := mkMasterKey (key_id raw) raw.

Lemma key_id_nonempty raw : key_id raw ≠ "".
Proof. done. Qed.

Lemma key_of_ok raw : len raw = 32 → master_ok (key_of raw).
Proof. intros. split; [apply key_id_nonempty|done]. Qed.

Lemma loadOne_spec fs label path k :
  loadOne fs label path = Ok k ↔ ∃ raw, key_file fs path raw ∧ k = key_of raw.
Proof.
  unfold loadOne. rewrite guard_bind, of_option_bind. setoid_rewrite of_option_bind.
  repeat setoid_rewrite guard_bind. split.
  - intros (Hp & f & Hf & [reg perm] & Hi & Hreg & Hperm & Hr). bool_prop. simpl in Hreg, Hperm. subst reg.
    unfold ReadFull in Hr. destruct (S keySize <=? _)%nat eqn:Hle.
    { by destruct f. }
    apply Nat.leb_gt in Hle. destruct (fFault f) eqn:Hfault; [done|].
    destruct (String.length (fContent f) =? 0)%nat eqn:H0; [done|].
    apply guard_bind in Hr as [Hlen Hr]. bool_prop. apply Nat.eqb_eq in Hlen.
    destruct (fAgain f) eqn:Hag; [|done..]. cbn [mbind result_bind] in Hr.
    apply map_err_Ok in Hr.
    assert (take_str keySize (fContent f) = fContent f) as Hraw.
    { rewrite <-Hlen. pose proof (take_str_app (fContent f) "") as Ht. by rewrite app_nil_r_str in Ht. }
    rewrite Hraw in Hr. unfold NewMasterKey in Hr. case_match; [done|].
    exists (fContent f). split; [|by simplify_eq].
    split_and!; [done|unfold len; rewrite Hlen; done|]. by exists f, perm.
  - intros (raw & (Hp & Hl & f & perm & Hf & Hi & Hperm & <- & Hfault & Hag) & ->).
    split; [by apply String.eqb_neq|]. exists f. split; [done|]. exists (true, perm).
    split; [done|]. split; [done|]. split; [by cbn [snd]; rewrite Hperm|].
    assert (String.length (fContent f) = keySize) as Hlen by (unfold len in Hl; unfold keySize; lia).
    assert (take_str keySize (fContent f) = fContent f) as Hraw.
    { rewrite <-Hlen. pose proof (take_str_app (fContent f) "") as Ht. by rewrite app_nil_r_str in Ht. }
    unfold ReadFull. rewrite Hlen, Hfault, Hag, Hraw. cbn. unfold NewMasterKey.
    by rewrite Hl.
Qed.

(** What the rest of the service relies on: both keys are usable, their
    identifiers differ and the keyring holds exactly them, each under its
    own identifier. *)
Record set_ok (s : KeySet) : Prop := {
  set_current : master_ok (Current s);
  set_previous p : Previous s = Some p → master_ok p ∧ mkID p ≠ mkID (Current s);
  set_keyring id k : Keyring s !! id = Some k ↔
    mkID k = id ∧ (k = Current s ∨ Previous s = Some k)
}.

Lemma Load_spec fs config s :
  Load fs config = Ok s ↔
  ∃ raw, key_file fs (CurrentPath config) raw ∧
    ((PreviousPath config = "" ∧ s = mkKeySet (key_of raw) None {[ key_id raw := key_of raw ]}) ∨
     ∃ raw', key_file fs (PreviousPath config) raw' ∧ key_id raw' ≠ key_id raw ∧
       s = mkKeySet (key_of raw) (Some (key_of raw'))
             (<[key_id raw' := key_of raw']> {[ key_id raw := key_of raw ]})).
Proof.
  unfold Load. rewrite bind_Ok. setoid_rewrite loadOne_spec. split.
  - intros (k & (raw & Hraw & ->) & HL). exists raw. split; [done|]. case_match eqn:He.
    + left. apply String.eqb_eq in He. by simplify_eq.
    + right. apply bind_Ok in HL as (p & (raw' & Hraw' & ->)%loadOne_spec & HL).
      apply guard_bind in HL as [Hne HL]. bool_prop. exists raw'. by simplify_eq.
  - intros (raw & Hraw & HL). eexists. split; [by eexists|].
    destruct HL as [[-> ->]|(raw' & Hraw' & Hne & ->)]; [done|].
    rewrite (proj2 (String.eqb_neq _ _)); [|by destruct Hraw'].
    rewrite (proj2 (loadOne_spec _ _ _ (key_of raw'))) by eauto. cbn [mbind result_bind mkID key_of].
    by rewrite (proj2 (String.eqb_neq _ _) Hne).
Qed.

Lemma Load_set_ok fs config s : Load fs config = Ok s → set_ok s.
Proof.
  intros (raw & Hraw & HL)%Load_spec.
  assert (master_ok (key_of raw)) by (apply key_of_ok; apply Hraw).
  destruct HL as [[_ ->]|(raw' & Hraw' & Hne & ->)]; split; cbn [Current Previous Keyring]; try done.
  - intros id k. rewrite lookup_singleton_Some. naive_solver.
  - intros p [= <-]. split; [apply key_of_ok; apply Hraw'|done].
  - intros id k. rewrite lookup_insert_Some, lookup_singleton_Some. unfold key_of at 1 3. simpl. naive_solver.
Qed.

Lemma set_ok_current s : set_ok s → Keyring s !! mkID (Current s) = Some (Current s).
Proof. intros []. apply set_keyring0. auto. Qed.

(** C28: [Load] fails closed: it returns a key set exactly when the current
    path and, if one is configured, the previous path name private regular
    files of exactly 32 bytes with different key identifiers.  The set then
    holds the bytes of those files and nothing else: the current key is the
    current file's, the previous key the previous file's or absent where none is
    configured, each under the identifier derived from the digest of its bytes,
    and the keyring finds both and no others. *)
Theorem load_exact fs config s :
  Load fs config = Ok s ↔
  ∃ raw, key_file fs (CurrentPath config) raw ∧
    Current s = mkMasterKey ("sha256:" +:+ EncodeToString (take_str 16 (sha256 raw))) raw ∧
    ((PreviousPath config = "" ∧ Previous s = None) ∨
     ∃ raw', key_file fs (PreviousPath config) raw' ∧
       Previous s = Some (mkMasterKey ("sha256:" +:+ EncodeToString (take_str 16 (sha256 raw'))) raw') ∧
       EncodeToString (take_str 16 (sha256 raw')) ≠ EncodeToString (take_str 16 (sha256 raw))) ∧
    ∀ id k, Keyring s !! id = Some k ↔ mkID k = id ∧ (k = Current s ∨ Previous s = Some k).
Proof.
  split.
  - intros HL. pose proof (set_keyring _ (Load_set_ok _ _ _ HL)) as Hring. apply Load_spec in HL as (raw & Hraw & HL).
    exists raw. split; [done|]. destruct HL as [[Hp ->]|(raw' & Hraw' & Hne & ->)]; split_and!; try done; [by left|right].
    exists raw'. split_and!; [done..|]. intros E. apply Hne. unfold key_id. by rewrite E.
  - intros (raw & Hraw & Hc & Hp & Hring). apply Load_spec. exists raw. split; [done|].
    destruct s as [c p ring]. cbn [Current Previous Keyring] in *. subst c. destruct Hp as [[Hp ->]|(raw' & Hraw' & -> & Hne)].
    + left. split; [done|]. f_equal. apply map_eq. intros id. apply option_eq. intros k.
      rewrite Hring, lookup_singleton_Some. unfold key_of, key_id. naive_solver.
    + right. exists raw'. split; [done|]. assert (key_id raw' ≠ key_id raw) as Hne' by (unfold key_id; intros E%(inj _); done). split; [done|].
      f_equal. apply map_eq. intros id. apply option_eq. intros k.
      rewrite Hring, lookup_insert_Some, lookup_singleton_Some. unfold key_of in *. fold (key_id raw) (key_id raw'). naive_solver.
Qed.
End LoaderSpec.

Module MasterKeyExample.
#[local] Existing Instances toy_crypto toy_crypto_laws.
Definition fs : gmap string file := {[
  "/keys/current" := mkFile (Some (true, 0x180)) (stream 32 5) false ReadEOF;
  "/keys/previous" := mkFile (Some (true, 0x100)) (stream 32 90) false ReadEOF ]}.
Definition config : Config := mkConfig "/keys/current" "/keys/previous".
End MasterKeyExample.

Lemma load_exact_witness : ∃ s, Load (CR:=toy_crypto) MasterKeyExample.fs MasterKeyExample.config = Ok s ∧
  mkKey (Current s) = stream 32 5 ∧ mkKey <$> Previous s = Some (stream 32 90).
Proof.
  pose proof (load_exact (CR:=toy_crypto) MasterKeyExample.fs MasterKeyExample.config) as HL.
  destruct (Load _ _) as [s|] eqn:E; [|vm_compute in E; discriminate E]. exists s. split; [reflexivity|].
  destruct (proj1 (HL s) eq_refl) as (raw & (_ & _ & f & perm & Hf & _ & _ & Hraw & _) & -> & Hp & _).
  destruct Hp as [[Hp _]|(raw' & (_ & _ & f' & perm' & Hf' & _ & _ & Hraw' & _) & -> & _)]; [discriminate Hp|].
  vm_compute in Hf, Hf'. injection Hf as <-. injection Hf' as <-. subst raw raw'. split; vm_compute; reflexivity.
Defined.
