(* ===== verification/GoTime.v ===== *)
(** * Formatting instants

    [time.Time.Format(time.RFC3339Nano)] and [time.Time.MarshalJSON] on the
    instants of the prelude: the proleptic Gregorian calendar counted from
    January 1 of year 1.  The digests of binding and resolution requests are
    taken over these renderings. *)

From Stdlib Require Import Ascii.
From S2P Require Import Prelude GoStrings.

(** ** The calendar *)

Record date : Type := mkDate { dYear : Z; dMonth : Z; dDay : Z }.

(** Days are counted from March 1 of year 0 inside 400-year eras. *)
Definition civil (day : Z) : date :=
  let z := day + 306 in
  let era := z / 146097 in
  let doe := z `mod` 146097 in
  let yoe := (doe - doe / 1460 + doe / 36524 - doe / 146096) / 365 in
  let doy := doe - (365 * yoe + yoe / 4 - yoe / 100) in
  let mp := (5 * doy + 2) / 153 in
  let month := if mp <? 10 then mp + 3 else mp - 9 in
  mkDate (yoe + era * 400 + (if month <=? 2 then 1 else 0)) month (doy - (153 * mp + 2) / 5 + 1).

Fixpoint zeros (n : nat) : string := match n with O => "" | S n' => "0" +:+ zeros n' end.

(** A decimal padded with zeros to a width, a minus sign before the padding. *)
Definition pad_int (width : nat) (z : Z) : string :=
  let digits := pretty (Z.to_N (Z.abs z)) in
  (if z <? 0 then "-" else "") +:+ zeros (width - String.length digits) +:+ digits.

Fixpoint trim_zeros (s : string) : string :=
  match s with
  | "" => ""
  | String a s' => match trim_zeros s' with
                   | "" => if bz a =? 48 then "" else String a ""
                   | t => String a t
                   end
  end.

(** The fraction of a second, without trailing zeros and without a bare dot. *)
Definition fraction (nanos : Z) : string :=
  match trim_zeros (pad_int 9 nanos) with "" => "" | f => "." +:+ f end.

(** [offset] is the zone's offset east of UTC in minutes. *)
Definition zone (offset : Z) : string :=
  if offset =? 0 then "Z"
  else (if offset <? 0 then "-" else "+") +:+ pad_int 2 (Z.abs offset / 60) +:+ ":" +:+ pad_int 2 (Z.abs offset `mod` 60).

Definition Format_RFC3339Nano (t : time) (offset : Z) : string :=
  let local := t + offset * Minute in
  let secs := local / Second in
  let d := civil (secs / 86400) in
  let s := secs `mod` 86400 in
  pad_int 4 (dYear d) +:+ "-" +:+ pad_int 2 (dMonth d) +:+ "-" +:+ pad_int 2 (dDay d) +:+ "T" +:+
  pad_int 2 (s / 3600) +:+ ":" +:+ pad_int 2 ((s / 60) `mod` 60) +:+ ":" +:+ pad_int 2 (s `mod` 60) +:+
  fraction (local `mod` Second) +:+ zone offset.

(** [MarshalJSON]: the quoted rendering, refused for years outside
    [0, 9999] and zones of 24 hours or more. *)
Definition json_time (t : time) (offset : Z) : option string :=
  let year := dYear (civil ((t + offset * Minute) / Second / 86400)) in
  if (0 <=? year) && (year <=? 9999) && (Z.abs offset / 60 <=? 23)
  then Some (String (zb 34) (Format_RFC3339Nano t offset +:+ String (zb 34) "")) else None.

Example format_zero : Format_RFC3339Nano 0 0 = "0001-01-01T00:00:00Z".
Proof. reflexivity. Qed.
Example format_leap : Format_RFC3339Nano ((738944 * 86400 + 45296) * Second + 120000000) (-330) = "2024-02-29T07:04:56.12-05:30".
Proof. vm_compute. reflexivity. Qed.
