(* ===== verification/TimeParse.v ===== *)
(** * Reading instants back

    [time.Time.UnmarshalJSON] accepts RFC 3339 and a little more: an hour of one
    digit, a comma before the fraction and zones up to 24:60.  [parse_zoned] is
    its parser with the calendar inverted; it also yields the zone, and
    [parse_rfc3339] is the instant alone.  [parse_format] shows that it returns
    the instant that [GoTime.Format_RFC3339Nano] wrote in UTC, for every year
    with four digits. *)

From Stdlib Require Import Ascii.
From S2P Require Import Prelude GoStrings Json GoTime.

(** ** The calendar, inverted *)

Definition leap_year (y : Z) : bool :=
  (y `mod` 4 =? 0) && (negb (y `mod` 100 =? 0) || (y `mod` 400 =? 0)).
Definition days_in (month year : Z) : Z :=
  if month =? 2 then (if leap_year year then 29 else 28)
  else if (month =? 4) || (month =? 6) || (month =? 9) || (month =? 11) then 30 else 31.

Definition days_from_civil (d : date) : Z :=
  let y := dYear d - (if dMonth d <=? 2 then 1 else 0) in
  let mp := if dMonth d <=? 2 then dMonth d + 9 else dMonth d - 3 in
  let yoe := y `mod` 400 in
  let doy := (153 * mp + 2) / 5 + dDay d - 1 in
  y / 400 * 146097 + (365 * yoe + yoe / 4 - yoe / 100 + doy) - 306.

(** ** Fields *)

Definition digit_value (a : ascii) : Z := bz a - 48.

(** A decimal read from the left. *)
Fixpoint decimal (acc : Z) (s : string) : Z :=
  match s with "" => acc | String a s' => decimal (acc * 10 + digit_value a) s' end.

(** Exactly [n] digits. *)
Fixpoint read_digits (n : nat) (acc : Z) (s : string) : option (Z * string) :=
  match n with
  | O => Some (acc, s)
  | S n' => match s with
            | String a s' => if digit_byte a then read_digits n' (acc * 10 + digit_value a) s' else None
            | "" => None
            end
  end.
Definition read_field (n : nat) (lo hi : Z) (s : string) : option (Z * string) :=
  '(v, t) ← read_digits n 0 s; if (lo <=? v) && (v <=? hi) then Some (v, t) else None.
Definition read_byte (c : ascii) (s : string) : option string :=
  match s with String a s' => if bz a =? bz c then Some s' else None | "" => None end.

(** An hour of two digits, or of one if no second follows. *)
Definition read_hour (s : string) : option (Z * string) :=
  match read_digits 2 0 s with
  | Some (v, t) => if v <=? 23 then Some (v, t) else None
  | None => read_digits 1 0 s
  end.

(** The longest run of digits. *)
Fixpoint digit_run (s : string) : string * string :=
  match s with
  | String a s' => if digit_byte a then let '(d, t) := digit_run s' in (String a d, t) else ("", s)
  | "" => ("", "")
  end.

(** A dot or comma and at least one digit; digits beyond the ninth are dropped. *)
Definition read_fraction (s : string) : Z * string :=
  match s with
  | String a s' =>
      if (bz a =? 46) || (bz a =? 44) then
        match digit_run s' with
        | ("", _) => (0, s)
        | (d, t) => let kept := take_str 9 d in (decimal 0 kept * 10 ^ (9 - len kept), t)
        end
      else (0, s)
  | "" => (0, s)
  end.

(** The zone's offset east of UTC in minutes. *)
Definition read_zone (s : string) : option Z :=
  match s with
  | String a s' =>
      if (bz a =? 90) && String.eqb s' "" then Some 0
      else if (bz a =? 43) || (bz a =? 45) then
        '(h, s1) ← read_field 2 0 24 s'; s2 ← read_byte ":" s1; '(m, s3) ← read_field 2 0 60 s2;
        if String.eqb s3 "" then Some ((if bz a =? 45 then -1 else 1) * (h * 60 + m)) else None
      else None
  | "" => None
  end.

(** The instant and the zone's offset. *)
Definition parse_zoned (s : string) : option (time * Z) :=
  '(year, s) ← read_digits 4 0 s; s ← read_byte "-" s;
  '(month, s) ← read_field 2 1 12 s; s ← read_byte "-" s;
  '(day, s) ← read_field 2 1 (days_in month year) s; s ← read_byte "T" s;
  '(hour, s) ← read_hour s; s ← read_byte ":" s;
  '(minute, s) ← read_field 2 0 59 s; s ← read_byte ":" s;
  '(second, s) ← read_field 2 0 59 s;
  let '(nanos, s) := read_fraction s in
  offset ← read_zone s;
  let secs := days_from_civil (mkDate year month day) * 86400 + hour * 3600 + minute * 60 + second in
  Some (secs * Second + nanos - offset * Minute, offset).
Definition parse_rfc3339 (s : string) : option time := fst <$> parse_zoned s.

Example parse_leap :
  parse_rfc3339 "2024-02-29T07:04:56.12-05:30" = Some ((738944 * 86400 + 45296) * Second + 120000000).
Proof. vm_compute. reflexivity. Qed.
Example parse_no_such_day : parse_rfc3339 "2023-02-29T07:04:56Z" = None.
Proof. vm_compute. reflexivity. Qed.

(** ** The calendar round trip *)

Lemma civil_days day : days_from_civil (civil day) = day.
Proof.
  unfold days_from_civil, civil. cbn [dYear dMonth dDay].
  assert (0 ≤ (day + 306) `mod` 146097 < 146097) as Hdoe by (apply Z.mod_pos_bound; lia).
  assert (day + 306 = 146097 * ((day + 306) / 146097) + (day + 306) `mod` 146097) as Hday by (apply Z.div_mod; lia).
  revert Hdoe Hday. generalize ((day + 306) / 146097) ((day + 306) `mod` 146097). intros era doe Hdoe Hday.
  set (yoe := (doe - doe / 1460 + doe / 36524 - doe / 146096) / 365).
  assert (0 ≤ yoe ≤ 399) as Hyoe by (subst yoe; lia).
  assert (0 ≤ doe - (365 * yoe + yoe / 4 - yoe / 100) ≤ 365) as Hdoy by (subst yoe; lia).
  revert Hdoy. clearbody yoe. remember (doe - (365 * yoe + yoe / 4 - yoe / 100)) as doy eqn:E. intros Hdoy.
  set (mp := (5 * doy + 2) / 153). assert (0 ≤ mp ≤ 11) as Hmp by (subst mp; lia).
  clearbody mp.
  assert ((yoe + era * 400) / 400 = era) as Hera by lia.
  assert ((yoe + era * 400) `mod` 400 = yoe) as Hmod by lia.
  destruct (mp <? 10) eqn:Em; bool_facts.
  - rewrite (proj2 (Z.leb_gt (mp + 3) 2)) by lia. rewrite Z.add_0_r, Z.sub_0_r, Hera, Hmod.
    replace (mp + 3 - 3) with mp by lia. lia.
  - rewrite (proj2 (Z.leb_le (mp - 9) 2)) by lia.
    replace (yoe + era * 400 + 1 - 1) with (yoe + era * 400) by lia. rewrite Hera, Hmod.
    replace (mp - 9 + 9) with mp by lia. lia.
Qed.

Lemma civil_valid day :
  let d := civil day in 1 ≤ dMonth d ≤ 12 ∧ 1 ≤ dDay d ≤ days_in (dMonth d) (dYear d).
Proof.
  unfold days_in, leap_year, civil. cbn [dYear dMonth dDay]. cbv zeta.
  assert (0 ≤ (day + 306) `mod` 146097 < 146097) as Hdoe by (apply Z.mod_pos_bound; lia).
  revert Hdoe. generalize ((day + 306) / 146097) ((day + 306) `mod` 146097). intros era doe Hdoe.
  set (yoe := (doe - doe / 1460 + doe / 36524 - doe / 146096) / 365).
  assert (0 ≤ yoe ≤ 399) as Hyoe by (subst yoe; lia).
  assert (0 ≤ doe - (365 * yoe + yoe / 4 - yoe / 100) ≤ 365) as Hdoy by (subst yoe; lia).
  assert (doe - (365 * yoe + yoe / 4 - yoe / 100) = 365 →
    (yoe + 1) `mod` 4 = 0 ∧ ((yoe + 1) `mod` 100 ≠ 0 ∨ (yoe + 1) `mod` 400 = 0)) as Hleap.
  { subst yoe. split; lia. }
  revert Hdoy Hleap. clearbody yoe. generalize (doe - (365 * yoe + yoe / 4 - yoe / 100)). intros doy Hdoy Hleap.
  assert ((yoe + era * 400 + 1) `mod` 4 = (yoe + 1) `mod` 4) as E4 by lia.
  assert ((yoe + era * 400 + 1) `mod` 100 = (yoe + 1) `mod` 100) as E100 by lia.
  assert ((yoe + era * 400 + 1) `mod` 400 = (yoe + 1) `mod` 400) as E400 by lia.
  set (mp := (5 * doy + 2) / 153). assert (0 ≤ mp ≤ 11) as Hmp by (subst mp; lia).
  destruct (decide (mp = 11)) as [E|E].
  - rewrite E. change (11 <? 10) with false. cbv iota. change (11 - 9 =? 2) with true.
    change (11 - 9 <=? 2) with true. cbv iota.
    rewrite E4, E100, E400. split; [lia|]. case_match eqn:El; bool_facts; [subst mp; lia|].
    destruct (decide (doy = 365)) as [->|]; [|subst mp; lia].
    destruct (Hleap eq_refl) as [H4 H]. rewrite H4 in El. simpl in El. bool_facts. lia.
  - assert (mp = 0 ∨ mp = 1 ∨ mp = 2 ∨ mp = 3 ∨ mp = 4 ∨ mp = 5 ∨ mp = 6 ∨ mp = 7 ∨ mp = 8 ∨ mp = 9 ∨ mp = 10)
      as Hin by lia.
    repeat (destruct Hin as [Hin|Hin]; [rewrite Hin; split; [done|simpl; subst mp; lia]|]).
    rewrite Hin. split; [done|simpl; subst mp; lia].
Qed.

(** ** The text round trip *)

Definition all_digits : string → bool := forall_bytes digit_byte.

Lemma digit_byte_range a : digit_byte a = true ↔ 48 ≤ bz a ≤ 57.
Proof. apply in_range_true. Qed.

Lemma decimal_app acc s t : decimal acc (s +:+ t) = decimal (decimal acc s) t.
Proof. revert acc. induction s as [|a s IH]; intros acc; [done|]. rewrite app_cons. apply IH. Qed.

Lemma pretty_char_value x : (x < 10)%N → digit_value (pretty_N_char x) = Z.of_N x.
Proof.
  intros Hx. rewrite <-(N2Nat.id x) in *. set (n := N.to_nat x) in *. assert (n < 10)%nat as Hn by lia.
  clearbody n. clear Hx. do 10 (destruct n as [|n]; [done|]). lia.
Qed.

Lemma decimal_pretty_go x s : decimal 0 (pretty_N_go x s) = decimal (Z.of_N x) s.
Proof.
  revert s. induction (N.lt_wf_0 x) as [x _ IH]; intros s.
  destruct (decide (x = 0)%N) as [->|]; [by rewrite pretty_N_go_0|].
  rewrite pretty_N_go_step by lia. rewrite IH by (apply N.div_lt; lia). cbn [decimal].
  rewrite pretty_char_value by (apply N.mod_lt; lia). f_equal. lia.
Qed.

Lemma decimal_pretty n : decimal 0 (pretty n) = Z.of_N n.
Proof.
  unfold pretty, pretty_N. case_decide; [by subst|]. rewrite decimal_pretty_go. done.
Qed.

Lemma length_pretty_go k x s :
  (x < 10 ^ N.of_nat k)%N → (String.length (pretty_N_go x s) ≤ k + String.length s)%nat.
Proof.
  revert x s. induction k as [|k IH]; intros x s Hx.
  - assert (x = 0)%N as -> by (simpl in Hx; lia). by rewrite pretty_N_go_0.
  - destruct (decide (x = 0)%N) as [->|]; [rewrite pretty_N_go_0; lia|].
    rewrite pretty_N_go_step by lia.
    assert (x `div` 10 < 10 ^ N.of_nat k)%N as Hk.
    { rewrite Nat2N.inj_succ, N.pow_succ_r' in Hx. apply N.Div0.div_lt_upper_bound. lia. }
    pose proof (IH (x / 10)%N (String (pretty_N_char (x `mod` 10)) s) Hk) as H. simpl in H. lia.
Qed.

Lemma length_pretty k n : (0 < k)%nat → (n < 10 ^ N.of_nat k)%N → (String.length (pretty n) ≤ k)%nat.
Proof.
  intros Hk Hn. unfold pretty, pretty_N. case_decide; [simpl; lia|].
  pose proof (length_pretty_go k n "" Hn). simpl in *. lia.
Qed.

Lemma zeros_digits k : all_digits (zeros k) = true.
Proof. by induction k. Qed.
Lemma length_zeros k : String.length (zeros k) = k.
Proof.
  induction k as [|k IH]; [done|]. change (String.length (zeros (S k))) with (S (String.length (zeros k))). by rewrite IH.
Qed.
Lemma decimal_zeros k s : decimal 0 (zeros k +:+ s) = decimal 0 s.
Proof. induction k as [|k IH]; [done|]. done. Qed.

Lemma string_app_length s t : String.length (s +:+ t) = (String.length s + String.length t)%nat.
Proof. induction s as [|a s IH]; [done|]. rewrite app_cons. simpl. by rewrite IH. Qed.

(** A padded field is a run of digits of the width with the field's value. *)
Lemma pad_int_spec w z :
  (0 < w)%nat → 0 ≤ z < 10 ^ Z.of_nat w →
  String.length (pad_int w z) = w ∧ all_digits (pad_int w z) = true ∧ decimal 0 (pad_int w z) = z.
Proof.
  intros Hw [Hz Hlt]. unfold pad_int. rewrite (proj2 (Z.ltb_ge z 0)), app_nil_l_str by done.
  rewrite Z.abs_eq by done.
  assert (String.length (pretty (Z.to_N z)) ≤ w)%nat as Hl.
  { apply length_pretty; [done|]. apply N2Z.inj_lt. rewrite N2Z.inj_pow, Z2N.id, nat_N_Z by done. done. }
  split; [|split].
  - rewrite string_app_length.  rewrite length_zeros. lia.
  - unfold all_digits. rewrite forall_bytes_app. fold all_digits. rewrite zeros_digits. apply json_uint_digits.
  - rewrite decimal_zeros, decimal_pretty. lia.
Qed.

Lemma read_digits_spec s acc t :
  all_digits s = true → read_digits (String.length s) acc (s +:+ t) = Some (decimal acc s, t).
Proof.
  revert acc. induction s as [|a s IH]; intros acc H; [done|].
  unfold all_digits in H. simpl in H. bool_facts. rewrite app_cons. simpl. rewrite H. by apply IH.
Qed.

Lemma read_pad w z t :
  (0 < w)%nat → 0 ≤ z < 10 ^ Z.of_nat w → read_digits w 0 (pad_int w z +:+ t) = Some (z, t).
Proof.
  intros Hw Hz. destruct (pad_int_spec w z Hw Hz) as (Hl & Hd & Hv).
  pose proof (read_digits_spec _ 0 t Hd) as H. by rewrite Hl, Hv in H.
Qed.

Lemma read_field_pad z lo hi t :
  0 ≤ lo → hi ≤ 99 → lo ≤ z ≤ hi → read_field 2 lo hi (pad_int 2 z +:+ t) = Some (z, t).
Proof.
  intros Hlo Hhi Hz. unfold read_field. rewrite read_pad by (simpl; lia). simpl.
  by rewrite !(proj2 (Z.leb_le _ _)) by lia.
Qed.

Lemma read_hour_pad z t : 0 ≤ z ≤ 23 → read_hour (pad_int 2 z +:+ t) = Some (z, t).
Proof. intros Hz. unfold read_hour. rewrite read_pad by (simpl; lia). by rewrite (proj2 (Z.leb_le _ _)) by lia. Qed.

Lemma read_byte_app c t : read_byte c (String c "" +:+ t) = Some t.
Proof. rewrite app_cons, app_nil_l_str. simpl. by rewrite Z.eqb_refl. Qed.

Lemma digit_run_spec s a t :
  all_digits s = true → digit_byte a = false → digit_run (s +:+ String a t) = (s, String a t).
Proof.
  intros Hs Ha. unfold all_digits in Hs. induction s as [|b s IH]; [simpl; by rewrite Ha|].
  simpl in Hs. bool_facts. rewrite app_cons. simpl. rewrite H, IH; done.
Qed.

(** Trailing zeros of a fraction carry no value. *)
Lemma trim_zeros_spec s :
  all_digits s = true →
  all_digits (trim_zeros s) = true ∧ (String.length (trim_zeros s) ≤ String.length s)%nat ∧
  ∀ acc, decimal acc s = decimal acc (trim_zeros s) * 10 ^ (len s - len (trim_zeros s)).
Proof.
  unfold all_digits. induction s as [|a s IH].
  { intros _. split; [done|]. split; [done|]. intros acc. change (acc = acc * 1). lia. }
  simpl. intros [Ha Hs]%andb_prop.
  destruct (IH Hs) as (IH1 & IH2 & IH3). destruct (trim_zeros s) as [|b u] eqn:E.
  - destruct (bz a =? 48) eqn:E0; bool_facts.
    + split; [done|]. split; [simpl; lia|]. intros acc. rewrite IH3. simpl.
      rewrite len_cons. change (len "") with 0. rewrite !Z.sub_0_r, Z.pow_add_r by (pose proof (len_nonneg s); lia).
      unfold digit_value. rewrite E0. lia.
    + simpl. rewrite Ha. split; [done|]. split; [lia|]. intros acc. rewrite IH3.
      rewrite !len_cons. change (len "") with 0. simpl. f_equal. f_equal. lia.
  - split; [simpl in *; by rewrite Ha|]. split; [simpl in *; lia|]. intros acc. rewrite IH3.
    rewrite !len_cons. cbn [decimal]. f_equal. f_equal. lia.
Qed.

Lemma take_str_all n s : (String.length s ≤ n)%nat → take_str n s = s.
Proof.
  revert s. induction n as [|n IH]; intros [|a s] H; simpl in *; [done|lia|done|]. by rewrite IH by lia.
Qed.

Lemma read_fraction_spec n a t :
  0 ≤ n < Second → digit_byte a = false → bz a ≠ 46 → bz a ≠ 44 →
  read_fraction (fraction n +:+ String a t) = (n, String a t).
Proof.
  intros Hn Ha Hdot Hcomma. unfold fraction.
  destruct (pad_int_spec 9 n) as (Hl & Hd & Hv); [lia|done|].
  destruct (trim_zeros_spec _ Hd) as (Hd' & Hl' & Hv'). specialize (Hv' 0). rewrite Hv in Hv'.
  destruct (trim_zeros (pad_int 9 n)) as [|b u] eqn:E.
  - rewrite app_nil_l_str. simpl. rewrite !(proj2 (Z.eqb_neq _ _)) by done. simpl in Hv'. by rewrite Hv'.
  - rewrite <-app_assoc_str, app_cons, app_nil_l_str. unfold read_fraction.
    change ((bz "." =? 46) || (bz "." =? 44)) with true. cbv iota. rewrite digit_run_spec by done.
    rewrite Hl in Hl'. cbv iota zeta. rewrite take_str_all by done. rewrite Hv'. do 3 f_equal.
    unfold len at 2. by rewrite Hl.
Qed.

(** Parsing inverts formatting in UTC, to the nanosecond. *)
Lemma parse_zoned_format t :
  0 ≤ dYear (civil (t / Second / 86400)) ≤ 9999 →
  parse_zoned (Format_RFC3339Nano t 0) = Some (t, 0).
Proof.
  intros Hy. unfold Format_RFC3339Nano. cbv zeta. rewrite Z.mul_0_l, Z.add_0_r.
  remember (t / Second) as secs eqn:Esecs. set (d := civil (secs / 86400)) in *. set (s := secs `mod` 86400).
  assert (0 ≤ s < 86400) as Hs by (apply Z.mod_pos_bound; lia).
  destruct (civil_valid (secs / 86400)) as [Hm Hd]. fold d in Hm, Hd.
  assert (days_in (dMonth d) (dYear d) ≤ 31) as Hdi by (unfold days_in; repeat case_match; lia).
  assert (days_from_civil d = secs / 86400) as Hcivil by apply civil_days. clearbody d.
  unfold parse_zoned. rewrite read_pad by (change (10 ^ Z.of_nat 4) with 10000; lia). cbn [mbind option_bind].
  rewrite read_byte_app. cbn [mbind option_bind]. rewrite read_field_pad by lia. cbn [mbind option_bind].
  rewrite read_byte_app. cbn [mbind option_bind]. rewrite read_field_pad by lia. cbn [mbind option_bind].
  rewrite read_byte_app. cbn [mbind option_bind]. rewrite read_hour_pad by lia. cbn [mbind option_bind].
  rewrite read_byte_app. cbn [mbind option_bind]. rewrite read_field_pad by lia. cbn [mbind option_bind].
  rewrite read_byte_app. cbn [mbind option_bind]. rewrite read_field_pad by lia. cbn [mbind option_bind].
  change (zone 0) with (String "Z" "").
  rewrite read_fraction_spec; [|apply Z.mod_pos_bound; done|done|done|done].
  change (read_zone (String "Z" "")) with (Some 0). cbn [mbind option_bind]. do 2 f_equal.
  assert (mkDate (dYear d) (dMonth d) (dDay d) = d) as -> by (by destruct d).
  rewrite Hcivil, Z.mul_0_l, Z.sub_0_r.
  assert (secs = 86400 * (secs / 86400) + s) by (apply Z.div_mod; lia).
  assert (t = Second * secs + t `mod` Second) as Ht
    by (rewrite Esecs; apply Z.div_mod; done).
  clear Esecs.
  assert (secs / 86400 * 86400 + s / 3600 * 3600 + (s / 60) `mod` 60 * 60 + s `mod` 60 = secs) as -> by lia.
  lia.
Qed.

Theorem parse_format t :
  0 ≤ dYear (civil (t / Second / 86400)) ≤ 9999 → parse_rfc3339 (Format_RFC3339Nano t 0) = Some t.
Proof. intros Hy. unfold parse_rfc3339. by rewrite parse_zoned_format. Qed.
