(* ===== verification/JsonValue.v ===== *)
(** * encoding/json: documents and typed decoding

    [parse_document] reads one JSON value and nothing after it, as
    [json.Unmarshal] does: the grammar of RFC 8259 and at most 10000 nested
    arrays and objects.  The readers below assign a value to a Go variable of a
    type and fail where the package reports an error; [field] walks the members
    of an object in their order and assigns those whose name matches the field's
    under the package's case folding.  A string keeps its text between the
    quotes beside its decoded form, because [time.Time] reads the former. *)

From Stdlib Require Import Ascii.
From S2P Require Import Prelude GoStrings Json GoTime TimeParse.

(** ** Values *)

Inductive json : Type :=
  | JNull
  | JBool (b : bool)
  | JNum (literal : string)
  | JStr (raw value : string)
  | JArr (l : list json)
  | JObj (l : list (string * json)).

Section JsonInd.
Variable P : json → Prop.
Hypothesis Hnull : P JNull.
Hypothesis Hbool : ∀ b, P (JBool b).
Hypothesis Hnum : ∀ s, P (JNum s).
Hypothesis Hstr : ∀ r s, P (JStr r s).
Hypothesis Harr : ∀ l, Forall P l → P (JArr l).
Hypothesis Hobj : ∀ l, Forall (λ x, P x.2) l → P (JObj l).
Fixpoint json_nested_ind (v : json) : P v :=
  match v with
  | JNull => Hnull
  | JBool b => Hbool b
  | JNum s => Hnum s
  | JStr r s => Hstr r s
  | JArr l => Harr l ((fix go l : Forall P l := match l with
                        | [] => @Forall_nil_2 _ P
                        | x :: l' => @Forall_cons_2 _ P _ _ (json_nested_ind x) (go l') end) l)
  | JObj l => Hobj l ((fix go l : Forall (λ x, P x.2) l := match l with
                        | [] => @Forall_nil_2 _ (λ x, P x.2)
                        | x :: l' => @Forall_cons_2 _ (λ x, P x.2) _ _ (json_nested_ind x.2) (go l') end) l)
  end.
End JsonInd.

(** ** Parsing *)

(** The part of [s] before its suffix [t]. *)
Definition consumed (s t : string) : string := take_str (String.length s - String.length t) s.

Definition skip_sign (s : string) : string :=
  match s with String a s' => if bz a =? 45 then s' else s | "" => s end.
(** [0], or digits that do not start with it. *)
Definition skip_integer (s : string) : option string :=
  match digit_run s with
  | ("", _) => None
  | (String a d, t) => Some (if bz a =? 48 then d +:+ t else t)
  end.
Definition skip_digits (s : string) : option string :=
  match digit_run s with ("", _) => None | (_, t) => Some t end.
Definition skip_fraction (s : string) : option string :=
  match s with String a s' => if bz a =? 46 then skip_digits s' else Some s | "" => Some s end.
Definition skip_exponent (s : string) : option string :=
  match s with
  | String a s' =>
      if (bz a =? 101) || (bz a =? 69)
      then skip_digits (match s' with String b s2 => if (bz b =? 43) || (bz b =? 45) then s2 else s' | "" => s' end)
      else Some s
  | "" => Some s
  end.
Definition parse_number (s : string) : option (string * string) :=
  s1 ← skip_integer (skip_sign s); s2 ← skip_fraction s1; t ← skip_exponent s2; Some (consumed s t, t).

Definition max_depth : Z := 10000.

(** A value whose first byte is the first of [s]; the members of an object or
    the elements of an array, after the opening bracket or a comma. *)
Fixpoint parse_json (fuel : nat) (depth : Z) (s : string) : option (json * string) :=
  match fuel with
  | O => None
  | S fuel' =>
      if HasPrefix s "null" then Some (JNull, drop_str 4 s)
      else if HasPrefix s "true" then Some (JBool true, drop_str 4 s)
      else if HasPrefix s "false" then Some (JBool false, drop_str 5 s)
      else match s with
           | "" => None
           | String a s1 =>
               if bz a =? 34 then
                 '(v, t) ← parse_string s; Some (JStr (take_str (String.length s1 - String.length t - 1) s1) v, t)
               else if bz a =? 91 then
                 if depth <=? 0 then None
                 else match read_byte "]" (skip_ws s1) with
                      | Some t => Some (JArr [], t)
                      | None => '(l, t) ← parse_elements fuel' (depth - 1) s1; Some (JArr l, t)
                      end
               else if bz a =? 123 then
                 if depth <=? 0 then None
                 else match read_byte rbrace (skip_ws s1) with
                      | Some t => Some (JObj [], t)
                      | None => '(l, t) ← parse_fields fuel' (depth - 1) s1; Some (JObj l, t)
                      end
               else '(n, t) ← parse_number s; Some (JNum n, t)
           end
  end
with parse_elements (fuel : nat) (depth : Z) (s : string) : option (list json * string) :=
  match fuel with
  | O => None
  | S fuel' =>
      '(v, s1) ← parse_json fuel' depth (skip_ws s);
      match skip_ws s1 with
      | String d s2 =>
          if bz d =? 44 then '(l, t) ← parse_elements fuel' depth s2; Some (v :: l, t)
          else if bz d =? 93 then Some ([v], s2) else None
      | "" => None
      end
  end
with parse_fields (fuel : nat) (depth : Z) (s : string) : option (list (string * json) * string) :=
  match fuel with
  | O => None
  | S fuel' =>
      '(k, s1) ← parse_string (skip_ws s);
      s2 ← read_byte colon (skip_ws s1);
      '(v, s3) ← parse_json fuel' depth (skip_ws s2);
      match skip_ws s3 with
      | String d s4 =>
          if bz d =? 44 then '(l, t) ← parse_fields fuel' depth s4; Some ((k, v) :: l, t)
          else if bz d =? 125 then Some ([(k, v)], s4) else None
      | "" => None
      end
  end.

(** Every call consumes a byte or ends, so the length of the text bounds them. *)
Definition parse_document (s : string) : option json :=
  '(v, t) ← parse_json (2 * String.length s + 2) max_depth (skip_ws s);
  match skip_ws t with "" => Some v | _ => None end.

(** ** Typed decoding *)

(** [foldName]: two runes outside ASCII fold to ASCII letters. *)
Definition fold_rune (r : Z) : Z :=
  if in_range 97 122 r then r - 32 else if r =? 0x17F then 83 else if r =? 0x212A then 75 else r.
Definition fold_name (s : string) : list Z := fold_rune <$> runes s.
Definition same_name (k k' : string) : bool := bool_decide (fold_name k = fold_name k').

(** A reader assigns a JSON value to a variable that holds a value already. *)
Definition reader_of (A : Type) : Type := json → A → option A.

Fixpoint field {A} (read : reader_of A) (k : string) (acc : A) (l : list (string * json)) : option A :=
  match l with
  | [] => Some acc
  | (k', v) :: l' => if same_name k k' then a ← read v acc; field read k a l' else field read k acc l'
  end.

Definition as_string : reader_of string := λ v old,
  match v with JNull => Some old | JStr _ s => Some s | _ => None end.
Definition as_uint (bits : Z) : reader_of Z := λ v old,
  match v with
  | JNull => Some old
  | JNum n => match digit_run n with
              | (_, "") => let z := decimal 0 n in if z <? 2 ^ bits then Some z else None
              | _ => None
              end
  | _ => None
  end.
(** [int] and [int64] are the same width. *)
Definition as_int : reader_of Z := λ v old,
  match v with
  | JNull => Some old
  | JNum n =>
      let digits := skip_sign n in
      match digit_run digits with
      | (_, "") => let z := if String.eqb digits n then decimal 0 n else - decimal 0 digits in
                   if (min_int64 <=? z) && (z <=? max_int64) then Some z else None
      | _ => None
      end
  | _ => None
  end.
Definition as_time : reader_of time := λ v old,
  match v with JNull => Some old | JStr raw _ => parse_rfc3339 raw | _ => None end.

Definition as_zoned : reader_of (time * Z) := λ v old,
  match v with JNull => Some old | JStr raw _ => parse_zoned raw | _ => None end.

(** Elements are assigned over those the slice has. *)
Fixpoint elements {A} (read : reader_of A) (zero : A) (old : list A) (l : list json) : option (list A) :=
  match l with
  | [] => Some []
  | v :: l' => x ← read v (hd zero old); xs ← elements read zero (tl old) l'; Some (x :: xs)
  end.
Definition as_strings : reader_of (list string) := λ v old,
  match v with JNull => Some [] | JArr l => elements as_string "" old l | _ => None end.

(** Members are added to the map that is there. *)
Fixpoint add_members (m : gmap string string) (l : list (string * json)) : option (gmap string string) :=
  match l with
  | [] => Some m
  | (k, v) :: l' => s ← as_string v ""; add_members (<[k := s]> m) l'
  end.
Definition as_string_map : reader_of (gmap string string) := λ v old,
  match v with JNull => Some ∅ | JObj l => add_members old l | _ => None end.

(** [DisallowUnknownFields]. *)
Definition no_unknown (names : list string) (l : list (string * json)) : bool :=
  forallb (λ x, existsb (λ k, same_name k x.1) names) l.
Definition as_struct {A} (decode : list (string * json) → A → option A) : reader_of A := λ v old,
  match v with JNull => Some old | JObj l => decode l old | _ => None end.

(** No object in the value has the same key twice. *)
Fixpoint distinct_keys (v : json) : bool :=
  match v with
  | JArr l => forallb distinct_keys l
  | JObj l => bool_decide (NoDup l.*1) && forallb (λ x, distinct_keys x.2) l
  | _ => true
  end.

(** Single quotes stand for double quotes in the examples. *)
Fixpoint quoted (s : string) : string :=
  match s with "" => "" | String a s' => String (if bz a =? 39 then dquote else a) (quoted s') end.

Example parse_sample :
  parse_document (quoted " {'a': [1, -2.50e+3, true], 'b': {'\u0063': 'x\ny'}} ") =
  Some (JObj [("a", JArr [JNum "1"; JNum "-2.50e+3"; JBool true]);
              ("b", JObj [("c", JStr "x\ny" (String "x" (String (zb 10) "y")))])]).
Proof. vm_compute. reflexivity. Qed.
Example parse_refused :
  (parse_document <$> (quoted <$> ["{'a': 01}"; "[1,]"; "{} {}"; "['a"; "{'a' 1}"; "-"; "1."; "nul"])) = replicate 8 None.
Proof. vm_compute. reflexivity. Qed.

(** ** Rendering *)

Fixpoint json_elements (l : list string) : string :=
  match l with [] => "" | [x] => x | x :: l' => x +:+ String comma (json_elements l') end.
Fixpoint render (v : json) : string :=
  match v with
  | JNull => "null"
  | JBool b => if b then "true" else "false"
  | JNum n => n
  | JStr raw _ => String dquote (raw +:+ String dquote "")
  | JArr l => String "[" (json_elements (map render l) +:+ "]")
  | JObj l => json_struct (map (λ x, (x.1, render x.2)) l)
  end.

(** What the encoder writes for Go strings, unsigned integers and structs. *)
Definition json_text (s : string) : json := JStr (escape_from 0 s) s.
Definition json_number (z : Z) : json := JNum (json_uint z).
Fixpoint printable (v : json) : Prop :=
  match v with
  | JNull | JBool _ => True
  | JNum n => ∃ z, 0 ≤ z ∧ n = json_uint z
  | JStr raw s => valid_utf8 s = true ∧ raw = escape_from 0 s
  | JArr l => foldr (λ x P, printable x ∧ P) True l
  | JObj l => foldr (λ x P, valid_utf8 x.1 = true ∧ printable x.2 ∧ P) True l
  end.
Fixpoint height (v : json) : Z :=
  match v with
  | JArr l => 1 + foldr (λ x h, Z.max (height x) h) 0 l
  | JObj l => 1 + foldr (λ x h, Z.max (height x.2) h) 0 l
  | _ => 0
  end.

(** What may follow a value. *)
Definition delimited (t : string) : Prop :=
  match t with "" => True | String c _ => c = comma ∨ c = rbrace ∨ c = "]"%char ∨ c = zb 10 end.

Lemma digit_run_delimited s t : forall_bytes digit_byte s = true → delimited t → digit_run (s +:+ t) = (s, t).
Proof.
  intros Hs Ht. destruct t as [|c t]; [|apply digit_run_spec; [done|by destruct Ht as [->|[->|[->| ->]]]]].
  rewrite app_nil_r_str. clear Ht. induction s as [|a s IH]; [done|]. simpl in *. apply andb_prop in Hs as [-> Hs].
  by rewrite IH.
Qed.

Lemma json_uint_nonneg_head z :
  0 < z → ∃ a d, json_uint z = String a d ∧ bz a ≠ 48.
Proof.
  intros Hz. unfold json_uint, pretty, pretty_N. rewrite decide_False by lia.
  assert (0 < Z.to_N z)%N as Hx by lia. revert Hx. generalize (Z.to_N z) "". clear.
  intros x. induction (N.lt_wf_0 x) as [x _ IH]. intros s Hx. rewrite pretty_N_go_step by lia.
  destruct (decide (x < 10)%N) as [Hs|Hs].
  - rewrite N.div_small, N.mod_small, pretty_N_go_0 by done. do 2 eexists. split; [done|].
    pose proof (pretty_char_value x Hs) as H. unfold digit_value in H. lia.
  - apply IH; [apply N.div_lt; lia|]. apply N.div_str_pos. lia.
Qed.

Lemma json_uint_head z : 0 ≤ z → ∃ a d, json_uint z = String a d ∧ digit_byte a = true ∧ (bz a = 48 → d = "").
Proof.
  intros Hz. pose proof (json_uint_digits z) as Hd. destruct (decide (z = 0)) as [->|]; [by do 2 eexists|].
  destruct (json_uint_nonneg_head z) as (a & d & E & Ha); [lia|]. rewrite E in Hd. simpl in Hd.
  apply andb_prop in Hd as [Hd _]. exists a, d. by split_and!.
Qed.

Lemma parse_number_json z t :
  0 ≤ z → delimited t → parse_number (json_uint z +:+ t) = Some (json_uint z, t).
Proof.
  intros Hz Ht. destruct (json_uint_head z Hz) as (a & d & E & Ha & Hd). unfold parse_number.
  pose proof (json_uint_digits z) as Hdig. rewrite digit_byte_range in Ha.
  assert (skip_sign (json_uint z +:+ t) = json_uint z +:+ t) as ->.
  { rewrite E, app_cons. simpl. by rewrite (proj2 (Z.eqb_neq _ _)) by lia. }
  unfold skip_integer. rewrite digit_run_delimited by done. rewrite E.
  assert ((if bz a =? 48 then d +:+ t else t) = t) as ->.
  { destruct (bz a =? 48) eqn:E48; [|done]. apply Z.eqb_eq in E48. by rewrite (Hd E48). }
  cbn [mbind option_bind]. assert (skip_fraction t = Some t) as -> by (destruct t; [done|]; by destruct Ht as [->|[->|[->| ->]]]).
  cbn [mbind option_bind]. assert (skip_exponent t = Some t) as -> by (destruct t; [done|]; by destruct Ht as [->|[->|[->| ->]]]).
  cbn [mbind option_bind]. rewrite <-E. do 2 f_equal. unfold consumed.
  replace (String.length (json_uint z +:+ t) - String.length t)%nat with (String.length (json_uint z)); [apply take_str_app|].
  pose proof (len_app (json_uint z) t). unfold len in *. lia.
Qed.

(** ** The round trip *)

Lemma render_head v c : printable v → ∃ a s, render v +:+ c = String a s ∧ space_byte a = false ∧ bz a ≠ 93 ∧ bz a ≠ 125.
Proof.
  intros Hv. destruct v as [|b|n|r s|l|l]; [by do 2 eexists|by destruct b; do 2 eexists| |by do 2 eexists|by do 2 eexists|by do 2 eexists].
  destruct Hv as (z & Hz & ->). destruct (json_uint_head z Hz) as (a & d & E & Ha & _). simpl render. rewrite E, app_cons.
  do 2 eexists. split; [done|]. rewrite digit_byte_range in Ha. unfold space_byte.
  rewrite !(proj2 (Z.eqb_neq _ _)) by lia. split; [done|lia].
Qed.

Lemma skip_ws_rendered v t : printable v → skip_ws (render v +:+ t) = render v +:+ t.
Proof. intros Hv. destruct (render_head v t Hv) as (a & s & -> & Ha & _). simpl. by rewrite Ha. Qed.

Lemma length_string_app s t : String.length (s +:+ t) = (String.length s + String.length t)%nat.
Proof. pose proof (len_app s t). unfold len in *. lia. Qed.

Definition parses (depth : Z) (v : json) : Prop :=
  ∀ fuel t, delimited t → (2 * String.length (render v +:+ t) + 1 ≤ fuel)%nat →
    parse_json fuel depth (render v +:+ t) = Some (v, t).

Lemma parse_member fuel depth k v d s :
  valid_utf8 k = true → printable v → parses depth v → d = comma ∨ d = rbrace →
  (2 * String.length (json_string k +:+ String colon (render v +:+ String d s)) + 1 ≤ fuel)%nat →
  parse_fields (S fuel) depth (json_string k +:+ String colon (render v +:+ String d s))
  = if bz d =? 44 then '(l, t) ← parse_fields fuel depth s; Some ((k, v) :: l, t) else Some ([(k, v)], s).
Proof.
  intros Hk Hv Hp Hd Hf. cbn [parse_fields]. rewrite skip_ws_string, parse_json_string by done.
  cbn [mbind option_bind]. change (skip_ws (String colon ?z)) with (String colon z).
  change (read_byte colon (String colon ?z)) with (Some z). cbn [mbind option_bind].
  rewrite skip_ws_rendered, Hp; [|cbn; tauto| |done].
  - cbn [mbind option_bind]. by destruct Hd as [->| ->].
  - rewrite length_string_app in Hf. cbn [String.length] in Hf. lia.
Qed.

Lemma parse_fields_render fuel depth x l t :
  Forall (λ y, valid_utf8 y.1 = true ∧ printable y.2 ∧ parses depth y.2) (x :: l) →
  (2 * String.length (json_members (map (λ x, (x.1, render x.2)) (x :: l)) +:+ String rbrace t) + 2 ≤ fuel)%nat →
  parse_fields fuel depth (json_members (map (λ x, (x.1, render x.2)) (x :: l)) +:+ String rbrace t) = Some (x :: l, t).
Proof.
  revert x fuel. induction l as [|y l IH]; intros [k v] [|fuel] Hall Hf; try lia;
    apply Forall_cons in Hall as [(Hk & Hv & Hp) Hall]; cbn [fst snd] in *.
  - change (json_members _) with (json_string k +:+ String colon (render v)) in Hf |- *.
    rewrite <-app_assoc_str, (app_cons colon) in Hf |- *. rewrite parse_member by (done || auto || lia). done.
  - set (rest := json_members (map (λ x, (x.1, render x.2)) (y :: l))) in *.
    change (json_members _) with (json_string k +:+ String colon (render v +:+ String comma rest)) in Hf |- *.
    rewrite <-app_assoc_str, (app_cons colon), <-app_assoc_str, (app_cons comma) in Hf |- *.
    rewrite parse_member by (done || auto || lia). change (bz comma =? 44) with true. cbv iota.
    unfold rest. rewrite IH; [done|done|]. fold rest.
    rewrite length_string_app in Hf. cbn [String.length] in Hf. rewrite length_string_app in Hf. cbn [String.length] in Hf. lia.
Qed.

Lemma parse_element fuel depth v d s :
  printable v → parses depth v → d = comma ∨ d = "]"%char →
  (2 * String.length (render v +:+ String d s) + 1 ≤ fuel)%nat →
  parse_elements (S fuel) depth (render v +:+ String d s)
  = if bz d =? 44 then '(l, t) ← parse_elements fuel depth s; Some (v :: l, t) else Some ([v], s).
Proof.
  intros Hv Hp Hd Hf. cbn [parse_elements]. rewrite skip_ws_rendered, Hp; [|destruct Hd as [->| ->]; cbn; auto|lia|done].
  cbn [mbind option_bind]. by destruct Hd as [->| ->].
Qed.

Lemma parse_elements_render fuel depth x l t :
  Forall (λ y, printable y ∧ parses depth y) (x :: l) →
  (2 * String.length (json_elements (map render (x :: l)) +:+ String "]" t) + 2 ≤ fuel)%nat →
  parse_elements fuel depth (json_elements (map render (x :: l)) +:+ String "]" t) = Some (x :: l, t).
Proof.
  revert x fuel. induction l as [|y l IH]; intros v [|fuel] Hall Hf; try lia;
    apply Forall_cons in Hall as [[Hv Hp] Hall].
  - change (json_elements _) with (render v) in Hf |- *. rewrite parse_element by (done || auto || lia). done.
  - set (rest := json_elements (map render (y :: l))) in *.
    change (json_elements _) with (render v +:+ String comma rest) in Hf |- *.
    rewrite <-app_assoc_str, (app_cons comma) in Hf |- *.
    rewrite parse_element by (done || auto || lia). change (bz comma =? 44) with true. cbv iota.
    unfold rest. rewrite IH; [done|done|]. fold rest.
    rewrite length_string_app in Hf. cbn [String.length] in Hf. lia.
Qed.

Lemma parse_text depth r s fuel t :
  valid_utf8 s = true → r = escape_from 0 s →
  parse_json (S fuel) depth (render (JStr r s) +:+ t) = Some (JStr r s, t).
Proof.
  intros Hs ->. pose proof (parse_json_string s t Hs) as H. unfold json_string in H.
  change (render _) with (String dquote (escape_from 0 s +:+ String dquote "")). rewrite app_cons in H |- *.
  cbn [parse_json]. change (HasPrefix (String dquote ?z) "null") with false.
  change (HasPrefix (String dquote ?z) "true") with false. change (HasPrefix (String dquote ?z) "false") with false.
  change (bz dquote =? 34) with true. cbv iota. rewrite H. cbn [mbind option_bind]. do 3 f_equal.
  rewrite <-app_assoc_str, app_cons, app_nil_l_str.
  replace (_ - _ - 1)%nat with (String.length (escape_from 0 s)); [apply take_str_app|].
  rewrite length_string_app. cbn [String.length]. lia.
Qed.

Lemma parse_render v : printable v → ∀ depth, height v ≤ depth → parses depth v.
Proof.
  induction v as [|b|n|r s|l IH|l IH] using json_nested_ind; intros Hv depth Hh fuel t Ht Hf;
    (destruct fuel as [|fuel]; [lia|]); simpl in Hv; try done.
  - cbn [parse_json render]. rewrite HasPrefix_app. by rewrite drop_str_app' by done.
  - cbn [parse_json render]. destruct b.
    + change (HasPrefix ("true" +:+ t) "null") with false. cbv iota. by rewrite HasPrefix_app, drop_str_app' by done.
    + change (HasPrefix ("false" +:+ t) "null") with false. change (HasPrefix ("false" +:+ t) "true") with false.
      cbv iota. by rewrite HasPrefix_app, drop_str_app' by done.
  - destruct Hv as (z & Hz & ->). pose proof (parse_number_json z t Hz Ht) as Hn.
    change (render _) with (json_uint z). destruct (json_uint_head z Hz) as (a & d & E & Ha & _).
    rewrite digit_byte_range in Ha. rewrite E, app_cons in *. cbn [parse_json].
    assert (∀ p b, HasPrefix (String a (d +:+ t)) (String b p) = (bz b =? bz a) && HasPrefix (d +:+ t) p) as Hp by done.
    change "null" with (String "n" "ull"). change "true" with (String "t" "rue"). change "false" with (String "f" "alse").
    rewrite !Hp. change (bz "n") with 110. change (bz "t") with 116. change (bz "f") with 102.
    rewrite !(proj2 (Z.eqb_neq _ (bz a))), !(proj2 (Z.eqb_neq (bz a) _)) by lia. cbn [andb]. by rewrite Hn.
  - destruct Hv as [Hs Hr]. by apply parse_text.
  - assert (Forall (λ y, printable y ∧ parses (depth - 1) y) l) as Hall.
    { cbn [height] in Hh. clear Hf Ht. revert Hv Hh IH. clear. induction l as [|v l IHl]; intros Hv Hh IH; [constructor|].
      apply Forall_cons in IH as [IHv IH]. cbn [foldr] in *. destruct Hv as (Hp & Hv). constructor.
      - split; [done|]. apply IHv; [done|lia].
      - apply IHl; [done|lia|done]. }
    assert (0 < depth) as Hd.
    { cbn [height] in Hh. assert (0 ≤ foldr (λ x h, Z.max (height x) h) 0 l); [|lia]. clear. induction l; simpl; lia. }
    change (render (JArr l)) with (String "[" (json_elements (map render l) +:+ "]")) in *.
    rewrite app_cons, <-app_assoc_str in *. change ("]" +:+ t) with (String "]" t) in *. cbn [parse_json].
    change (HasPrefix (String "[" ?z) "null") with false. change (HasPrefix (String "[" ?z) "true") with false.
    change (HasPrefix (String "[" ?z) "false") with false. change (bz "[" =? 34) with false.
    change (bz "[" =? 91) with true. cbv iota.
    rewrite (proj2 (Z.leb_gt _ _)) by done. destruct l as [|v l]; [done|].
    set (text := json_elements _ +:+ String "]" t) in *.
    assert (∃ u, text = render v +:+ u) as [u Hu].
    { unfold text. destruct l as [|y l]; [by eexists|]. cbn [map json_elements]. rewrite <-app_assoc_str. by eexists. }
    assert (read_byte "]" (skip_ws text) = None) as ->.
    { apply Forall_cons in Hall as [[Hpv _] _]. rewrite Hu, skip_ws_rendered by done.
      destruct (render_head v u Hpv) as (a & s & -> & _ & Ha & _). unfold read_byte.
      by rewrite (proj2 (Z.eqb_neq (bz a) _)) by done. }
    unfold text. rewrite parse_elements_render; [done|done|]. fold text. cbn [String.length] in Hf. lia.
  - assert (Forall (λ y, valid_utf8 y.1 = true ∧ printable y.2 ∧ parses (depth - 1) y.2) l) as Hall.
    { cbn [height] in Hh. clear Hf Ht. revert Hv Hh IH. clear. induction l as [|[k v] l IHl]; intros Hv Hh IH; [constructor|].
      apply Forall_cons in IH as [IHv IH]. cbn [foldr fst snd] in *. destruct Hv as (Hk & Hp & Hv). constructor.
      - cbn. split_and!; [done|done|]. apply IHv; [done|lia].
      - apply IHl; [done|lia|done]. }
    assert (0 < depth) as Hd.
    { cbn [height] in Hh. assert (0 ≤ foldr (λ x h, Z.max (height x.2) h) 0 l); [|lia]. clear. induction l; simpl; lia. }
    change (render (JObj l)) with (String lbrace (json_members (map (λ x, (x.1, render x.2)) l) +:+ String rbrace "")) in *.
    rewrite app_cons, <-app_assoc_str, (app_cons rbrace), app_nil_l_str in *. cbn [parse_json].
    change (HasPrefix (String lbrace ?z) "null") with false. change (HasPrefix (String lbrace ?z) "true") with false.
    change (HasPrefix (String lbrace ?z) "false") with false. change (bz lbrace =? 34) with false.
    change (bz lbrace =? 91) with false. change (bz lbrace =? 123) with true. cbv iota.
    rewrite (proj2 (Z.leb_gt _ _)) by done. destruct l as [|[k v] l]; [done|].
    set (text := json_members _ +:+ String rbrace t) in *.
    assert (∃ u, text = String dquote u) as [u Hu] by (unfold text; destruct l; by eexists).
    assert (read_byte rbrace (skip_ws text) = None) as -> by (by rewrite Hu). unfold text.
    rewrite parse_fields_render; [done|done|]. fold text. cbn [String.length] in Hf. lia.
Qed.

Lemma parse_document_render v : printable v → height v ≤ max_depth → parse_document (render v) = Some v.
Proof.
  intros Hv Hh. unfold parse_document. pose proof (skip_ws_rendered v "" Hv) as Hs. rewrite app_nil_r_str in Hs.
  rewrite Hs. pose proof (parse_render v Hv max_depth Hh (2 * String.length (render v) + 2)%nat "") as Hp.
  rewrite app_nil_r_str in Hp. by rewrite Hp by (done || lia).
Qed.

(** The line an encoder writes: the document and a newline. *)
Definition newline : string := String (zb 10) "".
Lemma parse_document_line v : printable v → height v ≤ max_depth → parse_document (render v +:+ newline) = Some v.
Proof.
  intros Hv Hh. unfold parse_document. rewrite skip_ws_rendered by done.
  rewrite (parse_render v Hv max_depth Hh); [done|cbn; tauto|lia].
Qed.

(** ** The fuel is enough *)

Lemma skip_ws_length s : (String.length (skip_ws s) ≤ String.length s)%nat.
Proof. induction s as [|a s IH]; [done|]. simpl. case_match; simpl; lia. Qed.

Lemma prepend_Some c o v t : prepend c o = Some (v, t) → ∃ v', o = Some (v', t).
Proof. destruct o as [[v' t']|]; [|done]. simpl. intros. simplify_eq. by eexists. Qed.

Lemma parse_body_length k s v t : parse_body k s = Some (v, t) → (String.length t < String.length s)%nat.
Proof.
  remember (String.length s) as n eqn:Hn. assert (String.length s ≤ n)%nat as Hle by lia. clear Hn.
  revert k s v Hle. induction n as [|n IH]; intros k [|a s] v Hle H; simpl in Hle; try done; [lia|].
  assert (∀ k s' v', (String.length s' ≤ String.length s)%nat → parse_body k s' = Some (v', t) →
    (String.length t < S n)%nat) as Hrec by (intros k' s' v' Hs' H'; apply IH in H'; lia).
  cbn [parse_body] in H. destruct k as [|k]; [|by eapply (Hrec k s)].
  destruct (bz a =? 34); [simplify_eq; lia|]. destruct (bz a =? 92).
  - destruct s as [|e s2]; [done|]. destruct (simple_escape e); [apply prepend_Some in H as [v' H]; apply Hrec in H; simpl; lia|].
    destruct (bz e =? 117); [|done]. destruct s2 as [|h1 [|h2 [|h3 [|h4 s3]]]]; try done.
    destruct (hex4 h1 h2 h3 h4) as [r|]; [|done].
    destruct (high_surrogate r || low_surrogate r); [destruct (surrogate_pair r s3) as [[r2 u]|]|];
      apply prepend_Some in H as [v' H]; apply Hrec in H; simpl; lia.
  - destruct (bz a <? 32); [done|]. destruct (bz a <? 128); [apply prepend_Some in H as [v' H]; by apply Hrec in H|].
    destruct (decode_multi (String a s)) as [[r w]|]; apply prepend_Some in H as [v' H]; by apply Hrec in H.
Qed.

Lemma parse_string_length s v t : parse_string s = Some (v, t) → (String.length t < String.length s)%nat.
Proof.
  unfold parse_string. destruct s as [|a s]; [done|]. case_match; [|done]. intros Hb%parse_body_length. simpl. lia.
Qed.
Lemma read_byte_length c s t : read_byte c s = Some t → (String.length t < String.length s)%nat.
Proof. unfold read_byte. destruct s; [done|]. case_match; [|done]. intros. simplify_eq/=. lia. Qed.
Lemma digit_run_length s d t : digit_run s = (d, t) → (String.length d + String.length t = String.length s)%nat.
Proof.
  revert d t. induction s as [|a s IH]; intros d t Hr; simpl in Hr; [by simplify_eq|].
  destruct (digit_byte a); [|by simplify_eq]. destruct (digit_run s) as [d' t'] eqn:E. simplify_eq/=. by rewrite (IH d' t).
Qed.
Lemma skip_digits_length s t : skip_digits s = Some t → (String.length t < String.length s)%nat.
Proof.
  unfold skip_digits. destruct (digit_run s) as [[|a d] u] eqn:E; [done|]. intros. simplify_eq. apply digit_run_length in E.
  simpl in E. lia.
Qed.

Lemma parse_number_length s n t : parse_number s = Some (n, t) → (String.length t < String.length s)%nat.
Proof.
  unfold parse_number. intros H. destruct (skip_integer (skip_sign s)) as [s1|] eqn:H1; [|done].
  cbn [mbind option_bind] in H. destruct (skip_fraction s1) as [s2|] eqn:H2; [|done].
  cbn [mbind option_bind] in H. destruct (skip_exponent s2) as [s3|] eqn:H3; [|done]. simplify_eq/=.
  assert (String.length (skip_sign s) ≤ String.length s)%nat by (unfold skip_sign; destruct s; [done|]; case_match; simpl; lia).
  assert (String.length s1 < String.length (skip_sign s))%nat.
  { unfold skip_integer in H1. destruct (digit_run (skip_sign s)) as [[|a d] u] eqn:E; [done|].
    apply digit_run_length in E. simpl in E. case_match; simplify_eq; rewrite ?length_string_app; lia. }
  assert (String.length s2 ≤ String.length s1)%nat.
  { unfold skip_fraction in H2. destruct s1; [by simplify_eq|]. case_match; [apply skip_digits_length in H2; simpl; lia|by simplify_eq]. }
  assert (String.length t ≤ String.length s2)%nat; [|lia].
  unfold skip_exponent in H3. destruct s2 as [|a s2]; [by simplify_eq|]. case_match; [|by simplify_eq].
  apply skip_digits_length in H3. destruct s2 as [|b s2]; [simpl in *; lia|].
  destruct ((bz b =? 43) || (bz b =? 45)); simpl in *; lia.
Qed.

Lemma pair_bind {A B} (o : option (A * string)) (f : A → B) v t :
  ('(x, u) ← o; Some (f x, u)) = Some (v, t) → ∃ x, o = Some (x, t).
Proof. destruct o as [[x u]|]; [|done]. simpl. intros. simplify_eq. by eexists. Qed.

Lemma parse_shorter fuel :
  (∀ depth s v t, parse_json fuel depth s = Some (v, t) → (String.length t < String.length s)%nat) ∧
  (∀ depth s l t, parse_elements fuel depth s = Some (l, t) → (String.length t < String.length s)%nat) ∧
  (∀ depth s l t, parse_fields fuel depth s = Some (l, t) → (String.length t < String.length s)%nat).
Proof.
  induction fuel as [|fuel (IHj & IHe & IHf)]; [done|]. split_and!.
  - intros depth s v t H. cbn [parse_json] in H.
    assert (∀ p n, HasPrefix s p = true → String.length p = n → (0 < n)%nat → (String.length (drop_str n s) < String.length s)%nat) as Hdrop.
    { intros p n Hp Hn Hpos. apply HasPrefix_true in Hp as [u ->]. rewrite drop_str_app', length_string_app by done. lia. }
    destruct (HasPrefix s "null") eqn:E1; [simplify_eq; by eapply Hdrop; [| |lia]|].
    destruct (HasPrefix s "true") eqn:E2; [simplify_eq; by eapply Hdrop; [| |lia]|].
    destruct (HasPrefix s "false") eqn:E3; [simplify_eq; by eapply Hdrop; [| |lia]|]. clear Hdrop E1 E2 E3.
    destruct s as [|a s]; [done|]. pose proof (skip_ws_length s). cbn [String.length].
    destruct (bz a =? 34).
    + destruct (parse_string (String a s)) as [[x u]|] eqn:E; [|done]. apply parse_string_length in E.
      cbn [mbind option_bind String.length] in *. simplify_eq. lia.
    + destruct (bz a =? 91); [|destruct (bz a =? 123)].
      1,2: destruct (depth <=? 0); [done|]; destruct (read_byte _ (skip_ws s)) as [u|] eqn:E;
        [simplify_eq; apply read_byte_length in E; lia|].
      * apply (pair_bind _ JArr) in H as [l H]. apply IHe in H. lia.
      * apply (pair_bind _ JObj) in H as [l H]. apply IHf in H. lia.
      * apply (pair_bind _ JNum) in H as [l H]. by apply parse_number_length in H.
  - intros depth s l t H. cbn [parse_elements] in H. pose proof (skip_ws_length s).
    destruct (parse_json fuel depth (skip_ws s)) as [[v s1]|] eqn:E; [|done]. simpl in H. apply IHj in E.
    pose proof (skip_ws_length s1). destruct (skip_ws s1) as [|d s2]; [done|]. cbn [String.length] in *.
    destruct (bz d =? 44); [|destruct (bz d =? 93); [|done]; simplify_eq; lia].
    apply (pair_bind _ (cons v)) in H as [l' H]. apply IHe in H. lia.
  - intros depth s l t H. cbn [parse_fields] in H. pose proof (skip_ws_length s).
    destruct (parse_string (skip_ws s)) as [[k s1]|] eqn:E; [|done]. simpl in H. apply parse_string_length in E.
    pose proof (skip_ws_length s1). destruct (read_byte colon (skip_ws s1)) as [s2|] eqn:E2; [|done]. simpl in H.
    apply read_byte_length in E2. pose proof (skip_ws_length s2).
    destruct (parse_json fuel depth (skip_ws s2)) as [[v s3]|] eqn:E3; [|done]. simpl in H. apply IHj in E3.
    pose proof (skip_ws_length s3). destruct (skip_ws s3) as [|d s4]; [done|]. cbn [String.length] in *.
    destruct (bz d =? 44); [|destruct (bz d =? 125); [|done]; simplify_eq; lia].
    apply (pair_bind _ (cons (k, v))) in H as [l' H]. apply IHf in H. lia.
Qed.

(** With twice the length of the text as fuel, more fuel changes nothing. *)
Lemma parse_enough fuel fuel' :
  (∀ depth s, 2 * String.length s < fuel → 2 * String.length s < fuel' → parse_json fuel depth s = parse_json fuel' depth s)%nat ∧
  (∀ depth s, 2 * String.length s + 1 < fuel → 2 * String.length s + 1 < fuel' →
     parse_elements fuel depth s = parse_elements fuel' depth s)%nat ∧
  (∀ depth s, 2 * String.length s + 1 < fuel → 2 * String.length s + 1 < fuel' →
     parse_fields fuel depth s = parse_fields fuel' depth s)%nat.
Proof.
  revert fuel'. induction fuel as [|fuel IH]; intros [|fuel']; try (split_and!; intros; lia).
  destruct (IH fuel') as (IHj & IHe & IHf). clear IH. split_and!.
  - intros depth s H1 H2. cbn [parse_json]. destruct s as [|a s]; [done|]. cbn [String.length] in *.
    do 3 (destruct (HasPrefix _ _); [done|]). destruct (bz a =? 34); [done|].
    rewrite IHe, IHf by lia. done.
  - intros depth s H1 H2. cbn [parse_elements]. pose proof (skip_ws_length s). rewrite IHj by lia.
    destruct (parse_json fuel' depth (skip_ws s)) as [[v s1]|] eqn:E; [|done]. apply (parse_shorter fuel') in E.
    cbn [mbind option_bind]. pose proof (skip_ws_length s1). destruct (skip_ws s1) as [|d s2]; [done|].
    cbn [String.length] in *. rewrite IHe by lia. done.
  - intros depth s H1 H2. cbn [parse_fields]. pose proof (skip_ws_length s).
    destruct (parse_string (skip_ws s)) as [[k s1]|] eqn:E; [|done]. apply parse_string_length in E.
    cbn [mbind option_bind]. pose proof (skip_ws_length s1). destruct (read_byte colon (skip_ws s1)) as [s2|] eqn:E2; [|done].
    apply read_byte_length in E2. cbn [mbind option_bind]. pose proof (skip_ws_length s2). rewrite IHj by lia.
    destruct (parse_json fuel' depth (skip_ws s2)) as [[v s3]|] eqn:E3; [|done]. apply (parse_shorter fuel') in E3.
    cbn [mbind option_bind]. pose proof (skip_ws_length s3). destruct (skip_ws s3) as [|d s4]; [done|].
    cbn [String.length] in *. rewrite IHf by lia. done.
Qed.

Lemma parse_document_fuel fuel s :
  (2 * String.length s < fuel)%nat →
  parse_document s = ('(v, t) ← parse_json fuel max_depth (skip_ws s); match skip_ws t with "" => Some v | _ => None end).
Proof.
  intros Hf. pose proof (skip_ws_length s). unfold parse_document.
  rewrite (proj1 (parse_enough (2 * String.length s + 2) fuel)) by lia. done.
Qed.

(** ** Reading back the members of a struct *)

(** A member with its [omitempty] flag. *)
Definition zero_value (v : json) : bool :=
  match v with JStr _ s => String.eqb s "" | JNum n => String.eqb n "0" | _ => false end.
Definition expand (x : string * (bool * json)) : list (string * json) :=
  if x.2.1 && zero_value x.2.2 then [] else [(x.1, x.2.2)].
Definition rendered (l : list (string * json)) : list (string * string) := map (λ x, (x.1, render x.2)) l.

Lemma same_name_refl k : same_name k k = true.
Proof. by apply bool_decide_eq_true. Qed.

Lemma expand_keys specs : (specs ≫= expand).*1 ⊆ specs.*1.
Proof.
  intros k ([k' v] & -> & ([k2 [o v2]] & Hin & Hx)%list_elem_of_bind)%list_elem_of_fmap.
  unfold expand in Hin. simpl in *. apply list_elem_of_fmap. case_match; [set_solver|].
  apply list_elem_of_singleton in Hin. simplify_eq. by exists (k2, (o, v2)).
Qed.

Section Fields.
Context {A : Type} (read : reader_of A).

Lemma field_absent k acc l : fold_name k ∉ fold_name <$> l.*1 → field read k acc l = Some acc.
Proof.
  induction l as [|[k' v] l IH]; [done|]. simpl. rewrite not_elem_of_cons. intros [Hk Hl].
  unfold same_name. rewrite bool_decide_eq_false_2 by done. by apply IH.
Qed.

(** A member read back is the one written, or the zero it was omitted for. *)
Lemma field_expand k zero o v a specs :
  NoDup (fold_name <$> specs.*1) → (k, (o, v)) ∈ specs → read v zero = Some a →
  (zero_value v = true → a = zero) → field read k zero (specs ≫= expand) = Some a.
Proof.
  intros Hnd Hin Hr Hz. induction specs as [|[k' [o' v']] specs IH]; [by apply not_elem_of_nil in Hin|].
  simpl in Hnd. apply NoDup_cons in Hnd as [Hk Hnd]. rewrite bind_cons.
  destruct (decide (fold_name k = fold_name k')) as [Heq|Hne].
  - assert (fold_name k ∉ fold_name <$> (specs ≫= expand).*1) as Hk'.
    { rewrite Heq. intros (x & Hx & Hin')%list_elem_of_fmap. apply Hk. rewrite Hx.
      apply list_elem_of_fmap. exists x. split; [done|by apply expand_keys]. }
    apply elem_of_cons in Hin as [E|Hin].
    + simplify_eq. unfold expand at 1. simpl.
      destruct (o' && zero_value v') eqn:Ez; simpl.
      * apply andb_prop in Ez as [_ Ez]. rewrite field_absent by done. by rewrite Hz.
      * rewrite same_name_refl, Hr. simpl. by apply field_absent.
    + exfalso. apply Hk. rewrite <-Heq. apply (list_elem_of_fmap_2 fst) in Hin.
      by apply (list_elem_of_fmap_2 fold_name) in Hin.
  - apply elem_of_cons in Hin as [E|Hin]; [by simplify_eq|]. unfold expand at 1. simpl.
    case_match; simpl; [by apply IH|]. unfold same_name. rewrite bool_decide_eq_false_2 by done. by apply IH.
Qed.
End Fields.

(** The readers on what the encoder writes. *)
Lemma digit_run_all s : forall_bytes digit_byte s = true → digit_run s = (s, "").
Proof. intros Hs. pose proof (digit_run_delimited s "" Hs I) as H. by rewrite app_nil_r_str in H. Qed.

Lemma decimal_json z : 0 ≤ z → decimal 0 (json_uint z) = z.
Proof. intros Hz. unfold json_uint. rewrite decimal_pretty. by apply Z2N.id. Qed.

Lemma as_uint_number bits z old : 0 ≤ z < 2 ^ bits → as_uint bits (json_number z) old = Some z.
Proof.
  intros Hz. unfold as_uint, json_number. rewrite digit_run_all by apply json_uint_digits.
  rewrite decimal_json by lia. by rewrite (proj2 (Z.ltb_lt _ _)) by lia.
Qed.
Lemma as_int_number z old : 0 ≤ z ≤ max_int64 → as_int (json_number z) old = Some z.
Proof.
  intros Hz. unfold as_int, json_number. destruct (json_uint_head z) as (a & d & E & Ha & _); [lia|].
  assert (skip_sign (json_uint z) = json_uint z) as ->.
  { rewrite E. rewrite digit_byte_range in Ha. simpl. by rewrite (proj2 (Z.eqb_neq _ _)) by lia. }
  rewrite digit_run_all, String.eqb_refl, decimal_json by (apply json_uint_digits || lia).
  unfold min_int64, max_int64 in *. by rewrite !(proj2 (Z.leb_le _ _)) by lia.
Qed.
