(* ===== verification/AuditEvent.v ===== *)
(** * Audit events

    [audit/events.go], the validation of [audit/spool.go] and the completion
    events of [audit/recorder.go], with the JSON form in which an event is
    authenticated, stored and sent.  [Marshal] is [json.Marshal] of the struct
    in field order with its [omitempty] tags; [Unmarshal] is [json.Unmarshal]
    back into the struct, through the typed decoding of [JsonValue]. *)

From Stdlib Require Import Ascii.
From S2P Require Import Prelude GoStrings Json GoTime TimeParse JsonValue.

(** ** Vocabulary *)

Definition EventTypeRequestCompleted := "request_completed".
Definition EventTypeStateTransition := "state_transition".

Definition ResultSuccess := "success".
Definition ResultDenied := "denied".
Definition ResultRejected := "rejected".
Definition ResultError := "error".

Definition ReasonCompleted := "completed".
Definition ReasonOperationNotPermitted := "operation_not_permitted".
Definition ReasonInvalidRequest := "invalid_request".
Definition ReasonSecureOperationFailed := "secure_operation_failed".

Definition OperationUnknownRoute := "unknown_route".
Definition OperationSecurityStatusRead := "security_status_read".
Definition OperationKeyStatusRead := "key_status_read".
Definition OperationCredentialCreated := "credential_created".
Definition OperationCredentialRead := "credential_read".
Definition OperationCredentialInputsReplaced := "credential_inputs_replaced".
Definition OperationCredentialMetadataUpdated := "credential_metadata_updated".
Definition OperationCredentialRetired := "credential_retired".
Definition OperationRunBindingRegistered := "run_binding_registered".
Definition OperationRunBindingInspected := "run_binding_inspected".
Definition OperationRunBindingCanceled := "run_binding_canceled".
Definition OperationRunBindingExpired := "run_binding_expired".
Definition OperationRunBindingExhausted := "run_binding_exhausted".
Definition OperationCredentialResolved := "credential_resolved".
Definition OperationMasterKeyRotationStarted := "master_key_rotation_started".
Definition OperationMasterKeyRotationInspected := "master_key_rotation_inspected".
Definition OperationMasterKeyRotationResumed := "master_key_rotation_resumed".
Definition OperationCredentialKeyRotated := "credential_key_rotated".
Definition OperationMasterKeyRotationFinalized := "master_key_rotation_finalized".
Definition OperationRecoveryValidationStarted := "recovery_validation_started".
Definition OperationRecoveryValidationFinished := "recovery_validation_finished".
Definition OperationBackupRegistered := "backup_registered".
Definition OperationBackupExpired := "backup_expired".

Definition knownEventTypes : list string := [EventTypeRequestCompleted; EventTypeStateTransition].
Definition knownResults : list string := [ResultSuccess; ResultDenied; ResultRejected; ResultError].
Definition knownOperations : list string :=
  [OperationUnknownRoute; OperationSecurityStatusRead; OperationKeyStatusRead;
   OperationCredentialCreated; OperationCredentialRead; OperationCredentialInputsReplaced;
   OperationCredentialMetadataUpdated; OperationCredentialRetired;
   OperationRunBindingRegistered; OperationRunBindingInspected; OperationRunBindingCanceled;
   OperationRunBindingExpired; OperationRunBindingExhausted; OperationCredentialResolved;
   OperationMasterKeyRotationStarted; OperationMasterKeyRotationInspected;
   OperationMasterKeyRotationResumed; OperationCredentialKeyRotated;
   OperationMasterKeyRotationFinalized; OperationRecoveryValidationStarted;
   OperationRecoveryValidationFinished; OperationBackupRegistered; OperationBackupExpired].

Definition known (value : string) (vocabulary : list string) : bool := bool_decide (value ∈ vocabulary).
Definition KnownOperation (operation : string) : bool := known operation knownOperations.

(** ** Events *)

Definition AuditSchemaVersion : Z := 1.

(** The timestamp is an instant without its zone.  Every event the service makes
    is in UTC, and so is every event of its spool; one in another zone can only
    come to the sink from a client that is not this service, which would keep
    the offset it was sent with where the model writes UTC.  ([validate] compares
    a timestamp with the same instant in UTC, which never differs.) *)
Record Event : Type := mkEvent {
  SchemaVersion : Z;
  Timestamp : time;
  EventType : string;
  Operation : string;
  Result : string;
  ReasonCode : string;
  WorkloadIdentity : string;
  HumanActor : string;
  OrganizationID : string;
  CredentialID : string;
  RunID : string;
  RotationID : string;
  ExecutorIdentity : string;
  CredentialVersion : Z;
  CredentialSchema : Z;
  KeyVersion : string;
  RequestID : string;
  LatencyClass : string
}.
#[export] Instance Event_eq_dec : EqDecision Event.
Proof. solve_decision. Defined.

Definition token_rune (r : Z) : bool :=
  in_range 97 122 r || in_range 48 57 r || (r =? 95) || (r =? 45).
Definition token (value : string) : bool :=
  if String.eqb value "" || (64 <? len value) then false
  else forallb (λ x, token_rune x.2) (range_string value).

(** The characters NUL, CR and LF. *)
Definition control_chars : string := String (zb 0) (String (zb 13) (String (zb 10) "")).
Definition identifiers (event : Event) : list string :=
  [WorkloadIdentity event; HumanActor event; OrganizationID event; CredentialID event; RunID event;
   RotationID event; ExecutorIdentity event; KeyVersion event; RequestID event].

Definition validate (event : Event) : bool :=
  if negb (SchemaVersion event =? AuditSchemaVersion) || IsZero (Timestamp event) ||
     negb (Timestamp event =? UTC (Timestamp event)) ||
     negb (known (EventType event) knownEventTypes) || negb (KnownOperation (Operation event)) ||
     negb (known (Result event) knownResults) || negb (token (ReasonCode event)) then false
  else if negb (String.eqb (LatencyClass event) "") && negb (token (LatencyClass event)) then false
  else forallb (λ value, negb ((255 <? len value) || ContainsAny value control_chars)) (identifiers event).

(** ** Completion events *)

Module Request.
Record t : Type := mk {
  ID : string; WorkloadIdentity : string; Operation : string; HumanActor : string; StartedAt : time
}.
End Request.

(** [RequestFromContext] yields the zero request when the context has none. *)
Definition zero_request : Request.t := Request.mk "" "" "" "" zero_time.

Definition Completion (ctx : option Request.t) (result reason : string) (finished : time) : Event :=
  let request := default zero_request ctx in
  let duration := Sub finished (Request.StartedAt request) in
  let latency := if 100 * Millisecond <=? duration then "slow"
                 else if 10 * Millisecond <=? duration then "medium" else "fast" in
  mkEvent AuditSchemaVersion (UTC finished) EventTypeRequestCompleted (Request.Operation request)
    result reason (Request.WorkloadIdentity request) (Request.HumanActor request) "" "" "" "" "" 0 0 ""
    (Request.ID request) latency.

Definition StableResult (status : Z) : string * string :=
  if (200 <=? status) && (status <? 300) then (ResultSuccess, ReasonCompleted)
  else if (status =? 401) || (status =? 403) then (ResultDenied, ReasonOperationNotPermitted)
  else if (400 <=? status) && (status <? 500) then (ResultRejected, ReasonInvalidRequest)
  else (ResultError, ReasonSecureOperationFailed).

(** ** JSON *)

(** [omitempty]. *)
Definition omit_str (k v : string) : list (string * string) :=
  if String.eqb v "" then [] else [(k, json_string v)].
Definition omit_uint (k : string) (v : Z) : list (string * string) :=
  if v =? 0 then [] else [(k, json_uint v)].

Definition Marshal (e : Event) : option string :=
  timestamp ← json_time (Timestamp e) 0;
  Some (json_struct
    ([("schema_version", json_uint (SchemaVersion e)); ("timestamp", timestamp);
      ("event_type", json_string (EventType e)); ("operation", json_string (Operation e));
      ("result", json_string (Result e)); ("reason_code", json_string (ReasonCode e))] ++
     omit_str "workload_identity" (WorkloadIdentity e) ++ omit_str "human_actor" (HumanActor e) ++
     omit_str "organization_id" (OrganizationID e) ++ omit_str "credential_id" (CredentialID e) ++
     omit_str "run_id" (RunID e) ++ omit_str "rotation_id" (RotationID e) ++
     omit_str "executor_identity" (ExecutorIdentity e) ++
     omit_uint "credential_version" (CredentialVersion e) ++
     omit_uint "credential_schema_version" (CredentialSchema e) ++
     omit_str "key_version" (KeyVersion e) ++ omit_str "request_id" (RequestID e) ++
     omit_str "latency_class" (LatencyClass e))).

(** The members of an object over an event that has values already. *)
Definition decode_event (l : list (string * json)) (old : Event) : option Event :=
  let str k zero := field as_string k zero l in
  schema ← field (as_uint 32) "schema_version" (SchemaVersion old) l;
  timestamp ← field as_time "timestamp" (Timestamp old) l;
  type ← str "event_type" (EventType old); operation ← str "operation" (Operation old);
  result ← str "result" (Result old); reason ← str "reason_code" (ReasonCode old);
  workload ← str "workload_identity" (WorkloadIdentity old); human ← str "human_actor" (HumanActor old);
  organization ← str "organization_id" (OrganizationID old); credential ← str "credential_id" (CredentialID old);
  run ← str "run_id" (RunID old); rotation ← str "rotation_id" (RotationID old);
  executor ← str "executor_identity" (ExecutorIdentity old);
  version ← field (as_uint 64) "credential_version" (CredentialVersion old) l;
  cschema ← field (as_uint 32) "credential_schema_version" (CredentialSchema old) l;
  key ← str "key_version" (KeyVersion old); request ← str "request_id" (RequestID old);
  latency ← str "latency_class" (LatencyClass old);
  Some (mkEvent schema timestamp type operation result reason workload human organization credential
          run rotation executor version cschema key request latency).

Definition empty_event : Event := mkEvent 0 zero_time "" "" "" "" "" "" "" "" "" "" "" 0 0 "" "" "".

Definition Unmarshal (s : string) : option Event := v ← parse_document s; as_struct decode_event v empty_event.

Definition sample_event : Event :=
  mkEvent 1 ((738944 * 86400 + 45296) * Second + 120000000) EventTypeStateTransition OperationCredentialCreated
    ResultSuccess "created" "spiffe://a/b" "" "org-<1>" "" "" "" "" 3 0 "k1" "" "fast".

Example marshal_sample : Marshal sample_event = Some (
  json_struct [("schema_version", "1"); ("timestamp", json_string "2024-02-29T12:34:56.12Z");
    ("event_type", json_string "state_transition"); ("operation", json_string "credential_created");
    ("result", json_string "success"); ("reason_code", json_string "created");
    ("workload_identity", json_string "spiffe://a/b"); ("organization_id", json_string "org-<1>");
    ("credential_version", "3"); ("key_version", json_string "k1"); ("latency_class", json_string "fast")]).
Proof. vm_compute. reflexivity. Qed.
Example unmarshal_sample : (Marshal sample_event ≫= Unmarshal) = Some sample_event.
Proof. vm_compute. reflexivity. Qed.

(** ** The JSON round trip *)

(** Text that needs no escaping. *)
Lemma escape_safe s : forall_bytes html_safe s = true → escape_from 0 s = s.
Proof.
  induction s as [|a s IH]; [done|]. cbn [forall_bytes]. intros [Ha Hs]%andb_prop. cbn [escape_from].
  assert (bz a <? 128 = true) as ->.
  { unfold html_safe in Ha. apply andb_prop in Ha as [Ha _]. apply in_range_true in Ha. apply Z.ltb_lt. lia. }
  unfold escape_byte. rewrite Ha, app_cons, app_nil_l_str. by rewrite IH.
Qed.

Lemma digit_safe a : digit_byte a = true → html_safe a = true.
Proof. destruct a as [[] [] [] [] [] [] [] []]; vm_compute; done. Qed.

Lemma pad_int_safe w z : forall_bytes html_safe (pad_int w z) = true.
Proof.
  unfold pad_int. rewrite !forall_bytes_app.
  rewrite (forall_bytes_impl digit_byte html_safe (zeros _) digit_safe (zeros_digits _)).
  rewrite (forall_bytes_impl digit_byte html_safe (pretty (Z.to_N _)) digit_safe (json_uint_digits _)).
  by case_match.
Qed.

Lemma trim_zeros_forall p s : forall_bytes p s = true → forall_bytes p (trim_zeros s) = true.
Proof.
  induction s as [|a s IH]; [done|]. simpl. intros [Ha Hs]%andb_prop. specialize (IH Hs).
  destruct (trim_zeros s); [case_match; simpl; by rewrite ?Ha|]. simpl in *. by rewrite Ha.
Qed.

Lemma format_safe t : forall_bytes html_safe (Format_RFC3339Nano t 0) = true.
Proof.
  unfold Format_RFC3339Nano. cbv zeta. rewrite !forall_bytes_app, !pad_int_safe.
  change (zone 0) with "Z". unfold fraction.
  pose proof (trim_zeros_forall html_safe _ (pad_int_safe 9 ((t + 0 * Minute) `mod` Second))) as H.
  destruct (trim_zeros _) as [|a u]; [done|]. by rewrite forall_bytes_app, H.
Qed.

Lemma format_utf8 t : valid_utf8 (Format_RFC3339Nano t 0) = true.
Proof.
  apply valid_utf8_ascii. eapply forall_bytes_impl, format_safe. intros a H. unfold html_safe in H.
  apply andb_prop in H as [H%in_range_true _]. apply Z.ltb_lt. lia.
Qed.

Definition printable_time (t : time) : Prop := 0 ≤ dYear (civil (t / Second / 86400)) ≤ 9999.

Lemma json_time_utc t : printable_time t → json_time t 0 = Some (json_string (Format_RFC3339Nano t 0)).
Proof.
  intros Hy. unfold json_time. rewrite Z.mul_0_l, Z.add_0_r. cbv zeta.
  unfold printable_time in Hy. rewrite !(proj2 (Z.leb_le _ _)) by (done || lia). simpl andb. cbv iota.
  unfold json_string. by rewrite escape_safe by apply format_safe.
Qed.

(** The members [Marshal] writes, each with its [omitempty] flag. *)
Definition event_specs (e : Event) : list (string * (bool * json)) :=
  [("schema_version", (false, json_number (SchemaVersion e)));
   ("timestamp", (false, json_text (Format_RFC3339Nano (Timestamp e) 0)));
   ("event_type", (false, json_text (EventType e))); ("operation", (false, json_text (Operation e)));
   ("result", (false, json_text (Result e))); ("reason_code", (false, json_text (ReasonCode e)));
   ("workload_identity", (true, json_text (WorkloadIdentity e))); ("human_actor", (true, json_text (HumanActor e)));
   ("organization_id", (true, json_text (OrganizationID e))); ("credential_id", (true, json_text (CredentialID e)));
   ("run_id", (true, json_text (RunID e))); ("rotation_id", (true, json_text (RotationID e)));
   ("executor_identity", (true, json_text (ExecutorIdentity e)));
   ("credential_version", (true, json_number (CredentialVersion e)));
   ("credential_schema_version", (true, json_number (CredentialSchema e)));
   ("key_version", (true, json_text (KeyVersion e))); ("request_id", (true, json_text (RequestID e)));
   ("latency_class", (true, json_text (LatencyClass e)))].
Definition event_members (e : Event) : list (string * json) := event_specs e ≫= expand.

Lemma json_uint_zero z : 0 ≤ z → String.eqb (json_uint z) "0" = (z =? 0).
Proof.
  intros Hz. destruct (decide (z = 0)) as [->|Hne]; [done|]. rewrite (proj2 (Z.eqb_neq _ _)) by done.
  apply String.eqb_neq. intros E. pose proof (decimal_json z Hz) as H. rewrite E in H. change (decimal 0 "0") with 0 in H. lia.
Qed.

Lemma omit_render k v : omit_str k v = rendered (expand (k, (true, json_text v))).
Proof. unfold omit_str, expand, json_text. cbn [fst snd zero_value andb]. by destruct (String.eqb v ""). Qed.
Lemma omit_uint_render k v : 0 ≤ v → omit_uint k v = rendered (expand (k, (true, json_number v))).
Proof.
  intros Hv. unfold omit_uint, expand, json_number. cbn [fst snd zero_value andb]. rewrite json_uint_zero by done.
  by destruct (v =? 0).
Qed.

Lemma rendered_app l k : rendered (l ++ k) = rendered l ++ rendered k.
Proof. apply map_app. Qed.

Lemma Marshal_members e :
  printable_time (Timestamp e) → 0 ≤ CredentialVersion e → 0 ≤ CredentialSchema e →
  Marshal e = Some (render (JObj (event_members e))).
Proof.
  intros Ht Hv Hs. unfold Marshal. rewrite json_time_utc by done. cbn [mbind option_bind].
  change (render (JObj (event_members e))) with (json_struct (rendered (event_members e))).
  unfold event_members, event_specs. rewrite !omit_render, !omit_uint_render by done.
  rewrite !bind_cons, !rendered_app. change (rendered ([] ≫= expand)) with (@nil (string * string)). by rewrite app_nil_r.
Qed.

(** The strings of an event, all of them UTF-8; its integers, at their width. *)
Definition texts (e : Event) : list string :=
  [EventType e; Operation e; Result e; ReasonCode e; LatencyClass e] ++ identifiers e.
Definition encodable (e : Event) : Prop :=
  Forall (λ s, valid_utf8 s = true) (texts e) ∧ printable_time (Timestamp e) ∧
  0 ≤ SchemaVersion e < 2 ^ 32 ∧ 0 ≤ CredentialVersion e < 2 ^ 64 ∧ 0 ≤ CredentialSchema e < 2 ^ 32.
#[export] Instance encodable_dec e : Decision (encodable e).
Proof. unfold encodable, printable_time. apply _. Defined.
Lemma sample_encodable : encodable sample_event.
Proof. refine (bool_decide_unpack _ _). vm_compute. exact I. Qed.

Lemma Marshal_encodable e : encodable e → Marshal e = Some (render (JObj (event_members e))).
Proof. intros (_ & Ht & _ & Hv & Hs). apply Marshal_members; [done|lia|lia]. Qed.

Lemma printable_members l :
  Forall (λ x, valid_utf8 x.1 = true ∧ printable x.2) l → printable (JObj l).
Proof. induction 1 as [|x l [? ?] _ IH]; [done|]. simpl. by split_and!. Qed.

Lemma height_members l : Forall (λ x, height x.2 = 0) l → height (JObj l) = 1.
Proof.
  intros Hl. cbn [height]. assert (foldr (λ x h, Z.max (height x.2) h) 0 l = 0) as ->; [|done].
  induction Hl as [|x l Hx _ IH]; [done|]. simpl. by rewrite Hx, IH.
Qed.

Lemma event_members_valid e :
  encodable e → Forall (λ x, (valid_utf8 x.1 = true ∧ printable x.2) ∧ height x.2 = 0) (event_members e).
Proof.
  intros (Hs & _ & H1 & H2 & H3). unfold texts, identifiers in Hs. simpl in Hs. rewrite !Forall_cons in Hs.
  assert (Forall (λ x, (valid_utf8 x.1 = true ∧ printable x.2.2) ∧ height x.2.2 = 0) (event_specs e)) as Hv.
  { unfold event_specs. rewrite !Forall_cons. cbn [fst snd]. pose proof (format_utf8 (Timestamp e)).
    destruct_and!. repeat split; cbn; first [done | by eexists; split; [|done]; lia | assumption | constructor]. }
  unfold event_members. apply Forall_forall. intros [k v] ([k' [o v']] & Hin & Hx)%list_elem_of_bind.
  rewrite Forall_forall in Hv. specialize (Hv _ Hx). unfold expand in Hin. cbn [fst snd] in *.
  case_match; [by apply not_elem_of_nil in Hin|]. apply list_elem_of_singleton in Hin. by simplify_eq.
Qed.

Lemma event_printable e : encodable e → printable (JObj (event_members e)) ∧ height (JObj (event_members e)) = 1.
Proof.
  intros He. pose proof (event_members_valid e He) as Hv.
  split; [apply printable_members|apply height_members]; (eapply Forall_impl; [exact Hv|]); intros x Hx; apply Hx.
Qed.

Lemma event_specs_NoDup e : NoDup (fold_name <$> (event_specs e).*1).
Proof. change ((event_specs e).*1) with ((event_specs sample_event).*1). refine (bool_decide_unpack _ _). vm_compute. done. Qed.

Lemma event_string e k o s :
  (k, (o, json_text s)) ∈ event_specs e → field as_string k "" (event_members e) = Some s.
Proof.
  intros Hin. eapply field_expand; [apply event_specs_NoDup|exact Hin|done|].
  simpl. intros. bool_facts. done.
Qed.
Lemma event_uint e bits k o z :
  0 ≤ z < 2 ^ bits → (k, (o, json_number z)) ∈ event_specs e → field (as_uint bits) k 0 (event_members e) = Some z.
Proof.
  intros Hz Hin. eapply field_expand; [apply event_specs_NoDup|exact Hin|by apply as_uint_number|].
  cbn. rewrite json_uint_zero by lia. intros. bool_facts. done.
Qed.

Ltac in_specs := solve [unfold event_specs; repeat first [apply list_elem_of_here | apply list_elem_of_further]].

Lemma decode_event_members e : encodable e → decode_event (event_members e) empty_event = Some e.
Proof.
  intros (_ & Ht & H1 & H2 & H3). unfold decode_event. cbv zeta.
  assert (field as_time "timestamp" zero_time (event_members e) = Some (Timestamp e)) as Etime.
  { eapply field_expand; [apply event_specs_NoDup|in_specs| |].
    - cbn. rewrite escape_safe by apply format_safe. by apply parse_format.
    - simpl. intros Hz. exfalso. unfold Format_RFC3339Nano, pad_int in Hz. bool_facts.
      apply (f_equal String.length) in Hz. rewrite !string_app_length in Hz. simpl in Hz. lia. }
  unfold empty_event. cbn [SchemaVersion Timestamp EventType Operation Result ReasonCode WorkloadIdentity HumanActor
    OrganizationID CredentialID RunID RotationID ExecutorIdentity CredentialVersion CredentialSchema KeyVersion
    RequestID LatencyClass].
  repeat match goal with
  | |- context [field as_string ?k "" _] => erewrite (event_string e k) by in_specs
  | |- context [field (as_uint ?b) ?k 0 _] =>
      let z := match k with "schema_version"%string => constr:(SchemaVersion e)
               | "credential_version"%string => constr:(CredentialVersion e) | _ => constr:(CredentialSchema e) end in
      erewrite (event_uint e b k _ z) by (in_specs || lia)
  end.
  rewrite Etime. by destruct e.
Qed.

(** Different events have different encodings. *)
Lemma Marshal_Unmarshal e s : encodable e → Marshal e = Some s → Unmarshal s = Some e.
Proof.
  intros He Hs. rewrite Marshal_encodable in Hs by done. simplify_eq.
  destruct (event_printable e He) as [Hp Hh]. unfold Unmarshal.
  rewrite parse_document_render; [|done|rewrite Hh; unfold max_depth; lia]. cbn [mbind option_bind as_struct].
  by apply decode_event_members.
Qed.
Lemma Marshal_total e : encodable e → ∃ s, Marshal e = Some s.
Proof. intros He. eexists. by apply Marshal_encodable. Qed.

(** C36: the JSON form of an event loses nothing: [json.Marshal] succeeds on
    every event whose strings are UTF-8, whose integers fit their Go types and
    whose year has four digits, and [json.Unmarshal] of the document it writes
    returns the same event, timestamp to the nanosecond and omitted fields
    included.  The spool and the remote store authenticate and compare the
    re-encoding of what they read back, so they rely on it. *)
Theorem event_roundtrip e :
  encodable e → ∃ s, Marshal e = Some s ∧ Unmarshal s = Some e.
Proof.
  intros He. destruct (Marshal_total e He) as [s Hs]. exists s. split; [done|]. by apply Marshal_Unmarshal.
Qed.

Lemma event_roundtrip_witness :
  encodable sample_event ∧ ∃ s, Marshal sample_event = Some s ∧ Unmarshal s = Some sample_event.
Proof.
  assert (encodable sample_event) as H by (refine (bool_decide_unpack _ _); vm_compute; exact I).
  split; [exact H|]. exact (event_roundtrip sample_event H).
Defined.


(** ** Completion events are well formed *)

Definition clean (value : string) : bool := negb ((255 <? len value) || ContainsAny value control_chars).

Lemma validate_iff e :
  validate e = true ↔
  SchemaVersion e = 1 ∧ Timestamp e ≠ 0 ∧ known (EventType e) knownEventTypes = true ∧
  KnownOperation (Operation e) = true ∧ known (Result e) knownResults = true ∧ token (ReasonCode e) = true ∧
  (LatencyClass e = "" ∨ token (LatencyClass e) = true) ∧ forallb clean (identifiers e) = true.
Proof.
  unfold validate, IsZero, UTC, AuditSchemaVersion. rewrite Z.eqb_refl. fold clean.
  destruct (SchemaVersion e =? 1) eqn:E1, (Timestamp e =? 0) eqn:E2, (known (EventType e) knownEventTypes) eqn:E3,
    (KnownOperation (Operation e)) eqn:E4, (known (Result e) knownResults) eqn:E5, (token (ReasonCode e)) eqn:E6;
    simpl; bool_facts; try (split; [done|naive_solver]).
  destruct (String.eqb (LatencyClass e) "") eqn:E7, (token (LatencyClass e)) eqn:E8; simpl; bool_facts; naive_solver.
Qed.

Lemma StableResult_known status :
  known (StableResult status).1 knownResults = true ∧ token (StableResult status).2 = true.
Proof. unfold StableResult. repeat case_match; split; vm_compute; done. Qed.

(** The completion event of a request is well formed whatever the HTTP
    status and however long it took: its result and reason are always in the
    vocabulary and its latency class is always a token, so the spool's
    validation refuses it only for the instant (Go's zero time), an operation
    outside the vocabulary, or a workload identity, actor or request identifier
    longer than 255 bytes or holding NUL, CR or LF.  The latency class is
    [fast] below 10 ms, [medium] below 100 ms and [slow] from there on. *)
Lemma completion_validates (r : Request.t) status finished :
  let e := Completion (Some r) (StableResult status).1 (StableResult status).2 finished in
  let d := Sub finished (Request.StartedAt r) in
  (validate e = true ↔
     finished ≠ zero_time ∧ KnownOperation (Request.Operation r) = true ∧
     clean (Request.WorkloadIdentity r) = true ∧ clean (Request.HumanActor r) = true ∧
     clean (Request.ID r) = true) ∧
  (LatencyClass e = "fast" ↔ d < 10 * Millisecond) ∧
  (LatencyClass e = "medium" ↔ 10 * Millisecond ≤ d < 100 * Millisecond) ∧
  (LatencyClass e = "slow" ↔ 100 * Millisecond ≤ d) ∧
  (Result e = ResultSuccess ↔ 200 ≤ status < 300) ∧
  (Result e = ResultDenied ↔ status = 401 ∨ status = 403).
Proof.
  intros e d. destruct (StableResult_known status) as [Hr Ht]. split; [|split; [|split; [|split]]].
  - rewrite validate_iff. unfold e, Completion.
    cbn [default AuditEvent.SchemaVersion Timestamp EventType Operation Result ReasonCode LatencyClass
      identifiers forallb WorkloadIdentity HumanActor OrganizationID CredentialID RunID RotationID
      ExecutorIdentity KeyVersion RequestID id option_map from_option].
    unfold identifiers.
    cbn [forallb WorkloadIdentity HumanActor OrganizationID CredentialID RunID RotationID
      ExecutorIdentity KeyVersion RequestID].
    change (clean "") with true. rewrite !andb_true_iff, Hr, Ht. unfold UTC, zero_time.
    assert (known EventTypeRequestCompleted knownEventTypes = true) as -> by done.
    assert (∀ s, s = "slow" ∨ s = "medium" ∨ s = "fast" → token s = true) as Htok.
    { intros s [->|[->| ->]]; vm_compute; done. }
    assert (∀ b c : bool, token (if b then "slow" else if c then "medium" else "fast") = true) as Hlat.
    { intros [] []; apply Htok; auto. }
    rewrite Hlat. clear. unfold AuditSchemaVersion. naive_solver.
  - unfold e, Completion. cbn [LatencyClass]. fold d. simpl default. fold d.
    repeat case_match; bool_facts; unfold Millisecond in *; split; intros; (lia || done).
  - unfold e, Completion. cbn [LatencyClass]. simpl default. fold d.
    repeat case_match; bool_facts; unfold Millisecond in *; split; intros; (lia || done).
  - unfold e, Completion. cbn [LatencyClass]. simpl default. fold d.
    repeat case_match; bool_facts; unfold Millisecond in *; split; intros; (lia || done).
  - unfold e, Completion, StableResult. cbn [Result]. clear.
    split; repeat case_match; bool_prop; simpl; split; intros; try done; try lia.
Qed.
