(* ===== verification/Credential.v ===== *)
(** * Package credential: data, errors and validators

    The types shared by the manager and its backends (src/credential/manager.go,
    resolution.go, rotation.go, recovery.go), the request validators and the
    digests.  Byte slices and string lists are values here: the code copies
    them whenever they cross a boundary ([cloneMetadata], [cloneInputs]), so the
    copies are identities in the model. *)

From Stdlib Require Import Ascii.
From S2P Require Import Prelude GoStrings GoTime Json Crypto Envelope.

(** ** Errors *)

Inductive CredError : Type :=
| ErrInvalidInput | ErrNotFound | ErrVersionConflict | ErrCredentialNotActive
| ErrIdempotencyConflict | ErrEncryption
| ErrUnauthorized | ErrBindingNotFound | ErrBindingConflict | ErrBindingNotActive
| ErrBindingExpired | ErrBindingExhausted | ErrAttemptConflict | ErrResolution
| ErrRotationUnavailable | ErrRotationConflict | ErrRotationNotReady
| ErrRecoveryValidation | ErrBackupConflict | ErrStorage.
#[export] Instance CredError_eq_dec : EqDecision CredError.
Proof. solve_decision. Defined.

(** ** Constants (manager.go) *)

Definition maxNameLength : Z := 255.
Definition maxCredentialType : Z := 128.
Definition maxOrganizationID : Z := 255.
Definition maxInputFields : Z := 128.
Definition maxFieldNameLength : Z := 128.
Definition maxPlaintextPayload : Z := 1048576.

(** ** Credentials *)

Inductive State : Type := StateActive | StateRetired.
#[export] Instance State_eq_dec : EqDecision State.
Proof. solve_decision. Defined.

Record Metadata : Type := mkMetadata {
  mID : string;
  mOrganizationID : string;
  mName : string;
  mCredentialType : string;
  mSchemaVersion : Z;
  mVersion : Z;
  mState : State;
  mSecretFields : list string;
  mCreatedAt : time;
  mUpdatedAt : time
}.
#[export] Instance Metadata_eq_dec : EqDecision Metadata.
Proof. solve_decision. Defined.

Record CreateRequest : Type := mkCreate {
  crOrganizationID : string;
  crName : string;
  crCredentialType : string;
  crSchemaVersion : Z;
  crInputs : gmap string string;
  crIdempotencyKey : string
}.

Record ReplaceInputsRequest : Type := mkReplace {
  riCredentialID : string;
  riOrganizationID : string;
  riExpectedVersion : Z;
  riInputs : gmap string string
}.

Record UpdateMetadataRequest : Type := mkUpdate {
  umCredentialID : string;
  umOrganizationID : string;
  umExpectedVersion : Z;
  umName : string
}.

Record RetireRequest : Type := mkRetire {
  rtCredentialID : string;
  rtOrganizationID : string;
  rtExpectedVersion : Z
}.

(** [uint64] increment of [next.Version++]. *)
Definition next_version (v : Z) : Z := u64 (v + 1).

(** ** Interfaces the manager is built from

    The error a registry returns is discarded by its callers. *)

Class SchemaRegistry : Type := {
  schema_validate : string → Z → gmap string string → option (list string)
}.

Record ResolvedFile : Type := mkFileOut { rfName : string; rfMode : string; rfContent : string }.
#[export] Instance ResolvedFile_eq_dec : EqDecision ResolvedFile.
Proof. solve_decision. Defined.
Record InjectorResult : Type := mkInjector {
  irEnvironment : gmap string string;
  irFiles : list ResolvedFile
}.
#[export] Instance InjectorResult_eq_dec : EqDecision InjectorResult.
Proof. solve_decision. Defined.

Record InjectorRegistry : Type := mkInjectorRegistry {
  Render : string → Z → gmap string string → option InjectorResult
}.

(** ** Bindings and resolution *)

Inductive WorkloadRole : Type :=
| RoleScheduler | RoleExecutor | RoleSecretsOperator | RoleSecretsAuditor | RoleAPI.
#[export] Instance WorkloadRole_eq_dec : EqDecision WorkloadRole.
Proof. solve_decision. Defined.

Definition role_string (r : WorkloadRole) : string :=
  match r with
  | RoleScheduler => "praetor-scheduler"
  | RoleExecutor => "praetor-executor"
  | RoleSecretsOperator => "praetor-secrets-operator"
  | RoleSecretsAuditor => "praetor-secrets-auditor"
  | RoleAPI => "praetor-api"
  end.

Record WorkloadIdentity : Type := mkIdentity { Role : WorkloadRole; Subject : string }.
#[export] Instance WorkloadIdentity_eq_dec : EqDecision WorkloadIdentity.
Proof. solve_decision. Defined.

Inductive BindingState : Type :=
| BindingPending | BindingActive | BindingCanceled | BindingExpired | BindingExhausted.
#[export] Instance BindingState_eq_dec : EqDecision BindingState.
Proof. solve_decision. Defined.

Record Binding : Type := mkBinding {
  bdRunID : string;
  bdDispatchID : string;
  bdOrganizationID : string;
  bdCredentialID : string;
  bdCredentialVersion : Z;
  bdExecutorIdentity : string;
  bdState : BindingState;
  bdNotBefore : time;
  bdExpiresAt : time;
  bdMaxResolutions : Z;
  bdResolutionCount : Z;
  bdCreatedAt : time;
  bdUpdatedAt : time;
  bdCancelReason : string
}.
#[export] Instance Binding_eq_dec : EqDecision Binding.
Proof. solve_decision. Defined.

(** The instants of a request keep the zone they were written in, because
    [bindingDigest] renders them in it; offsets are minutes east of UTC. *)
Record RegisterBindingRequest : Type := mkRegister {
  rbRunID : string;
  rbDispatchID : string;
  rbOrganizationID : string;
  rbCredentialID : string;
  rbExecutorIdentity : string;
  rbNotBefore : time;
  rbNotBeforeZone : Z;
  rbExpiresAt : time;
  rbExpiresAtZone : Z;
  rbMaxResolutions : Z;
  rbIdempotencyKey : string
}.

Record ResolveRequest : Type := mkResolve { rsRunID : string; rsAttemptID : string; rsRequestedAt : time }.
Record CancelBindingRequest : Type := mkCancel { cbRunID : string; cbDispatchID : string; cbReason : string }.

Record ResolvedCredential : Type := mkResolved {
  rcRunID : string;
  rcAttemptID : string;
  rcExpiresAt : time;
  rcEnvironment : gmap string string;
  rcFiles : list ResolvedFile
}.

Record ResolutionPolicy : Type := mkPolicy {
  MaxBindingLifetime : duration;
  MaxFutureStart : duration;
  MaxResolutions : Z;
  AttemptRetryWindow : duration;
  MaxResponseBytes : Z
}.

Definition DefaultResolutionPolicy : ResolutionPolicy :=
  mkPolicy (24 * Hour) (15 * Minute) 3 (5 * Minute) 1048576.

Record bindingRegistration : Type := mkRegistration {
  brRequest : RegisterBindingRequest;
  brDigest : string;
  brNow : time
}.

Record resolutionClaim : Type := mkClaim {
  clRunID : string;
  clAttemptID : string;
  clExecutorIdentity : string;
  clDigest : string;
  clNow : time;
  clRetryWindow : duration
}.

Record boundRecord : Type := mkBound {
  boRecord : EnvRecord;
  boCredentialType : string;
  boSchemaVersion : Z
}.

(** ** Rotation and recovery *)

Inductive RotationState : Type := RotationPending | RotationRunning | RotationReady | RotationFinalized.
#[export] Instance RotationState_eq_dec : EqDecision RotationState.
Proof. solve_decision. Defined.

Record Rotation : Type := mkRotation {
  roID : string;
  roSourceKeyID : string;
  roTargetKeyID : string;
  roState : RotationState;
  roTotalRecords : Z;
  roProcessedRecords : Z;
  roCreatedAt : time;
  roUpdatedAt : time;
  roFinalizedAt : time
}.
#[export] Instance Rotation_eq_dec : EqDecision Rotation.
Proof. solve_decision. Defined.

Record CredentialRotationRequest : Type := mkCredRotation {
  coOrganizationID : string;
  coCredentialID : string;
  coVersion : Z
}.

Record KeyStatus : Type := mkKeyStatus {
  ksCurrentKeyID : string;
  ksPreviousKeyID : string;
  ksRecordCounts : gmap string Z;
  ksActiveRotation : option Rotation;
  ksDatabaseReferencesCleared : bool;
  ksRetainedBackupReferences : gmap string Z;
  ksBackupReferencesCleared : bool
}.

Record rotationRecord : Type := mkRotationRecord {
  rrMetadata : Metadata;
  rrVersion : Z;
  rrRecord : EnvRecord
}.

Record RecoveryValidation : Type := mkRecovery {
  rvValidatedRecords : Z;
  rvTotalRecords : Z;
  rvKeyCounts : gmap string Z;
  rvMetadataSHA256 : string;
  rvCompletedAt : time
}.

Record BackupSet : Type := mkBackup {
  buID : string;
  buArtifactSHA256 : string;
  buKeyIDs : list string;
  buCreatedAt : time;
  buRetainUntil : time;
  buExpiredAt : time
}.
#[export] Instance BackupSet_eq_dec : EqDecision BackupSet.
Proof. solve_decision. Defined.

(** ** Validators of manager.go *)

Definition validName (name : string) : bool :=
  negb (String.eqb name "") && (len name <=? maxNameLength) && String.eqb (TrimSpace name) name.

Definition validateCreate (r : CreateRequest) : result CredError unit :=
  guard_err (String.eqb (crOrganizationID r) "" || (maxOrganizationID <? len (crOrganizationID r)) ||
    negb (validName (crName r)) || String.eqb (crCredentialType r) "" ||
    (maxCredentialType <? len (crCredentialType r)) ||
    (crSchemaVersion r =? 0) || String.eqb (crIdempotencyKey r) "" || (255 <? len (crIdempotencyKey r)))
    ErrInvalidInput.

(** [for name := range inputs] returning the same error from every failing
    iteration, in whatever order. *)
Definition validateInputs `{MapOrder} (inputs : gmap string string) : result CredError unit :=
  _ ← guard_err ((Z.of_nat (size inputs) =? 0) || (maxInputFields <? Z.of_nat (size inputs))) ErrInvalidInput;
  guard_err (existsb (λ x, String.eqb x.1 "" || (maxFieldNameLength <? len x.1) ||
                           negb (String.eqb (TrimSpace x.1) x.1)) (iterate inputs)) ErrInvalidInput.

Definition envelopeContext (m : Metadata) : EnvContext :=
  mkContext (mID m) (mOrganizationID m) (mSchemaVersion m) (mVersion m).

(** The encoding that is digested, and the digest. *)
Definition createEncoding (r : CreateRequest) : string :=
  json_struct [
    ("organization_id", json_string (crOrganizationID r));
    ("name", json_string (crName r));
    ("credential_type", json_string (crCredentialType r));
    ("schema_version", json_uint (crSchemaVersion r));
    ("inputs", json_map (crInputs r))].
Definition requestDigest `{Crypto} (r : CreateRequest) : string := sha256 (createEncoding r).

(** [s[i:j]] and [s[i] = f(s[i])] within range. *)
Definition slice (s : string) (i j : nat) : string := take_str (j - i) (drop_str i s).
Fixpoint modify_byte (n : nat) (f : Z → Z) (s : string) : string :=
  match s, n with
  | "", _ => ""
  | String a s', O => String (zb (f (bz a))) s'
  | String a s', S n' => String a (modify_byte n' f s')
  end.

Definition newUUID (source : reader) : option (string * reader) :=
  '(value, source) ← randomBytes source 16;
  let value := modify_byte 6 (λ b, Z.lor (Z.land b 0x0F) 0x40) value in
  let value := modify_byte 8 (λ b, Z.lor (Z.land b 0x3F) 0x80) value in
  let encoded := EncodeToString value in
  Some (slice encoded 0 8 +:+ "-" +:+ slice encoded 8 12 +:+ "-" +:+ slice encoded 12 16 +:+ "-" +:+
        slice encoded 16 20 +:+ "-" +:+ slice encoded 20 32, source).

(** ** Validators of resolution.go and recovery.go *)

Definition isScheduler (i : WorkloadIdentity) : bool :=
  bool_decide (Role i = RoleScheduler) && String.eqb (Subject i) (role_string RoleScheduler).

Definition byte_at (s : string) (n : nat) : Z :=
  match drop_str n s with String a _ => bz a | "" => 0 end.

Definition dash_index (i : nat) : bool := ((i =? 8) || (i =? 13) || (i =? 18) || (i =? 23))%nat.

Definition validUUID (value : string) : bool :=
  if negb (len value =? 36) || negb (byte_at value 8 =? 45) || negb (byte_at value 13 =? 45) ||
     negb (byte_at value 18 =? 45) || negb (byte_at value 23 =? 45) then false
  else forallb (λ x, dash_index x.1 || in_range 48 57 x.2 || in_range 97 102 x.2) (range_string value).

Definition whitespace_chars : string :=
  " " +:+ String (zb 9) (String (zb 13) (String (zb 10) (String (zb 0) ""))).

Definition validExecutorIdentity (value : string) : bool :=
  HasPrefix value (role_string RoleExecutor +:+ ":") && (len (role_string RoleExecutor) + 1 <? len value) &&
  (len value <=? 255) && negb (ContainsAny value whitespace_chars).

Definition validReason `{UnicodeTables} (value : string) : bool :=
  if String.eqb value "" || (64 <? len value) then false
  else forallb (λ c, IsLower c || IsDigit c || (c =? 95) || (c =? 45)) (runes value).

Definition validBindingRequest (r : RegisterBindingRequest) (now : time) (p : ResolutionPolicy) : bool :=
  validUUID (rbRunID r) && validUUID (rbDispatchID r) && validUUID (rbCredentialID r) &&
  negb (String.eqb (rbOrganizationID r) "") && validExecutorIdentity (rbExecutorIdentity r) &&
  negb (Before (rbNotBefore r) (Add now (- Minute))) &&
  negb (After (rbNotBefore r) (Add now (MaxFutureStart p))) &&
  After (rbExpiresAt r) now && After (rbExpiresAt r) (rbNotBefore r) &&
  (Sub (rbExpiresAt r) (rbNotBefore r) <=? MaxBindingLifetime p) &&
  (0 <? rbMaxResolutions r) && (rbMaxResolutions r <=? MaxResolutions p) &&
  negb (String.eqb (rbIdempotencyKey r) "") && (len (rbIdempotencyKey r) <=? 255).

(** [json.Marshal] of the request: untagged field names, times in the zone
    they were given in. *)
Definition bindingEncoding (r : RegisterBindingRequest) : option string :=
  notBefore ← json_time (rbNotBefore r) (rbNotBeforeZone r);
  expiresAt ← json_time (rbExpiresAt r) (rbExpiresAtZone r);
  Some (json_struct [
    ("RunID", json_string (rbRunID r));
    ("DispatchID", json_string (rbDispatchID r));
    ("OrganizationID", json_string (rbOrganizationID r));
    ("CredentialID", json_string (rbCredentialID r));
    ("ExecutorIdentity", json_string (rbExecutorIdentity r));
    ("NotBefore", notBefore);
    ("ExpiresAt", expiresAt);
    ("MaxResolutions", json_uint (rbMaxResolutions r));
    ("IdempotencyKey", json_string (rbIdempotencyKey r))]).
Definition bindingDigest `{Crypto} (r : RegisterBindingRequest) : option string :=
  encoded ← bindingEncoding r; Some (sha256 encoded).

Definition validEnvironmentName (name : string) : bool :=
  if String.eqb name "" || (128 <? len name) || (byte_at name 0 <? 65) || (90 <? byte_at name 0) then false
  else forallb (λ c, in_range 65 90 c || in_range 48 57 c || (c =? 95)) (runes name).

(** The loop over the files: the running total, or [None] once one is refused. *)
Fixpoint valid_files (names : gset string) (total : Z) (files : list ResolvedFile) : option Z :=
  match files with
  | [] => Some total
  | f :: files' =>
      if negb (validEnvironmentName (rfName f)) || negb (String.eqb (rfMode f) "0600") || Contains (rfName f) ".."
      then None
      else if bool_decide (rfName f ∈ names) then None
      else valid_files ({[rfName f]} ∪ names) (total + (len (rfName f) + len (rfContent f))) files'
  end.

Fixpoint valid_environment (total : Z) (env : list (string * string)) : option Z :=
  match env with
  | [] => Some total
  | (name, value) :: env' =>
      if negb (validEnvironmentName name) then None
      else valid_environment (total + (len name + len value)) env'
  end.

Definition validInjectorResult `{MapOrder} (r : InjectorResult) (limit : Z) : bool :=
  match valid_environment 0 (iterate (irEnvironment r)) with
  | None => false
  | Some total =>
      match valid_files ∅ total (irFiles r) with None => false | Some total => total <=? limit end
  end.

Definition backup_id_chars : string := String (zb 0) (String (zb 13) (String (zb 10) "")).

Fixpoint valid_key_ids (seen : gset string) (ids : list string) : bool :=
  match ids with
  | [] => true
  | id :: ids' =>
      if String.eqb id "" || (255 <? len id) || bool_decide (id ∈ seen) then false
      else valid_key_ids ({[id]} ∪ seen) ids'
  end.

Definition validBackup (b : BackupSet) : bool :=
  if String.eqb (buID b) "" || (255 <? len (buID b)) || ContainsAny (buID b) backup_id_chars ||
     negb (len (buArtifactSHA256 b) =? 64) || IsZero (buCreatedAt b) ||
     Before (buRetainUntil b) (buCreatedAt b) ||
     (Z.of_nat (length (buKeyIDs b)) =? 0) || (2 <? Z.of_nat (length (buKeyIDs b))) then false
  else match DecodeString (buArtifactSHA256 b) with
       | None => false
       | Some _ => valid_key_ids ∅ (buKeyIDs b)
       end.

(** ** UUIDs *)

Definition uuid_of (e : string) : string :=
  slice e 0 8 +:+ "-" +:+ slice e 8 12 +:+ "-" +:+ slice e 12 16 +:+ "-" +:+ slice e 16 20 +:+ "-" +:+ slice e 20 32.

Lemma lower_hex_range a : lower_hex a = true → in_range 48 57 (bz a) || in_range 97 102 (bz a) = true.
Proof. done. Qed.

Lemma uuid_of_valid e :
  String.length e = 32%nat → forall_bytes lower_hex e = true →
  validUUID (uuid_of e) = true ∧ byte_at (uuid_of e) 14 = byte_at e 12 ∧ byte_at (uuid_of e) 19 = byte_at e 16.
Proof.
  intros Hl He. assert (ascii_only (uuid_of e) = true) as Ha.
  { apply lower_hex_ascii in He. unfold ascii_only in *.
    do 32 (destruct e as [|? e]; [done|]). destruct e; [|done].
    cbv [uuid_of slice take_str drop_str String.append Nat.sub]. cbn in He |- *. rewrite !andb_true_iff in *. split_and!; (assumption || tauto || done). }
  assert (byte_range 0 (uuid_of e) = range_string (uuid_of e)) as Hr by (symmetry; by apply range_ascii).
  unfold validUUID. rewrite <-Hr. clear Hr Ha.
  do 32 (destruct e as [|? e]; [done|]). destruct e; [|done].
  cbv [uuid_of slice take_str drop_str String.append Nat.sub]. cbn in He |- *. rewrite !andb_true_iff in He. split_and!; try done.
  destruct_and! He. unfold lower_hex in *.
  repeat match goal with Hx : _ || _ = true |- _ => rewrite Hx; clear Hx; cbn end. done.
Qed.

(** The two bytes [newUUID] overwrites, digit by digit. *)
Lemma version_byte a : bz a / 16 = 4 → hex_digit (bz a / 16) = "4"%char.
Proof. by intros ->. Qed.
Lemma stamp_version a : bz (zb (Z.lor (Z.land (bz a) 0x0F) 0x40)) / 16 = 4.
Proof. by destruct a as [[] [] [] [] [] [] [] []]. Qed.
Lemma stamp_variant a : in_range 8 11 (bz (zb (Z.lor (Z.land (bz a) 0x3F) 0x80)) / 16) = true.
Proof. by destruct a as [[] [] [] [] [] [] [] []]. Qed.

Lemma newUUID_spec source u rest :
  newUUID source = Some (u, rest) →
  validUUID u = true ∧ byte_at u 14 = 52 ∧ (in_range 56 57 (byte_at u 19) || in_range 97 98 (byte_at u 19)) = true.
Proof.
  unfold newUUID. intros Hu. destruct (randomBytes source 16) as [[v src]|] eqn:Hr; [|done].
  cbn [mbind option_bind] in Hu. apply randomBytes_len in Hr. simplify_eq.
  assert (String.length v = 16%nat) as Hr' by (unfold len in Hr; lia). clear Hr. rename Hr' into Hr.
  set (v1 := modify_byte 6 _ v). set (v2 := modify_byte 8 _ v1).
  assert (String.length v2 = 16%nat) as Hl.
  { subst v1 v2. do 16 (destruct v as [|? v]; [done|]). by destruct v. }
  destruct (uuid_of_valid (EncodeToString v2)) as (Hv & H14 & H19).
  { pose proof (len_EncodeToString v2) as Hle. unfold len in Hle. lia. }
  { apply EncodeToString_lower. }
  fold (uuid_of (EncodeToString v2)). split; [done|]. rewrite H14, H19. clear H14 H19 Hv Hl.
  subst v1 v2. do 16 (destruct v as [|? v]; [done|]). destruct v; [|done].
  cbn [modify_byte EncodeToString byte_at drop_str].
  unfold byte_at. cbn [drop_str]. rewrite version_byte by apply stamp_version. split; [done|].
  pose proof (stamp_variant a7) as Hs. apply in_range_true in Hs.
  rewrite hex_digit_bz by lia. unfold in_range. case_match; bool_facts; lia.
Qed.

(** C29: [newUUID] turns any 16 random bytes into an identifier that the
    service's own [validUUID] accepts, with the version digit 4 and an RFC 4122
    variant digit, and consumes exactly those bytes. *)
Theorem newUUID_valid source :
  (16 ≤ String.length source)%nat →
  ∃ u, newUUID source = Some (u, drop_str 16 source) ∧ validUUID u = true ∧
    byte_at u 14 = 52 ∧ (in_range 56 57 (byte_at u 19) || in_range 97 98 (byte_at u 19)) = true.
Proof.
  intros Hs%Nat.leb_le. destruct (newUUID source) as [[u rest]|] eqn:Hu.
  - exists u. split; [|by eapply newUUID_spec]. unfold newUUID, randomBytes in Hu. rewrite Hs in Hu.
    cbn [mbind option_bind] in Hu. by simplify_eq.
  - unfold newUUID, randomBytes in Hu. by rewrite Hs in Hu.
Qed.

Lemma newUUID_valid_witness :
  ∃ u, newUUID (stream 20 7) = Some (u, drop_str 16 (stream 20 7)) ∧ validUUID u = true.
Proof.
  destruct (newUUID_valid (stream 20 7)) as (u & Hu & Hv & _); [vm_compute; lia|].
  exists u. exact (conj Hu Hv).
Defined.

(** ** Request digests *)

Record create_clean (r : CreateRequest) : Prop := {
  create_clean_org : valid_utf8 (crOrganizationID r) = true;
  create_clean_name : valid_utf8 (crName r) = true;
  create_clean_type : valid_utf8 (crCredentialType r) = true;
  create_clean_schema : 0 ≤ crSchemaVersion r;
  create_clean_inputs : valid_inputs (crInputs r)
}.

(** Everything of a request but its idempotency key. *)
Definition same_create (r r' : CreateRequest) : Prop :=
  crOrganizationID r = crOrganizationID r' ∧ crName r = crName r' ∧
  crCredentialType r = crCredentialType r' ∧ crSchemaVersion r = crSchemaVersion r' ∧
  crInputs r = crInputs r'.

(** The digest that decides between a replay and a conflict covers the
    whole request: two requests with one digest have the same owner, name,
    type, schema version and inputs, unless their own encodings collide. *)
Lemma requestDigest_binds `{Crypto} r r' :
  create_clean r → create_clean r' → collision_free sha256 [createEncoding r; createEncoding r'] →
  requestDigest r = requestDigest r' → same_create r r'.
Proof.
  intros [] [] Hc Hd. apply Hc in Hd as He; [|set_solver..].
  clear Hc Hd. unfold createEncoding, json_struct in He. apply String_tail_inj in He.
  apply members_string_inj in He as [? He]; [|done..].
  apply members_string_inj in He as [? He]; [|done..].
  apply members_string_inj in He as [? He]; [|done..].
  apply members_uint_inj in He as [? He]; [|done..].
  apply last_map_inj in He; done.
Qed.

Module CredentialExample.
#[local] Existing Instance toy_crypto.
Definition request : CreateRequest :=
  mkCreate "org-a" "deploy" "machine" 1 {[ "username" := "root"; "password" := "pw" ]} "key-1".
Lemma request_clean : create_clean request.
Proof. split; [reflexivity..|vm_compute; discriminate|]. apply (bool_decide_unpack _). vm_compute. exact I. Defined.
End CredentialExample.

Lemma requestDigest_binds_witness :
  same_create CredentialExample.request CredentialExample.request.
Proof.
  apply (requestDigest_binds (H:=toy_crypto) _ _ CredentialExample.request_clean CredentialExample.request_clean);
    [|reflexivity].
  intros m m' Hm Hm' _. rewrite !elem_of_cons, elem_of_nil in Hm, Hm'. destruct Hm as [->|[->|[]]], Hm' as [->|[->|[]]]; reflexivity.
Defined.

(** ** Rendered results *)

Definition entry_size (x : string * string) : Z := len x.1 + len x.2.
Definition file_size (f : ResolvedFile) : Z := len (rfName f) + len (rfContent f).
Definition injector_size (r : InjectorResult) : Z :=
  sum_by entry_size (map_to_list (irEnvironment r)) + sum_by file_size (irFiles r).

Definition valid_file (f : ResolvedFile) : Prop :=
  validEnvironmentName (rfName f) = true ∧ rfMode f = "0600" ∧ Contains (rfName f) ".." = false.

Lemma valid_environment_spec total env t :
  valid_environment total env = Some t ↔
  Forall (λ x, validEnvironmentName x.1 = true) env ∧ t = total + sum_by entry_size env.
Proof.
  revert total. induction env as [|[k v] env IH]; intros total; cbn [valid_environment].
  - change (sum_by entry_size []) with 0. rewrite Z.add_0_r. split; [intros [= <-]; auto|by intros [_ ->]].
  - rewrite Forall_cons, sum_by_cons. change (entry_size (k, v)) with (len k + len v). cbn [fst].
    destruct (validEnvironmentName k); simpl.
    + rewrite IH. split; intros [? ?]; split_and!; try tauto; lia.
    + split; [done|]. by intros [[? _] _].
Qed.

Lemma valid_files_spec names total files t :
  valid_files names total files = Some t ↔
  Forall valid_file files ∧ NoDup (rfName <$> files) ∧ Forall (λ f, rfName f ∉ names) files ∧
  t = total + sum_by file_size files.
Proof.
  revert names total. induction files as [|f files IH]; intros names total; cbn [valid_files].
  - change (sum_by file_size []) with 0. rewrite Z.add_0_r. split; [intros [= <-]; split_and!; auto using NoDup_nil_2|by intros (_ & _ & _ & ->)].
  - rewrite fmap_cons, NoDup_cons, !Forall_cons, sum_by_cons. case_match eqn:Hbad.
    { split; [done|]. intros ([(Hn & Hm & Hc) _] & _). by rewrite Hn, Hm, Hc in Hbad. }
    assert (valid_file f) as Hf by (unfold valid_file; bool_prop; tauto).
    case_match eqn:Hin; bool_facts.
    { split; [done|]. intros (_ & _ & [? _] & _). done. }
    rewrite IH, list_elem_of_fmap. change (file_size f) with (len (rfName f) + len (rfContent f)).
    rewrite !Forall_forall. split.
    + intros (Hv & Hn & Hd & ->). split_and!; try done; [|set_solver|lia].
      intros (g & Heq & Hg). apply Hd in Hg. set_solver.
    + intros ((_ & Hv) & [Hni Hn] & (_ & Hd) & ->). split_and!; try done; [|lia].
      intros g Hg. specialize (Hd g Hg). rewrite elem_of_union, elem_of_singleton.
      intros [Heq|?]; [|done]. apply Hni. by exists g.
Qed.

Lemma validInjectorResult_spec `{MapOrder} r limit :
  validInjectorResult r limit = true ↔
  map_Forall (λ k _, validEnvironmentName k = true) (irEnvironment r) ∧
  Forall valid_file (irFiles r) ∧ NoDup (rfName <$> irFiles r) ∧ injector_size r ≤ limit.
Proof.
  assert (Forall (λ x, validEnvironmentName x.1 = true) (iterate (irEnvironment r)) ↔
          map_Forall (λ k _, validEnvironmentName k = true) (irEnvironment r)) as Henv.
  { rewrite map_Forall_to_list, Forall_forall, Forall_forall.
    setoid_rewrite <-iterate_perm at 1. split; intros Hx; intros [? ?]; apply Hx. }
  assert (sum_by entry_size (iterate (irEnvironment r)) =
          sum_by entry_size (map_to_list (irEnvironment r))) as Hsum by (by rewrite iterate_perm).
  unfold validInjectorResult, injector_size.
  destruct (valid_environment 0 _) as [t|] eqn:He.
  - apply valid_environment_spec in He as [He ->]. rewrite Hsum, Z.add_0_l.
    destruct (valid_files _ _ _) as [u|] eqn:Hf.
    + apply valid_files_spec in Hf as (Hv & Hn & _ & ->). rewrite Z.leb_le. tauto.
    + split; [done|]. intros (_ & Hv & Hn & _). exfalso.
      assert (Some (sum_by entry_size (map_to_list (irEnvironment r)) + sum_by file_size (irFiles r)) = None); [|done].
      rewrite <-Hf. symmetry. apply valid_files_spec. split_and!; try done. apply Forall_forall. set_solver.
  - split; [done|]. intros (Hn & _). exfalso.
    assert (Some (0 + sum_by entry_size (iterate (irEnvironment r))) = None); [|done].
    rewrite <-He. symmetry. apply valid_environment_spec. tauto.
Qed.

(** ** Valid identifiers are ASCII *)

Lemma uuid_bytes_ascii i s :
  forallb (λ x, dash_index x.1 || in_range 48 57 x.2 || in_range 97 102 x.2) (range_from i 0 s) = true →
  (∀ j, (j < String.length s)%nat → dash_index (i + j) = true → byte_at s j = 45) →
  ascii_only s = true.
Proof.
  revert i. induction s as [|b s IH]; intros i Hf Hd; [done|].
  assert (bz b < 0x80) as Hb.
  { destruct (dash_index i) eqn:Hi.
    - specialize (Hd 0%nat). rewrite Nat.add_0_r in Hd. unfold byte_at in Hd. cbn [drop_str] in Hd.
      rewrite Hd; [lia|simpl; lia|done].
    - cbn [range_from decode_rune] in Hf. destruct (bz b <? 0x80) eqn:Hb; [by apply Z.ltb_lt in Hb|].
      destruct (decode_multi (String b s)) as [[r w]|] eqn:Hm; cbn [default from_option id forallb fst snd] in Hf;
        rewrite Hi in Hf; apply andb_prop in Hf as [Hr _]; cbn [orb] in Hr;
        apply orb_true_iff in Hr; rewrite !in_range_true in Hr.
      + apply decode_multi_ge in Hm. lia.
      + unfold RuneError in Hr. lia. }
  unfold ascii_only in *. cbn [forall_bytes]. rewrite (proj2 (Z.ltb_lt _ _) Hb). cbn [andb].
  cbn [range_from decode_rune] in Hf. rewrite (proj2 (Z.ltb_lt _ _) Hb) in Hf. cbn [forallb pred] in Hf.
  apply andb_prop in Hf as [_ Hf]. apply (IH (S i) Hf). intros j Hj Hdash.
  apply (Hd (S j)); [simpl; lia|]. by rewrite Nat.add_succ_r.
Qed.

Lemma validUUID_ascii s : validUUID s = true → ascii_only s = true.
Proof.
  unfold validUUID. destruct (_ || _) eqn:Hg; [done|]. bool_prop. intros Hf.
  apply (uuid_bytes_ascii 0 s Hf). intros j _ Hj. cbn [Nat.add] in Hj. unfold dash_index in Hj.
  rewrite !orb_true_iff, !Nat.eqb_eq in Hj. naive_solver.
Qed.

Lemma validUUID_utf8 s : validUUID s = true → valid_utf8 s = true.
Proof. intros. by apply valid_utf8_ascii, validUUID_ascii. Qed.

(** The encoding of a binding request determines its run and its dispatch. *)
Lemma bindingEncoding_ids r r' e :
  validUUID (rbRunID r) = true → validUUID (rbRunID r') = true →
  validUUID (rbDispatchID r) = true → validUUID (rbDispatchID r') = true →
  bindingEncoding r = Some e → bindingEncoding r' = Some e →
  rbRunID r = rbRunID r' ∧ rbDispatchID r = rbDispatchID r'.
Proof.
  intros H1%validUUID_utf8 H2%validUUID_utf8 H3%validUUID_utf8 H4%validUUID_utf8. unfold bindingEncoding.
  destruct (json_time _ (rbNotBeforeZone r)) as [n|]; [|done].
  destruct (json_time _ (rbExpiresAtZone r)) as [x|]; [|done].
  destruct (json_time _ (rbNotBeforeZone r')) as [n'|]; [|done].
  destruct (json_time _ (rbExpiresAtZone r')) as [x'|]; [|done]. cbn [mbind option_bind].
  intros Hd Hd'. rewrite <-Hd in Hd'. apply (inj Some) in Hd' as He. symmetry in He. clear Hd Hd'.
  unfold json_struct in He. apply String_tail_inj in He.
  apply members_string_inj in He as [? He]; [|done..].
  by apply members_string_inj in He as [? _].
Qed.
