(* ===== verification/Builtin.v ===== *)
(** * Package builtin (src/builtin/registry.go)

    The one credential schema the service ships, [machine] version 1, and its
    injector.  [Validate] ranges over two Go maps; the theorems hold for every
    iteration order and show the result does not depend on it. *)

From S2P Require Import Prelude GoStrings Credential.

Definition allowed : gmap string bool := {[
  "username" := false; "password" := true; "ssh_private_key" := true;
  "become_method" := false; "become_password" := true ]}.

(** [inputs[name]], the empty string when absent. *)
Definition get (inputs : gmap string string) (name : string) : string := default "" (inputs !! name).

Section Registry.
Context `{MO : MapOrder}.

Definition Validate (credentialType : string) (schemaVersion : Z) (inputs : gmap string string)
  : option (list string) :=
  if negb (String.eqb credentialType "machine") || negb (schemaVersion =? 1) then None
  else if existsb (λ x, negb (bool_decide (is_Some (allowed !! x.1))) || String.eqb x.2 "") (iterate inputs)
  then None
  else if String.eqb (get inputs "username") "" ||
          (String.eqb (get inputs "password") "" && String.eqb (get inputs "ssh_private_key") "")
  then None
  else Some (sort_strings (filter (λ x, x.2 && negb (String.eqb (get inputs x.1) "")) (iterate allowed)).*1).

Definition registry_render (credentialType : string) (schemaVersion : Z) (inputs : gmap string string)
  : option InjectorResult :=
  _ ← Validate credentialType schemaVersion inputs;
  let environment := {[ "ANSIBLE_REMOTE_USER" := get inputs "username" ]} in
  let environment := if String.eqb (get inputs "become_method") "" then environment
                     else <["ANSIBLE_BECOME_METHOD" := get inputs "become_method"]> environment in
  let file name value := if String.eqb value "" then [] else [mkFileOut name "0600" value] in
  Some (mkInjector environment
    (file "ANSIBLE_PRIVATE_KEY_FILE" (get inputs "ssh_private_key") ++
     file "ANSIBLE_PASSWORD_FILE" (get inputs "password") ++
     file "ANSIBLE_BECOME_PASSWORD_FILE" (get inputs "become_password"))).
End Registry.

#[export] Instance builtin_registry `{MapOrder} : SchemaRegistry := {| schema_validate := Validate |}.
Definition builtin_injector `{MapOrder} : InjectorRegistry := {| Render := registry_render |}.

(** ** What it accepts *)

Definition secret_names : list string := ["become_password"; "password"; "ssh_private_key"].

(** The accepted input maps: only known, populated fields, a user name and at
    least one of the two login secrets. *)
Definition machine_inputs (inputs : gmap string string) : Prop :=
  map_Forall (λ k v, is_Some (allowed !! k) ∧ v ≠ "") inputs ∧
  is_Some (inputs !! "username") ∧
  (is_Some (inputs !! "password") ∨ is_Some (inputs !! "ssh_private_key")).

Definition present_secrets (inputs : gmap string string) : list string :=
  filter (λ k, is_Some (inputs !! k)) secret_names.

Section RegistrySpec.
Context `{MO : MapOrder}.
Implicit Types inputs : gmap string string.

Lemma get_empty inputs k :
  map_Forall (λ k v, is_Some (allowed !! k) ∧ v ≠ "") inputs →
  get inputs k = "" ↔ ¬ is_Some (inputs !! k).
Proof.
  intros Ha. unfold get. destruct (inputs !! k) as [v|] eqn:Hk; simpl.
  - apply Ha in Hk as [_ ?]. split; [done|]. intros Hn. exfalso. apply Hn. eauto.
  - split; [by intros _ [? ?]|done].
Qed.

Lemma known_fields inputs :
  existsb (λ x, negb (bool_decide (is_Some (allowed !! x.1))) || String.eqb x.2 "") (iterate inputs) = false ↔
  map_Forall (λ k v, is_Some (allowed !! k) ∧ v ≠ "") inputs.
Proof.
  rewrite <-not_true_iff_false, existsb_exists. split.
  - intros Hn k v Hk. destruct (decide (is_Some (allowed !! k) ∧ v ≠ "")) as [?|Hbad]; [done|].
    exfalso. apply Hn. exists (k, v). rewrite <-list_elem_of_In, elem_of_iterate. split; [done|].
    simpl. rewrite orb_true_iff, negb_true_iff, bool_decide_eq_false, String.eqb_eq.
    destruct (decide (is_Some (allowed !! k))); [|auto]. right. apply dec_stable. tauto.
  - intros Ha ([k v] & Hin & Hb). rewrite <-list_elem_of_In, elem_of_iterate in Hin.
    apply Ha in Hin as [Hs Hv]. simpl in Hb. rewrite bool_decide_eq_true_2 in Hb by done.
    simpl in Hb. by apply String.eqb_eq in Hb.
Qed.

Lemma secret_fields inputs :
  map_Forall (λ k v, is_Some (allowed !! k) ∧ v ≠ "") inputs →
  sort_strings (filter (λ x, x.2 && negb (String.eqb (get inputs x.1) "")) (iterate allowed)).*1 =
  present_secrets inputs.
Proof.
  intros Ha.
  rewrite (sort_strings_unique _ (filter (λ x, x.2 && negb (String.eqb (get inputs x.1) "")) (map_to_list allowed)).*1)
    by (by rewrite iterate_perm).
  rewrite <-(sort_strings_id (present_secrets inputs)).
  2:{ unfold present_secrets, secret_names. rewrite !filter_cons, filter_nil. repeat case_decide; by repeat constructor. }
  apply sort_strings_unique.
  transitivity ((filter (λ x, x.2 && negb (String.eqb (get inputs x.1) ""))
    [("become_password", true); ("password", true); ("ssh_private_key", true); ("username", false); ("become_method", false)]).*1).
  { f_equiv. apply filter_Permutation. by apply (bool_decide_unpack _); vm_compute. }
  unfold present_secrets, secret_names. rewrite !filter_cons, !filter_nil. simpl.
  pose proof (λ k, get_empty inputs k Ha) as Hg.
  assert (∀ k, Is_true (negb (String.eqb (get inputs k) "")) ↔ is_Some (inputs !! k)) as Hi.
  { intros k. rewrite Is_true_true, negb_true_iff, String.eqb_neq, Hg.
    destruct (inputs !! k) eqn:E; naive_solver. }
  repeat case_decide; simpl in *; rewrite ?Hi in *; naive_solver.
Qed.

Lemma Validate_spec type version inputs fields :
  Validate type version inputs = Some fields ↔
  type = "machine" ∧ version = 1 ∧ machine_inputs inputs ∧ fields = present_secrets inputs.
Proof.
  unfold Validate, machine_inputs.
  destruct (negb (String.eqb type "machine") || negb (version =? 1)) eqn:Ht.
  { split; [done|]. intros (-> & -> & _). done. }
  bool_prop. destruct Ht as [-> ->].
  destruct (existsb _ _) eqn:Hk.
  { split; [done|]. intros (_ & _ & (Ha & _) & _). by rewrite (proj2 (known_fields inputs) Ha) in Hk. }
  apply known_fields in Hk as Ha. pose proof (λ k, get_empty inputs k Ha) as Hg.
  rewrite secret_fields by done.
  destruct (_ || _) eqn:Hu.
  - split; [done|]. intros (_ & _ & (_ & Hn & Hl) & _).
    rewrite orb_true_iff, andb_true_iff, !String.eqb_eq, !Hg in Hu. tauto.
  - rewrite orb_false_iff, andb_false_iff, !String.eqb_neq, !Hg in Hu.
    split; [intros [= <-]|by intros (_ & _ & _ & ->)].
    split_and!; try done; [apply dec_stable; tauto|]. destruct Hu as [_ [Hu|Hu]]; [left|right]; by apply dec_stable.
Qed.

(** The files of a rendering: one per secret field present, in a fixed order. *)
Definition secret_files (inputs : gmap string string) : list ResolvedFile :=
  omap (λ '(field, name), mkFileOut name "0600" <$> inputs !! field)
    [("ssh_private_key", "ANSIBLE_PRIVATE_KEY_FILE"); ("password", "ANSIBLE_PASSWORD_FILE");
     ("become_password", "ANSIBLE_BECOME_PASSWORD_FILE")].

(** [rendering inputs res]: [res] carries each input in its place and nothing else. *)
Definition rendering (inputs : gmap string string) (res : InjectorResult) : Prop :=
  irFiles res = secret_files inputs ∧
  ∀ k, irEnvironment res !! k =
    if String.eqb k "ANSIBLE_REMOTE_USER" then inputs !! "username"
    else if String.eqb k "ANSIBLE_BECOME_METHOD" then inputs !! "become_method" else None.

Lemma rendering_unique inputs res res' : rendering inputs res → rendering inputs res' → res = res'.
Proof.
  destruct res, res'. intros [Hf He] [Hf' He']. simpl in *. f_equal; [|congruence].
  apply map_eq. intros k. by rewrite He, He'.
Qed.

Lemma rendering_valid inputs res : rendering inputs res →
  (∀ k v, irEnvironment res !! k = Some v → k = "ANSIBLE_REMOTE_USER" ∨ k = "ANSIBLE_BECOME_METHOD") ∧
  Forall valid_file (irFiles res) ∧ NoDup (rfName <$> irFiles res).
Proof.
  intros [Hf He]. split; [|rewrite Hf; unfold secret_files; split].
  - intros k v. rewrite He. destruct (String.eqb_spec k "ANSIBLE_REMOTE_USER"); [auto|].
    destruct (String.eqb_spec k "ANSIBLE_BECOME_METHOD"); [auto|done].
  - simpl. destruct (inputs !! "ssh_private_key"), (inputs !! "password"), (inputs !! "become_password"); by repeat constructor.
  - simpl. destruct (inputs !! "ssh_private_key"), (inputs !! "password"), (inputs !! "become_password");
      apply (bool_decide_unpack _); vm_compute; exact I.
Qed.

(** A populated input map: a field read with [get] is absent or not empty. *)
Lemma get_case inputs k : map_Forall (λ k v, is_Some (allowed !! k) ∧ v ≠ "") inputs →
  (inputs !! k = None ∧ get inputs k = "") ∨ (inputs !! k = Some (get inputs k) ∧ String.eqb (get inputs k) "" = false).
Proof.
  intros Ha. unfold get. destruct (inputs !! k) as [v|] eqn:Hk; [right|by left].
  apply Ha in Hk as [_ Hv]. split; [done|]. by apply String.eqb_neq.
Qed.

Lemma registry_render_spec type version inputs res :
  registry_render type version inputs = Some res ↔
  type = "machine" ∧ version = 1 ∧ machine_inputs inputs ∧ rendering inputs res.
Proof.
  assert (∀ r, machine_inputs inputs → registry_render "machine" 1 inputs = Some r → rendering inputs r) as Hr.
  { intros r Hm. unfold registry_render. rewrite (proj2 (Validate_spec _ _ _ (present_secrets inputs))) by done.
    cbn [mbind option_bind]. intros [= <-]. destruct Hm as (Ha & [u Hu] & _). split; simpl.
    - unfold secret_files. simpl.
      destruct (get_case inputs "ssh_private_key" Ha) as [[-> ->]|[-> ->]],
        (get_case inputs "password" Ha) as [[-> ->]|[-> ->]],
        (get_case inputs "become_password" Ha) as [[-> ->]|[-> ->]]; done.
    - intros k. assert (get inputs "username" = u) as -> by (unfold get; by rewrite Hu). rewrite Hu.
      destruct (String.eqb_spec k "ANSIBLE_REMOTE_USER") as [->|Hk].
      { case_match; [done|]. by rewrite lookup_insert_ne. }
      destruct (get_case inputs "become_method" Ha) as [[-> ->]|[-> ->]]; simpl.
      { rewrite lookup_singleton_ne by done. by case_match. }
      destruct (String.eqb_spec k "ANSIBLE_BECOME_METHOD") as [->|Hb]; [by rewrite lookup_insert_eq|].
      by rewrite lookup_insert_ne, lookup_singleton_ne. }
  split.
  - intros H. pose proof H as Hs. unfold registry_render in H.
    destruct (Validate type version inputs) as [fields|] eqn:Hv; [|done].
    apply Validate_spec in Hv as (-> & -> & Hm & _). auto.
  - intros (-> & -> & Hm & Hres). destruct (registry_render "machine" 1 inputs) as [r|] eqn:E.
    + f_equal. eauto using rendering_unique.
    + unfold registry_render in E. by rewrite (proj2 (Validate_spec _ _ _ (present_secrets inputs))) in E.
Qed.
End RegistrySpec.

(** The shipped schema accepts exactly the populated machine inputs with a
    user name and a login secret, for the one type and version it knows, and
    reports the sorted names of the secret fields present; neither the verdict
    nor the names depend on the iteration order of the Go maps. *)
Lemma registry_validate_exact (MO : MapOrder) type version inputs fields :
  Validate type version inputs = Some fields ↔
  type = "machine" ∧ version = 1 ∧ machine_inputs inputs ∧ fields = present_secrets inputs.
Proof. apply Validate_spec. Qed.

(** C30: the injector renders exactly the inputs the schema accepts, each field
    in its one place: the environment holds the user name, the become method
    when there is one and nothing else, and the files hold the secret fields
    present, all of them, with mode 0600 and a fixed name each, so that no
    secret field reaches the environment.  Whatever it renders satisfies the
    manager's output check if and only if it fits the response limit. *)
Theorem registry_render_safe (MO : MapOrder) type version inputs limit :
  (is_Some (registry_render type version inputs) ↔ is_Some (Validate type version inputs)) ∧
  ∀ res, registry_render type version inputs = Some res ↔
    type = "machine" ∧ version = 1 ∧ machine_inputs inputs ∧
    irFiles res = omap (λ '(field, name), mkFileOut name "0600" <$> inputs !! field)
      [("ssh_private_key", "ANSIBLE_PRIVATE_KEY_FILE"); ("password", "ANSIBLE_PASSWORD_FILE");
       ("become_password", "ANSIBLE_BECOME_PASSWORD_FILE")] ∧
    irEnvironment res !! "ANSIBLE_REMOTE_USER" = inputs !! "username" ∧
    irEnvironment res !! "ANSIBLE_BECOME_METHOD" = inputs !! "become_method" ∧
    (∀ k, k ≠ "ANSIBLE_REMOTE_USER" → k ≠ "ANSIBLE_BECOME_METHOD" → irEnvironment res !! k = None) ∧
    (validInjectorResult res limit = true ↔ injector_size res ≤ limit).
Proof.
  split.
  { unfold registry_render. destruct (Validate type version inputs); cbn [mbind option_bind]; split; eauto; by intros [? ?]. }
  intros res. rewrite registry_render_spec. split.
  - intros (-> & -> & Hm & Hr). pose proof (rendering_valid _ _ Hr) as (He & Hf & Hd). destruct Hr as [Hfs Hl].
    split_and!; try done; try by rewrite Hl.
    + intros k Hu Hb. rewrite Hl. by rewrite !(proj2 (String.eqb_neq _ _)).
    + rewrite validInjectorResult_spec. split; [tauto|]. intros Hs. split_and!; try done.
      intros k v Hk. by destruct (He _ _ Hk) as [->| ->].
  - intros (-> & -> & Hm & Hfs & Hu & Hb & Hn & _). split_and!; try done. split; [done|]. intros k.
    destruct (String.eqb_spec k "ANSIBLE_REMOTE_USER") as [->|?]; [done|].
    destruct (String.eqb_spec k "ANSIBLE_BECOME_METHOD") as [->|?]; [done|]. auto.
Qed.

Module BuiltinExample.
Definition inputs : gmap string string :=
  {[ "username" := "root"; "ssh_private_key" := "KEY"; "become_method" := "sudo" ]}.
End BuiltinExample.

Lemma registry_validate_exact_witness :
  machine_inputs BuiltinExample.inputs ∧ ["ssh_private_key"] = present_secrets BuiltinExample.inputs.
Proof.
  destruct (proj1 (registry_validate_exact reverse_order "machine" 1 BuiltinExample.inputs ["ssh_private_key"])
    ltac:(vm_compute; reflexivity)) as (_ & _ & Hm & Hp).
  exact (conj Hm Hp).
Defined.

Lemma registry_render_safe_witness :
  ∃ res, registry_render (MO:=reverse_order) "machine" 1 BuiltinExample.inputs = Some res ∧
    validInjectorResult (H:=reverse_order) res 4096 = true ∧
    irFiles res = [mkFileOut "ANSIBLE_PRIVATE_KEY_FILE" "0600" "KEY"] ∧
    irEnvironment res !! "ANSIBLE_BECOME_METHOD" = Some "sudo".
Proof.
  destruct (registry_render_safe reverse_order "machine" 1 BuiltinExample.inputs 4096) as [_ Hs].
  eexists. assert (registry_render (MO:=reverse_order) "machine" 1 BuiltinExample.inputs = Some _) as Hr
    by (vm_compute; reflexivity).
  split; [exact Hr|]. apply Hs in Hr as (_ & _ & _ & Hf & _ & Hb & _ & Hv).
  split_and!; [apply Hv; vm_compute; discriminate|rewrite Hf; vm_compute; reflexivity|rewrite Hb; vm_compute; reflexivity].
Defined.
