(* ===== verification/Backend.v ===== *)
(** * The storage interface (src/credential/backend.go, interface [backend])

    One operation per method.  An operation takes and returns the store: the
    code holds the backend's lock, or a transaction, for the whole call, so a
    call is one atomic step; an operation that fails may still have written
    (an expired binding is marked on the way to its error).  [now] and the
    clock reads of the backend are arguments.  The audit context of a request is
    part of the instance: a backend that records what it does is an instance for
    each context.

    [BackendLaws] is what the manager is promised about credentials, stated
    over an abstract view of the store: for each credential identifier its
    metadata and the envelope record of each version.  The manager's theorems
    are proved against it; the in-memory backend discharges it, and [Mirror]
    relates the PostgreSQL backend, whose statements may fail, to that one. *)

From S2P Require Import Prelude GoStrings Crypto Envelope Credential.

Class Backend (St : Type) : Type := {
  be_Create : string → string → Metadata → EnvRecord → St → result CredError Metadata * St;
  be_Get : string → string → St → result CredError (Metadata * EnvRecord);
  be_Update : string → string → Z → Metadata → EnvRecord → string → St → result CredError Metadata * St;
  be_RegisterBinding : bindingRegistration → St → result CredError Binding * St;
  be_GetBinding : string → St → result CredError Binding;
  be_CancelBinding : string → string → string → time → St → result CredError Binding * St;
  be_ClaimResolution : ∀ A : Type, resolutionClaim → (Binding → boundRecord → result CredError A) →
    St → result CredError (Binding * time * A) * St;
  be_StartRotation : Rotation → St → result CredError Rotation * St;
  be_GetRotation : string → St → result CredError Rotation;
  be_RotateBatch : string → Z → (rotationRecord → result CredError EnvRecord) → time →
    St → result CredError Rotation * St;
  be_FinalizeRotation : string → time → St → result CredError Rotation * St;
  be_RotateCredential : CredentialRotationRequest → (rotationRecord → result CredError EnvRecord) → time →
    St → result CredError unit * St;
  be_KeyStatus : string → string → St → result CredError KeyStatus;
  be_ValidateRecovery : Z → (rotationRecord → result CredError unit) → time →
    St → result CredError RecoveryValidation * St;
  be_RegisterBackup : BackupSet → time → St → result CredError BackupSet * St;
  be_ExpireBackup : string → time → St → result CredError BackupSet * St
}.

(** ** The abstract store of credentials *)

Record stored : Type := mkStored { stMetadata : Metadata; stRecords : gmap Z EnvRecord }.

(** A well-formed entry: filed under its own identifier, with one record for
    each version from 1 to the current one. *)
Record entry_ok (id : string) (c : stored) : Prop := {
  entry_id : mID (stMetadata c) = id;
  entry_version : 1 ≤ mVersion (stMetadata c) < 2 ^ 64;
  entry_records v : is_Some (stRecords c !! v) ↔ 1 ≤ v ≤ mVersion (stMetadata c)
}.

Definition view_ok (view : gmap string stored) : Prop := map_Forall entry_ok view.

Definition owned_by (view : gmap string stored) (org id : string) : option stored :=
  match view !! id with
  | Some c => if String.eqb (mOrganizationID (stMetadata c)) org then Some c else None
  | None => None
  end.

(** An idempotency entry: request digest and remembered response. *)
Record remembered : Type := mkRemembered { reDigest : string; reResponse : Metadata }.

Class BackendLaws (St : Type) `{Backend St} : Type := {
  view : St → gmap string stored;
  replays : St → gmap string remembered;

  law_Get s org id c :
    owned_by (view s) org id = Some c →
    ∀ r, stRecords c !! mVersion (stMetadata c) = Some r → be_Get org id s = Ok (stMetadata c, r);
  law_Get_missing s org id :
    owned_by (view s) org id = None → be_Get org id s = Err ErrNotFound;

  law_Create_replay s key digest m r e :
    replays s !! key = Some e →
    be_Create key digest m r s =
      (if bool_decide (reDigest e = digest) then Ok (reResponse e) else Err ErrIdempotencyConflict, s);
  law_Create_new s key digest m r :
    replays s !! key = None → view s !! mID m = None →
    (be_Create key digest m r s).1 = Ok m ∧
    view (be_Create key digest m r s).2 = <[mID m := mkStored m {[ mVersion m := r ]}]> (view s) ∧
    replays (be_Create key digest m r s).2 = <[key := mkRemembered digest m]> (replays s);

  law_Update s org id v m r op c :
    owned_by (view s) org id = Some c → mVersion (stMetadata c) = v →
    (be_Update org id v m r op s).1 = Ok m ∧
    view (be_Update org id v m r op s).2 =
      <[id := mkStored m (<[mVersion m := r]> (stRecords c))]> (view s) ∧
    replays (be_Update org id v m r op s).2 = replays s;
  law_Update_missing s org id v m r op :
    owned_by (view s) org id = None → be_Update org id v m r op s = (Err ErrNotFound, s);
  law_Update_stale s org id v m r op c :
    owned_by (view s) org id = Some c → mVersion (stMetadata c) ≠ v →
    be_Update org id v m r op s = (Err ErrVersionConflict, s)
}.
