(* ===== verification/MemoryBackend.v ===== *)
(** * The development backend (src/credential/backend.go,
    backend_resolution.go, backend_recovery.go, type [memoryBackend])

    Six maps behind one lock.  Each method is one definition; a loop over a Go
    map follows [iterate], an arbitrary order. *)

From S2P Require Import Prelude GoStrings Crypto Envelope Credential Backend.

(** ** State *)

Record memoryBinding : Type := mkMemBinding {
  mbBinding : Binding;
  mbIdempotencyKey : string;
  mbDigest : string
}.

Record memoryAttempt : Type := mkAttempt {
  maRunID : string;
  maExecutorIdentity : string;
  maDigest : string;
  maExpiresAt : time
}.

Record memoryBackend : Type := mkMemory {
  credentials : gmap string stored;
  idempotency : gmap string remembered;
  bindings : gmap string memoryBinding;
  attempts : gmap string memoryAttempt;
  rotations : gmap string Rotation;
  backups : gmap string BackupSet
}.

Definition newMemoryBackend : memoryBackend := mkMemory ∅ ∅ ∅ ∅ ∅ ∅.

(** Assignments to one map of the backend. *)
Definition set_credentials (x : gmap string stored) (b : memoryBackend) : memoryBackend :=
  mkMemory x (idempotency b) (bindings b) (attempts b) (rotations b) (backups b).
Definition set_idempotency (x : gmap string remembered) (b : memoryBackend) : memoryBackend :=
  mkMemory (credentials b) x (bindings b) (attempts b) (rotations b) (backups b).
Definition set_bindings (x : gmap string memoryBinding) (b : memoryBackend) : memoryBackend :=
  mkMemory (credentials b) (idempotency b) x (attempts b) (rotations b) (backups b).
Definition set_attempts (x : gmap string memoryAttempt) (b : memoryBackend) : memoryBackend :=
  mkMemory (credentials b) (idempotency b) (bindings b) x (rotations b) (backups b).
Definition set_rotations (x : gmap string Rotation) (b : memoryBackend) : memoryBackend :=
  mkMemory (credentials b) (idempotency b) (bindings b) (attempts b) x (backups b).
Definition set_backups (x : gmap string BackupSet) (b : memoryBackend) : memoryBackend :=
  mkMemory (credentials b) (idempotency b) (bindings b) (attempts b) (rotations b) x.

(** The zero [envelope.Record] a missing map entry yields. *)
Definition zero_record : EnvRecord := mkRecord 0 "" "" "" (mkContext "" "" 0 0) "" "" "" "".

(** Field assignments of the code's [binding] and [rotation] pointers. *)
Definition with_state (st : BindingState) (now : time) (b : Binding) : Binding :=
  mkBinding (bdRunID b) (bdDispatchID b) (bdOrganizationID b) (bdCredentialID b) (bdCredentialVersion b)
    (bdExecutorIdentity b) st (bdNotBefore b) (bdExpiresAt b) (bdMaxResolutions b) (bdResolutionCount b)
    (bdCreatedAt b) now (bdCancelReason b).
Definition with_reason (reason : string) (b : Binding) : Binding :=
  mkBinding (bdRunID b) (bdDispatchID b) (bdOrganizationID b) (bdCredentialID b) (bdCredentialVersion b)
    (bdExecutorIdentity b) (bdState b) (bdNotBefore b) (bdExpiresAt b) (bdMaxResolutions b) (bdResolutionCount b)
    (bdCreatedAt b) (bdUpdatedAt b) reason.
Definition with_count (n : Z) (b : Binding) : Binding :=
  mkBinding (bdRunID b) (bdDispatchID b) (bdOrganizationID b) (bdCredentialID b) (bdCredentialVersion b)
    (bdExecutorIdentity b) (bdState b) (bdNotBefore b) (bdExpiresAt b) (bdMaxResolutions b) n
    (bdCreatedAt b) (bdUpdatedAt b) (bdCancelReason b).
Definition with_binding (d : Binding) (m : memoryBinding) : memoryBinding :=
  mkMemBinding d (mbIdempotencyKey m) (mbDigest m).
Definition with_progress (st : RotationState) (processed : Z) (now : time) (r : Rotation) : Rotation :=
  mkRotation (roID r) (roSourceKeyID r) (roTargetKeyID r) st (roTotalRecords r) processed
    (roCreatedAt r) now (roFinalizedAt r).
Definition with_total (st : RotationState) (total : Z) (r : Rotation) : Rotation :=
  mkRotation (roID r) (roSourceKeyID r) (roTargetKeyID r) st total (roProcessedRecords r)
    (roCreatedAt r) (roUpdatedAt r) (roFinalizedAt r).
Definition finalized_at (now : time) (r : Rotation) : Rotation :=
  mkRotation (roID r) (roSourceKeyID r) (roTargetKeyID r) RotationFinalized (roTotalRecords r)
    (roProcessedRecords r) (roCreatedAt r) now now.
Definition expired_at (now : time) (b : BackupSet) : BackupSet :=
  mkBackup (buID b) (buArtifactSHA256 b) (buKeyIDs b) (buCreatedAt b) (buRetainUntil b) now.

Section MemoryBackend.
Context `{CR : Crypto} `{MO : MapOrder}.

(** ** Credentials (backend.go:202-242) *)

Definition Create (idempotencyID digest : string) (metadata : Metadata) (record : EnvRecord)
    (b : memoryBackend) : result CredError Metadata * memoryBackend :=
  match idempotency b !! idempotencyID with
  | Some existing =>
      if negb (String.eqb (reDigest existing) digest) then (Err ErrIdempotencyConflict, b)
      else (Ok (reResponse existing), b)
  | None =>
      let b := set_credentials (<[mID metadata := mkStored metadata {[ mVersion metadata := record ]}]>
                                  (credentials b)) b in
      (Ok metadata, set_idempotency (<[idempotencyID := mkRemembered digest metadata]> (idempotency b)) b)
  end.

Definition Get (organizationID credentialID : string) (b : memoryBackend)
  : result CredError (Metadata * EnvRecord) :=
  match credentials b !! credentialID with
  | None => Err ErrNotFound
  | Some c =>
      if negb (String.eqb (mOrganizationID (stMetadata c)) organizationID) then Err ErrNotFound
      else Ok (stMetadata c, default zero_record (stRecords c !! mVersion (stMetadata c)))
  end.

Definition Update (organizationID credentialID : string) (expectedVersion : Z) (metadata : Metadata)
    (record : EnvRecord) (_ : string) (b : memoryBackend) : result CredError Metadata * memoryBackend :=
  match credentials b !! credentialID with
  | None => (Err ErrNotFound, b)
  | Some c =>
      if negb (String.eqb (mOrganizationID (stMetadata c)) organizationID) then (Err ErrNotFound, b)
      else if negb (mVersion (stMetadata c) =? expectedVersion) then (Err ErrVersionConflict, b)
      else (Ok metadata,
            set_credentials (<[credentialID := mkStored metadata
                                 (<[mVersion metadata := record]> (stRecords c))]> (credentials b)) b)
  end.

(** ** Bindings (backend_resolution.go) *)

(** The loop over the registered bindings: the first one, in iteration
    order, that decides the request. *)
Fixpoint find_binding (registration : bindingRegistration) (l : list (string * memoryBinding))
  : option (result CredError Binding) :=
  match l with
  | [] => None
  | (_, existing) :: l' =>
      let request := brRequest registration in
      if String.eqb (bdOrganizationID (mbBinding existing)) (rbOrganizationID request) &&
         String.eqb (mbIdempotencyKey existing) (rbIdempotencyKey request)
      then Some (if negb (String.eqb (mbDigest existing) (brDigest registration))
                 then Err ErrBindingConflict else Ok (mbBinding existing))
      else if String.eqb (bdRunID (mbBinding existing)) (rbRunID request) ||
              String.eqb (bdDispatchID (mbBinding existing)) (rbDispatchID request)
      then Some (Err ErrBindingConflict)
      else find_binding registration l'
  end.

Definition new_binding (registration : bindingRegistration) (version : Z) : Binding :=
  let request := brRequest registration in
  let state := if negb (Before (brNow registration) (rbNotBefore request)) then BindingActive else BindingPending in
  mkBinding (rbRunID request) (rbDispatchID request) (rbOrganizationID request)
    (rbCredentialID request) version (rbExecutorIdentity request) state (rbNotBefore request)
    (rbExpiresAt request) (rbMaxResolutions request) 0 (brNow registration) (brNow registration) "".

Definition RegisterBinding (registration : bindingRegistration) (b : memoryBackend)
  : result CredError Binding * memoryBackend :=
  let request := brRequest registration in
  match find_binding registration (iterate (bindings b)) with
  | Some r => (r, b)
  | None =>
      match credentials b !! rbCredentialID request with
      | None => (Err ErrNotFound, b)
      | Some c =>
          if negb (String.eqb (mOrganizationID (stMetadata c)) (rbOrganizationID request)) ||
             negb (bool_decide (mState (stMetadata c) = StateActive)) then (Err ErrNotFound, b)
          else
            let binding := new_binding registration (mVersion (stMetadata c)) in
            (Ok binding,
             set_bindings (<[rbRunID request :=
               mkMemBinding binding (rbIdempotencyKey request) (brDigest registration)]> (bindings b)) b)
      end
  end.

Definition GetBinding (runID : string) (b : memoryBackend) : result CredError Binding :=
  match bindings b !! runID with None => Err ErrBindingNotFound | Some s => Ok (mbBinding s) end.

(** A write through the pointer [stored] of the bindings map. *)
Definition put_binding (runID : string) (s : memoryBinding) (d : Binding) (b : memoryBackend) : memoryBackend :=
  set_bindings (<[runID := with_binding d s]> (bindings b)) b.

Definition terminal (st : BindingState) : bool :=
  match st with BindingCanceled | BindingExpired | BindingExhausted => true | _ => false end.

Definition CancelBinding (runID dispatchID reason : string) (now : time) (b : memoryBackend)
  : result CredError Binding * memoryBackend :=
  match bindings b !! runID with
  | None => (Err ErrBindingNotFound, b)
  | Some s =>
      if negb (String.eqb (bdDispatchID (mbBinding s)) dispatchID) then (Err ErrBindingConflict, b)
      else if terminal (bdState (mbBinding s)) then (Ok (mbBinding s), b)
      else let d := with_reason reason (with_state BindingCanceled now (mbBinding s)) in
           (Ok d, put_binding runID s d b)
  end.

Definition boundVersion (binding : Binding) (b : memoryBackend) : result CredError boundRecord :=
  c ← of_option ErrResolution (credentials b !! bdCredentialID binding);
  r ← of_option ErrResolution (stRecords c !! bdCredentialVersion binding);
  Ok (mkBound r (mCredentialType (stMetadata c)) (mSchemaVersion (stMetadata c))).

(** [validate] also yields what the closure assigns to the variable it
    captures, the rendered credential. *)
Definition ClaimResolution (A : Type) (claim : resolutionClaim)
    (validate : Binding → boundRecord → result CredError A) (b : memoryBackend)
  : result CredError (Binding * time * A) * memoryBackend :=
  match bindings b !! clRunID claim with
  | None => (Err ErrBindingNotFound, b)
  | Some s =>
    let binding := mbBinding s in
    let now := clNow claim in
    if negb (String.eqb (bdExecutorIdentity binding) (clExecutorIdentity claim)) then (Err ErrUnauthorized, b)
    else if bool_decide (bdState binding = BindingCanceled) then (Err ErrBindingNotActive, b)
    else if bool_decide (bdState binding = BindingExpired) then (Err ErrBindingExpired, b)
    else if negb (Before now (bdExpiresAt binding)) then
      (Err ErrBindingExpired,
       if negb (bool_decide (bdState binding = BindingExhausted))
       then put_binding (clRunID claim) s (with_state BindingExpired now binding) b else b)
    else if Before now (bdNotBefore binding) then (Err ErrBindingNotActive, b)
    else match boundVersion binding b with
    | Err e => (Err e, b)
    | Ok version =>
    match validate binding version with
    | Err e => (Err e, b)
    | Ok rendered =>
    match attempts b !! clAttemptID claim with
    | Some attempt =>
        if negb (String.eqb (maRunID attempt) (clRunID claim)) ||
           negb (String.eqb (maExecutorIdentity attempt) (clExecutorIdentity claim)) ||
           negb (String.eqb (maDigest attempt) (clDigest claim)) then (Err ErrAttemptConflict, b)
        else if negb (Before now (maExpiresAt attempt)) then (Err ErrAttemptConflict, b)
        else (Ok (binding, maExpiresAt attempt, rendered), b)
    | None =>
        if (bdMaxResolutions binding <=? bdResolutionCount binding) ||
           bool_decide (bdState binding = BindingExhausted)
        then (Err ErrBindingExhausted,
              put_binding (clRunID claim) s (with_state BindingExhausted now binding) b)
        else
          let expiry := Add now (clRetryWindow claim) in
          let expiry := if After expiry (bdExpiresAt binding) then bdExpiresAt binding else expiry in
          let b := set_attempts (<[clAttemptID claim :=
            mkAttempt (clRunID claim) (clExecutorIdentity claim) (clDigest claim) expiry]> (attempts b)) b in
          let count := u32 (bdResolutionCount binding + 1) in
          let st := if count =? bdMaxResolutions binding then BindingExhausted else BindingActive in
          let binding := with_state st now (with_count count binding) in
          (Ok (binding, expiry, rendered), put_binding (clRunID claim) s binding b)
    end end end
  end.

(** ** Rotation (backend.go:56-200) *)

Definition active_rotation (r : Rotation) : bool := negb (bool_decide (roState r = RotationFinalized)).

(** Records under a key, over the nested loops of the code. *)
Definition count_key (key : string) (b : memoryBackend) : Z :=
  sum_by (λ x, count_by (λ y, String.eqb (recMasterKeyID y.2) key) (iterate (stRecords x.2)))
    (iterate (credentials b)).

Definition StartRotation (rotation : Rotation) (b : memoryBackend)
  : result CredError Rotation * memoryBackend :=
  if existsb (λ x, active_rotation x.2) (iterate (rotations b)) then (Err ErrRotationConflict, b)
  else
    let total := i64 (roTotalRecords rotation + count_key (roSourceKeyID rotation) b) in
    let stored := with_total (if total =? 0 then RotationReady else roState rotation) total rotation in
    (Ok stored, set_rotations (<[roID rotation := stored]> (rotations b)) b).

Definition GetRotation (id : string) (b : memoryBackend) : result CredError Rotation :=
  of_option ErrNotFound (rotations b !! id).

(** A pending replacement: credential, version, new record. *)
Definition replacement : Type := string * Z * EnvRecord.

(** The inner loop, over one credential's records. *)
Fixpoint collect_records (limit : Z) (source : string)
    (transform : rotationRecord → result CredError EnvRecord) (id : string) (m : Metadata)
    (records : list (Z * EnvRecord)) (acc : list replacement) : result CredError (list replacement) :=
  match records with
  | [] => Ok acc
  | (version, record) :: records' =>
      if Z.of_nat (length acc) =? limit then Ok acc
      else if negb (String.eqb (recMasterKeyID record) source)
      then collect_records limit source transform id m records' acc
      else
        rotated ← transform (mkRotationRecord m version record);
        collect_records limit source transform id m records' (acc ++ [(id, version, rotated)])
  end.

Fixpoint collect (limit : Z) (source : string)
    (transform : rotationRecord → result CredError EnvRecord)
    (l : list (string * stored)) (acc : list replacement) : result CredError (list replacement) :=
  match l with
  | [] => Ok acc
  | (id, c) :: l' =>
      acc ← collect_records limit source transform id (stMetadata c) (iterate (stRecords c)) acc;
      collect limit source transform l' acc
  end.

Definition replace_record (x : replacement) (cs : gmap string stored) : gmap string stored :=
  let '(id, version, record) := x in
  alter (λ c, mkStored (stMetadata c) (<[version := record]> (stRecords c))) id cs.

Definition apply_replacements (l : list replacement) (cs : gmap string stored) : gmap string stored :=
  foldl (λ cs x, replace_record x cs) cs l.

Definition RotateBatch (id : string) (limit : Z) (transform : rotationRecord → result CredError EnvRecord)
    (wall : time) (b : memoryBackend) : result CredError Rotation * memoryBackend :=
  match rotations b !! id with
  | None => (Err ErrNotFound, b)
  | Some rotation =>
      if negb (active_rotation rotation) then (Ok rotation, b)
      else match collect limit (roSourceKeyID rotation) transform (iterate (credentials b)) [] with
      | Err e => (Err e, b)
      | Ok replacements =>
          let b := set_credentials (apply_replacements replacements (credentials b)) b in
          let processed := i64 (roProcessedRecords rotation + Z.of_nat (length replacements)) in
          let st := if processed =? roTotalRecords rotation then RotationReady else RotationRunning in
          let rotation := with_progress st processed wall rotation in
          (Ok rotation, set_rotations (<[id := rotation]> (rotations b)) b)
      end
  end.

(** [counts[k]++] along a list. *)
Definition tally (l : list string) (m : gmap string Z) : gmap string Z :=
  foldl (λ m k, <[k := i64 (default 0 (m !! k) + 1)]> m) m l.

Definition record_keys (b : memoryBackend) : list string :=
  mjoin ((λ x : string * stored, (λ y : Z * EnvRecord, recMasterKeyID y.2) <$> iterate (stRecords x.2))
    <$> iterate (credentials b)).

Definition retained_keys (b : memoryBackend) : list string :=
  mjoin ((λ x : string * BackupSet, if IsZero (buExpiredAt x.2) then buKeyIDs x.2 else [])
    <$> iterate (backups b)).

Definition key_status (current previous : string) (b : memoryBackend) : KeyStatus :=
  let counts := tally (record_keys b) ∅ in
  let active := snd <$> List.find (λ x, active_rotation x.2) (iterate (rotations b)) in
  let retained := tally (retained_keys b) ∅ in
  mkKeyStatus current previous counts active
    (negb (String.eqb previous "") && (default 0 (counts !! previous) =? 0) &&
     match active with None => true | Some r => bool_decide (roState r = RotationFinalized) end)
    retained
    (negb (String.eqb previous "") && (default 0 (retained !! previous) =? 0)).

Definition FinalizeRotation (id : string) (now : time) (b : memoryBackend)
  : result CredError Rotation * memoryBackend :=
  match rotations b !! id with
  | None => (Err ErrNotFound, b)
  | Some rotation =>
      if negb (active_rotation rotation) then (Ok rotation, b)
      else if existsb (λ x, existsb (λ y, String.eqb (recMasterKeyID y.2) (roSourceKeyID rotation))
                             (iterate (stRecords x.2))) (iterate (credentials b))
      then (Err ErrRotationNotReady, b)
      else (Ok (finalized_at now rotation),
            set_rotations (<[id := finalized_at now rotation]> (rotations b)) b)
  end.

Definition RotateCredential (request : CredentialRotationRequest)
    (transform : rotationRecord → result CredError EnvRecord) (_ : time) (b : memoryBackend)
  : result CredError unit * memoryBackend :=
  match credentials b !! coCredentialID request with
  | None => (Err ErrNotFound, b)
  | Some c =>
      if negb (String.eqb (mOrganizationID (stMetadata c)) (coOrganizationID request)) then (Err ErrNotFound, b)
      else match stRecords c !! coVersion request with
      | None => (Err ErrNotFound, b)
      | Some record =>
          match transform (mkRotationRecord (stMetadata c) (coVersion request) record) with
          | Err e => (Err e, b)
          | Ok rotated =>
              (Ok (), set_credentials
                (replace_record (coCredentialID request, coVersion request, rotated) (credentials b)) b)
          end
      end
  end.

(** ** Recovery (backend_recovery.go) *)

Definition item_le (x y : rotationRecord) : Prop :=
  if String.eqb (mID (rrMetadata x)) (mID (rrMetadata y)) then rrVersion x ≤ rrVersion y
  else String.le (mID (rrMetadata x)) (mID (rrMetadata y)).
#[export] Instance item_le_dec : RelDecision item_le.
Proof. intros x y. unfold item_le. case_match; apply _. Defined.

Definition all_items (b : memoryBackend) : list rotationRecord :=
  mjoin ((λ x : string * stored,
    (λ y : Z * EnvRecord, mkRotationRecord (stMetadata x.2) y.1 y.2) <$> iterate (stRecords x.2))
    <$> iterate (credentials b)).

(** One line of the metadata digest ([fmt.Fprintf] with NUL separators). *)
Definition nul : string := String (Ascii.ascii_of_nat 0) "".
Definition item_line (x : rotationRecord) : string :=
  mOrganizationID (rrMetadata x) +:+ nul +:+ mID (rrMetadata x) +:+ nul +:+
  pretty (rrVersion x) +:+ nul +:+ pretty (mSchemaVersion (rrMetadata x)) +:+
  String (Ascii.ascii_of_nat 10) "".

(** The sampling loop: validates each item and hashes its line. *)
Fixpoint validate_items (validate : rotationRecord → result CredError unit) (hashed : string) (n : Z)
    (items : list rotationRecord) : result CredError (string * Z) :=
  match items with
  | [] => Ok (hashed, n)
  | x :: items' =>
      _ ← validate x;
      validate_items validate (hashed +:+ item_line x) (i64 (n + 1)) items'
  end.

Definition ValidateRecovery (limit : Z) (validate : rotationRecord → result CredError unit) (wall : time)
    (b : memoryBackend) : result CredError RecoveryValidation :=
  let items := merge_sort item_le (all_items b) in
  let limit := if Z.of_nat (length items) <? limit then Z.of_nat (length items) else limit in
  '(hashed, n) ← validate_items validate "" 0 (take (Z.to_nat limit) items);
  Ok (mkRecovery n (Z.of_nat (length items)) (tally ((λ x, recMasterKeyID (rrRecord x)) <$> items) ∅)
       (EncodeToString (sha256 hashed)) wall).

Definition RegisterBackup (backup : BackupSet) (_ : time) (b : memoryBackend) : result CredError BackupSet * memoryBackend :=
  match backups b !! buID backup with
  | Some existing =>
      if negb (String.eqb (buArtifactSHA256 existing) (buArtifactSHA256 backup))
      then (Err ErrBackupConflict, b) else (Ok existing, b)
  | None => (Ok backup, set_backups (<[buID backup := backup]> (backups b)) b)
  end.

Definition ExpireBackup (id : string) (now : time) (b : memoryBackend) : result CredError BackupSet * memoryBackend :=
  match backups b !! id with
  | None => (Err ErrNotFound, b)
  | Some backup =>
      let backup := if IsZero (buExpiredAt backup) then expired_at now backup else backup in
      (Ok backup, set_backups (<[id := backup]> (backups b)) b)
  end.

(** ** The interface *)

#[export] Instance memory_backend : Backend memoryBackend := {|
  be_Create := Create;
  be_Get := Get;
  be_Update := Update;
  be_RegisterBinding := RegisterBinding;
  be_GetBinding := GetBinding;
  be_CancelBinding := CancelBinding;
  be_ClaimResolution := ClaimResolution;
  be_StartRotation := StartRotation;
  be_GetRotation := GetRotation;
  be_RotateBatch := RotateBatch;
  be_FinalizeRotation := FinalizeRotation;
  be_RotateCredential := RotateCredential;
  be_KeyStatus current previous b := Ok (key_status current previous b);
  be_ValidateRecovery n validate wall b := (ValidateRecovery n validate wall b, b);
  be_RegisterBackup := RegisterBackup;
  be_ExpireBackup := ExpireBackup
|}.

Lemma owned_by_Some (v : gmap string stored) org id c :
  owned_by v org id = Some c ↔ v !! id = Some c ∧ mOrganizationID (stMetadata c) = org.
Proof.
  unfold owned_by. destruct (v !! id) as [c'|]; [|naive_solver].
  destruct (String.eqb _ org) eqn:E; bool_facts; naive_solver.
Qed.

#[export] #[program] Instance memory_laws : BackendLaws memoryBackend := {|
  view := credentials;
  replays := idempotency
|}.
Next Obligation.
  intros s org id c [Hc Ho]%owned_by_Some r Hr. cbn. unfold Get. by rewrite Hc, Ho, String.eqb_refl, Hr.
Qed.
Next Obligation.
  intros s org id Hn. cbn. unfold Get, owned_by in *. repeat case_match; naive_solver.
Qed.
Next Obligation.
  intros s key digest m r e He. cbn. unfold Create. rewrite He.
  destruct (String.eqb_spec (reDigest e) digest); simpl; [by rewrite bool_decide_eq_true_2|by rewrite bool_decide_eq_false_2].
Qed.
Next Obligation. intros s key digest m r Hk _. cbn. unfold Create. by rewrite Hk. Qed.
Next Obligation.
  intros s org id v m r op c [Hc Ho]%owned_by_Some Hv. cbn. unfold Update.
  by rewrite Hc, Ho, String.eqb_refl, Hv, Z.eqb_refl.
Qed.
Next Obligation.
  intros s org id v m r op Hn. cbn. unfold Update, owned_by in *. repeat case_match; naive_solver.
Qed.
Next Obligation.
  intros s org id v m r op c [Hc Ho]%owned_by_Some Hv. cbn. unfold Update.
  by rewrite Hc, Ho, String.eqb_refl, (proj2 (Z.eqb_neq _ _) Hv).
Qed.
End MemoryBackend.
