(* ===== verification/Manager.v ===== *)
(** * The credential manager (src/credential/manager.go, resolution.go,
    rotation.go, recovery.go, type [Manager])

    Every entry point of the manager over an arbitrary backend.  The clock
    ([m.now]), the identifier source ([m.newID] reading [ids]) and the random
    bytes the envelope draws ([entropy]) are arguments; for the callbacks that
    run once per record the entropy is a function of the record. *)

From Stdlib Require Import Ascii.
From S2P Require Import Prelude GoStrings GoTime Json Crypto Envelope MasterKey AuditEvent Credential Backend.

Record Manager : Type := mkManager {
  keys : KeySet;
  injector : option InjectorRegistry;
  policy : ResolutionPolicy
}.

(** The schema registry is an instance of a class in the model, and so never
    nil: the refusal of a nil registry has no counterpart here. *)
Definition NewManager (k : KeySet) (injectors : list InjectorRegistry) : result CredError Manager :=
  _ ← guard_err (String.eqb (mkID (Current k)) "" || (1 <? length injectors)%nat) ErrInvalidInput;
  Ok (mkManager k (head injectors) DefaultResolutionPolicy).

Definition SetResolutionPolicy (p : ResolutionPolicy) (m : Manager) : result CredError unit * Manager :=
  if (MaxBindingLifetime p <=? 0) || (MaxFutureStart p <? 0) || (MaxResolutions p =? 0) ||
     (AttemptRetryWindow p <=? 0) || (MaxResponseBytes p <=? 0)
  then (Err ErrInvalidInput, m) else (Ok (), mkManager (keys m) (injector m) p).

(** Field assignments on the copy [next]. *)
Definition with_inputs (fields : list string) (now : time) (m : Metadata) : Metadata :=
  mkMetadata (mID m) (mOrganizationID m) (mName m) (mCredentialType m) (mSchemaVersion m)
    (next_version (mVersion m)) (mState m) fields (mCreatedAt m) now.
Definition with_name (name : string) (now : time) (m : Metadata) : Metadata :=
  mkMetadata (mID m) (mOrganizationID m) name (mCredentialType m) (mSchemaVersion m)
    (next_version (mVersion m)) (mState m) (mSecretFields m) (mCreatedAt m) now.
Definition retired (now : time) (m : Metadata) : Metadata :=
  mkMetadata (mID m) (mOrganizationID m) (mName m) (mCredentialType m) (mSchemaVersion m)
    (next_version (mVersion m)) StateRetired (mSecretFields m) (mCreatedAt m) now.

(** The context a rotation or recovery callback expects for its item. *)
Definition item_context (x : rotationRecord) : EnvContext :=
  mkContext (mID (rrMetadata x)) (mOrganizationID (rrMetadata x)) (mSchemaVersion (rrMetadata x)) (rrVersion x).

Section ManagerOps.
Context `{CR : Crypto} `{MO : MapOrder} `{UT : UnicodeTables} `{SR : SchemaRegistry}.

(** The loop over the reported secret fields: each names an input, once. *)
Fixpoint check_fields (inputs : gmap string string) (seen : gset string) (fields : list string) : bool :=
  match fields with
  | [] => true
  | field :: fields' =>
      if negb (bool_decide (is_Some (inputs !! field))) || String.eqb field "" then false
      else if bool_decide (field ∈ seen) then false
      else check_fields inputs ({[field]} ∪ seen) fields'
  end.

Definition validateSchema (credentialType : string) (schemaVersion : Z) (inputs : gmap string string)
  : result CredError (list string) :=
  _ ← validateInputs inputs;
  fields ← of_option ErrInvalidInput (schema_validate credentialType schemaVersion inputs);
  _ ← guard_err (negb (check_fields inputs ∅ fields)) ErrInvalidInput;
  Ok (sort_strings fields).

Definition encrypt (m : Manager) (entropy : reader) (metadata : Metadata) (inputs : gmap string string)
  : result CredError EnvRecord :=
  let plaintext := json_map inputs in
  _ ← guard_err (maxPlaintextPayload <? len plaintext) ErrInvalidInput;
  map_err (λ _, ErrEncryption) (Encrypt plaintext (envelopeContext metadata) (Current (keys m)) entropy).

Section WithBackend.
Context {St : Type} `{BE : Backend St}.

(** An error before the backend is reached leaves the store alone. *)
Definition on_store {A B} (r : result CredError A) (k : A → St → result CredError B * St) (s : St)
  : result CredError B * St :=
  match r with Ok a => k a s | Err e => (Err e, s) end.

Definition CreateContext (m : Manager) (request : CreateRequest) (ids entropy : reader) (now : time) (s : St)
  : result CredError Metadata * St :=
  on_store
    (_ ← validateCreate request;
     secretFields ← validateSchema (crCredentialType request) (crSchemaVersion request) (crInputs request);
     let digest := requestDigest request in
     let idempotencyID := crOrganizationID request +:+ String (zb 0) (crIdempotencyKey request) in
     '(id, _) ← of_option ErrEncryption (newUUID ids);
     let metadata := mkMetadata id (crOrganizationID request) (crName request) (crCredentialType request)
       (crSchemaVersion request) 1 StateActive secretFields now now in
     record ← encrypt m entropy metadata (crInputs request);
     Ok (idempotencyID, digest, metadata, record))
    (λ '(idempotencyID, digest, metadata, record), be_Create idempotencyID digest metadata record) s.

Definition GetContext (organizationID credentialID : string) (s : St) : result CredError Metadata :=
  fst <$> be_Get organizationID credentialID s.

Definition ReplaceInputsContext (m : Manager) (request : ReplaceInputsRequest) (entropy : reader)
    (now : time) (s : St) : result CredError Metadata * St :=
  on_store
    (_ ← guard_err (String.eqb (riCredentialID request) "" || String.eqb (riOrganizationID request) "" ||
                    (riExpectedVersion request =? 0)) ErrInvalidInput;
     '(current, _) ← be_Get (riOrganizationID request) (riCredentialID request) s;
     _ ← guard_err (negb (mVersion current =? riExpectedVersion request)) ErrVersionConflict;
     _ ← guard_err (negb (bool_decide (mState current = StateActive))) ErrCredentialNotActive;
     secretFields ← validateSchema (mCredentialType current) (mSchemaVersion current) (riInputs request);
     let next := with_inputs secretFields now current in
     record ← encrypt m entropy next (riInputs request);
     Ok (next, record))
    (λ '(next, record), be_Update (riOrganizationID request) (riCredentialID request)
                          (riExpectedVersion request) next record OperationCredentialInputsReplaced) s.

(** Decryption of the stored inputs, as the metadata operations do it. *)
Definition stored_inputs (m : Manager) (current : Metadata) (record : EnvRecord)
  : result CredError (gmap string string) :=
  plaintext ← map_err (λ _, ErrEncryption) (Decrypt record (envelopeContext current) (Keyring (keys m)));
  of_option ErrEncryption (unmarshal_map plaintext).

Definition UpdateMetadataContext (m : Manager) (request : UpdateMetadataRequest) (entropy : reader)
    (now : time) (s : St) : result CredError Metadata * St :=
  on_store
    (_ ← guard_err (String.eqb (umCredentialID request) "" || String.eqb (umOrganizationID request) "" ||
                    (umExpectedVersion request =? 0) || negb (validName (umName request))) ErrInvalidInput;
     '(current, currentRecord) ← be_Get (umOrganizationID request) (umCredentialID request) s;
     _ ← guard_err (negb (mVersion current =? umExpectedVersion request)) ErrVersionConflict;
     _ ← guard_err (negb (bool_decide (mState current = StateActive))) ErrCredentialNotActive;
     if String.eqb (mName current) (umName request) then Ok (inl current)
     else
       inputs ← stored_inputs m current currentRecord;
       let next := with_name (umName request) now current in
       record ← encrypt m entropy next inputs;
       Ok (inr (next, record)))
    (λ r, match r with
          | inl current => λ s, (Ok current, s)
          | inr (next, record) => be_Update (umOrganizationID request) (umCredentialID request)
                                    (umExpectedVersion request) next record OperationCredentialMetadataUpdated
          end) s.

Definition RetireContext (m : Manager) (request : RetireRequest) (entropy : reader)
    (now : time) (s : St) : result CredError Metadata * St :=
  on_store
    (_ ← guard_err (String.eqb (rtCredentialID request) "" || String.eqb (rtOrganizationID request) "" ||
                    (rtExpectedVersion request =? 0)) ErrInvalidInput;
     '(current, currentRecord) ← be_Get (rtOrganizationID request) (rtCredentialID request) s;
     if bool_decide (mState current = StateRetired) then Ok (inl current)
     else
       _ ← guard_err (negb (bool_decide (mState current = StateActive))) ErrCredentialNotActive;
       _ ← guard_err (negb (mVersion current =? rtExpectedVersion request)) ErrVersionConflict;
       inputs ← stored_inputs m current currentRecord;
       let next := retired now current in
       record ← encrypt m entropy next inputs;
       Ok (inr (next, record)))
    (λ r, match r with
          | inl current => λ s, (Ok current, s)
          | inr (next, record) => be_Update (rtOrganizationID request) (rtCredentialID request)
                                    (rtExpectedVersion request) next record OperationCredentialRetired
          end) s.

(** ** Bindings (resolution.go) *)

Definition RegisterBinding (m : Manager) (caller : WorkloadIdentity) (request : RegisterBindingRequest)
    (now : time) (s : St) : result CredError Binding * St :=
  on_store
    (_ ← guard_err (negb (isScheduler caller)) ErrUnauthorized;
     _ ← guard_err (negb (validBindingRequest request now (policy m))) ErrInvalidInput;
     digest ← of_option ErrInvalidInput (bindingDigest request);
     Ok (mkRegistration request digest now))
    be_RegisterBinding s.

Definition InspectBinding (caller : WorkloadIdentity) (runID : string) (s : St) : result CredError Binding :=
  _ ← guard_err (negb (isScheduler caller)) ErrUnauthorized;
  _ ← guard_err (negb (validUUID runID)) ErrInvalidInput;
  be_GetBinding runID s.

Definition CancelBinding (caller : WorkloadIdentity) (request : CancelBindingRequest) (now : time) (s : St)
  : result CredError Binding * St :=
  on_store
    (_ ← guard_err (negb (isScheduler caller)) ErrUnauthorized;
     guard_err (negb (validUUID (cbRunID request)) || negb (validUUID (cbDispatchID request)) ||
                negb (validReason (cbReason request))) ErrInvalidInput)
    (λ _, be_CancelBinding (cbRunID request) (cbDispatchID request) (cbReason request) now) s.

Definition attemptDigest (request : ResolveRequest) : string :=
  sha256 (rsRunID request +:+ String (zb 0) (rsAttemptID request +:+
    String (zb 0) (Format_RFC3339Nano (rsRequestedAt request) 0))).

(** The callback of [Resolve]: decrypt the bound version, decode and render it. *)
Definition render_bound (m : Manager) (inj : InjectorRegistry) (binding : Binding) (version : boundRecord)
  : result CredError InjectorResult :=
  let context := mkContext (bdCredentialID binding) (bdOrganizationID binding)
                   (boSchemaVersion version) (bdCredentialVersion binding) in
  plaintext ← map_err (λ _, ErrResolution) (Decrypt (boRecord version) context (Keyring (keys m)));
  inputs ← of_option ErrResolution (unmarshal_map plaintext);
  rendered ← of_option ErrResolution (Render inj (boCredentialType version) (boSchemaVersion version) inputs);
  _ ← guard_err (negb (validInjectorResult rendered (MaxResponseBytes (policy m)))) ErrResolution;
  Ok rendered.

(** Errors that would tell the caller about a binding it may not use are
    folded into one. *)
Definition hide_binding_error (e : CredError) : CredError :=
  match e with
  | ErrBindingNotFound | ErrUnauthorized | ErrBindingExpired | ErrBindingExhausted => ErrBindingNotActive
  | _ => e
  end.

Definition Resolve (m : Manager) (caller : WorkloadIdentity) (request : ResolveRequest) (now : time) (s : St)
  : result CredError ResolvedCredential * St :=
  if negb (bool_decide (Role caller = RoleExecutor)) || negb (validExecutorIdentity (Subject caller))
  then (Err ErrUnauthorized, s)
  else match injector m with
  | None => (Err ErrInvalidInput, s)
  | Some inj =>
      if negb (validUUID (rsRunID request)) || negb (validUUID (rsAttemptID request)) ||
         IsZero (rsRequestedAt request) then (Err ErrInvalidInput, s)
      else
        let claim := mkClaim (rsRunID request) (rsAttemptID request) (Subject caller)
                       (attemptDigest request) now (AttemptRetryWindow (policy m)) in
        let '(r, s) := be_ClaimResolution InjectorResult claim (render_bound m inj) s in
        (match r with
         | Err e => Err (hide_binding_error e)
         | Ok (_, attemptExpiry, rendered) =>
             Ok (mkResolved (rsRunID request) (rsAttemptID request) attemptExpiry
                   (irEnvironment rendered) (irFiles rendered))
         end, s)
  end.

(** ** Rotation (rotation.go) *)

Definition StartMasterKeyRotation (m : Manager) (ids : reader) (now : time) (s : St)
  : result CredError Rotation * St :=
  on_store
    (previous ← of_option ErrRotationUnavailable (Previous (keys m));
     _ ← guard_err (String.eqb (mkID previous) "" || String.eqb (mkID (Current (keys m))) "") ErrRotationUnavailable;
     '(id, _) ← of_option ErrRotationUnavailable (newUUID ids);
     Ok (mkRotation id (mkID previous) (mkID (Current (keys m))) RotationPending 0 0 now now zero_time))
    be_StartRotation s.

Definition manager_key_status (m : Manager) (s : St) : result CredError KeyStatus :=
  be_KeyStatus (mkID (Current (keys m)))
    (match Previous (keys m) with Some p => mkID p | None => "" end) s.

Definition GetMasterKeyRotation (rotationID : string) (s : St) : result CredError Rotation :=
  _ ← guard_err (String.eqb rotationID "") ErrInvalidInput;
  be_GetRotation rotationID s.

Definition rewrap_item (m : Manager) (entropy : rotationRecord → reader) (item : rotationRecord)
  : result CredError EnvRecord :=
  map_err (λ _, ErrEncryption)
    (Rewrap (rrRecord item) (item_context item) (Keyring (keys m)) (Current (keys m)) (entropy item)).

Definition ResumeMasterKeyRotation (m : Manager) (rotationID : string) (batchSize : Z)
    (entropy : rotationRecord → reader) (wall : time) (s : St) : result CredError Rotation * St :=
  on_store
    (guard_err (String.eqb rotationID "" || (batchSize <? 1) || (1000 <? batchSize) ||
                negb (bool_decide (is_Some (Previous (keys m))))) ErrInvalidInput)
    (λ _, be_RotateBatch rotationID batchSize (rewrap_item m entropy) wall) s.

Definition FinalizeMasterKeyRotation (rotationID : string) (now : time) (s : St)
  : result CredError Rotation * St :=
  on_store (guard_err (String.eqb rotationID "") ErrInvalidInput)
    (λ _, be_FinalizeRotation rotationID now) s.

Definition reencrypt_item (m : Manager) (entropy : rotationRecord → reader) (item : rotationRecord)
  : result CredError EnvRecord :=
  map_err (λ _, ErrEncryption)
    (RotateDataKey (rrRecord item) (item_context item) (Keyring (keys m)) (Current (keys m)) (entropy item)).

Definition RotateCredentialKey (m : Manager) (request : CredentialRotationRequest)
    (entropy : rotationRecord → reader) (now : time) (s : St) : result CredError unit * St :=
  on_store
    (guard_err (String.eqb (coOrganizationID request) "" || String.eqb (coCredentialID request) "" ||
                (coVersion request =? 0)) ErrInvalidInput)
    (λ _, be_RotateCredential request (reencrypt_item m entropy) now) s.

(** ** Recovery (recovery.go) *)

Definition check_item (m : Manager) (item : rotationRecord) : result CredError unit :=
  _ ← map_err (λ _, ErrRecoveryValidation) (Decrypt (rrRecord item) (item_context item) (Keyring (keys m)));
  Ok ().

Definition ValidateRecovery (m : Manager) (sampleSize : Z) (wall : time) (s : St)
  : result CredError RecoveryValidation * St :=
  on_store (guard_err ((sampleSize <? 1) || (1000 <? sampleSize)) ErrInvalidInput)
    (λ _, be_ValidateRecovery sampleSize (check_item m) wall) s.

Definition with_sorted_keys (b : BackupSet) : BackupSet :=
  mkBackup (buID b) (buArtifactSHA256 b) (sort_strings (buKeyIDs b)) (buCreatedAt b) (buRetainUntil b)
    (buExpiredAt b).

Definition RegisterBackup (backup : BackupSet) (now : time) (s : St) : result CredError BackupSet * St :=
  on_store (guard_err (negb (validBackup backup)) ErrInvalidInput)
    (λ _, be_RegisterBackup (with_sorted_keys backup) now) s.

Definition ExpireBackup (id : string) (now : time) (s : St) : result CredError BackupSet * St :=
  on_store (guard_err (String.eqb id "") ErrInvalidInput) (λ _, be_ExpireBackup id now) s.
End WithBackend.
End ManagerOps.
