(* ===== verification/Vault.v ===== *)
(** * The manager's contract: a plaintext vault

    [vault] is what the manager promises to be: for each credential its
    metadata and the inputs of every version, with the remembered answers of
    completed creations.  The five credential operations are defined on it
    without envelopes, keys or a backend, and [vault_refinement] proves that
    the manager over any lawful backend (src/credential/manager.go) implements
    them: same results, same errors, related stores. *)

From Stdlib Require Import Ascii.
From S2P Require Import Prelude GoStrings GoTime Json Crypto Envelope MasterKey Credential Builtin Backend MemoryBackend Manager.

(** ** The specification *)

Record vault_entry : Type := mkEntry { veMetadata : Metadata; veInputs : gmap Z (gmap string string) }.
Record vault : Type := mkVault { vEntries : gmap string vault_entry; vReplays : gmap string remembered }.

Inductive command : Type :=
| CmdCreate (request : CreateRequest) (ids : reader)
| CmdGet (organizationID credentialID : string)
| CmdReplace (request : ReplaceInputsRequest)
| CmdUpdate (request : UpdateMetadataRequest)
| CmdRetire (request : RetireRequest).

Section VaultSpec.
Context `{CR : Crypto} `{MO : MapOrder} `{SR : SchemaRegistry}.

Definition vault_find (org id : string) (V : vault) : result CredError vault_entry :=
  e ← of_option ErrNotFound (vEntries V !! id);
  _ ← guard_err (negb (String.eqb (mOrganizationID (veMetadata e)) org)) ErrNotFound;
  Ok e.

(** What any change of a credential needs: its current version, active. *)
Definition vault_writable (org id : string) (expected : Z) (V : vault) : result CredError vault_entry :=
  e ← vault_find org id V;
  _ ← guard_err (negb (mVersion (veMetadata e) =? expected)) ErrVersionConflict;
  _ ← guard_err (negb (bool_decide (mState (veMetadata e) = StateActive))) ErrCredentialNotActive;
  Ok e.

(** Appending a version: refused when the version counter would wrap. *)
Definition vault_append (id : string) (e : vault_entry) (next : Metadata) (inputs : gmap string string)
    (V : vault) : result CredError vault :=
  _ ← guard_err (mVersion next =? 0) ErrEncryption;
  Ok (mkVault (<[id := mkEntry next (<[mVersion next := inputs]> (veInputs e))]> (vEntries V)) (vReplays V)).

Definition fits (inputs : gmap string string) : result CredError unit :=
  guard_err (maxPlaintextPayload <? len (json_map inputs)) ErrInvalidInput.

Definition current_inputs (e : vault_entry) : gmap string string :=
  default ∅ (veInputs e !! mVersion (veMetadata e)).

Definition vault_create (request : CreateRequest) (ids : reader) (now : time) (V : vault)
  : result CredError (Metadata * vault) :=
  _ ← validateCreate request;
  fields ← validateSchema (crCredentialType request) (crSchemaVersion request) (crInputs request);
  '(id, _) ← of_option ErrEncryption (newUUID ids);
  _ ← fits (crInputs request);
  let key := crOrganizationID request +:+ String (zb 0) (crIdempotencyKey request) in
  let metadata := mkMetadata id (crOrganizationID request) (crName request) (crCredentialType request)
    (crSchemaVersion request) 1 StateActive fields now now in
  match vReplays V !! key with
  | Some e => if bool_decide (reDigest e = requestDigest request) then Ok (reResponse e, V)
              else Err ErrIdempotencyConflict
  | None =>
      Ok (metadata, mkVault (<[id := mkEntry metadata {[ 1 := crInputs request ]}]> (vEntries V))
                      (<[key := mkRemembered (requestDigest request) metadata]> (vReplays V)))
  end.

Definition vault_replace (request : ReplaceInputsRequest) (now : time) (V : vault)
  : result CredError (Metadata * vault) :=
  _ ← guard_err (String.eqb (riCredentialID request) "" || String.eqb (riOrganizationID request) "" ||
                 (riExpectedVersion request =? 0)) ErrInvalidInput;
  e ← vault_writable (riOrganizationID request) (riCredentialID request) (riExpectedVersion request) V;
  fields ← validateSchema (mCredentialType (veMetadata e)) (mSchemaVersion (veMetadata e)) (riInputs request);
  let next := with_inputs fields now (veMetadata e) in
  _ ← fits (riInputs request);
  V ← vault_append (riCredentialID request) e next (riInputs request) V;
  Ok (next, V).

Definition vault_update (request : UpdateMetadataRequest) (now : time) (V : vault)
  : result CredError (Metadata * vault) :=
  _ ← guard_err (String.eqb (umCredentialID request) "" || String.eqb (umOrganizationID request) "" ||
                 (umExpectedVersion request =? 0) || negb (validName (umName request))) ErrInvalidInput;
  e ← vault_writable (umOrganizationID request) (umCredentialID request) (umExpectedVersion request) V;
  if String.eqb (mName (veMetadata e)) (umName request) then Ok (veMetadata e, V)
  else
    let next := with_name (umName request) now (veMetadata e) in
    V ← vault_append (umCredentialID request) e next (current_inputs e) V;
    Ok (next, V).

Definition vault_retire (request : RetireRequest) (now : time) (V : vault)
  : result CredError (Metadata * vault) :=
  _ ← guard_err (String.eqb (rtCredentialID request) "" || String.eqb (rtOrganizationID request) "" ||
                 (rtExpectedVersion request =? 0)) ErrInvalidInput;
  e ← vault_find (rtOrganizationID request) (rtCredentialID request) V;
  if bool_decide (mState (veMetadata e) = StateRetired) then Ok (veMetadata e, V)
  else
    e ← vault_writable (rtOrganizationID request) (rtCredentialID request) (rtExpectedVersion request) V;
    let next := retired now (veMetadata e) in
    V ← vault_append (rtCredentialID request) e next (current_inputs e) V;
    Ok (next, V).

(** One command; an error leaves the vault as it was. *)
Definition vault_step (c : command) (now : time) (V : vault) : result CredError (Metadata * vault) :=
  match c with
  | CmdCreate request ids => vault_create request ids now V
  | CmdGet org id => e ← vault_find org id V; Ok (veMetadata e, V)
  | CmdReplace request => vault_replace request now V
  | CmdUpdate request => vault_update request now V
  | CmdRetire request => vault_retire request now V
  end.

Definition vault_exec (c : command) (now : time) (V : vault) : result CredError Metadata * vault :=
  match vault_step c now V with Ok (m, V') => (Ok m, V') | Err e => (Err e, V) end.
End VaultSpec.

(** ** What a successful step does to the vault *)

(** What a change of a credential keeps, and the version it produces. *)
Definition same_identity (md md' : Metadata) : Prop :=
  mID md' = mID md ∧ mOrganizationID md' = mOrganizationID md ∧ mSchemaVersion md' = mSchemaVersion md ∧
  mCredentialType md' = mCredentialType md ∧ mCreatedAt md' = mCreatedAt md ∧
  mVersion md' = next_version (mVersion md).

Section VaultSteps.
Context `{CR : Crypto} `{MO : MapOrder} `{SR : SchemaRegistry}.

Definition create_key (request : CreateRequest) : string :=
  crOrganizationID request +:+ String (zb 0) (crIdempotencyKey request).

(** [changes c org id expected]: [c] is a change of credential [id] of [org]
    that expects version [expected]. *)
Definition changes (c : command) : option (string * string * Z) :=
  match c with
  | CmdReplace r => Some (riOrganizationID r, riCredentialID r, riExpectedVersion r)
  | CmdUpdate r => Some (umOrganizationID r, umCredentialID r, umExpectedVersion r)
  | CmdRetire r => Some (rtOrganizationID r, rtCredentialID r, rtExpectedVersion r)
  | _ => None
  end.

Inductive vault_effect (c : command) (now : time) (V : vault) : Metadata → vault → Prop :=
| effect_none md :
    vault_effect c now V md V
| effect_create request ids id rest fields md :
    c = CmdCreate request ids → newUUID ids = Some (id, rest) →
    vReplays V !! create_key request = None →
    md = mkMetadata id (crOrganizationID request) (crName request) (crCredentialType request)
           (crSchemaVersion request) 1 StateActive fields now now →
    vault_effect c now V md
      (mkVault (<[id := mkEntry md {[ 1 := crInputs request ]}]> (vEntries V))
         (<[create_key request := mkRemembered (requestDigest request) md]> (vReplays V)))
| effect_change org id e next inputs :
    changes c = Some (org, id, mVersion (veMetadata e)) →
    vault_find org id V = Ok e → mState (veMetadata e) = StateActive →
    same_identity (veMetadata e) next → mVersion next ≠ 0 →
    vault_effect c now V next
      (mkVault (<[id := mkEntry next (<[mVersion next := inputs]> (veInputs e))]> (vEntries V)) (vReplays V)).

Lemma vault_writable_Ok org id expected V e :
  vault_writable org id expected V = Ok e ↔
  vault_find org id V = Ok e ∧ mVersion (veMetadata e) = expected ∧ mState (veMetadata e) = StateActive.
Proof.
  unfold vault_writable. rewrite bind_Ok. setoid_rewrite guard_bind. setoid_rewrite guard_bind.
  split.
  - intros (e' & Hf & Hv & Hs & [= <-]). bool_prop. done.
  - intros (Hf & Hv & Hs). exists e. bool_prop. by split_and!.
Qed.

Lemma vault_append_effect c now V org id e next inputs V' :
  changes c = Some (org, id, mVersion (veMetadata e)) → vault_find org id V = Ok e →
  mState (veMetadata e) = StateActive → same_identity (veMetadata e) next →
  vault_append id e next inputs V = Ok V' → vault_effect c now V next V'.
Proof.
  intros Hc Hf Hs Hsame Ha. unfold vault_append in Ha. apply guard_bind in Ha as [Hz [= <-]]. bool_facts.
  by eapply effect_change.
Qed.

Lemma vault_step_effect c now V md V' :
  vault_step c now V = Ok (md, V') → vault_effect c now V md V'.
Proof.
  destruct c as [request ids|org id|request|request|request]; cbn [vault_step];
    unfold vault_create, vault_replace, vault_update, vault_retire; intros Hs.
  - apply bind_Ok in Hs as ([] & _ & Hs). apply bind_Ok in Hs as (fields & _ & Hs).
    apply of_option_bind in Hs as ([id rest] & Hid & Hs). apply bind_Ok in Hs as ([] & _ & Hs).
    fold (create_key request) in Hs. destruct (vReplays V !! create_key request) as [e|] eqn:Hk.
    + case_bool_decide; simplify_eq. apply effect_none.
    + injection Hs as <- <-. by eapply effect_create.
  - apply bind_Ok in Hs as (e & _ & [= <- <-]). apply effect_none.
  - apply guard_bind in Hs as [_ Hs]. apply bind_Ok in Hs as (e & (Hf & Hv & Hst)%vault_writable_Ok & Hs).
    apply bind_Ok in Hs as (fields & _ & Hs). apply bind_Ok in Hs as ([] & _ & Hs).
    apply bind_Ok in Hs as (V1 & Ha & [= <- <-]).
    eapply vault_append_effect; [by cbn [changes]; rewrite Hv| | | |]; done.
  - apply guard_bind in Hs as [_ Hs]. apply bind_Ok in Hs as (e & (Hf & Hv & Hst)%vault_writable_Ok & Hs).
    case_match; [simplify_eq; apply effect_none|]. apply bind_Ok in Hs as (V1 & Ha & [= <- <-]).
    eapply vault_append_effect; [by cbn [changes]; rewrite Hv| | | |]; done.
  - apply guard_bind in Hs as [_ Hs]. apply bind_Ok in Hs as (e0 & _ & Hs).
    case_match; [simplify_eq; apply effect_none|].
    apply bind_Ok in Hs as (e & (Hf & Hv & Hst)%vault_writable_Ok & Hs).
    apply bind_Ok in Hs as (V1 & Ha & [= <- <-]).
    eapply vault_append_effect; [by cbn [changes]; rewrite Hv| | | |]; done.
Qed.

(** Entries only grow: owner, type, schema and creation time are fixed and
    stored inputs stay. *)
Record entry_extends (e e' : vault_entry) : Prop := {
  extends_version : mVersion (veMetadata e) ≤ mVersion (veMetadata e');
  extends_identity : mID (veMetadata e') = mID (veMetadata e) ∧
    mOrganizationID (veMetadata e') = mOrganizationID (veMetadata e) ∧
    mCredentialType (veMetadata e') = mCredentialType (veMetadata e) ∧
    mSchemaVersion (veMetadata e') = mSchemaVersion (veMetadata e) ∧
    mCreatedAt (veMetadata e') = mCreatedAt (veMetadata e);
  extends_inputs : veInputs e ⊆ veInputs e';
  extends_retired : mState (veMetadata e) = StateRetired → e' = e
}.
Lemma entry_extends_refl e : entry_extends e e.
Proof. by split. Qed.

Definition vault_entry_ok (e : vault_entry) : Prop :=
  1 ≤ mVersion (veMetadata e) < 2 ^ 64 ∧
  ∀ v, is_Some (veInputs e !! v) ↔ 1 ≤ v ≤ mVersion (veMetadata e).

Lemma next_version_nonzero v : 1 ≤ v < 2 ^ 64 → next_version v ≠ 0 → next_version v = v + 1.
Proof.
  unfold next_version, u64. intros Hv Hz.
  destruct (decide (v + 1 = 2 ^ 64)) as [Heq|]; [by rewrite Heq in Hz|]. rewrite Z.mod_small; lia.
Qed.

Lemma effect_extends c now V md V' id e :
  vault_effect c now V md V' →
  (∀ request ids uid rest, c = CmdCreate request ids → newUUID ids = Some (uid, rest) → vEntries V !! uid = None) →
  vEntries V !! id = Some e → vault_entry_ok e →
  ∃ e', vEntries V' !! id = Some e' ∧ entry_extends e e'.
Proof.
  intros Heff Hfresh He [Hver Hdom]. destruct Heff as [md|request ids uid rest fields md Hc Hu Hk Hmd|org id' e0 next inputs Hc Hf Hst Hsame Hz].
  - exists e. split; [done|apply entry_extends_refl].
  - cbn [vEntries]. specialize (Hfresh _ _ _ _ Hc Hu). exists e.
    rewrite lookup_insert_ne by congruence. split; [done|apply entry_extends_refl].
  - cbn [vEntries]. destruct (decide (id = id')) as [<-|Hne].
    2:{ exists e. rewrite lookup_insert_ne by done. split; [done|apply entry_extends_refl]. }
    unfold vault_find in Hf. rewrite He in Hf. cbn [of_option mbind result_bind] in Hf.
    apply guard_bind in Hf as [_ [= ->]]. rewrite lookup_insert_eq. eexists. split; [done|].
    destruct Hsame as (H1 & H2 & H3 & H4 & H5 & H6). rewrite H6 in Hz. apply next_version_nonzero in Hz; [|done].
    split; cbn [veMetadata veInputs]; [lia|done| |congruence].
    apply insert_subseteq, eq_None_not_Some. rewrite Hdom. lia.
Qed.
End VaultSteps.

(** ** The implementation, command by command *)

Section Implementation.
Context `{CR : Crypto} `{MO : MapOrder} `{SR : SchemaRegistry} {St : Type} `{BE : Backend St}.

Definition manager_exec (m : Manager) (c : command) (entropy : reader) (now : time) (s : St)
  : result CredError Metadata * St :=
  match c with
  | CmdCreate request ids => CreateContext m request ids entropy now s
  | CmdGet org id => (GetContext org id s, s)
  | CmdReplace request => ReplaceInputsContext m request entropy now s
  | CmdUpdate request => UpdateMetadataContext m request entropy now s
  | CmdRetire request => RetireContext m request entropy now s
  end.

(** A run: commands with the entropy and the clock reading each sees. *)
Definition event : Type := command * reader * time.

Fixpoint manager_run (m : Manager) (l : list event) (s : St) : list (result CredError Metadata) * St :=
  match l with
  | [] => ([], s)
  | (c, entropy, now) :: l' =>
      let '(r, s') := manager_exec m c entropy now s in
      let '(rs, s'') := manager_run m l' s' in (r :: rs, s'')
  end.

Fixpoint vault_run (l : list event) (V : vault) : list (result CredError Metadata) * vault :=
  match l with
  | [] => ([], V)
  | (c, _, now) :: l' =>
      let '(r, V') := vault_exec c now V in
      let '(rs, V'') := vault_run l' V' in (r :: rs, V'')
  end.
End Implementation.

(** ** The simulation relation *)

Section Refinement.
Context `{CL : CryptoLaws} `{MO : MapOrder} `{SR : SchemaRegistry} {St : Type} `{BL : BackendLaws St}.
Context (m : Manager) (Hkeys : set_ok (keys m)).

Definition version_context (md : Metadata) (v : Z) : EnvContext :=
  mkContext (mID md) (mOrganizationID md) (mSchemaVersion md) v.

(** A record holding inputs: it decrypts, under the manager's keyring and the
    context of its place, to their JSON text. *)
Record seals (ring : gmap string MasterKey) (md : Metadata) (v : Z) (r : EnvRecord)
    (inputs : gmap string string) : Prop := {
  seals_decrypt : Decrypt r (version_context md v) ring = Ok (json_map inputs);
  seals_valid : valid_inputs inputs;
  seals_fits : len (json_map inputs) ≤ maxPlaintextPayload
}.

Record represents (ring : gmap string MasterKey) (id : string) (c : stored) (e : vault_entry) : Prop := {
  rep_metadata : stMetadata c = veMetadata e;
  rep_entry : entry_ok id c;
  rep_context : mOrganizationID (veMetadata e) ≠ "" ∧ mSchemaVersion (veMetadata e) ≠ 0 ∧ id ≠ "";
  rep_records : map_Forall2 (seals ring (veMetadata e)) (stRecords c) (veInputs e)
}.

Record simulates (ring : gmap string MasterKey) (s : St) (V : vault) : Prop := {
  sim_entries : map_Forall2 (represents ring) (view s) (vEntries V);
  sim_replays : replays s = vReplays V
}.

(** The requests the transport lets through: decoded from JSON, hence UTF-8. *)
Definition clean (c : command) : Prop :=
  match c with
  | CmdCreate request _ => valid_inputs (crInputs request)
  | CmdReplace request => valid_inputs (riInputs request)
  | _ => True
  end.

(** A created identifier is not in use. *)
Definition fresh (c : command) (V : vault) : Prop :=
  match c with
  | CmdCreate _ ids => ∀ id rest, newUUID ids = Some (id, rest) → vEntries V !! id = None
  | _ => True
  end.

Local Abbreviation ring := (Keyring (keys m)).

(** *** Envelopes *)

Lemma encrypt_seals entropy md inputs :
  valid_inputs inputs → mID md ≠ "" → mOrganizationID md ≠ "" → mSchemaVersion md ≠ 0 →
  (72 ≤ String.length entropy)%nat →
  match (_ ← fits inputs; guard_err (mVersion md =? 0) ErrEncryption) with
  | Ok _ => ∃ r, encrypt m entropy md inputs = Ok r ∧ seals ring md (mVersion md) r inputs
  | Err e => encrypt m entropy md inputs = Err e
  end.
Proof.
  intros Hv Hid Horg Hs Hent. unfold encrypt, fits.
  destruct (maxPlaintextPayload <? len (json_map inputs)) eqn:Hfit; [done|]. cbn [guard_err mbind result_bind].
  destruct (mVersion md =? 0) eqn:Hver; cbn [guard_err].
  - unfold Encrypt, envelopeContext, validate. simpl ctxCredentialVersion. rewrite Hver, !orb_true_r. done.
  - bool_facts. destruct (Encrypt_total (json_map inputs) (envelopeContext md) (Current (keys m)) entropy)
      as (r & dk & He & Hse & Hk & _); [by apply validate_Ok; unfold envelopeContext; cbn|apply Hkeys|done|].
    exists r. rewrite He. split; [done|]. split; [|done..].
    apply Decrypt_sealed. exists (Current (keys m)), dk. rewrite Hk. split; [by apply set_ok_current|done].
Qed.

Lemma seals_ext md md' v r inputs :
  mID md = mID md' → mOrganizationID md = mOrganizationID md' → mSchemaVersion md = mSchemaVersion md' →
  seals ring md v r inputs → seals ring md' v r inputs.
Proof. intros H1 H2 H3 []. split; [|done..]. unfold version_context in *. by rewrite <-H1, <-H2, <-H3. Qed.

(** The stored inputs come back through decryption and JSON. *)
Lemma stored_inputs_seals md r inputs :
  seals ring md (mVersion md) r inputs → stored_inputs m md r = Ok inputs.
Proof.
  intros []. unfold stored_inputs. change (envelopeContext md) with (version_context md (mVersion md)).
  rewrite seals_decrypt0. cbn [map_err mbind result_bind]. by rewrite unmarshal_json_map.
Qed.

(** *** Lookup *)

Lemma find_related s V org id :
  simulates ring s V →
  match vault_find org id V with
  | Err e => e = ErrNotFound ∧ owned_by (view s) org id = None ∧ be_Get org id s = Err ErrNotFound
  | Ok e => ∃ c r, owned_by (view s) org id = Some c ∧ represents ring id c e ∧
      be_Get org id s = Ok (veMetadata e, r) ∧ vEntries V !! id = Some e ∧ mOrganizationID (veMetadata e) = org ∧
      veInputs e !! mVersion (veMetadata e) = Some (current_inputs e) ∧
      seals ring (veMetadata e) (mVersion (veMetadata e)) r (current_inputs e)
  end.
Proof.
  intros [He _]. unfold vault_find. specialize (He id).
  destruct (view s !! id) as [c|] eqn:Hc; inversion He as [? e Hrep Heq1 Heq2|Heq1 Heq2]; subst; cbn [of_option mbind result_bind].
  - destruct (String.eqb (mOrganizationID (veMetadata e)) org) eqn:Ho; cbn [negb guard_err mbind result_bind].
    + apply String.eqb_eq in Ho.
      assert (owned_by (view s) org id = Some c) as Hown.
      { unfold owned_by. rewrite Hc, (rep_metadata _ _ _ _ Hrep), Ho. by rewrite String.eqb_refl. }
      destruct Hrep as [Hmd Hentry Hctx Hrec]. pose proof Hentry as [_ Hver Hdom].
      destruct (proj2 (Hdom (mVersion (stMetadata c)))) as [r Hr]; [lia|].
      pose proof (Hrec (mVersion (stMetadata c))) as Hv. rewrite Hr in Hv.
      inversion Hv as [? inputs Hse Heq3 Heq4|]; subst. rewrite Hmd in Hr, Heq4, Hse. symmetry in Heq4.
      exists c, r. split_and!; try done.
      * pose proof (law_Get s _ id c Hown r) as Hg. rewrite Hmd in Hg. by apply Hg.
      * unfold current_inputs. by rewrite Heq4.
      * unfold current_inputs. by rewrite Heq4.
    + assert (owned_by (view s) org id = None) as Hown.
      { unfold owned_by. by rewrite Hc, (rep_metadata _ _ _ _ Hrep), Ho. }
      split_and!; try done. by apply law_Get_missing.
  - assert (owned_by (view s) org id = None) as Hown by (unfold owned_by; by rewrite Hc).
    split_and!; try done. by apply law_Get_missing.
Qed.

(** *** Appending a version *)

Lemma append_related s V org id c e next r inputs op V' :
  simulates ring s V → owned_by (view s) org id = Some c → represents ring id c e →
  same_identity (veMetadata e) next → seals ring next (mVersion next) r inputs →
  vault_append id e next inputs V = Ok V' →
  be_Update org id (mVersion (veMetadata e)) next r op s = (Ok next, (be_Update org id (mVersion (veMetadata e)) next r op s).2) ∧
  simulates ring (be_Update org id (mVersion (veMetadata e)) next r op s).2 V'.
Proof.
  intros [Hent Hrep] Hown Hr (Hid & Horg & Hsch & _ & _ & Hver) Hse Ha.
  destruct Hr as [Hmd [Heid Hev Hdom] Hctx Hrec]. rewrite Hmd in Hev, Hdom, Heid.
  destruct (law_Update s org id (mVersion (veMetadata e)) next r op c Hown) as (H1 & H2 & H3); [by rewrite Hmd|].
  split; [by rewrite <-H1, <-surjective_pairing|]. unfold vault_append in Ha. apply guard_bind in Ha as [Hz [= <-]].
  bool_facts. assert (mVersion next = mVersion (veMetadata e) + 1) as Hsucc.
  { rewrite Hver in *. unfold next_version, u64 in *.
    destruct (decide (mVersion (veMetadata e) + 1 = 2 ^ 64)) as [Heq|]; [by rewrite Heq in Hz|].
    rewrite Z.mod_small; lia. }
  split; [|by rewrite H3]. rewrite H2. cbn [vEntries]. apply map_Forall2_insert_2; [|done].
  split; cbn [stMetadata stRecords veMetadata veInputs]; [done| |by rewrite Horg, Hsch|].
  - split; cbn [stMetadata stRecords]; [congruence| |].
    + pose proof (u64_range (mVersion (veMetadata e) + 1)). unfold next_version in Hver. lia.
    + intros v. rewrite Hsucc. destruct (decide (v = mVersion (veMetadata e) + 1)) as [->|Hne].
      * rewrite lookup_insert_eq. split; [lia|eauto].
      * rewrite lookup_insert_ne, Hdom by done. lia.
  - apply map_Forall2_insert_2; [done|]. eapply map_Forall2_impl; [exact Hrec|].
    intros v r' i. by apply seals_ext.
Qed.

(** *** The commands *)

Definition related {A} (x : result CredError A * St) (y : result CredError A * vault) : Prop :=
  x.1 = y.1 ∧ simulates ring x.2 y.2.

Ltac run := cbn [mbind result_bind guard_err map_err of_option negb orb on_store fst snd].

Lemma refine_get org id entropy now s V :
  simulates ring s V →
  related (manager_exec m (CmdGet org id) entropy now s) (vault_exec (CmdGet org id) now V).
Proof.
  intros Hsim. pose proof (find_related s V org id Hsim) as Hf.
  cbn [manager_exec]. unfold vault_exec, GetContext. cbn [vault_step].
  destruct (vault_find org id V) as [e|]; run.
  - destruct Hf as (c & r & _ & _ & -> & _). by split.
  - destruct Hf as (-> & _ & ->). by split.
Qed.

Lemma refine_create request ids entropy now s V :
  simulates ring s V → clean (CmdCreate request ids) → fresh (CmdCreate request ids) V →
  (72 ≤ String.length entropy)%nat →
  related (manager_exec m (CmdCreate request ids) entropy now s) (vault_exec (CmdCreate request ids) now V).
Proof.
  intros Hsim Hclean Hfresh Hent. cbn [manager_exec]. unfold vault_exec, CreateContext. cbn [vault_step].
  unfold vault_create. destruct (validateCreate request) as [[]|] eqn:Hval; run; [|by split].
  destruct (validateSchema _ _ _) as [fields|]; run; [|by split].
  destruct (newUUID ids) as [[id rest]|] eqn:Hid; run; [|by split].
  set (md := mkMetadata _ _ _ _ _ _ _ _ _ _).
  unfold validateCreate in Hval. apply guard_err_Ok in Hval. bool_prop.
  assert (id ≠ "") as Hne by (intros ->; by apply newUUID_spec in Hid as [? _]).
  pose proof (encrypt_seals entropy md (crInputs request) Hclean Hne) as He.
  destruct (fits (crInputs request)) as [[]|]; run; cbn [mbind result_bind guard_err] in He.
  2:{ rewrite He by (done || tauto). by split. }
  destruct He as (r & -> & Hse); [tauto|tauto|done|]. run.
  set (key := crOrganizationID request +:+ _). destruct Hsim as [Hent' Hrep].
  destruct (vReplays V !! key) as [e|] eqn:Hkey; rewrite <-Hrep in Hkey.
  - rewrite (law_Create_replay _ _ _ _ _ _ Hkey). by case_bool_decide.
  - specialize (Hfresh _ _ Hid). pose proof (Hent' id) as Hid'. rewrite Hfresh in Hid'.
    inversion Hid' as [|Hno]; subst.
    destruct (law_Create_new s key (requestDigest request) md r Hkey) as (H1 & H2 & H3); [by symmetry|].
    split; [done|]. run. split; cbn [vEntries vReplays]; [|by rewrite H3, Hrep].
    rewrite H2. apply map_Forall2_insert_2; [|done].
    split; cbn [stMetadata stRecords veMetadata veInputs]; [done| |tauto|].
    + split; cbn [stMetadata stRecords]; [done|by subst md|]. intros v. subst md. cbn [mVersion].
      destruct (decide (v = 1)) as [->|]; [rewrite lookup_singleton_eq; split; [lia|eauto]|].
      rewrite lookup_singleton_ne by done. split; [by intros [? ?]|lia].
    + by apply map_Forall2_singleton.
Qed.

(** The common tail of the three changes: encrypt the next version, append it. *)
Lemma finish_change org id entropy e next inputs op s V :
  simulates ring s V → vault_find org id V = Ok e → same_identity (veMetadata e) next →
  valid_inputs inputs → (72 ≤ String.length entropy)%nat →
  related
    (on_store (record ← encrypt m entropy next inputs; Ok (next, record))
       (λ '(next, record), be_Update org id (mVersion (veMetadata e)) next record op) s)
    (match (_ ← fits inputs; V' ← vault_append id e next inputs V; Ok (next, V')) with
     | Ok (md, V') => (Ok md, V') | Err err => (Err err, V) end).
Proof.
  intros Hsim Hfind Hsame Hvalid Hent. pose proof (find_related s V org id Hsim) as Hf. rewrite Hfind in Hf.
  destruct Hf as (c & r0 & Hown & Hr & _).
  pose proof Hr as [Hmd Hentry (Horg & Hsch & Hid) _]. destruct Hentry as [Heid _ _]. rewrite Hmd in Heid.
  pose proof Hsame as (Hsid & Hsorg & Hssch & _).
  pose proof (encrypt_seals entropy next inputs Hvalid) as He.
  rewrite Hsid, Hsorg, Hssch, Heid in He. specialize (He Hid Horg Hsch Hent).
  destruct (fits inputs) as [[]|]; cbn [mbind result_bind guard_err] in He |- *; [|rewrite He; by split].
  destruct (vault_append id e next inputs V) as [V'|err] eqn:Ha.
  - assert (mVersion next =? 0 = false) as Hz by (unfold vault_append in Ha; by apply guard_bind in Ha as [? _]).
    rewrite Hz in He. destruct He as (r & -> & Hse). run.
    destruct (append_related s V org id c e next r inputs op V') as [-> Hsim']; done.
  - unfold vault_append in Ha. destruct (mVersion next =? 0); [|done]. cbn in Ha. injection Ha as <-.
    rewrite He. by split.
Qed.

Lemma refine_replace request entropy now s V :
  simulates ring s V → clean (CmdReplace request) → (72 ≤ String.length entropy)%nat →
  related (manager_exec m (CmdReplace request) entropy now s) (vault_exec (CmdReplace request) now V).
Proof.
  intros Hsim Hclean Hent. cbn [manager_exec]. unfold vault_exec, ReplaceInputsContext. cbn [vault_step].
  unfold vault_replace, vault_writable. destruct (_ || _); run; [by split|].
  pose proof (find_related s V (riOrganizationID request) (riCredentialID request) Hsim) as Hf.
  destruct (vault_find _ _ V) as [e|] eqn:Hfind; run; [|destruct Hf as (-> & _ & ->); by split].
  destruct Hf as (c & r & _ & _ & -> & _). run.
  destruct (mVersion (veMetadata e) =? _) eqn:Hver; run; [|by split]. apply Z.eqb_eq in Hver.
  destruct (bool_decide _); run; [|by split].
  destruct (validateSchema _ _ _) as [fields|]; run; [|by split].
  rewrite <-Hver. by apply finish_change.
Qed.

Lemma current_valid s V org id e :
  simulates ring s V → vault_find org id V = Ok e →
  ∃ r, be_Get org id s = Ok (veMetadata e, r) ∧ stored_inputs m (veMetadata e) r = Ok (current_inputs e) ∧
    valid_inputs (current_inputs e) ∧ fits (current_inputs e) = Ok ().
Proof.
  intros Hsim Hfind. pose proof (find_related s V org id Hsim) as Hf. rewrite Hfind in Hf.
  destruct Hf as (c & r & _ & _ & Hg & _ & _ & _ & Hse). exists r. split; [done|].
  split; [by apply stored_inputs_seals|]. split; [by destruct Hse|].
  apply guard_err_Ok, Z.ltb_ge. by destruct Hse.
Qed.

(** A change that keeps the inputs: what both metadata operations end with. *)
Lemma finish_kept org id entropy e next op s V :
  simulates ring s V → vault_find org id V = Ok e → same_identity (veMetadata e) next →
  (72 ≤ String.length entropy)%nat →
  related
    (on_store (record ← encrypt m entropy next (current_inputs e); Ok (inr (next, record)))
       (λ r, match r with
             | inl current => λ s, (Ok current, s)
             | inr (next, record) => be_Update org id (mVersion (veMetadata e)) next record op
             end) s)
    (match (V' ← vault_append id e next (current_inputs e) V; Ok (next, V')) with
     | Ok (md, V') => (Ok md, V') | Err err => (Err err, V) end).
Proof.
  intros Hsim Hfind Hsame Hent. destruct (current_valid s V org id e Hsim Hfind) as (r & _ & _ & Hv & Hfit).
  pose proof (finish_change org id entropy e next _ op s V Hsim Hfind Hsame Hv Hent) as Hfin.
  rewrite Hfit in Hfin. cbn [mbind result_bind] in Hfin.
  destruct (encrypt m entropy next (current_inputs e)) as [r'|]; exact Hfin.
Qed.

Lemma refine_update request entropy now s V :
  simulates ring s V → (72 ≤ String.length entropy)%nat →
  related (manager_exec m (CmdUpdate request) entropy now s) (vault_exec (CmdUpdate request) now V).
Proof.
  intros Hsim Hent. cbn [manager_exec]. unfold vault_exec, UpdateMetadataContext. cbn [vault_step].
  unfold vault_update, vault_writable. destruct (_ || _); run; [by split|].
  pose proof (find_related s V (umOrganizationID request) (umCredentialID request) Hsim) as Hf.
  destruct (vault_find _ _ V) as [e|] eqn:Hfind; run; [|destruct Hf as (-> & _ & ->); by split].
  clear Hf. destruct (current_valid s V _ _ e Hsim Hfind) as (r & -> & Hin & _). run.
  destruct (mVersion (veMetadata e) =? _) eqn:Hver; run; [|by split]. apply Z.eqb_eq in Hver.
  destruct (bool_decide _); run; [|by split].
  destruct (String.eqb _ _); run; [by split|]. rewrite Hin. run.
  rewrite <-Hver. by apply finish_kept.
Qed.

Lemma refine_retire request entropy now s V :
  simulates ring s V → (72 ≤ String.length entropy)%nat →
  related (manager_exec m (CmdRetire request) entropy now s) (vault_exec (CmdRetire request) now V).
Proof.
  intros Hsim Hent. cbn [manager_exec]. unfold vault_exec, RetireContext. cbn [vault_step].
  unfold vault_retire, vault_writable. destruct (_ || _); run; [by split|].
  pose proof (find_related s V (rtOrganizationID request) (rtCredentialID request) Hsim) as Hf.
  destruct (vault_find _ _ V) as [e|] eqn:Hfind; run; [|destruct Hf as (-> & _ & ->); by split].
  clear Hf. destruct (current_valid s V _ _ e Hsim Hfind) as (r & -> & Hin & _). run.
  destruct (mState (veMetadata e)) eqn:Hst; run; [|by split].
  rewrite (bool_decide_eq_true_2 (StateActive = StateActive)) by done. run.
  destruct (mVersion (veMetadata e) =? _) eqn:Hver; run; [|by split]. apply Z.eqb_eq in Hver.
  rewrite Hin. run. rewrite <-Hver. by apply finish_kept.
Qed.

Lemma refine_step c entropy now s V :
  simulates ring s V → clean c → fresh c V → (72 ≤ String.length entropy)%nat →
  related (manager_exec m c entropy now s) (vault_exec c now V).
Proof.
  intros Hsim Hclean Hfresh Hent. destruct c.
  - by apply refine_create.
  - by apply refine_get.
  - by apply refine_replace.
  - by apply refine_update.
  - by apply refine_retire.
Qed.

(** Every command of the run is clean and fresh when it comes, and each call
    finds the 72 bytes of entropy one envelope takes. *)
Fixpoint admissible (l : list event) (V : vault) : Prop :=
  match l with
  | [] => True
  | (c, entropy, now) :: l' =>
      clean c ∧ fresh c V ∧ (72 ≤ String.length entropy)%nat ∧ admissible l' (vault_exec c now V).2
  end.

(** What a store can be read back to. *)
Definition reads (s : St) (id : string) (v : Z) (inputs : gmap string string) : Prop :=
  ∃ c r, view s !! id = Some c ∧ stRecords c !! v = Some r ∧ seals ring (stMetadata c) v r inputs.

Lemma related_entry s V id :
  simulates ring s V →
  match view s !! id with
  | Some c => ∃ e, vEntries V !! id = Some e ∧ represents ring id c e
  | None => vEntries V !! id = None
  end.
Proof.
  intros [He _]. specialize (He id). destruct (view s !! id) as [c|]; inversion He; subst; eauto.
Qed.

Lemma related_entry_back s V id e :
  simulates ring s V → vEntries V !! id = Some e → ∃ c, view s !! id = Some c ∧ represents ring id c e.
Proof.
  intros Hsim He. pose proof (related_entry s V id Hsim) as Hr.
  destruct (view s !! id) as [c|]; [|congruence]. destruct Hr as (e' & He' & Hr). simplify_eq. eauto.
Qed.

Lemma represents_ok id c e : represents ring id c e → vault_entry_ok e.
Proof.
  intros [Hmd [_ Hv Hdom] _ Hrec]. rewrite Hmd in *. split; [done|]. intros v. rewrite <-Hdom.
  specialize (Hrec v). destruct Hrec; split; eauto; by intros [? ?].
Qed.

Lemma reads_vault s V id v inputs :
  simulates ring s V → reads s id v inputs ↔ ∃ e, vEntries V !! id = Some e ∧ veInputs e !! v = Some inputs.
Proof.
  intros Hsim. split.
  - intros (c & r & Hc & Hr & Hse). pose proof (related_entry s V id Hsim) as He. rewrite Hc in He.
    destruct He as (e & He & [Hmd _ _ Hrec]). exists e. split; [done|]. specialize (Hrec v). rewrite Hr in Hrec.
    inversion Hrec as [? i Hse' H1 H2|]; subst. rewrite Hmd in Hse. destruct Hse as [Hd Hv _], Hse' as [Hd' Hv' _].
    assert (json_map inputs = json_map i) as Hj by congruence. apply json_map_inj in Hj; [|done..]. by subst.
  - intros (e & He & Hi). destruct (related_entry_back s V id e Hsim He) as (c & Hc & [Hmd _ _ Hrec]).
    specialize (Hrec v). rewrite Hi in Hrec. inversion Hrec as [r ? Hse H1 H2|]; subst.
    exists c, r. by rewrite Hmd.
Qed.

Lemma exec_fresh c V request ids uid rest :
  fresh c V → c = CmdCreate request ids → newUUID ids = Some (uid, rest) → vEntries V !! uid = None.
Proof. intros Hf -> Hu. by eapply Hf. Qed.

Lemma exec_extends c entropy now s V id cs :
  simulates ring s V → clean c → fresh c V → (72 ≤ String.length entropy)%nat →
  view s !! id = Some cs →
  ∃ e e' cs', vEntries V !! id = Some e ∧ represents ring id cs e ∧
    view (manager_exec m c entropy now s).2 !! id = Some cs' ∧ represents ring id cs' e' ∧
    vEntries (vault_exec c now V).2 !! id = Some e' ∧ entry_extends e e'.
Proof.
  intros Hsim Hclean Hfresh Hent Hc. destruct (refine_step c entropy now s V) as [_ Hsim']; try done.
  pose proof (related_entry s V id Hsim) as He. rewrite Hc in He. destruct He as (e & He & Hrep).
  assert (∃ e', vEntries (vault_exec c now V).2 !! id = Some e' ∧ entry_extends e e') as (e' & He' & Hext).
  { unfold vault_exec. destruct (vault_step c now V) as [[md V']|err] eqn:Hs; cbn [snd].
    - eapply effect_extends; [by eapply vault_step_effect| |done|by eapply represents_ok].
      intros. by eapply exec_fresh.
    - exists e. split; [done|apply entry_extends_refl]. }
  destruct (related_entry_back _ _ id e' Hsim' He') as (cs' & Hc' & Hrep').
  exists e, e', cs'. done.
Qed.

(** C7: the manager refines the plaintext vault: from related stores every
    admissible run of creations, reads, input replacements, metadata updates
    and retirements returns exactly the vault's results, errors included, and
    ends in related stores, in which every version of every credential still
    decrypts, under the keyring and its own context, to the inputs the vault
    holds for it. *)
Theorem manager_refines_vault l s V :
  simulates ring s V → admissible l V →
  (manager_run m l s).1 = (vault_run l V).1 ∧ simulates ring (manager_run m l s).2 (vault_run l V).2.
Proof.
  revert s V. induction l as [|[[c entropy] now] l IH]; intros s V Hsim Hadm; [done|].
  destruct Hadm as (Hclean & Hfresh & Hent & Hadm). cbn [manager_run vault_run].
  destruct (refine_step c entropy now s V Hsim Hclean Hfresh Hent) as [Hr Hsim'].
  destruct (manager_exec m c entropy now s) as [r s'], (vault_exec c now V) as [r' V']. cbn in Hr, Hsim', Hadm.
  specialize (IH s' V' Hsim' Hadm).
  destruct (manager_run m l s') as [rs s''], (vault_run l V') as [rs' V'']. cbn in *.
  destruct IH as [-> ?]. by rewrite Hr.
Qed.

(** *** Runs *)

Lemma run_related l s V :
  simulates ring s V → admissible l V → simulates ring (manager_run m l s).2 (vault_run l V).2.
Proof.
  revert s V. induction l as [|[[c entropy] now] l IH]; intros s V Hsim Hadm; [done|].
  destruct Hadm as (Hclean & Hfresh & Hent & Hadm). cbn [manager_run vault_run].
  destruct (refine_step c entropy now s V Hsim Hclean Hfresh Hent) as [_ Hsim'].
  destruct (manager_exec m c entropy now s) as [r s'], (vault_exec c now V) as [r' V'].
  specialize (IH s' V' Hsim' Hadm).
  by destruct (manager_run m l s') as [rs s''], (vault_run l V') as [rs' V''].
Qed.

Lemma entry_extends_trans e1 e2 e3 : entry_extends e1 e2 → entry_extends e2 e3 → entry_extends e1 e3.
Proof.
  intros [Hv1 Hi1 Hs1 Hr1] [Hv2 Hi2 Hs2 Hr2]. split; [lia|..].
  - destruct_and! Hi1. destruct_and! Hi2. split_and!; congruence.
  - by transitivity (veInputs e2).
  - intros Hr. rewrite Hr1 in * by done. auto.
Qed.

Lemma run_extends l s V id e :
  simulates ring s V → admissible l V → vEntries V !! id = Some e →
  ∃ e', vEntries (vault_run l V).2 !! id = Some e' ∧ entry_extends e e'.
Proof.
  revert s V e. induction l as [|[[c entropy] now] l IH]; intros s V e Hsim Hadm He.
  { exists e. split; [done|apply entry_extends_refl]. }
  destruct Hadm as (Hclean & Hfresh & Hent & Hadm). cbn [vault_run].
  destruct (related_entry_back s V id e Hsim He) as (cs & Hcs & _).
  destruct (exec_extends c entropy now s V id cs Hsim Hclean Hfresh Hent Hcs)
    as (e0 & e1 & cs' & He0 & _ & _ & _ & He1 & Hext). simplify_eq.
  destruct (refine_step c entropy now s V Hsim Hclean Hfresh Hent) as [_ Hsim'].
  destruct (IH _ _ _ Hsim' Hadm He1) as (e' & He' & Hext').
  destruct (vault_exec c now V) as [r' V']. cbn [snd] in *.
  destruct (vault_run l V') as [rs V'']. exists e'. split; [done|]. by eapply entry_extends_trans.
Qed.

Lemma effect_replays c now V md V' k r :
  vault_effect c now V md V' → vReplays V !! k = Some r → vReplays V' !! k = Some r.
Proof.
  destruct 1 as [|request ids uid rest fields md Hc Hu Hk Hmd|]; cbn [vReplays]; try done.
  intros Hr. rewrite lookup_insert_ne; [done|]. congruence.
Qed.

Lemma exec_replays c now V k r :
  vReplays V !! k = Some r → vReplays (vault_exec c now V).2 !! k = Some r.
Proof.
  intros Hr. unfold vault_exec. destruct (vault_step c now V) as [[md V']|] eqn:Hs; [|done].
  eapply effect_replays; [by eapply vault_step_effect|done].
Qed.

Lemma run_replays l V k r :
  vReplays V !! k = Some r → vReplays (vault_run l V).2 !! k = Some r.
Proof.
  revert V. induction l as [|[[c entropy] now] l IH]; intros V Hr; [done|]. cbn [vault_run].
  apply (exec_replays c now) in Hr. destruct (vault_exec c now V) as [r' V'].
  specialize (IH V' Hr). by destruct (vault_run l V').
Qed.

(** *** Changes that cannot apply *)

(** A change of a credential whose version has moved on, or that is retired,
    writes nothing; the only success is the replay of a retirement. *)
Lemma frozen_exec c org id v entropy now s V e :
  simulates ring s V → changes c = Some (org, id, v) → vault_find org id V = Ok e →
  mVersion (veMetadata e) ≠ v ∨ mState (veMetadata e) = StateRetired →
  ∃ r, manager_exec m c entropy now s = (r, s) ∧
    (is_ok r = true → r = Ok (veMetadata e) ∧ mState (veMetadata e) = StateRetired).
Proof.
  intros Hsim Hc Hfind Hfrozen. pose proof (find_related s V org id Hsim) as Hf. rewrite Hfind in Hf.
  destruct Hf as (cs & r & _ & _ & Hg & _).
  assert ((mVersion (veMetadata e) =? v) = false ∨
          bool_decide (mState (veMetadata e) = StateActive) = false) as Hno.
  { destruct Hfrozen as [?|Hr]; [left; by apply Z.eqb_neq|right]. rewrite Hr. done. }
  destruct c as [| |request|request|request]; cbn [changes] in Hc; simplify_eq; cbn [manager_exec];
    unfold ReplaceInputsContext, UpdateMetadataContext, RetireContext; rewrite Hg;
    (destruct (_ || _); [by eexists|]); run.
  - destruct (mVersion (veMetadata e) =? _); [|by eexists]. destruct Hno as [? | ->]; [done|]. by eexists.
  - destruct (mVersion (veMetadata e) =? _); [|by eexists]. destruct Hno as [? | ->]; [done|]. by eexists.
  - destruct (mState (veMetadata e)) eqn:Hst.
    + destruct Hno as [->|?]; [|done]. rewrite !(bool_decide_eq_false_2 (StateActive = StateRetired)) by done.
      rewrite !(bool_decide_eq_true_2 (StateActive = StateActive)) by done. by eexists.
    + rewrite bool_decide_eq_true_2 by done. by eexists.
Qed.

Lemma vault_find_lookup org id V e :
  vault_find org id V = Ok e ↔ vEntries V !! id = Some e ∧ mOrganizationID (veMetadata e) = org.
Proof.
  unfold vault_find. rewrite of_option_bind. setoid_rewrite guard_bind. split.
  - intros (e' & He & Ho & [= <-]). bool_prop. done.
  - intros [He Ho]. exists e. bool_prop. done.
Qed.

(** The entry a successful change leaves behind. *)
Lemma change_entry c org id v entropy now s V md s' :
  simulates ring s V → clean c → fresh c V → (72 ≤ String.length entropy)%nat →
  changes c = Some (org, id, v) → manager_exec m c entropy now s = (Ok md, s') →
  ∃ e, vault_find org id (vault_exec c now V).2 = Ok e ∧ veMetadata e = md ∧
    simulates ring s' (vault_exec c now V).2.
Proof.
  intros Hsim Hclean Hfresh Hent Hc Hex. destruct (refine_step c entropy now s V) as [Hr Hsim']; try done.
  rewrite Hex in Hr, Hsim'. unfold vault_exec in *. cbn [fst snd] in Hr, Hsim'.
  destruct (vault_step c now V) as [[md' V']|] eqn:Hs; [|done]. cbn [fst snd] in *. injection Hr as <-.
  assert (∃ e, vault_find org id V' = Ok e ∧ veMetadata e = md) as (e & ? & ?); [|by exists e].
  destruct c as [| |request|request|request]; cbn [changes] in Hc; simplify_eq; cbn [vault_step] in Hs;
    unfold vault_replace, vault_update, vault_retire in Hs; apply guard_bind in Hs as [_ Hs].
  - apply bind_Ok in Hs as (e & (Hf & _ & _)%vault_writable_Ok & Hs). apply bind_Ok in Hs as (fields & _ & Hs).
    apply bind_Ok in Hs as ([] & _ & Hs). apply bind_Ok in Hs as (V1 & Ha & [= <- <-]).
    apply guard_bind in Ha as [_ [= <-]]. apply vault_find_lookup in Hf as [_ Ho]. eexists.
    split; [apply vault_find_lookup; cbn [vEntries]; rewrite lookup_insert_eq|]; done.
  - apply bind_Ok in Hs as (e & (Hf & _ & _)%vault_writable_Ok & Hs). case_match; [simplify_eq; by exists e|].
    apply bind_Ok in Hs as (V1 & Ha & [= <- <-]).
    apply guard_bind in Ha as [_ [= <-]]. apply vault_find_lookup in Hf as [_ Ho]. eexists.
    split; [apply vault_find_lookup; cbn [vEntries]; rewrite lookup_insert_eq|]; done.
  - apply bind_Ok in Hs as (e0 & Hf0 & Hs). case_match; [simplify_eq; by exists e0|].
    apply bind_Ok in Hs as (e & (Hf & _ & _)%vault_writable_Ok & Hs).
    apply bind_Ok in Hs as (V1 & Ha & [= <- <-]).
    apply guard_bind in Ha as [_ [= <-]]. apply vault_find_lookup in Hf as [_ Ho]. eexists.
    split; [apply vault_find_lookup; cbn [vEntries]; rewrite lookup_insert_eq|]; done.
Qed.

(** *** Replayed creations *)

Lemma create_answer request ids now V md :
  (vault_exec (CmdCreate request ids) now V).1 = Ok md →
  vReplays (vault_exec (CmdCreate request ids) now V).2 !! create_key request =
    Some (mkRemembered (requestDigest request) md) ∧
  validateCreate request = Ok () ∧
  is_ok (validateSchema (crCredentialType request) (crSchemaVersion request) (crInputs request)) = true ∧
  fits (crInputs request) = Ok ().
Proof.
  unfold vault_exec. destruct (vault_step _ now V) as [[md' V']|] eqn:Hs; [|done]. intros [= ->].
  cbn [vault_step snd] in *. unfold vault_create in Hs.
  apply bind_Ok in Hs as ([] & Hv & Hs). apply bind_Ok in Hs as (fields & Hsch & Hs).
  apply of_option_bind in Hs as ([id rest] & Hid & Hs). apply bind_Ok in Hs as ([] & Hf & Hs).
  rewrite Hsch. split; [|done]. fold (create_key request) in Hs.
  destruct (vReplays V !! create_key request) as [[dig resp]|] eqn:Hk.
  - case_bool_decide as Hd; simplify_eq. cbn [reDigest reResponse] in *. by subst.
  - injection Hs as <- <-. cbn [vReplays]. by rewrite lookup_insert_eq.
Qed.

(** With the key already answered, [CreateContext] only reads. *)
Lemma create_replayed request ids entropy now s old :
  replays s !! create_key request = Some old →
  ∃ r, manager_exec m (CmdCreate request ids) entropy now s = (r, s) ∧
    (is_ok r = true → r = Ok (reResponse old) ∧ requestDigest request = reDigest old) ∧
    (validateCreate request = Ok () →
     is_ok (validateSchema (crCredentialType request) (crSchemaVersion request) (crInputs request)) = true →
     fits (crInputs request) = Ok () → valid_inputs (crInputs request) →
     (16 ≤ String.length ids)%nat → (72 ≤ String.length entropy)%nat →
     requestDigest request = reDigest old → r = Ok (reResponse old)).
Proof.
  intros Hk. cbn [manager_exec]. unfold CreateContext. fold (create_key request).
  destruct (validateCreate request) as [[]|] eqn:Hval; run; [|by eexists].
  destruct (validateSchema _ _ _) as [fields|]; run; [|by eexists].
  destruct (newUUID ids) as [[id rest]|] eqn:Hid; run.
  2:{ eexists. split; [done|]. split; [done|]. intros _ _ _ _ Hids%Nat.leb_le.
      unfold newUUID, randomBytes in Hid. by rewrite Hids in Hid. }
  set (md := mkMetadata _ _ _ _ _ _ _ _ _ _).
  destruct (encrypt m entropy md (crInputs request)) as [r|err] eqn:He; run.
  - rewrite (law_Create_replay _ _ _ _ _ _ Hk). eexists. split; [done|].
    case_bool_decide as Hd; split; try done.
  - eexists. split; [done|]. split; [done|]. intros _ _ Hfit Hvalid _ Hent _.
    unfold validateCreate in Hval. apply guard_err_Ok in Hval. bool_prop.
    assert (id ≠ "") as Hne by (intros ->; by apply newUUID_spec in Hid as [? _]).
    pose proof (encrypt_seals entropy md (crInputs request) Hvalid Hne) as Hes.
    rewrite Hfit in Hes. cbn [mbind result_bind guard_err] in Hes.
    destruct Hes as (r & Hr & _); [tauto|tauto|done|]. congruence.
Qed.

(** C31: stored versions are immutable: whatever an admissible run does, each
    version that could be read back before can be read back after, with the
    same inputs, and the credential keeps its owner, type, schema version and
    creation time while its version only grows. *)
Theorem versions_immutable l s V id c v inputs :
  simulates ring s V → admissible l V → view s !! id = Some c → reads s id v inputs →
  reads (manager_run m l s).2 id v inputs ∧
  ∃ c', view (manager_run m l s).2 !! id = Some c' ∧
    mVersion (stMetadata c) ≤ mVersion (stMetadata c') ∧
    mOrganizationID (stMetadata c') = mOrganizationID (stMetadata c) ∧
    mCredentialType (stMetadata c') = mCredentialType (stMetadata c) ∧
    mSchemaVersion (stMetadata c') = mSchemaVersion (stMetadata c) ∧
    mCreatedAt (stMetadata c') = mCreatedAt (stMetadata c).
Proof.
  intros Hsim Hadm Hc Hr. apply (reads_vault s V) in Hr as (e & He & Hi); [|done].
  pose proof (run_related l s V Hsim Hadm) as Hsim'.
  destruct (run_extends l s V id e Hsim Hadm He) as (e' & He' & [Hv (_ & Ho & Ht & Hsch & Hcr) Hin _]).
  pose proof (related_entry s V id Hsim) as Hrel. rewrite Hc in Hrel. destruct Hrel as (e0 & He0 & Hrep).
  simplify_eq. destruct (related_entry_back _ _ id e' Hsim' He') as (c' & Hc' & Hrep').
  split.
  - apply (reads_vault _ (vault_run l V).2); [done|]. exists e'. split; [done|]. by eapply lookup_weaken.
  - exists c'. rewrite (rep_metadata _ _ _ _ Hrep), (rep_metadata _ _ _ _ Hrep'). done.
Qed.

(** Optimistic concurrency: of two changes of one credential that expect
    the same version only the first to take effect does.  After a change has
    produced a new version, any change still expecting the old one writes
    nothing and fails, unless it replays a retirement that already happened. *)
Lemma stale_change_rejected c1 c2 org id v entropy1 entropy2 now1 now2 s V md s' :
  simulates ring s V → clean c1 → fresh c1 V → (72 ≤ String.length entropy1)%nat →
  changes c1 = Some (org, id, v) → changes c2 = Some (org, id, v) →
  manager_exec m c1 entropy1 now1 s = (Ok md, s') → mVersion md ≠ v →
  ∃ r, manager_exec m c2 entropy2 now2 s' = (r, s') ∧
    (is_ok r = true → r = Ok md ∧ mState md = StateRetired).
Proof.
  intros Hsim Hclean Hfresh Hent Hc1 Hc2 Hex Hmd.
  destruct (change_entry c1 org id v entropy1 now1 s V md s') as (e & Hf & <- & Hsim'); try done.
  eapply frozen_exec; eauto.
Qed.

(** C32: retirement is permanent: once a retirement has succeeded, after every
    further admissible run the credential's metadata is still what the
    retirement returned, no change writes anything, and a change succeeds
    only as the replay that returns this metadata. *)
Theorem retired_forever request entropy now s V md s' l c org id v entropy' now' :
  simulates ring s V → (72 ≤ String.length entropy)%nat →
  manager_exec m (CmdRetire request) entropy now s = (Ok md, s') →
  admissible l (vault_exec (CmdRetire request) now V).2 →
  org = rtOrganizationID request → id = rtCredentialID request → changes c = Some (org, id, v) →
  let s'' := (manager_run m l s').2 in
  (∃ cs, view s'' !! id = Some cs ∧ stMetadata cs = md ∧ mState md = StateRetired) ∧
  ∃ r, manager_exec m c entropy' now' s'' = (r, s'') ∧ (is_ok r = true → r = Ok md).
Proof.
  intros Hsim Hent Hex Hadm -> -> Hc s''.
  destruct (change_entry (CmdRetire request) (rtOrganizationID request) (rtCredentialID request)
    (rtExpectedVersion request) entropy now s V md s') as (e & Hf & Hmd & Hsim'); try done.
  assert (mState md = StateRetired) as Hst.
  { assert ((vault_exec (CmdRetire request) now V).1 = Ok md) as Hr.
    { destruct (refine_step (CmdRetire request) entropy now s V) as [Hr _]; try done. by rewrite <-Hr, Hex. }
    unfold vault_exec in Hr. destruct (vault_step _ now V) as [[md' V']|] eqn:Hs; [|done]. injection Hr as ->.
    cbn [vault_step] in Hs. unfold vault_retire in Hs. apply guard_bind in Hs as [_ Hs].
    apply bind_Ok in Hs as (e0 & _ & Hs).
    destruct (bool_decide (mState (veMetadata e0) = StateRetired)) eqn:Hb.
    { apply bool_decide_eq_true in Hb. congruence. }
    apply bind_Ok in Hs as (e1 & _ & Hs). by apply bind_Ok in Hs as (V1 & _ & [= <- <-]). }
  apply vault_find_lookup in Hf as [He Ho].
  pose proof (run_related l s' _ Hsim' Hadm) as Hsim''.
  destruct (run_extends l s' _ _ e Hsim' Hadm He) as (e' & He' & [_ _ _ Hret]).
  rewrite Hret in He' by congruence. subst s''. split.
  - destruct (related_entry_back _ _ _ e Hsim'' He') as (cs & Hcs & Hrep). exists cs.
    rewrite (rep_metadata _ _ _ _ Hrep). done.
  - destruct (frozen_exec c _ _ v entropy' now' _ _ e Hsim'' Hc) as (r & Hr & Hok).
    + by apply vault_find_lookup.
    + right. congruence.
    + exists r. split; [done|]. intros Hr'. rewrite <-Hmd. by apply Hok.
Qed.

(** Creation is idempotent per organization and key: after a creation
    has answered, and whatever admissible run follows, a creation with the
    same organization and key writes nothing; repeated with the same request
    it returns the first answer, and it returns an answer only for a request
    with the same digest. *)
Lemma create_idempotent r1 ids1 entropy1 now1 s V md s' l r2 ids2 entropy2 now2 :
  simulates ring s V → clean (CmdCreate r1 ids1) → fresh (CmdCreate r1 ids1) V →
  (72 ≤ String.length entropy1)%nat →
  manager_exec m (CmdCreate r1 ids1) entropy1 now1 s = (Ok md, s') →
  admissible l (vault_exec (CmdCreate r1 ids1) now1 V).2 →
  create_key r2 = create_key r1 →
  let s'' := (manager_run m l s').2 in
  ∃ r, manager_exec m (CmdCreate r2 ids2) entropy2 now2 s'' = (r, s'') ∧
    (is_ok r = true → r = Ok md ∧ requestDigest r2 = requestDigest r1) ∧
    (r2 = r1 → (16 ≤ String.length ids2)%nat → (72 ≤ String.length entropy2)%nat → r = Ok md).
Proof.
  intros Hsim Hclean Hfresh Hent Hex Hadm Hkey s''.
  destruct (refine_step (CmdCreate r1 ids1) entropy1 now1 s V) as [Hr Hsim']; try done.
  rewrite Hex in Hr, Hsim'. cbn [fst snd] in Hr, Hsim'.
  destruct (create_answer r1 ids1 now1 V md) as (Hrep & Hval & Hschema & Hfits); [by symmetry|].
  pose proof (run_related l s' _ Hsim' Hadm) as Hsim''.
  apply (run_replays l) in Hrep. rewrite <-Hkey in Hrep.
  rewrite <-(sim_replays _ _ _ Hsim'') in Hrep. fold s'' in Hrep, Hsim''.
  destruct (create_replayed r2 ids2 entropy2 now2 s'' _ Hrep) as (r & Hr2 & Hok & Hsame).
  exists r. split; [done|]. split; [done|]. intros -> Hids Hent2. apply Hsame; try done.
Qed.
End Refinement.

(** ** The organization fence *)

Section Fence.
Context `{CR : Crypto} `{MO : MapOrder} `{SR : SchemaRegistry} {St : Type} `{BL : BackendLaws St}.

(** The organization and credential a command names. *)
Definition target (c : command) : option (string * string) :=
  match c with
  | CmdCreate _ _ => None
  | CmdGet org id => Some (org, id)
  | _ => fst <$> changes c
  end.

Definition well_formed (c : command) : bool :=
  match c with
  | CmdCreate _ _ | CmdGet _ _ => true
  | CmdReplace r => negb (String.eqb (riCredentialID r) "" || String.eqb (riOrganizationID r) "" ||
                          (riExpectedVersion r =? 0))
  | CmdUpdate r => negb (String.eqb (umCredentialID r) "" || String.eqb (umOrganizationID r) "" ||
                         (umExpectedVersion r =? 0) || negb (validName (umName r)))
  | CmdRetire r => negb (String.eqb (rtCredentialID r) "" || String.eqb (rtOrganizationID r) "" ||
                         (rtExpectedVersion r =? 0))
  end.

(** The organization fence: a command naming a credential of another
    organization writes nothing and answers exactly what it answers for a
    credential that does not exist, so that the answer says nothing about
    the stored credential. *)
Lemma organization_fence (m : Manager) c org id entropy now (s : St) :
  target c = Some (org, id) → owned_by (view s) org id = None →
  manager_exec m c entropy now s = (Err (if well_formed c then ErrNotFound else ErrInvalidInput), s).
Proof.
  intros Ht Ho. apply law_Get_missing in Ho as Hg.
  destruct c as [|org' id'|request|request|request]; cbn in Ht; simplify_eq; cbn [manager_exec well_formed].
  - unfold GetContext. by rewrite Hg.
  - unfold ReplaceInputsContext. rewrite Hg. by destruct (_ || _).
  - unfold UpdateMetadataContext. rewrite Hg. by destruct (_ || _).
  - unfold RetireContext. rewrite Hg. by destruct (_ || _).
Qed.
End Fence.

(** ** A run on the development backend *)

Lemma initial_related `{Crypto} `{MapOrder} (m : Manager) :
  simulates (St:=memoryBackend) (Keyring (keys m)) newMemoryBackend (mkVault ∅ ∅).
Proof. split; [|done]. apply map_Forall2_empty. Qed.

Module VaultExample.
#[local] Existing Instances toy_crypto toy_crypto_laws canonical_order.
Definition key_set : KeySet :=
  mkKeySet (mkMasterKey "key-a" (stream 32 5)) None {[ "key-a" := mkMasterKey "key-a" (stream 32 5) ]}.
Definition manager : Manager := mkManager key_set (Some builtin_injector) DefaultResolutionPolicy.
Lemma key_set_ok : set_ok key_set.
Proof.
  split; [by split|done|]. intros id k. cbn [Keyring key_set]. rewrite lookup_singleton_Some. naive_solver.
Defined.

Definition create : command :=
  CmdCreate (mkCreate "org-a" "deploy" "machine" 1 {[ "username" := "root"; "password" := "pw" ]} "key-1")
    (stream 16 200).
Definition id : string := "c8afdab9-fc93-4ebd-b0b7-c201241b1685".
Definition rename : command := CmdUpdate (mkUpdate id "org-a" 1 "deploy-2").
Definition retire : command := CmdRetire (mkRetire id "org-a" 2).
Definition run : list event :=
  [(create, stream 72 1, 1000); (rename, stream 72 2, 2000); (retire, stream 72 3, 3000)].
Definition empty_vault : vault := mkVault ∅ ∅.
Definition after_create : memoryBackend := (manager_exec manager create (stream 72 1) 1000 newMemoryBackend).2.
Definition vault_created : vault := (vault_exec create 1000 empty_vault).2.

Lemma create_clean : clean create.
Proof. apply (bool_decide_unpack _). vm_compute. exact I. Defined.
Lemma create_fresh : fresh create empty_vault.
Proof. intros uid rest _. apply lookup_empty. Defined.
Lemma enough n z : (72 ≤ n)%nat → (72 ≤ String.length (stream n z))%nat.
Proof. intros Hn. assert (String.length (stream n z) = n) as ->; [|done]. clear Hn. revert z. induction n; intros z; simpl; auto. Defined.
Lemma run_admissible : admissible run empty_vault.
Proof.
  split; [exact create_clean|]. split; [exact create_fresh|].
  repeat (split; [by apply enough|]; cbn [admissible run]; try (split; [exact I|]; split; [exact I|])). exact I.
Defined.
Lemma created : simulates (St:=memoryBackend) (Keyring (keys manager)) after_create vault_created.
Proof.
  apply (refine_step manager key_set_ok create (stream 72 1) 1000 newMemoryBackend empty_vault).
  - apply initial_related.
  - apply create_clean.
  - apply create_fresh.
  - by apply enough.
Defined.
End VaultExample.

Section VaultWitnesses.
Import VaultExample.
#[local] Existing Instances toy_crypto toy_crypto_laws canonical_order.

Lemma manager_refines_vault_witness :
  (manager_run manager run newMemoryBackend).1 = (vault_run run empty_vault).1 ∧
  Forall (λ r, is_ok r = true) (manager_run manager run newMemoryBackend).1.
Proof.
  destruct (manager_refines_vault manager key_set_ok run newMemoryBackend empty_vault
    (initial_related manager) run_admissible) as [Hr _].
  split; [exact Hr|]. apply (bool_decide_unpack _). vm_compute. exact I.
Defined.

Definition inputs : gmap string string := {[ "username" := "root"; "password" := "pw" ]}.
Definition stored_now : stored :=
  default (mkStored (mkMetadata "" "" "" "" 0 0 StateActive [] 0 0) ∅) (credentials after_create !! id).
Definition later : list event := [(rename, stream 72 2, 2000); (retire, stream 72 3, 3000)].

Lemma later_admissible : admissible later vault_created.
Proof. exact (proj2 (proj2 (proj2 run_admissible))). Defined.

Lemma stored_now_found : view after_create !! id = Some stored_now.
Proof. vm_compute. reflexivity. Defined.

Lemma versions_immutable_witness :
  reads manager (manager_run manager later after_create).2 id 1 inputs.
Proof.
  refine (proj1 (versions_immutable manager key_set_ok later after_create vault_created id stored_now 1 inputs
    created later_admissible stored_now_found _)).
  apply (reads_vault manager after_create vault_created); [exact created|].
  eexists. split; vm_compute; reflexivity.
Defined.

Definition renamed : memoryBackend := (manager_exec manager rename (stream 72 2) 2000 after_create).2.
Definition renamed_metadata : Metadata :=
  mkMetadata id "org-a" "deploy-2" "machine" 1 2 StateActive ["password"] 1000 2000.
Lemma rename_answer : (manager_exec manager rename (stream 72 2) 2000 after_create).1 = Ok renamed_metadata.
Proof. vm_compute. reflexivity. Qed.
Lemma rename_result : manager_exec manager rename (stream 72 2) 2000 after_create = (Ok renamed_metadata, renamed).
Proof. unfold renamed. rewrite <-rename_answer. apply surjective_pairing. Qed.

Definition retire_now : command := CmdRetire (mkRetire id "org-a" 1).
Definition retired_store : memoryBackend := (manager_exec manager retire_now (stream 72 3) 3000 after_create).2.
Definition retired_metadata : Metadata :=
  mkMetadata id "org-a" "deploy" "machine" 1 2 StateRetired ["password"] 1000 3000.
Lemma retire_answer : (manager_exec manager retire_now (stream 72 3) 3000 after_create).1 = Ok retired_metadata.
Proof. vm_compute. reflexivity. Qed.
Lemma retire_result :
  manager_exec manager retire_now (stream 72 3) 3000 after_create = (Ok retired_metadata, retired_store).
Proof. unfold retired_store. rewrite <-retire_answer. apply surjective_pairing. Qed.

Lemma stale_change_rejected_witness :
  ∃ r, manager_exec manager (CmdReplace (mkReplace id "org-a" 1 inputs)) (stream 72 9) 2500 renamed =
       (r, renamed) ∧ (is_ok r = true → StateActive = StateRetired).
Proof.
  destruct (stale_change_rejected manager key_set_ok rename (CmdReplace (mkReplace id "org-a" 1 inputs))
    "org-a" id 1 (stream 72 2) (stream 72 9) 2000 2500 after_create vault_created renamed_metadata renamed
    created I I (enough 72 2 (le_n 72)) eq_refl eq_refl rename_result) as (r & Hr & Hok); [discriminate|].
  exists r. split; [exact Hr|]. intros Hr'. exact (proj2 (Hok Hr')).
Defined.

Lemma retired_forever_witness :
  let s := (manager_run manager [] retired_store).2 in
  ∃ r, manager_exec manager (CmdRetire (mkRetire id "org-a" 9)) (stream 72 4) 5000 s = (r, s) ∧
       (is_ok r = true → r = Ok retired_metadata).
Proof.
  refine (proj2 (retired_forever manager key_set_ok (mkRetire id "org-a" 1) (stream 72 3) 3000 after_create
    vault_created retired_metadata retired_store [] (CmdRetire (mkRetire id "org-a" 9)) "org-a" id 9
    (stream 72 4) 5000 created (enough 72 3 (le_n 72)) retire_result I eq_refl eq_refl eq_refl)).
Defined.

Definition create_request : CreateRequest :=
  mkCreate "org-a" "deploy" "machine" 1 {[ "username" := "root"; "password" := "pw" ]} "key-1".

Definition created_metadata : Metadata :=
  mkMetadata id "org-a" "deploy" "machine" 1 1 StateActive ["password"] 1000 1000.
Lemma create_answer_now : (manager_exec manager create (stream 72 1) 1000 newMemoryBackend).1 = Ok created_metadata.
Proof. vm_compute. reflexivity. Qed.
Lemma create_result :
  manager_exec manager create (stream 72 1) 1000 newMemoryBackend = (Ok created_metadata, after_create).
Proof. unfold after_create. rewrite <-create_answer_now. apply surjective_pairing. Qed.

Lemma create_idempotent_witness :
  (manager_exec manager (CmdCreate create_request (stream 16 31)) (stream 72 8) 9000
     (manager_run manager later after_create).2).1 =
  (manager_exec manager create (stream 72 1) 1000 newMemoryBackend).1.
Proof.
  destruct (create_idempotent manager key_set_ok create_request (stream 16 200) (stream 72 1) 1000
    newMemoryBackend empty_vault created_metadata after_create later create_request (stream 16 31) (stream 72 8) 9000)
    as (r & Hr & _ & Hsame).
  - apply initial_related.
  - exact create_clean.
  - exact create_fresh.
  - by apply enough.
  - exact create_result.
  - exact later_admissible.
  - reflexivity.
  - rewrite Hr, create_result. apply Hsame; [reflexivity|vm_compute; lia|by apply enough].
Defined.

Lemma organization_fence_witness :
  manager_exec manager (CmdGet "org-b" id) "" 0 after_create = (Err ErrNotFound, after_create).
Proof.
  apply (organization_fence (BL:=memory_laws) manager (CmdGet "org-b" id) "org-b" id "" 0 after_create).
  - reflexivity.
  - vm_compute. reflexivity.
Defined.
End VaultWitnesses.
