(* ===== verification/Bindings.v ===== *)
(** * Run bindings: the state machine and its invariant

    The binding operations of the manager over the development backend
    (src/credential/resolution.go, backend_resolution.go) as a step relation,
    with every other operation of the manager as steps that may interleave.
    [binding_inv] is the invariant of every reachable store: a binding counts
    exactly its recorded attempts, never more than its limit, is exhausted
    exactly when the limit is reached, and stays bound to a stored version. *)

From Stdlib Require Import Ascii.
From S2P Require Import Prelude GoStrings GoTime Json Crypto Envelope MasterKey Credential Builtin Backend MemoryBackend Manager Vault.

(** ** The invariant *)

Definition attempts_of (b : memoryBackend) (run : string) : Z :=
  Z.of_nat (size (filter (λ x : string * memoryAttempt, maRunID x.2 = run) (attempts b))).

Section Invariant.
Context `{CR : Crypto}.

(** The digest stored with a binding is that of the request it came from. *)
Definition digest_ok (s : memoryBinding) : Prop :=
  ∃ request, bindingDigest request = Some (mbDigest s) ∧
    rbRunID request = bdRunID (mbBinding s) ∧ rbDispatchID request = bdDispatchID (mbBinding s) ∧
    validUUID (rbRunID request) = true ∧ validUUID (rbDispatchID request) = true.

Definition version_stored (b : memoryBackend) (d : Binding) : Prop :=
  ∃ c, credentials b !! bdCredentialID d = Some c ∧ is_Some (stRecords c !! bdCredentialVersion d) ∧
    mOrganizationID (stMetadata c) = bdOrganizationID d.

(** An entry is filed under its identifier and stores its current version. *)
Definition entry_current (id : string) (c : stored) : Prop :=
  mID (stMetadata c) = id ∧ is_Some (stRecords c !! mVersion (stMetadata c)).

Record binding_ok (b : memoryBackend) (run : string) (s : memoryBinding) : Prop := {
  bok_run : bdRunID (mbBinding s) = run;
  bok_max : 0 < bdMaxResolutions (mbBinding s) < 2 ^ 32;
  bok_count : bdResolutionCount (mbBinding s) = attempts_of b run;
  bok_limit : bdResolutionCount (mbBinding s) ≤ bdMaxResolutions (mbBinding s);
  bok_exhausted : bdState (mbBinding s) = BindingExhausted ↔
    bdResolutionCount (mbBinding s) = bdMaxResolutions (mbBinding s);
  bok_window : bdNotBefore (mbBinding s) < bdExpiresAt (mbBinding s);
  bok_version : version_stored b (mbBinding s);
  bok_digest : digest_ok s
}.

Record attempt_ok (b : memoryBackend) (a : memoryAttempt) : Prop := {
  aok_binding : ∃ s, bindings b !! maRunID a = Some s ∧
    maExecutorIdentity a = bdExecutorIdentity (mbBinding s) ∧ maExpiresAt a ≤ bdExpiresAt (mbBinding s)
}.

Record binding_inv (b : memoryBackend) : Prop := {
  inv_bindings : map_Forall (binding_ok b) (bindings b);
  inv_attempts : map_Forall (λ _, attempt_ok b) (attempts b);
  inv_dispatch run run' s s' : bindings b !! run = Some s → bindings b !! run' = Some s' →
    bdDispatchID (mbBinding s) = bdDispatchID (mbBinding s') → run = run';
  inv_key run run' s s' : bindings b !! run = Some s → bindings b !! run' = Some s' →
    bdOrganizationID (mbBinding s) = bdOrganizationID (mbBinding s') →
    mbIdempotencyKey s = mbIdempotencyKey s' → run = run';
  inv_current : map_Forall entry_current (credentials b)
}.

(** *** Frames

    Steps on the other maps: credentials keep their owners and their
    versions, bindings and attempts are not touched. *)

Record grows (b b' : memoryBackend) : Prop := {
  grow_bindings : bindings b' = bindings b;
  grow_attempts : attempts b' = attempts b;
  grow_credentials id c : credentials b !! id = Some c →
    ∃ c', credentials b' !! id = Some c' ∧ mOrganizationID (stMetadata c') = mOrganizationID (stMetadata c) ∧
      mCredentialType (stMetadata c') = mCredentialType (stMetadata c) ∧
      mSchemaVersion (stMetadata c') = mSchemaVersion (stMetadata c) ∧
      ∀ v, is_Some (stRecords c !! v) → is_Some (stRecords c' !! v);
  grow_current : map_Forall entry_current (credentials b) →
    map_Forall entry_current (credentials b')
}.

Lemma grows_refl b : grows b b.
Proof. split; [done|done| |done]. intros id c Hc. exists c. done. Qed.

Lemma grows_inv b b' : grows b b' → binding_inv b → binding_inv b'.
Proof.
  intros [Hb Ha Hc Hcur] [H1 H2 H3 H4 H5]. split; rewrite ?Hb, ?Ha; try done; [| |auto].
  - intros run s Hs. destruct (H1 run s Hs) as [? ? Hcount ? ? ? Hver ?]. split; try done.
    + unfold attempts_of in *. by rewrite Ha.
    + destruct Hver as (c & Hf & Hr & Ho). destruct (Hc _ _ Hf) as (c' & Hc' & Ho' & _ & _ & Hr').
      exists c'. split_and!; [done|auto|congruence].
  - intros aid a Haid. destruct (H2 aid a Haid) as [Hs]. split. by rewrite Hb.
Qed.

(** *** The ledger of attempts *)

Lemma attempts_of_insert b aid a run :
  attempts b !! aid = None →
  attempts_of (set_attempts (<[aid := a]> (attempts b)) b) run =
  attempts_of b run + if String.eqb (maRunID a) run then 1 else 0.
Proof.
  intros Hn. unfold attempts_of. cbn [attempts set_attempts]. destruct (String.eqb_spec (maRunID a) run) as [He|Hne].
  - rewrite map_filter_insert_True by done. rewrite map_size_insert_None; [lia|].
    by apply map_lookup_filter_None_2; left.
  - rewrite map_filter_insert_False, delete_id by done. lia.
Qed.

Lemma attempts_of_zero b run :
  map_Forall (λ _ a, maRunID a ≠ run) (attempts b) → attempts_of b run = 0.
Proof.
  intros Hf. unfold attempts_of. rewrite map_empty_filter_2; [done|]. intros k a Ha. by apply Hf in Ha.
Qed.

(** *** Registration *)

(** No existing binding decides the request. *)
Definition unrelated (g : bindingRegistration) (x : string * memoryBinding) : Prop :=
  ¬ (bdOrganizationID (mbBinding x.2) = rbOrganizationID (brRequest g) ∧
     mbIdempotencyKey x.2 = rbIdempotencyKey (brRequest g)) ∧
  bdRunID (mbBinding x.2) ≠ rbRunID (brRequest g) ∧
  bdDispatchID (mbBinding x.2) ≠ rbDispatchID (brRequest g).

Lemma find_binding_None g l : find_binding g l = None ↔ Forall (unrelated g) l.
Proof.
  induction l as [|[k x] l IH]; [split; [constructor|done]|]. rewrite Forall_cons, <-IH. unfold unrelated.
  cbn [find_binding snd]. destruct (_ && _) eqn:Hk.
  { bool_prop. split; [done|]. tauto. }
  destruct (_ || _) eqn:Hr.
  { bool_prop. split; [done|]. tauto. }
  apply andb_false_iff in Hk. bool_prop. split; [|tauto]. intros Hn. split_and!; try tauto.
Qed.

(** What the manager has checked about a registration. *)
Record registration_ok (g : bindingRegistration) : Prop := {
  reg_digest : bindingDigest (brRequest g) = Some (brDigest g);
  reg_run : validUUID (rbRunID (brRequest g)) = true;
  reg_dispatch : validUUID (rbDispatchID (brRequest g)) = true;
  reg_max : 0 < rbMaxResolutions (brRequest g) < 2 ^ 32;
  reg_window : rbNotBefore (brRequest g) < rbExpiresAt (brRequest g)
}.

Lemma binding_ok_insert b run s x y :
  binding_ok b x y → binding_ok (set_bindings (<[run := s]> (bindings b)) b) x y.
Proof. intros []. by split. Qed.

Lemma RegisterBinding_inv `{MapOrder} g b :
  registration_ok g → binding_inv b → binding_inv (MemoryBackend.RegisterBinding g b).2.
Proof.
  intros Hg [H1 H2 H3 H4 H5]. unfold MemoryBackend.RegisterBinding.
  destruct (find_binding g _) as [r|] eqn:Hf; [done|].
  destruct (credentials b !! _) as [c|] eqn:Hc; [|done].
  destruct (_ || _) eqn:Ho; [done|]. bool_prop. destruct Ho as [Ho _]. cbn [snd].
  apply find_binding_None in Hf. rewrite Forall_forall in Hf.
  assert (∀ run s, bindings b !! run = Some s → unrelated g (run, s)) as Hun
    by (intros; apply Hf; by apply elem_of_iterate).
  assert (bindings b !! rbRunID (brRequest g) = None) as Hnew.
  { destruct (bindings b !! _) as [s|] eqn:Hs; [|done]. destruct (Hun _ _ Hs) as (_ & Hr & _).
    exfalso. apply Hr. apply (bok_run _ _ _ (H1 _ _ Hs)). }
  assert (attempts_of b (rbRunID (brRequest g)) = 0) as Hzero.
  { apply attempts_of_zero. intros aid a Ha Hr. destruct (H2 aid a Ha) as [(s & Hs & _)]. by rewrite Hr, Hnew in Hs. }
  split; try done.
  - intros run s. cbn [bindings set_bindings]. rewrite lookup_insert_Some. intros [[<- <-]|[Hne Hs]].
    2:{ apply binding_ok_insert. by apply H1. }
    destruct Hg as [Hd Hr Hdi Hm Hw].
    split; cbn [mbBinding new_binding bdRunID bdMaxResolutions bdResolutionCount bdState bdNotBefore bdExpiresAt]; try done.
    + lia.
    + case_match; split; try done; lia.
    + exists c. split_and!; [done|by apply (H5 _ _ Hc)|done].
    + exists (brRequest g). done.
  - intros aid a Ha. destruct (H2 aid a Ha) as [(s & Hs & ?)]. split. exists s. cbn [bindings set_bindings].
    rewrite lookup_insert_ne; [done|]. intros Heq. by rewrite <-Heq, Hnew in Hs.
  - intros run run' s s'. cbn [bindings set_bindings]. rewrite !lookup_insert_Some.
    intros [[<- <-]|[Hne Hs]] [[<- <-]|[Hne' Hs']]; cbn [mbBinding new_binding bdDispatchID]; intros Hd; [done| | |by eapply H3].
    + destruct (Hun _ _ Hs') as (_ & _ & Hx). cbn [snd] in Hx. congruence.
    + destruct (Hun _ _ Hs) as (_ & _ & Hx). cbn [snd] in Hx. congruence.
  - intros run run' s s'. cbn [bindings set_bindings]. rewrite !lookup_insert_Some.
    intros [[<- <-]|[Hne Hs]] [[<- <-]|[Hne' Hs']];
      cbn [mbBinding new_binding bdOrganizationID mbIdempotencyKey]; intros Hor Hk; [done| | |by eapply H4].
    + destruct (Hun _ _ Hs') as (Hx & _ & _). exfalso. apply Hx. cbn [snd]. split; congruence.
    + destruct (Hun _ _ Hs) as (Hx & _ & _). exfalso. apply Hx. cbn [snd]. split; congruence.
Qed.

(** *** Writes to one binding *)

(** A write that keeps what identifies a binding and its ledger entry. *)
Record same_binding (d d' : Binding) : Prop := {
  same_run : bdRunID d' = bdRunID d;
  same_dispatch : bdDispatchID d' = bdDispatchID d;
  same_org : bdOrganizationID d' = bdOrganizationID d;
  same_credential : bdCredentialID d' = bdCredentialID d ∧ bdCredentialVersion d' = bdCredentialVersion d;
  same_executor : bdExecutorIdentity d' = bdExecutorIdentity d;
  same_window : bdNotBefore d' = bdNotBefore d ∧ bdExpiresAt d' = bdExpiresAt d;
  same_max : bdMaxResolutions d' = bdMaxResolutions d
}.
Lemma same_binding_refl d : same_binding d d.
Proof. by split. Qed.
Lemma same_binding_trans d1 d2 d3 : same_binding d1 d2 → same_binding d2 d3 → same_binding d1 d3.
Proof. intros [] []. destruct_and!. split; try split; congruence. Qed.

(** Such a write preserves the invariant when its own counter still matches
    the ledger and the other runs' ledgers are unchanged. *)
Lemma put_binding_inv b b' run s d :
  binding_inv b → bindings b !! run = Some s → same_binding (mbBinding s) d →
  bindings b' = bindings b → credentials b' = credentials b →
  bdResolutionCount d = attempts_of b' run → bdResolutionCount d ≤ bdMaxResolutions d →
  (bdState d = BindingExhausted ↔ bdResolutionCount d = bdMaxResolutions d) →
  (∀ run', run' ≠ run → attempts_of b' run' = attempts_of b run') →
  (∀ aid a, attempts b' !! aid = Some a → attempts b !! aid = Some a ∨
     (maRunID a = run ∧ maExecutorIdentity a = bdExecutorIdentity d ∧ maExpiresAt a ≤ bdExpiresAt d)) →
  binding_inv (put_binding run s d b').
Proof.
  intros [H1 H2 H3 H4 H5] Hs Hsame Hb Hc Hcount Hle Hex Hother Hatt.
  pose proof (H1 _ _ Hs) as [Hr Hm _ _ _ Hw Hv Hd].
  destruct Hsame as [Sr Sd So [Sc Scv] Se [Sn Sx] Sm].
  assert (∀ x y, <[run := with_binding d s]> (bindings b) !! x = Some y →
    ∃ y', bindings b !! x = Some y' ∧ bdDispatchID (mbBinding y) = bdDispatchID (mbBinding y') ∧
      bdOrganizationID (mbBinding y) = bdOrganizationID (mbBinding y') ∧ mbIdempotencyKey y = mbIdempotencyKey y') as Hback.
  { intros x y. rewrite lookup_insert_Some. intros [[<- <-]|[Hne Hy]]; [by exists s|by exists y]. }
  unfold put_binding. rewrite Hb. split; cbn [bindings attempts credentials set_bindings].
  - intros x y. rewrite lookup_insert_Some. intros [[<- <-]|[Hne Hy]].
    + split; cbn [with_binding mbBinding]; rewrite ?Sr, ?Sm, ?Sn, ?Sx; try done; [by rewrite <-Sm|by rewrite <-Sm| |].
      * destruct Hv as (c & Hcc & Hvv & Hoo). exists c. cbn [credentials set_bindings]. by rewrite Hc, Sc, Scv, So.
      * destruct Hd as (q & ? & ? & ? & ?). exists q. cbn [with_binding mbBinding mbDigest]. by rewrite Sr, Sd.
    + destruct (H1 _ _ Hy) as [? ? Hcy ? ? ? Hvy ?]. split; try done.
      * rewrite Hcy. unfold attempts_of in *. cbn [attempts set_bindings]. symmetry. by apply Hother.
      * destruct Hvy as (c & ?). exists c. cbn [credentials set_bindings]. by rewrite Hc.
  - intros aid a Ha. apply Hatt in Ha as [Ha|(<- & He & Hx)].
    + destruct (H2 _ _ Ha) as [(y & Hy & He & Hx)]. split. cbn [bindings set_bindings].
      destruct (decide (run = maRunID a)) as [->|Hne].
      * rewrite lookup_insert_eq. exists (with_binding d s). simplify_eq. cbn [with_binding mbBinding].
        split_and!; [done|congruence|lia].
      * rewrite lookup_insert_ne by done. eauto.
    + split. exists (with_binding d s). cbn [bindings set_bindings]. by rewrite lookup_insert_eq.
  - intros x x' y y' Hx Hx' Hdis. destruct (Hback _ _ Hx) as (z & Hz & E & _), (Hback _ _ Hx') as (z' & Hz' & E' & _).
    eapply H3; [done..|congruence].
  - intros x x' y y' Hx Hx' Hor Hk. destruct (Hback _ _ Hx) as (z & Hz & _ & E & F), (Hback _ _ Hx') as (z' & Hz' & _ & E' & F').
    eapply H4; [done|done|congruence..].
  - by rewrite Hc.
Qed.

(** *** Outcomes of a claim *)

(** The checks that precede the ledger. *)
Record usable {A} (claim : resolutionClaim) (validate : Binding → boundRecord → result CredError A)
    (b : memoryBackend) (s : memoryBinding) (rendered : A) : Prop := {
  us_found : bindings b !! clRunID claim = Some s;
  us_executor : bdExecutorIdentity (mbBinding s) = clExecutorIdentity claim;
  us_state : bdState (mbBinding s) ≠ BindingCanceled ∧ bdState (mbBinding s) ≠ BindingExpired;
  us_window : bdNotBefore (mbBinding s) ≤ clNow claim < bdExpiresAt (mbBinding s);
  us_version : ∃ version, boundVersion (mbBinding s) b = Ok version ∧ validate (mbBinding s) version = Ok rendered
}.

Definition granted_expiry (claim : resolutionClaim) (d : Binding) : time :=
  Z.min (clNow claim + clRetryWindow claim) (bdExpiresAt d).

Definition granted_binding (claim : resolutionClaim) (d : Binding) : Binding :=
  let count := u32 (bdResolutionCount d + 1) in
  with_state (if count =? bdMaxResolutions d then BindingExhausted else BindingActive) (clNow claim)
    (with_count count d).

Definition record_attempt (claim : resolutionClaim) (d : Binding) (b : memoryBackend) : memoryBackend :=
  set_attempts (<[clAttemptID claim := mkAttempt (clRunID claim) (clExecutorIdentity claim) (clDigest claim)
    (granted_expiry claim d)]> (attempts b)) b.

Inductive claim_outcome {A} (claim : resolutionClaim) (validate : Binding → boundRecord → result CredError A)
    (b : memoryBackend) : result CredError (Binding * time * A) → memoryBackend → Prop :=
| claim_refused e :
    claim_outcome claim validate b (Err e) b
| claim_expires s :
    bindings b !! clRunID claim = Some s → bdExecutorIdentity (mbBinding s) = clExecutorIdentity claim →
    terminal (bdState (mbBinding s)) = false → bdExpiresAt (mbBinding s) ≤ clNow claim →
    claim_outcome claim validate b (Err ErrBindingExpired)
      (put_binding (clRunID claim) s (with_state BindingExpired (clNow claim) (mbBinding s)) b)
| claim_exhausts s rendered :
    usable claim validate b s rendered → attempts b !! clAttemptID claim = None →
    bdMaxResolutions (mbBinding s) ≤ bdResolutionCount (mbBinding s) ∨ bdState (mbBinding s) = BindingExhausted →
    claim_outcome claim validate b (Err ErrBindingExhausted)
      (put_binding (clRunID claim) s (with_state BindingExhausted (clNow claim) (mbBinding s)) b)
| claim_retried s rendered attempt :
    usable claim validate b s rendered → attempts b !! clAttemptID claim = Some attempt →
    maRunID attempt = clRunID claim → maExecutorIdentity attempt = clExecutorIdentity claim →
    maDigest attempt = clDigest claim → clNow claim < maExpiresAt attempt →
    claim_outcome claim validate b (Ok (mbBinding s, maExpiresAt attempt, rendered)) b
| claim_granted s rendered :
    usable claim validate b s rendered → attempts b !! clAttemptID claim = None →
    bdResolutionCount (mbBinding s) < bdMaxResolutions (mbBinding s) → bdState (mbBinding s) ≠ BindingExhausted →
    claim_outcome claim validate b
      (Ok (granted_binding claim (mbBinding s), granted_expiry claim (mbBinding s), rendered))
      (put_binding (clRunID claim) s (granted_binding claim (mbBinding s)) (record_attempt claim (mbBinding s) b)).

Lemma claim_cases {A} claim (validate : Binding → boundRecord → result CredError A) b :
  claim_outcome claim validate b (ClaimResolution A claim validate b).1 (ClaimResolution A claim validate b).2.
Proof.
  unfold ClaimResolution. destruct (bindings b !! _) as [s|] eqn:Hs; [|apply claim_refused].
  destruct (negb (String.eqb _ _)) eqn:Hex; [apply claim_refused|].
  destruct (bool_decide (_ = BindingCanceled)) eqn:Hca; [apply claim_refused|].
  destruct (bool_decide (_ = BindingExpired)) eqn:Hxp; [apply claim_refused|].
  bool_prop. destruct (negb (Before _ (bdExpiresAt _))) eqn:Hlate.
  { apply negb_true_iff, Before_false in Hlate. case_match eqn:Hxh; bool_facts; [|apply claim_refused].
    apply claim_expires; try done. by destruct (bdState (mbBinding s)). }
  apply negb_false_iff, Before_true in Hlate.
  destruct (Before _ (bdNotBefore _)) eqn:Hearly; [apply claim_refused|]. apply Before_false in Hearly.
  destruct (boundVersion _ b) as [version|] eqn:Hver; [|apply claim_refused].
  destruct (validate _ _) as [rendered|] eqn:Hval; [|apply claim_refused].
  assert (usable claim validate b s rendered) as Hus by (split; eauto).
  destruct (attempts b !! _) as [attempt|] eqn:Ha.
  - destruct (_ || _) eqn:Hsame; [apply claim_refused|]. bool_prop. destruct Hsame as [[H1 H2] H3].
    destruct (negb _) eqn:Hnow; [apply claim_refused|]. apply negb_false_iff, Before_true in Hnow.
    by apply claim_retried.
  - destruct (_ || _) eqn:Hfull.
    + apply orb_true_iff in Hfull. bool_prop. by eapply claim_exhausts.
    + bool_prop. destruct Hfull as [Hfull Hst]. cbn [fst snd].
      assert ((if After (Add (clNow claim) (clRetryWindow claim)) (bdExpiresAt (mbBinding s))
               then bdExpiresAt (mbBinding s) else Add (clNow claim) (clRetryWindow claim)) =
              granted_expiry claim (mbBinding s)) as ->.
      { unfold granted_expiry, Add. destruct (After _ _) eqn:Haf; [apply After_true in Haf|apply After_false in Haf]; lia. }
      by apply claim_granted.
Qed.

Lemma same_with_state st now d : same_binding d (with_state st now d).
Proof. by split. Qed.
Lemma same_granted claim d : same_binding d (granted_binding claim d).
Proof. by split. Qed.

Lemma granted_count claim d :
  0 ≤ bdResolutionCount d < 2 ^ 32 - 1 →
  bdResolutionCount (granted_binding claim d) = bdResolutionCount d + 1.
Proof. intros. unfold granted_binding. cbn [with_state with_count bdResolutionCount]. by rewrite u32_small by lia. Qed.

Lemma attempts_of_nonneg b run : 0 ≤ attempts_of b run.
Proof. unfold attempts_of. lia. Qed.

Lemma claim_inv {A} claim (validate : Binding → boundRecord → result CredError A) b r b' :
  claim_outcome claim validate b r b' → binding_inv b → binding_inv b'.
Proof.
  intros Ho Hinv. pose proof Hinv as [H1 _ _ _ _].
  destruct Ho as [|s Hs He Ht Hl|s rendered [Hs He _ _ _] Ha Hfull| |s rendered [Hs He _ _ _] Ha Hfree Hst]; try done.
  - pose proof (H1 _ _ Hs) as [? ? Hc Hle Hx ? ? ?].
    eapply put_binding_inv; eauto using same_with_state; try (by cbn [with_state bdResolutionCount bdMaxResolutions]).
    cbn [with_state bdState bdResolutionCount bdMaxResolutions]. split; [done|]. intros Heq.
    apply Hx in Heq. by rewrite Heq in Ht.
  - pose proof (H1 _ _ Hs) as [? ? Hc Hle Hx ? ? ?].
    eapply put_binding_inv; eauto using same_with_state; try (by cbn [with_state bdResolutionCount bdMaxResolutions]).
    cbn [with_state bdState bdResolutionCount bdMaxResolutions]. split; [|done]. intros _.
    destruct Hfull as [?|Hxx]; [lia|]. by apply Hx.
  - pose proof (H1 _ _ Hs) as [? [Hm0 Hm] Hc Hle Hx ? ? ?]. pose proof (attempts_of_nonneg b (clRunID claim)) as Hn.
    assert (bdResolutionCount (granted_binding claim (mbBinding s)) = bdResolutionCount (mbBinding s) + 1) as Hcount
      by (apply granted_count; lia).
    eapply put_binding_inv; try done; eauto using same_granted.
    + rewrite Hcount, Hc. unfold record_attempt. rewrite attempts_of_insert by done. cbn [maRunID].
      by rewrite String.eqb_refl.
    + rewrite Hcount. cbn [granted_binding with_state with_count bdMaxResolutions]. lia.
    + rewrite Hcount. unfold granted_binding. cbn [with_state with_count bdMaxResolutions bdState].
      rewrite u32_small by lia. case_match; bool_facts; split; try done; lia.
    + intros run' Hne. unfold record_attempt. rewrite attempts_of_insert by done. cbn [maRunID].
      rewrite (proj2 (String.eqb_neq _ _)) by done. lia.
    + intros aid a. unfold record_attempt. cbn [attempts set_attempts]. rewrite lookup_insert_Some.
      intros [[<- <-]|[_ Haid]]; [right|by left]. split_and!; [done|by symmetry|].
      cbn [maExpiresAt]. unfold granted_expiry. cbn [granted_binding with_state with_count bdExpiresAt]. lia.
Qed.

(** A canceled binding answers no claim. *)
Lemma claim_canceled {A} claim (validate : Binding → boundRecord → result CredError A) b r b' s :
  claim_outcome claim validate b r b' → bindings b !! clRunID claim = Some s →
  bdState (mbBinding s) = BindingCanceled → (∃ e, r = Err e) ∧ b' = b.
Proof.
  intros Ho Hs Hc.
  destruct Ho as [e|s0 Hs0 _ Ht _|s0 rendered [Hs0 _ [Hn _] _ _] _ _|s0 rendered attempt [Hs0 _ [Hn _] _ _] _ _ _ _ _
    |s0 rendered [Hs0 _ [Hn _] _ _] _ _ _]; [split; eauto|simplify_eq..]; try done.
  by rewrite Hc in Ht.
Qed.

(** *** Cancellation *)

Definition canceled_binding (reason : string) (now : time) (d : Binding) : Binding :=
  with_reason reason (with_state BindingCanceled now d).

Inductive cancel_outcome (run dispatch reason : string) (now : time) (b : memoryBackend) :
  result CredError Binding → memoryBackend → Prop :=
| cancel_refused e : cancel_outcome run dispatch reason now b (Err e) b
| cancel_replayed s :
    bindings b !! run = Some s → bdDispatchID (mbBinding s) = dispatch → terminal (bdState (mbBinding s)) = true →
    cancel_outcome run dispatch reason now b (Ok (mbBinding s)) b
| cancel_applied s :
    bindings b !! run = Some s → bdDispatchID (mbBinding s) = dispatch → terminal (bdState (mbBinding s)) = false →
    cancel_outcome run dispatch reason now b (Ok (canceled_binding reason now (mbBinding s)))
      (put_binding run s (canceled_binding reason now (mbBinding s)) b).

Lemma cancel_cases run dispatch reason now b :
  cancel_outcome run dispatch reason now b (MemoryBackend.CancelBinding run dispatch reason now b).1
    (MemoryBackend.CancelBinding run dispatch reason now b).2.
Proof.
  unfold MemoryBackend.CancelBinding. destruct (bindings b !! run) as [s|] eqn:Hs; [|apply cancel_refused].
  destruct (negb _) eqn:Hd; [apply cancel_refused|]. bool_facts.
  destruct (terminal _) eqn:Ht; [by eapply cancel_replayed|by eapply cancel_applied].
Qed.

Lemma cancel_inv run dispatch reason now b r b' :
  cancel_outcome run dispatch reason now b r b' → binding_inv b → binding_inv b'.
Proof.
  intros Ho Hinv. pose proof Hinv as [H1 _ _ _ _]. destruct Ho as [| |s Hs Hd Ht]; try done.
  pose proof (H1 _ _ Hs) as [? ? Hc Hle Hx ? ? ?].
  eapply put_binding_inv; eauto; try (by cbn).
  cbn [canceled_binding with_reason with_state bdState bdResolutionCount bdMaxResolutions].
  split; [done|]. intros Heq. apply Hx in Heq. by rewrite Heq in Ht.
Qed.
End Invariant.

(** ** The other operations as frames *)

Section Frames.
Context `{CR : Crypto} `{MO : MapOrder} `{SR : SchemaRegistry}.

Lemma grows_trans b1 b2 b3 : grows b1 b2 → grows b2 b3 → grows b1 b3.
Proof.
  intros [B1 A1 C1 K1] [B2 A2 C2 K2]. split; [congruence..| |auto].
  intros id c Hc. destruct (C1 _ _ Hc) as (c' & Hc' & O & T & S & V).
  destruct (C2 _ _ Hc') as (c'' & Hc'' & O' & T' & S' & V'). exists c''. split_and!; [done|congruence..|auto].
Qed.

(** Any change of the maps beside credentials, bindings and attempts. *)
Lemma grows_other b b' :
  bindings b' = bindings b → attempts b' = attempts b → credentials b' = credentials b → grows b b'.
Proof.
  intros Hb Ha Hc. split; [done|done| |by rewrite Hc]. rewrite Hc. intros id c H'. exists c. done.
Qed.

(** Writing one entry that keeps the owner, the type, the schema and the
    stored versions, and has a record for its current version. *)
Lemma grows_entry b id c c' :
  credentials b !! id = Some c → mID (stMetadata c') = mID (stMetadata c) →
  mOrganizationID (stMetadata c') = mOrganizationID (stMetadata c) →
  mCredentialType (stMetadata c') = mCredentialType (stMetadata c) →
  mSchemaVersion (stMetadata c') = mSchemaVersion (stMetadata c) →
  (∀ v, is_Some (stRecords c !! v) → is_Some (stRecords c' !! v)) →
  (is_Some (stRecords c !! mVersion (stMetadata c)) → is_Some (stRecords c' !! mVersion (stMetadata c'))) →
  grows b (set_credentials (<[id := c']> (credentials b)) b).
Proof.
  intros Hc Hid Ho Ht Hs Hv Hcur. split; cbn [bindings attempts credentials set_credentials]; [done|done| |].
  - intros id' x Hx. destruct (decide (id = id')) as [<-|Hne].
    + simplify_eq. exists c'. rewrite lookup_insert_eq. done.
    + exists x. rewrite lookup_insert_ne by done. done.
  - intros Hall. destruct (Hall _ _ Hc) as [Hi Hr]. apply map_Forall_insert_2; [|done]. split; [congruence|auto].
Qed.

Lemma grows_fresh b id c' :
  credentials b !! id = None → entry_current id c' →
  grows b (set_credentials (<[id := c']> (credentials b)) b).
Proof.
  intros Hn Hcur. split; cbn [bindings attempts credentials set_credentials]; [done|done| |].
  - intros id' x Hx. exists x. rewrite lookup_insert_ne by congruence. done.
  - intros Hall. by apply map_Forall_insert_2.
Qed.

Lemma Get_Ok org id b md r :
  Get org id b = Ok (md, r) → ∃ c, credentials b !! id = Some c ∧ stMetadata c = md ∧ mOrganizationID md = org.
Proof.
  unfold Get. destruct (credentials b !! id) as [c|]; [|done]. case_match eqn:Ho; [done|].
  intros [= <- _]. bool_facts. by exists c.
Qed.

Lemma Update_grows org id v next r op b c :
  credentials b !! id = Some c → same_identity (stMetadata c) next → grows b (Update org id v next r op b).2.
Proof.
  intros Hc (Hid & Ho & Hs & Ht & _). unfold Update. rewrite Hc.
  destruct (negb _); [apply grows_refl|]. destruct (negb _); [apply grows_refl|]. cbn [snd].
  eapply grows_entry; cbn [stMetadata stRecords]; eauto.
  - intros v' Hv'. destruct (decide (mVersion next = v')) as [->|]; [rewrite lookup_insert_eq; eauto|].
    by rewrite lookup_insert_ne.
  - intros _. rewrite lookup_insert_eq. eauto.
Qed.

Definition fresh_id (c : command) (b : memoryBackend) : Prop :=
  match c with
  | CmdCreate _ ids => ∀ id rest, newUUID ids = Some (id, rest) → credentials b !! id = None
  | _ => True
  end.

Lemma on_store_grows {A B} (r : result CredError A) (k : A → memoryBackend → result CredError B * memoryBackend) b :
  (∀ a, r = Ok a → grows b (k a b).2) → grows b (on_store r k b).2.
Proof. intros Hk. destruct r as [a|]; [by apply Hk|apply grows_refl]. Qed.

Lemma exec_grows m c entropy now b : fresh_id c b → grows b (manager_exec m c entropy now b).2.
Proof.
  intros Hfresh. destruct c as [request ids|org id|request|request|request]; cbn [manager_exec].
  - apply on_store_grows. intros [[[key digest] md] record] Hr.
    apply bind_Ok in Hr as ([] & _ & Hr). apply bind_Ok in Hr as (fields & _ & Hr).
    apply of_option_bind in Hr as ([id rest] & Hid & Hr). apply bind_Ok in Hr as (rec & _ & [= <- <- <- <-]).
    cbn [be_Create memory_backend]. unfold Create. destruct (idempotency b !! _) as [old|].
    { destruct (negb _); apply grows_refl. }
    cbn [snd mID mVersion]. eapply grows_trans; [apply grows_fresh; [by eapply Hfresh|]|by apply grows_other].
    split; [done|]. cbn [stRecords stMetadata mVersion]. rewrite lookup_singleton_eq. eauto.
  - apply grows_refl.
  - apply on_store_grows. intros [next record] Hr. apply guard_bind in Hr as [_ Hr].
    apply bind_Ok in Hr as ([current old] & (c & Hc & Hmd & _)%Get_Ok & Hr).
    apply guard_bind in Hr as [_ Hr]. apply guard_bind in Hr as [_ Hr].
    apply bind_Ok in Hr as (fields & _ & Hr). apply bind_Ok in Hr as (rec & _ & [= <- <-]).
    eapply Update_grows; [done|]. rewrite Hmd. done.
  - apply on_store_grows. intros x Hr. apply guard_bind in Hr as [_ Hr].
    apply bind_Ok in Hr as ([current old] & (c & Hc & Hmd & _)%Get_Ok & Hr).
    apply guard_bind in Hr as [_ Hr]. apply guard_bind in Hr as [_ Hr].
    destruct (String.eqb _ _); [injection Hr as <-; apply grows_refl|].
    apply bind_Ok in Hr as (inputs & _ & Hr). apply bind_Ok in Hr as (rec & _ & [= <-]).
    eapply Update_grows; [done|]. rewrite Hmd. done.
  - apply on_store_grows. intros x Hr. apply guard_bind in Hr as [_ Hr].
    apply bind_Ok in Hr as ([current old] & (c & Hc & Hmd & _)%Get_Ok & Hr).
    destruct (bool_decide _); [injection Hr as <-; apply grows_refl|].
    apply guard_bind in Hr as [_ Hr]. apply guard_bind in Hr as [_ Hr].
    apply bind_Ok in Hr as (inputs & _ & Hr). apply bind_Ok in Hr as (rec & _ & [= <-]).
    eapply Update_grows; [done|]. rewrite Hmd. done.
Qed.

Lemma set_credentials_id b : set_credentials (credentials b) b = b.
Proof. by destruct b. Qed.

Lemma replace_grows x b : grows b (set_credentials (replace_record x (credentials b)) b).
Proof.
  destruct x as [[id v] r]. cbn [replace_record]. destruct (credentials b !! id) as [c|] eqn:Hc.
  - rewrite (alter_Some _ _ _ _ Hc).
    assert (∀ v', is_Some (stRecords c !! v') → is_Some (<[v:=r]> (stRecords c) !! v')) as Hv.
    { intros v' Hv'. destruct (decide (v = v')) as [->|]; [rewrite lookup_insert_eq; eauto|].
      by rewrite lookup_insert_ne. }
    eapply grows_entry; cbn [stMetadata stRecords]; eauto.
  - rewrite alter_None by done.
    rewrite set_credentials_id. apply grows_refl.
Qed.

Lemma apply_grows l b : grows b (set_credentials (apply_replacements l (credentials b)) b).
Proof.
  revert b. induction l as [|x l IH]; intros b; cbn [apply_replacements foldl].
  - rewrite set_credentials_id. apply grows_refl.
  - eapply grows_trans; [apply (replace_grows x)|]. apply (IH (set_credentials (replace_record x (credentials b)) b)).
Qed.

Lemma StartRotation_grows r b : grows b (StartRotation r b).2.
Proof. unfold StartRotation. destruct (existsb _ _); [apply grows_refl|by apply grows_other]. Qed.

Lemma RotateBatch_grows id limit transform wall b : grows b (RotateBatch id limit transform wall b).2.
Proof.
  unfold RotateBatch. destruct (rotations b !! id) as [r|]; [|apply grows_refl].
  destruct (negb _); [apply grows_refl|]. destruct (collect _ _ _ _ _) as [l|]; [|apply grows_refl].
  eapply grows_trans; [apply (apply_grows l)|by apply grows_other].
Qed.

Lemma FinalizeRotation_grows id now b : grows b (FinalizeRotation id now b).2.
Proof.
  unfold FinalizeRotation. destruct (rotations b !! id) as [r|]; [|apply grows_refl].
  destruct (negb _); [apply grows_refl|]. destruct (existsb _ _); [apply grows_refl|by apply grows_other].
Qed.

Lemma RotateCredential_grows request transform now b : grows b (RotateCredential request transform now b).2.
Proof.
  unfold RotateCredential. destruct (credentials b !! _) as [c|]; [|apply grows_refl].
  destruct (negb _); [apply grows_refl|]. destruct (stRecords c !! _); [|apply grows_refl].
  destruct (transform _); [|apply grows_refl]. cbn [snd]. apply replace_grows.
Qed.

Lemma RegisterBackup_grows x now b : grows b (MemoryBackend.RegisterBackup x now b).2.
Proof.
  unfold MemoryBackend.RegisterBackup. destruct (backups b !! _); [destruct (negb _)|]; by apply grows_other.
Qed.

Lemma ExpireBackup_grows id now b : grows b (MemoryBackend.ExpireBackup id now b).2.
Proof. unfold MemoryBackend.ExpireBackup. destruct (backups b !! _); by apply grows_other. Qed.
End Frames.

(** ** The step relation *)

Section Steps.
Context `{CR : Crypto} `{UT : UnicodeTables} `{SR : SchemaRegistry}.

(** One call of a manager on the store, whatever its arguments, the clock, the
    entropy and the map iteration order.  Created identifiers are unused. *)
Inductive step : memoryBackend → memoryBackend → Prop :=
| step_credential (MO : MapOrder) m c entropy now b :
    fresh_id c b → step b (manager_exec m c entropy now b).2
| step_register (MO : MapOrder) m caller request now b :
    MaxResolutions (policy m) < 2 ^ 32 → step b (Manager.RegisterBinding m caller request now b).2
| step_cancel (MO : MapOrder) caller request now b :
    step b (Manager.CancelBinding caller request now b).2
| step_resolve (MO : MapOrder) m caller request now b :
    step b (Resolve m caller request now b).2
| step_start (MO : MapOrder) m ids now b :
    step b (StartMasterKeyRotation m ids now b).2
| step_resume (MO : MapOrder) m id size entropy wall b :
    step b (ResumeMasterKeyRotation m id size entropy wall b).2
| step_finalize (MO : MapOrder) id now b :
    step b (FinalizeMasterKeyRotation id now b).2
| step_rotate_credential (MO : MapOrder) m request entropy now b :
    step b (RotateCredentialKey m request entropy now b).2
| step_register_backup (MO : MapOrder) x now b :
    step b (Manager.RegisterBackup x now b).2
| step_expire_backup (MO : MapOrder) id now b :
    step b (Manager.ExpireBackup id now b).2.

Definition steps : memoryBackend → memoryBackend → Prop := rtc step.
Definition reachable (b : memoryBackend) : Prop := steps newMemoryBackend b.

Lemma empty_inv : binding_inv newMemoryBackend.
Proof. by split; try apply map_Forall_empty. Qed.

Lemma validBindingRequest_ok request now p digest :
  validBindingRequest request now p = true → bindingDigest request = Some digest → MaxResolutions p < 2 ^ 32 →
  registration_ok (mkRegistration request digest now).
Proof.
  unfold validBindingRequest. rewrite !andb_true_iff, After_true, After_true. intros Hv Hd Hp. bool_prop.
  split; cbn [brRequest brDigest]; try tauto; destruct_and! Hv; lia.
Qed.

(** Every call refines to one of the backend-level effects. *)
Lemma register_shape `{MO : MapOrder} m caller request now b :
  (∃ e, Manager.RegisterBinding m caller request now b = (Err e, b)) ∨
  ∃ digest, isScheduler caller = true ∧ validBindingRequest request now (policy m) = true ∧
    bindingDigest request = Some digest ∧
    Manager.RegisterBinding m caller request now b =
      MemoryBackend.RegisterBinding (mkRegistration request digest now) b.
Proof.
  unfold Manager.RegisterBinding. destruct (isScheduler caller); cbn [negb guard_err mbind result_bind]; [|by left; eexists].
  destruct (validBindingRequest _ _ _); cbn [negb guard_err mbind result_bind]; [|by left; eexists].
  destruct (bindingDigest request) as [d|]; cbn [of_option mbind result_bind]; [|by left; eexists].
  right. exists d. done.
Qed.

Lemma cancel_shape `{MO : MapOrder} caller request now b :
  (∃ e, Manager.CancelBinding caller request now b = (Err e, b)) ∨
  (isScheduler caller = true ∧ Manager.CancelBinding caller request now b =
     MemoryBackend.CancelBinding (cbRunID request) (cbDispatchID request) (cbReason request) now b).
Proof.
  unfold Manager.CancelBinding. destruct (isScheduler caller); cbn [negb guard_err mbind result_bind]; [|by left; eexists].
  destruct (_ || _); cbn [guard_err]; [by left; eexists|by right].
Qed.

(** The claim a resolution makes. *)
Definition claim_of (m : Manager) (caller : WorkloadIdentity) (request : ResolveRequest) (now : time) : resolutionClaim :=
  mkClaim (rsRunID request) (rsAttemptID request) (Subject caller) (attemptDigest request) now
    (AttemptRetryWindow (policy m)).

Definition answer_of (request : ResolveRequest) (r : result CredError (Binding * time * InjectorResult))
  : result CredError ResolvedCredential :=
  match r with
  | Err e => Err (hide_binding_error e)
  | Ok (_, expiry, rendered) =>
      Ok (mkResolved (rsRunID request) (rsAttemptID request) expiry (irEnvironment rendered) (irFiles rendered))
  end.

(** Past its own checks, which do not look at the store or the clock,
    [Resolve] is the claim. *)
Lemma resolve_claim `{MO : MapOrder} m caller request :
  (∃ e, ∀ now b, Resolve m caller request now b = (Err e, b)) ∨
  ∃ inj, Role caller = RoleExecutor ∧ injector m = Some inj ∧
    ∀ now b, Resolve m caller request now b =
      let '(r, b') := ClaimResolution InjectorResult (claim_of m caller request now) (render_bound m inj) b in
      (answer_of request r, b').
Proof.
  unfold Resolve. destruct (negb (bool_decide _) || _) eqn:Hr; [by left; eexists|].
  bool_prop. destruct Hr as [Hr _]. destruct (injector m) as [inj|]; [|by left; eexists].
  destruct (_ || _); [by left; eexists|]. right. exists inj. done.
Qed.

Lemma resolve_shape `{MO : MapOrder} m caller request now b :
  (∃ e, Resolve m caller request now b = (Err e, b)) ∨
  ∃ inj r b', Role caller = RoleExecutor ∧ injector m = Some inj ∧
    claim_outcome (claim_of m caller request now) (render_bound m inj) b r b' ∧
    Resolve m caller request now b = (answer_of request r, b').
Proof.
  destruct (resolve_claim m caller request) as [[e He]|(inj & Hr & Hi & He)]; [left; eauto|right].
  pose proof (claim_cases (claim_of m caller request now) (render_bound m inj) b) as Hc. rewrite He.
  destruct (ClaimResolution _ (claim_of m caller request now) _ b) as [r b']. exists inj, r, b'. done.
Qed.

Lemma step_inv b b' : step b b' → binding_inv b → binding_inv b'.
Proof.
  destruct 1 as [MO m c entropy now b Hf|MO m caller request now b Hp|MO caller request now b|MO m caller request now b
    |MO m ids now b|MO m id sz entropy wall b|MO id now b|MO m request entropy b|MO x b|MO id now b]; intros Hinv.
  - by eapply grows_inv; [apply exec_grows|].
  - destruct (register_shape m caller request now b) as [[e ->]|(d & _ & Hv & Hd & ->)]; [done|].
    apply RegisterBinding_inv; [|done]. by eapply validBindingRequest_ok.
  - destruct (cancel_shape caller request now b) as [[e ->]|[_ ->]]; [done|]. by eapply cancel_inv; [apply cancel_cases|].
  - destruct (resolve_shape m caller request now b) as [[e ->]|(inj & r & b' & _ & _ & Ho & ->)]; [done|].
    by eapply claim_inv.
  - eapply grows_inv; [|done]. apply on_store_grows. intros. apply StartRotation_grows.
  - eapply grows_inv; [|done]. apply on_store_grows. intros. apply RotateBatch_grows.
  - eapply grows_inv; [|done]. apply on_store_grows. intros. apply FinalizeRotation_grows.
  - eapply grows_inv; [|done]. apply on_store_grows. intros. apply RotateCredential_grows.
  - eapply grows_inv; [|done]. apply on_store_grows. intros. apply RegisterBackup_grows.
  - eapply grows_inv; [|done]. apply on_store_grows. intros. apply ExpireBackup_grows.
Qed.

Lemma steps_inv b b' : steps b b' → binding_inv b → binding_inv b'.
Proof. induction 1; eauto using step_inv. Qed.

Lemma reachable_binding_inv b : reachable b → binding_inv b.
Proof. intros Hr. eapply steps_inv; [done|apply empty_inv]. Qed.

(** *** How a binding moves *)

(** A binding leaves [pending] and [active] only; the terminal states are final. *)
Definition state_le (st st' : BindingState) : Prop :=
  st' = st ∨ (terminal st = false ∧ st' ≠ BindingPending).

Record moves (b b' : memoryBackend) (run : string) (s s' : memoryBinding) : Prop := {
  move_same : same_binding (mbBinding s) (mbBinding s');
  move_key : mbIdempotencyKey s' = mbIdempotencyKey s ∧ mbDigest s' = mbDigest s;
  move_count : bdResolutionCount (mbBinding s) ≤ bdResolutionCount (mbBinding s');
  move_state : state_le (bdState (mbBinding s)) (bdState (mbBinding s'));
  move_canceled : bdState (mbBinding s) = BindingCanceled → s' = s;
  move_final : terminal (bdState (mbBinding s)) = true → attempts_of b' run = attempts_of b run
}.

Lemma moves_refl b b' run s : attempts b' = attempts b → moves b b' run s s.
Proof.
  intros Ha. split; try done; [by left|]. intros _. unfold attempts_of. by rewrite Ha.
Qed.

Lemma moves_trans b1 b2 b3 run s1 s2 s3 :
  moves b1 b2 run s1 s2 → moves b2 b3 run s2 s3 → moves b1 b3 run s1 s3.
Proof.
  intros [E1 [K1 D1] C1 S1 X1 F1] [E2 [K2 D2] C2 S2 X2 F2]. split.
  - by eapply same_binding_trans.
  - split; congruence.
  - lia.
  - destruct S1 as [S1|[T1 P1]], S2 as [S2|[T2 P2]]; unfold state_le; rewrite ?S2, ?S1 in *; auto.
  - intros Hc. specialize (X1 Hc) as ->. auto.
  - intros Ht. rewrite <-F1 by done. apply F2. destruct S1 as [->|[T1 _]]; [done|congruence].
Qed.

Lemma put_moves b b' run s d x y :
  bindings b !! run = Some s → same_binding (mbBinding s) d → terminal (bdState (mbBinding s)) = false →
  bdState d ≠ BindingPending → bdResolutionCount (mbBinding s) ≤ bdResolutionCount d →
  bindings b' = bindings b → (∀ run', run' ≠ run → attempts_of b' run' = attempts_of b run') →
  bindings b !! x = Some y →
  ∃ y', bindings (put_binding run s d b') !! x = Some y' ∧ moves b (put_binding run s d b') x y y'.
Proof.
  intros Hs Hsame Ht Hp Hc Hb Ha Hy. unfold put_binding. cbn [bindings set_bindings]. rewrite Hb.
  destruct (decide (run = x)) as [<-|Hne].
  - simplify_eq. exists (with_binding d s). rewrite lookup_insert_eq. split; [done|].
    split; cbn [with_binding mbBinding mbIdempotencyKey mbDigest]; try done; [by right|by intros Hx; rewrite Hx in Ht|congruence].
  - exists y. rewrite lookup_insert_ne by done. split; [done|].
    split; try done; [by left|]. intros _.
    unfold attempts_of in *. cbn [attempts set_bindings]. by apply Ha.
Qed.

Lemma claim_moves {A} claim (validate : Binding → boundRecord → result CredError A) b r b' x y :
  binding_inv b → claim_outcome claim validate b r b' → bindings b !! x = Some y →
  ∃ y', bindings b' !! x = Some y' ∧ moves b b' x y y'.
Proof.
  intros Hinv Ho Hy. pose proof (inv_bindings _ Hinv) as H1.
  destruct Ho as [e|s Hs He Ht Hl|s rendered [Hs He [_ _] _ _] Ha Hfull|s rendered attempt Hu Hat E1 E2 E3 E4
    |s rendered [Hs He [Hca Hxp] _ _] Ha Hfree Hst].
  - exists y. split; [done|by apply moves_refl].
  - by eapply put_moves; eauto using same_with_state.
  - (* the counter is full: only the timestamp changes *)
    pose proof (H1 _ _ Hs) as [? ? Hc Hle Hx ? ? ?].
    assert (bdState (mbBinding s) = BindingExhausted) as Hexh.
    { destruct Hfull as [?|?]; [|done]. apply Hx. lia. }
    unfold put_binding. cbn [bindings set_bindings]. destruct (decide (clRunID claim = x)) as [<-|Hne].
    + simplify_eq. rewrite lookup_insert_eq. eexists. split; [done|].
      split; cbn [with_binding mbBinding]; try done; [left; by rewrite Hexh|by rewrite Hexh].
    + exists y. rewrite lookup_insert_ne by done. split; [done|by apply moves_refl].
  - exists y. split; [done|by apply moves_refl].
  - pose proof (H1 _ _ Hs) as [? [Hm0 Hm] Hc Hle Hx ? ? ?]. pose proof (attempts_of_nonneg b (clRunID claim)) as Hn.
    eapply (put_moves b (record_attempt claim (mbBinding s) b)); try done; eauto using same_granted.
    + by destruct (bdState (mbBinding s)).
    + unfold granted_binding. cbn [with_state bdState]. by case_match.
    + rewrite granted_count by lia. lia.
    + intros run' Hne. unfold record_attempt. rewrite attempts_of_insert by done. cbn [maRunID].
      rewrite (proj2 (String.eqb_neq _ _)) by done. lia.
Qed.

Lemma step_moves b b' x y :
  binding_inv b → step b b' → bindings b !! x = Some y → ∃ y', bindings b' !! x = Some y' ∧ moves b b' x y y'.
Proof.
  intros Hinv Hst Hy.
  assert (∀ c, grows b c → ∃ y', bindings c !! x = Some y' ∧ moves b c x y y') as Hgrow.
  { intros c [Hb Ha _ _]. exists y. rewrite Hb. split; [done|by apply moves_refl]. }
  destruct Hst as [MO m c entropy now b Hf|MO m caller request now b Hp|MO caller request now b|MO m caller request now b
    |MO m ids now b|MO m id sz entropy wall b|MO id now b|MO m request entropy b|MO z b|MO id now b].
  - apply Hgrow. by apply exec_grows.
  - destruct (register_shape m caller request now b) as [[e ->]|(d & _ & Hv & Hd & ->)]; [by apply Hgrow, grows_refl|].
    unfold MemoryBackend.RegisterBinding. destruct (find_binding _ _) as [r|] eqn:Hfind; [by apply Hgrow, grows_refl|].
    destruct (credentials b !! _) as [c|]; [|by apply Hgrow, grows_refl].
    destruct (_ || _); [by apply Hgrow, grows_refl|]. cbn [snd bindings set_bindings].
    apply find_binding_None in Hfind. rewrite Forall_forall in Hfind.
    destruct (Hfind (x, y)) as (_ & Hne & _); [by apply elem_of_iterate|].
    exists y. cbn [brRequest snd] in *. rewrite lookup_insert_ne; [split; [done|by apply moves_refl]|].
    intros Heq. apply Hne. rewrite Heq. apply (bok_run _ _ _ (inv_bindings _ Hinv _ _ Hy)).
  - destruct (cancel_shape caller request now b) as [[e ->]|[_ ->]]; [by apply Hgrow, grows_refl|].
    destruct (cancel_cases (cbRunID request) (cbDispatchID request) (cbReason request) now b) as [| |s Hs Hd Ht];
      [by apply Hgrow, grows_refl..|]. by eapply put_moves.
  - destruct (resolve_shape m caller request now b) as [[e ->]|(inj & r & b' & _ & _ & Ho & ->)];
      [by apply Hgrow, grows_refl|]. by eapply claim_moves.
  - apply Hgrow, on_store_grows. intros. apply StartRotation_grows.
  - apply Hgrow, on_store_grows. intros. apply RotateBatch_grows.
  - apply Hgrow, on_store_grows. intros. apply FinalizeRotation_grows.
  - apply Hgrow, on_store_grows. intros. apply RotateCredential_grows.
  - apply Hgrow, on_store_grows. intros. apply RegisterBackup_grows.
  - apply Hgrow, on_store_grows. intros. apply ExpireBackup_grows.
Qed.

Lemma steps_moves b b' x y :
  binding_inv b → steps b b' → bindings b !! x = Some y → ∃ y', bindings b' !! x = Some y' ∧ moves b b' x y y'.
Proof.
  intros Hinv Hst. revert y. induction Hst as [b|b1 b2 b3 Hs Hst IH]; intros y Hy.
  { exists y. split; [done|by apply moves_refl]. }
  destruct (step_moves b1 b2 x y Hinv Hs Hy) as (y1 & Hy1 & M1).
  destruct (IH (step_inv _ _ Hs Hinv) y1 Hy1) as (y2 & Hy2 & M2).
  exists y2. split; [done|by eapply moves_trans].
Qed.
End Steps.

(** ** What resolution guarantees *)

Section BindingTheorems.
Context `{CR : Crypto} `{UT : UnicodeTables} `{SR : SchemaRegistry}.

(** C1: the ledger invariant of every reachable store, whatever operations
    were interleaved and in whatever order the code iterated its maps: each
    binding is filed under its run and bound to a stored credential version
    of its own organization, its counter is the number of attempts recorded
    for the run and never exceeds its limit, it is exhausted exactly when the
    limit is reached, every recorded attempt belongs to a binding, its
    executor and a window that ends no later than the binding, and neither
    dispatch identifiers nor idempotency keys are shared. *)
Theorem binding_ledger b : reachable b → binding_inv b.
Proof. intros Hr. eapply steps_inv; [done|apply empty_inv]. Qed.

(** A resolution that answers was authorized. *)
Lemma resolve_grants (MO : MapOrder) m caller request now b rc b' :
  reachable b → Resolve m caller request now b = (Ok rc, b') →
  ∃ s s', bindings b !! rsRunID request = Some s ∧ bindings b' !! rsRunID request = Some s' ∧
    Role caller = RoleExecutor ∧ Subject caller = bdExecutorIdentity (mbBinding s) ∧
    bdState (mbBinding s) ≠ BindingCanceled ∧ bdState (mbBinding s) ≠ BindingExpired ∧
    bdNotBefore (mbBinding s) ≤ now < bdExpiresAt (mbBinding s) ∧
    attempts b' !! rsAttemptID request =
      Some (mkAttempt (rsRunID request) (Subject caller) (attemptDigest request) (rcExpiresAt rc)) ∧
    rcExpiresAt rc ≤ bdExpiresAt (mbBinding s) ∧
    ((b' = b ∧ now < rcExpiresAt rc) ∨
     (attempts b !! rsAttemptID request = None ∧
      bdResolutionCount (mbBinding s') = bdResolutionCount (mbBinding s) + 1 ∧
      bdResolutionCount (mbBinding s') ≤ bdMaxResolutions (mbBinding s))).
Proof.
  intros Hreach Hres. pose proof (reachable_binding_inv b Hreach) as Hinv. destruct (resolve_shape m caller request now b) as [[e He]|(inj & r & b1 & Hr & _ & Ho & He)];
    rewrite He in Hres; [done|]. destruct r as [[[d expiry] rendered]|]; [|done]. injection Hres as <- <-.
  inversion Ho as [| | |s ? attempt [Hs Hex [Hca Hxp] Hw _] Ha E1 E2 E3 E4 Q1 Q2|s ? [Hs Hex [Hca Hxp] Hw _] Ha Hfree Hst Q1 Q2];
    subst; cbn [claim_of clRunID clAttemptID clExecutorIdentity clDigest clNow rcExpiresAt] in *.
  - exists s, s. destruct (inv_attempts _ Hinv _ _ Ha) as [(s0 & Hs0 & Hexe & Hexp)]. rewrite E1 in Hs0. simplify_eq.
    split_and!; try done; try tauto. rewrite Ha, <-E1, <-E2, <-E3. by destruct attempt.
  - pose proof (inv_bindings _ Hinv _ _ Hs) as [? [Hm0 Hm] Hc Hle ? ? ? ?].
    pose proof (attempts_of_nonneg b (rsRunID request)) as Hn.
    pose proof (granted_count (claim_of m caller request now) (mbBinding s) ltac:(lia)) as Hgc.
    exists s, (with_binding (granted_binding (claim_of m caller request now) (mbBinding s)) s).
    unfold put_binding, record_attempt. cbn [bindings attempts set_bindings set_attempts].
    rewrite !lookup_insert_eq. change (mbBinding (with_binding ?d s)) with d.
    split_and!; try done; try tauto; [unfold granted_expiry; cbn; lia|].
    right. split_and!; [done|done|lia].
Qed.

(** C17: the life of a binding: along every run it persists with its
    identity, limit, window and bound version unchanged, its counter never
    decreases, it never returns to pending, and once it is canceled, expired
    or exhausted it stays so and records no further attempt. *)
Theorem binding_lifecycle b b' run s :
  reachable b → steps b b' → bindings b !! run = Some s →
  ∃ s', bindings b' !! run = Some s' ∧ same_binding (mbBinding s) (mbBinding s') ∧
    bdResolutionCount (mbBinding s) ≤ bdResolutionCount (mbBinding s') ∧
    (bdState (mbBinding s') = BindingPending → bdState (mbBinding s) = BindingPending) ∧
    (terminal (bdState (mbBinding s)) = true →
       bdState (mbBinding s') = bdState (mbBinding s) ∧
       bdResolutionCount (mbBinding s') = bdResolutionCount (mbBinding s)).
Proof.
  intros Hr Hst Hs. pose proof (reachable_binding_inv b Hr) as Hinv.
  destruct (steps_moves b b' run s Hinv Hst Hs) as (s' & Hs' & [Hsame _ Hc Hle _ Hfin]).
  exists s'. split_and!; try done.
  - intros Hp. destruct Hle as [Heq|[_ ?]]; [by rewrite <-Heq|done].
  - intros Ht. split; [destruct Hle as [->|[? _]]; [done|congruence]|].
    rewrite (bok_count _ _ _ (inv_bindings _ Hinv _ _ Hs)).
    rewrite (bok_count _ _ _ (inv_bindings _ (steps_inv _ _ Hst Hinv) _ _ Hs')). by apply Hfin.
Qed.

(** C14: cancellation revokes: after the scheduler's cancellation has returned
    a canceled binding, in every later store every resolution of its run, by
    any caller, new or repeated, is refused without a write. *)
Theorem cancel_revokes (MO : MapOrder) caller request now b d b1 b2 m caller' request' now' :
  reachable b → Manager.CancelBinding caller request now b = (Ok d, b1) → bdState d = BindingCanceled →
  steps b1 b2 → rsRunID request' = cbRunID request →
  ∃ e, Resolve m caller' request' now' b2 = (Err e, b2).
Proof.
  intros Hr Hcan Hd Hst Hrun. pose proof (reachable_binding_inv b Hr) as Hinv.
  assert (step b b1) as Hstep.
  { replace b1 with (Manager.CancelBinding caller request now b).2 by (by rewrite Hcan). apply step_cancel. }
  assert (∃ s, bindings b1 !! cbRunID request = Some s ∧ bdState (mbBinding s) = BindingCanceled) as (s & Hs & Hss).
  { destruct (cancel_shape caller request now b) as [[e He]|[_ He]]; rewrite He in Hcan; [done|].
    pose proof (cancel_cases (cbRunID request) (cbDispatchID request) (cbReason request) now b) as Hc.
    rewrite Hcan in Hc. cbn [fst snd] in Hc. inversion Hc as [|s Hs ? ? Q1 Q2|s Hs ? ? Q1 Q2]; subst.
    - by exists s.
    - unfold put_binding. cbn [bindings set_bindings]. rewrite lookup_insert_eq. by eexists. }
  destruct (steps_moves b1 b2 _ s (step_inv _ _ Hstep Hinv) Hst Hs) as (s' & Hs' & Hmv).
  rewrite (move_canceled _ _ _ _ _ Hmv Hss) in Hs'. clear Hmv.
  destruct (resolve_shape m caller' request' now' b2) as [[e ->]|(inj & r & b3 & _ & _ & Ho & ->)]; [by exists e|].
  destruct (claim_canceled _ _ _ _ _ s Ho) as [[e ->] ->]; [by cbn [claim_of clRunID]; rewrite Hrun|done|].
  by eexists.
Qed.

(** C33: a caller that is not the bound executor learns nothing: whether its
    run does not exist or is bound to someone else, in whatever state, the
    answer is the same and nothing is written. *)
Theorem resolve_denied_uniformly (MO : MapOrder) m inj caller request now b :
  Role caller = RoleExecutor → validExecutorIdentity (Subject caller) = true → injector m = Some inj →
  validUUID (rsRunID request) = true → validUUID (rsAttemptID request) = true → IsZero (rsRequestedAt request) = false →
  (∀ s, bindings b !! rsRunID request = Some s → bdExecutorIdentity (mbBinding s) ≠ Subject caller) →
  Resolve m caller request now b = (Err ErrBindingNotActive, b).
Proof.
  intros Hr Hv Hi Hrun Hatt Hz Hno. unfold Resolve.
  rewrite bool_decide_eq_true_2, Hv, Hi, Hrun, Hatt, Hz by done. cbn [negb orb be_ClaimResolution memory_backend].
  unfold ClaimResolution. cbn [clRunID clExecutorIdentity].
  destruct (bindings b !! rsRunID request) as [s|] eqn:Hs; [|done].
  rewrite (proj2 (String.eqb_neq _ _)) by (by apply Hno). done.
Qed.

Lemma claim_retry_compute {A} claim (validate : Binding → boundRecord → result CredError A) b s rendered attempt :
  usable claim validate b s rendered → attempts b !! clAttemptID claim = Some attempt →
  maRunID attempt = clRunID claim → maExecutorIdentity attempt = clExecutorIdentity claim →
  maDigest attempt = clDigest claim → clNow claim < maExpiresAt attempt →
  ClaimResolution A claim validate b = (Ok (mbBinding s, maExpiresAt attempt, rendered), b).
Proof.
  intros [Hs He [Hca Hxp] [Hw1 Hw2] (version & Hv & Hval)] Ha H1 H2 H3 H4. unfold ClaimResolution.
  rewrite Hs, He, String.eqb_refl. cbn [negb].
  rewrite (bool_decide_eq_false_2 _ Hca), (bool_decide_eq_false_2 _ Hxp).
  rewrite (proj2 (Before_true _ _) Hw2), (proj2 (Before_false _ _) Hw1). cbn [negb].
  rewrite Hv, Hval, Ha, H1, H2, H3, !String.eqb_refl. cbn [negb orb].
  by rewrite (proj2 (Before_true _ _) H4).
Qed.

(** What [Resolve] decrypts and renders depends on the bound version only. *)
Lemma boundVersion_same b b' d d' :
  same_binding d d' → credentials b' = credentials b → boundVersion d' b' = boundVersion d b.
Proof. intros [_ _ _ [Hi Hv] _ _ _] Hc. unfold boundVersion. by rewrite Hc, Hi, Hv. Qed.
Lemma render_bound_same `{MapOrder} m inj d d' version :
  same_binding d d' → render_bound m inj d' version = render_bound m inj d version.
Proof. intros [_ _ Ho [Hi Hv] _ _ _]. unfold render_bound. by rewrite Ho, Hi, Hv. Qed.

(** A lost answer can be asked for again at no cost: repeating the request
    before the attempt expires returns the same credential, expiry included,
    and writes nothing. *)
Lemma retry_is_free (MO : MapOrder) m caller request now now' b rc b' :
  reachable b → Resolve m caller request now b = (Ok rc, b') →
  now ≤ now' → now' < rcExpiresAt rc →
  Resolve m caller request now' b' = (Ok rc, b').
Proof.
  intros Hreach Hres Hle Hlt. pose proof (reachable_binding_inv b Hreach) as Hinv.
  destruct (resolve_claim m caller request) as [[e He]|(inj & Hr & Hi & He)]; [by rewrite He in Hres|].
  rewrite He in Hres |- *.
  pose proof (claim_cases (claim_of m caller request now) (render_bound m inj) b) as Ho.
  destruct (ClaimResolution _ _ _ b) as [[[[d expiry] rendered]|] b1] eqn:Hcl; [|done].
  cbn [fst snd] in Ho. injection Hres as <- <-. cbn [rcExpiresAt] in Hlt.
  inversion Ho as [| | |s ? attempt [Hs Hex Hst Hw Hv] Ha E1 E2 E3 E4 Q1 Q2|s ? [Hs Hex Hst Hw Hv] Ha Hfree Hxh Q1 Q2];
    subst; cbn [claim_of clRunID clAttemptID clExecutorIdentity clDigest clNow] in *.
  - destruct (inv_attempts _ Hinv _ _ Ha) as [(s0 & Hs0 & _ & Hexp)]. rewrite E1 in Hs0. simplify_eq.
    rewrite (claim_retry_compute _ _ _ s rendered attempt); try done.
    split; cbn [claim_of clRunID clExecutorIdentity clNow]; try done. lia.
  - set (d := granted_binding _ _). set (b1 := put_binding _ _ _ _).
    assert (same_binding (mbBinding s) d) as Hsame by apply same_granted.
    rewrite (claim_retry_compute _ _ b1 (with_binding d s) rendered
      (mkAttempt (rsRunID request) (Subject caller) (attemptDigest request)
         (granted_expiry (claim_of m caller request now) (mbBinding s)))); try done.
    + split; cbn [claim_of clRunID clExecutorIdentity clNow]; change (mbBinding (with_binding d s)) with d.
      * unfold b1, put_binding. cbn [bindings set_bindings]. by rewrite lookup_insert_eq.
      * by rewrite (same_executor _ _ Hsame).
      * subst d. unfold granted_binding. cbn [with_state bdState]. by case_match.
      * destruct (same_window _ _ Hsame) as [-> ->]. unfold granted_expiry in Hlt.
        cbn [claim_of clNow clRetryWindow] in Hlt. lia.
      * destruct Hv as (version & Hv1 & Hv2). exists version.
        rewrite (boundVersion_same b b1 (mbBinding s) d Hsame) by done.
        by rewrite (render_bound_same m inj (mbBinding s) d).
    + unfold b1, put_binding, record_attempt. cbn [attempts set_bindings set_attempts claim_of clAttemptID].
      by rewrite lookup_insert_eq.
Qed.

(** C34: resolution is pinned to the bound version: the answer is exactly what
    the injector renders from the inputs stored for the version the binding
    was registered with, and it passed the output check, whatever later
    versions, renames or a retirement of the credential did. *)
Theorem resolve_pinned_version (MO : MapOrder) m caller request now b rc b' s inputs :
  reachable b → Resolve m caller request now b = (Ok rc, b') →
  bindings b !! rsRunID request = Some s →
  reads m b (bdCredentialID (mbBinding s)) (bdCredentialVersion (mbBinding s)) inputs →
  ∃ inj c res, injector m = Some inj ∧ credentials b !! bdCredentialID (mbBinding s) = Some c ∧
    Render inj (mCredentialType (stMetadata c)) (mSchemaVersion (stMetadata c)) inputs = Some res ∧
    rcEnvironment rc = irEnvironment res ∧ rcFiles rc = irFiles res ∧
    validInjectorResult res (MaxResponseBytes (policy m)) = true.
Proof.
  intros Hreach Hres Hs (c & r0 & Hc & Hr0 & Hse). pose proof (reachable_binding_inv b Hreach) as Hinv.
  destruct (resolve_shape m caller request now b) as [[e He]|(inj & r & b1 & _ & Hi & Ho & He)];
    rewrite He in Hres; [done|]. destruct r as [[[d expiry] rendered]|]; [|done]. injection Hres as <- <-.
  assert (∃ version, boundVersion (mbBinding s) b = Ok version ∧ render_bound m inj (mbBinding s) version = Ok rendered)
    as (version & Hbv & Hrb).
  { inversion Ho as [| | |s0 ? ? [Hs0 _ _ _ Hv]|s0 ? [Hs0 _ _ _ Hv]]; subst;
      cbn [claim_of clRunID] in Hs0; rewrite Hs in Hs0; by injection Hs0 as <-. }
  cbn [view memory_laws] in Hc. unfold boundVersion in Hbv. rewrite Hc in Hbv. cbn [of_option mbind result_bind] in Hbv.
  rewrite Hr0 in Hbv. injection Hbv as <-.
  destruct (bok_version _ _ _ (inv_bindings _ Hinv _ _ Hs)) as (c' & Hc' & _ & Horg).
  rewrite Hc in Hc'. injection Hc' as <-. destruct (inv_current _ Hinv _ _ Hc) as [Hid _].
  unfold render_bound in Hrb. cbn [boRecord boSchemaVersion boCredentialType] in Hrb.
  rewrite <-Hid, <-Horg in Hrb at 1. destruct Hse as [Hd Hv _]. unfold version_context in Hd. rewrite Hd in Hrb.
  cbn [map_err mbind result_bind] in Hrb. rewrite unmarshal_json_map in Hrb by done. cbn [of_option mbind result_bind] in Hrb.
  apply of_option_bind in Hrb as (res & Hres & Hrb). apply guard_bind in Hrb as [Hval [= ->]]. bool_facts.
  exists inj, c, rendered. done.
Qed.

(** *** Registration *)

Definition key_match (g : bindingRegistration) (s : memoryBinding) : Prop :=
  bdOrganizationID (mbBinding s) = rbOrganizationID (brRequest g) ∧
  mbIdempotencyKey s = rbIdempotencyKey (brRequest g).
Definition id_match (g : bindingRegistration) (s : memoryBinding) : Prop :=
  bdRunID (mbBinding s) = rbRunID (brRequest g) ∨ bdDispatchID (mbBinding s) = rbDispatchID (brRequest g).

(** Which binding decides, and how. *)
Inductive found (g : bindingRegistration) (P : memoryBinding → Prop) : option (result CredError Binding) → Prop :=
| found_none : (∀ s, P s → ¬ key_match g s ∧ ¬ id_match g s) → found g P None
| found_replay s : P s → key_match g s → mbDigest s = brDigest g → found g P (Some (Ok (mbBinding s)))
| found_other s : P s → key_match g s → mbDigest s ≠ brDigest g → found g P (Some (Err ErrBindingConflict))
| found_taken s : P s → ¬ key_match g s → id_match g s → found g P (Some (Err ErrBindingConflict)).

Lemma find_binding_found g l :
  found g (λ s, ∃ k, (k, s) ∈ l) (find_binding g l).
Proof.
  induction l as [|[k x] l IH]; [apply found_none; intros s [? Hin]; by apply elem_of_nil in Hin|].
  assert (∃ k', (k', x) ∈ (k, x) :: l) as Hx by (exists k; apply list_elem_of_here).
  cbn [find_binding]. destruct (_ && _) eqn:Hk.
  { bool_prop. destruct (String.eqb_spec (mbDigest x) (brDigest g)); cbn [negb];
      [by eapply found_replay|by eapply found_other]. }
  assert (¬ key_match g x) as Hnk.
  { unfold key_match. apply andb_false_iff in Hk. intros [H1 H2].
    destruct Hk as [Hk|Hk]; apply String.eqb_neq in Hk; congruence. }
  destruct (_ || _) eqn:Hi.
  { apply orb_true_iff in Hi. bool_prop. by eapply found_taken. }
  bool_prop. destruct IH as [Hn|s [k' Hin] ? ?|s [k' Hin] ? ?|s [k' Hin] ? ?].
  - apply found_none. intros s [k' Hin]. apply elem_of_cons in Hin as [[= -> ->]|Hin]; [|exact (Hn s (ex_intro _ k' Hin))].
    split; [done|]. unfold id_match. tauto.
  - apply (found_replay _ _ s); [exists k'; by apply list_elem_of_further|done..].
  - apply (found_other _ _ s); [exists k'; by apply list_elem_of_further|done..].
  - apply (found_taken _ _ s); [exists k'; by apply list_elem_of_further|done..].
Qed.

Lemma find_binding_iterate `{MapOrder} g b :
  found g (λ s, ∃ k, bindings b !! k = Some s) (find_binding g (iterate (bindings b))).
Proof.
  destruct (find_binding_found g (iterate (bindings b))) as [Hn|s [k Hin]|s [k Hin]|s [k Hin]].
  - apply found_none. intros s [k Hk]. apply (Hn s). exists k. by apply elem_of_iterate.
  - apply (found_replay _ _ s); [exists k; by apply elem_of_iterate|done..].
  - apply (found_other _ _ s); [exists k; by apply elem_of_iterate|done..].
  - apply (found_taken _ _ s); [exists k; by apply elem_of_iterate|done..].
Qed.

(** A stored digest names the identifiers of the request it came from. *)
Definition digest_names (g : bindingRegistration) (b : memoryBackend) : Prop :=
  ∀ k s, bindings b !! k = Some s → mbDigest s = brDigest g →
    bdRunID (mbBinding s) = rbRunID (brRequest g) ∧ bdDispatchID (mbBinding s) = rbDispatchID (brRequest g).

(** Where it does not, a request for the stored binding and this request have
    different encodings with one digest. *)
Lemma digest_names_or g b :
  binding_inv b → registration_ok g →
  digest_names g b ∨ ∃ k s q e e', bindings b !! k = Some s ∧ rbRunID q = bdRunID (mbBinding s) ∧ rbDispatchID q = bdDispatchID (mbBinding s) ∧
    bindingEncoding q = Some e ∧ bindingEncoding (brRequest g) = Some e' ∧ sha256 e = mbDigest s ∧ sha256 e' = mbDigest s ∧ e ≠ e'.
Proof.
  intros Hinv [Hd Hr Hdi _ _].
  destruct (decide (map_Forall (λ _ s, mbDigest s = brDigest g →
    bdRunID (mbBinding s) = rbRunID (brRequest g) ∧ bdDispatchID (mbBinding s) = rbDispatchID (brRequest g)) (bindings b))) as [Hall|Hno].
  - left. intros k s Hs. by apply (Hall k s).
  - right. apply map_not_Forall in Hno as (k & s & Hs & Hne); [|apply _].
    destruct (decide (mbDigest s = brDigest g)) as [He|He]; [|by destruct Hne].
    destruct (bok_digest _ _ _ (inv_bindings _ Hinv _ _ Hs)) as (q & Hq & Hq1 & Hq2 & Hqr & Hqd).
    apply bind_Some in Hq as (e & Hqe & [= Hq]). apply bind_Some in Hd as (e' & Hge & [= Hd]).
    exists k, s, q, e, e'. split_and!; [done..|congruence|]. intros <-. apply Hne. intros _.
    rewrite <-Hq1, <-Hq2. eapply bindingEncoding_ids; [..|exact Hqe|exact Hge]; congruence.
Qed.

Lemma id_match_unique g b k s k' s' :
  binding_inv b → bindings b !! k = Some s → bindings b !! k' = Some s' →
  bdRunID (mbBinding s) = rbRunID (brRequest g) → bdDispatchID (mbBinding s) = rbDispatchID (brRequest g) →
  id_match g s' → s' = s.
Proof.
  intros Hinv Hs Hs' Hr Hd Hm. assert (k' = k) as ->; [|congruence].
  destruct Hm as [Hm|Hm].
  - rewrite <-(bok_run _ _ _ (inv_bindings _ Hinv _ _ Hs)), <-(bok_run _ _ _ (inv_bindings _ Hinv _ _ Hs')). congruence.
  - eapply inv_dispatch; eauto. congruence.
Qed.

Lemma found_unique g b x y :
  binding_inv b → digest_names g b →
  found g (λ s, ∃ k, bindings b !! k = Some s) x → found g (λ s, ∃ k, bindings b !! k = Some s) y → x = y.
Proof.
  intros Hinv Hg Hx Hy.
  assert (∀ k s k' s', bindings b !! k = Some s → bindings b !! k' = Some s' → key_match g s → key_match g s' → s = s') as Huniq.
  { intros k s k' s' Hs Hs' [O K] [O' K']. assert (k = k') as ->; [|congruence].
    eapply inv_key; eauto; congruence. }
  assert (∀ s, (∃ k, bindings b !! k = Some s) → key_match g s → mbDigest s = brDigest g →
    ∀ z, found g (λ s, ∃ k, bindings b !! k = Some s) z → z = Some (Ok (mbBinding s))) as Hreplay.
  { intros s [k Hs] Hk Hd z Hz. destruct (Hg k s Hs Hd) as [Hr Hdi].
    destruct Hz as [Hn|s' [k' Hs'] Hk' _|s' [k' Hs'] Hk' Hd'|s' [k' Hs'] Hk' Hm'].
    - destruct (Hn s) as [? _]; [eauto|done].
    - by rewrite (Huniq k' s' k s).
    - rewrite (Huniq k' s' k s) in Hd' by done. done.
    - rewrite (id_match_unique g b k s k' s') in Hk' by done. done. }
  destruct Hx as [Hn|s Hs Hk Hd|s Hs Hk Hd|s Hs Hk Hm], Hy as [Hn'|s' Hs' Hk' Hd'|s' Hs' Hk' Hd'|s' Hs' Hk' Hm'];
    try done; try (destruct (Hn _ Hs'); tauto); try (destruct (Hn' _ Hs); tauto).
  - by rewrite (Hreplay s Hs Hk Hd _ (found_replay _ _ s' Hs' Hk' Hd')).
  - by rewrite (Hreplay s Hs Hk Hd _ (found_other _ _ s' Hs' Hk' Hd')).
  - by rewrite (Hreplay s Hs Hk Hd _ (found_taken _ _ s' Hs' Hk' Hm')).
  - by rewrite (Hreplay s' Hs' Hk' Hd' _ (found_other _ _ s Hs Hk Hd)).
  - by rewrite (Hreplay s' Hs' Hk' Hd' _ (found_taken _ _ s Hs Hk Hm)).
Qed.

(** The request has the digest of no binding of another run or dispatch. *)
Definition unambiguous (request : RegisterBindingRequest) (b : memoryBackend) : Prop :=
  ∀ k s, bindings b !! k = Some s → bindingDigest request = Some (mbDigest s) →
    bdRunID (mbBinding s) = rbRunID request ∧ bdDispatchID (mbBinding s) = rbDispatchID request.
Lemma unambiguous_names request d now b :
  bindingDigest request = Some d → unambiguous request b → digest_names (mkRegistration request d now) b.
Proof. intros Hd Hun k s Hs He. apply (Hun k s Hs). by rewrite He. Qed.

(** Registration does not depend on map iteration order: in every
    reachable store the loop over the registered bindings, which stops at the
    first binding that decides, gives the same answer and the same store in
    any order, unless the request has the digest of another run's binding. *)
Lemma register_order_irrelevant (MO MO' : MapOrder) m caller request now b :
  reachable b → unambiguous request b →
  Manager.RegisterBinding (BE:=memory_backend (MO:=MO)) m caller request now b = Manager.RegisterBinding (BE:=memory_backend (MO:=MO')) m caller request now b.
Proof.
  intros Hr Hun. pose proof (reachable_binding_inv b Hr) as Hinv. unfold Manager.RegisterBinding.
  destruct (isScheduler caller); cbn [negb guard_err mbind result_bind]; [|done].
  destruct (validBindingRequest request now (policy m)) eqn:Hv; cbn [negb guard_err mbind result_bind]; [|done].
  destruct (bindingDigest request) as [d|] eqn:Hd; cbn [of_option mbind result_bind on_store]; [|done].
  cbn [be_RegisterBinding memory_backend]. unfold MemoryBackend.RegisterBinding.
  by rewrite (found_unique _ b _ _ Hinv (unambiguous_names _ _ _ _ Hd Hun) (find_binding_iterate (H:=MO) _ b) (find_binding_iterate (H:=MO') _ b)).
Qed.

(** Registration is idempotent: after a registration has answered and
    whatever followed, the same request returns the binding as it stands,
    with the same identity, window, limit and version, and writes nothing. *)
Lemma register_idempotent (MO MO' : MapOrder) m caller request now b d b1 b2 m' caller' now' :
  reachable b → MaxResolutions (policy m) < 2 ^ 32 → unambiguous request b → unambiguous request b2 →
  Manager.RegisterBinding (BE:=memory_backend (MO:=MO)) m caller request now b = (Ok d, b1) → steps b1 b2 →
  isScheduler caller' = true → validBindingRequest request now' (policy m') = true →
  ∃ s, bindings b2 !! rbRunID request = Some s ∧ same_binding d (mbBinding s) ∧
    Manager.RegisterBinding (BE:=memory_backend (MO:=MO')) m' caller' request now' b2 = (Ok (mbBinding s), b2).
Proof.
  intros Hr Hp Hun Hun2 Hreg Hst Hc' Hv'. pose proof (reachable_binding_inv b Hr) as Hinv.
  assert (step b b1) as Hstep.
  { replace b1 with (Manager.RegisterBinding (BE:=memory_backend (MO:=MO)) m caller request now b).2 by (by rewrite Hreg). by apply (step_register MO). }
  destruct (register_shape (MO:=MO) m caller request now b) as [[e He]|(dig & _ & Hv & Hd & He)]; rewrite He in Hreg; [done|].
  pose proof (validBindingRequest_ok request now (policy m) dig Hv Hd Hp) as Hg.
  assert (∃ s, bindings b1 !! rbRunID request = Some s ∧ mbBinding s = d ∧ mbDigest s = dig ∧
    bdOrganizationID d = rbOrganizationID request ∧ mbIdempotencyKey s = rbIdempotencyKey request)
    as (s & Hs & <- & Hdig & Horg & Hkey); [|clear He].
  { unfold MemoryBackend.RegisterBinding in Hreg.
    destruct (find_binding_iterate (H:=MO) (mkRegistration request dig now) b) as [_|s [k Hs] [Ho Hk] Hdd|s|s]; try done.
    - destruct (credentials b !! _) as [c|]; [|done]. destruct (_ || _); [done|]. injection Hreg as <- <-.
      eexists. cbn [bindings set_bindings brRequest]. rewrite lookup_insert_eq. done.
    - injection Hreg as <- <-. destruct (unambiguous_names _ _ now _ Hd Hun k s Hs Hdd) as [Hrun _].
      cbn [brRequest brDigest] in *. exists s. split_and!; try done.
      rewrite <-Hrun, (bok_run _ _ _ (inv_bindings _ Hinv _ _ Hs)). done. }
  pose proof (step_inv _ _ Hstep Hinv) as Hinv1. pose proof (steps_inv _ _ Hst Hinv1) as Hinv2.
  destruct (steps_moves b1 b2 _ s Hinv1 Hst Hs) as (s' & Hs' & [Hsame [Hk Hdg] _ _ _ _]).
  assert (key_match (mkRegistration request dig now') s') as Hmatch.
  { split; cbn [brRequest]; [by rewrite (same_org _ _ Hsame)|congruence]. }
  assert (find_binding (mkRegistration request dig now') (iterate (bindings b2)) = Some (Ok (mbBinding s'))) as Hf.
  { apply (found_unique (mkRegistration request dig now') b2); [done|by apply unambiguous_names|apply (find_binding_iterate (H:=MO'))|]. apply found_replay; [by eexists|done|]. cbn [brDigest]. congruence. }
  exists s'. split; [done|]. split; [done|].
  unfold Manager.RegisterBinding. rewrite Hc', Hv', Hd. cbn [negb guard_err of_option mbind result_bind on_store].
  cbn [be_RegisterBinding memory_backend]. unfold MemoryBackend.RegisterBinding. by rewrite Hf.
Qed.
End BindingTheorems.

(** ** A binding on the development backend *)

#[local] Instance ascii_tables : UnicodeTables := {| lower_table _ := false; digit_table _ := false |}.

Module BindingExample.
Import VaultExample.
#[local] Existing Instances toy_crypto toy_crypto_laws canonical_order ascii_tables.
Definition start : time := 1000000 * Hour.
Definition scheduler : WorkloadIdentity := mkIdentity RoleScheduler "praetor-scheduler".
Definition executor : WorkloadIdentity := mkIdentity RoleExecutor "praetor-executor:worker-1".
Definition run_id : string := "00000000-0000-4000-8000-000000000001".
Definition dispatch_id : string := "00000000-0000-4000-8000-000000000002".
Definition attempt_id : string := "00000000-0000-4000-8000-000000000003".
Definition registration : RegisterBindingRequest :=
  mkRegister run_id dispatch_id "org-a" id "praetor-executor:worker-1" start 0 (start + Hour) 60 2 "dispatch-1".
Definition request : ResolveRequest := mkResolve run_id attempt_id start.
Definition cancellation : CancelBindingRequest := mkCancel run_id dispatch_id "operator-stop".

Definition bound : memoryBackend := (Manager.RegisterBinding manager scheduler registration start after_create).2.
Definition resolved : memoryBackend := (Resolve manager executor request (start + Second) bound).2.
Definition canceled : memoryBackend := (Manager.CancelBinding scheduler cancellation (start + Minute) bound).2.

Lemma reach_created : reachable after_create.
Proof.
  eapply rtc_l; [|apply rtc_refl].
  apply (step_credential canonical_order manager create (stream 72 1) 1000 newMemoryBackend).
  intros uid rest _. apply lookup_empty.
Qed.
Lemma reach_bound : reachable bound.
Proof.
  eapply rtc_r; [exact reach_created|]. apply (step_register canonical_order manager scheduler registration start).
  reflexivity.
Qed.
Definition the_binding : Binding :=
  mkBinding run_id dispatch_id "org-a" id 1 "praetor-executor:worker-1" BindingActive start (start + Hour) 2 0 start start "".
Definition the_answer : ResolvedCredential :=
  mkResolved run_id attempt_id (start + Second + 5 * Minute) {[ "ANSIBLE_REMOTE_USER" := "root" ]}
    [mkFileOut "ANSIBLE_PASSWORD_FILE" "0600" "pw"].
Lemma register_answer : (Manager.RegisterBinding manager scheduler registration start after_create).1 = Ok the_binding.
Proof. vm_compute. reflexivity. Qed.
Lemma resolve_answer : (Resolve manager executor request (start + Second) bound).1 = Ok the_answer.
Proof. vm_compute. reflexivity. Qed.
Lemma cancel_answer :
  (Manager.CancelBinding scheduler cancellation (start + Minute) bound).1 =
  Ok (canceled_binding "operator-stop" (start + Minute) the_binding).
Proof. vm_compute. reflexivity. Qed.
Lemma register_result : Manager.RegisterBinding manager scheduler registration start after_create = (Ok the_binding, bound).
Proof. unfold bound. rewrite <-register_answer. apply surjective_pairing. Qed.
Lemma resolve_result : Resolve manager executor request (start + Second) bound = (Ok the_answer, resolved).
Proof. unfold resolved. rewrite <-resolve_answer. apply surjective_pairing. Qed.
Lemma cancel_result :
  Manager.CancelBinding scheduler cancellation (start + Minute) bound =
  (Ok (canceled_binding "operator-stop" (start + Minute) the_binding), canceled).
Proof. unfold canceled. rewrite <-cancel_answer. apply surjective_pairing. Qed.
Definition stored_binding : memoryBinding :=
  mkMemBinding the_binding "dispatch-1" (default "" (bindingDigest registration)).
Lemma bound_found : bindings bound !! run_id = Some stored_binding.
Proof. vm_compute. reflexivity. Qed.
End BindingExample.

Section BindingWitnesses.
Import VaultExample BindingExample.
#[local] Existing Instances toy_crypto toy_crypto_laws canonical_order ascii_tables.

Lemma binding_ledger_witness : binding_inv bound.
Proof. exact (binding_ledger bound reach_bound). Defined.

Lemma binding_lifecycle_witness :
  ∃ s', bindings bound !! run_id = Some s' ∧ same_binding the_binding (mbBinding s').
Proof.
  destruct (binding_lifecycle bound bound run_id stored_binding reach_bound (rtc_refl _ _) bound_found)
    as (s' & Hs' & Hsame & _).
  exists s'. exact (conj Hs' Hsame).
Defined.

Lemma cancel_revokes_witness :
  ∃ e, Resolve manager executor request (start + 2 * Minute) canceled = (Err e, canceled).
Proof.
  exact (cancel_revokes canonical_order scheduler cancellation (start + Minute) bound
    (canceled_binding "operator-stop" (start + Minute) the_binding) canceled canceled manager executor request
    (start + 2 * Minute) reach_bound cancel_result eq_refl (rtc_refl _ _) eq_refl).
Defined.

Lemma resolve_denied_uniformly_witness :
  Resolve manager (mkIdentity RoleExecutor "praetor-executor:other") request (start + Second) bound =
  (Err ErrBindingNotActive, bound).
Proof.
  apply (resolve_denied_uniformly canonical_order manager builtin_injector
    (mkIdentity RoleExecutor "praetor-executor:other") request (start + Second) bound);
    [reflexivity|vm_compute; reflexivity|reflexivity|vm_compute; reflexivity|vm_compute; reflexivity|reflexivity|].
  intros s Hs. change (rsRunID request) with run_id in Hs. rewrite bound_found in Hs. injection Hs as <-. discriminate.
Defined.

Lemma bound_reads : reads manager bound id 1 inputs.
Proof.
  assert (simulates (St:=memoryBackend) (Keyring (keys manager)) bound vault_created) as Hsim.
  { assert (credentials bound = credentials after_create ∧ idempotency bound = idempotency after_create) as [Hc Hi].
    { unfold bound. split; vm_compute; reflexivity. }
    destruct created as [He Hr]. split; cbn [view replays memory_laws] in *; [by rewrite Hc|by rewrite Hi]. }
  apply (reads_vault manager bound vault_created id 1 inputs Hsim).
  eexists. split; vm_compute; reflexivity.
Qed.

Lemma resolve_pinned_version_witness :
  ∃ inj c res, injector manager = Some inj ∧ credentials bound !! id = Some c ∧
    Render inj (mCredentialType (stMetadata c)) (mSchemaVersion (stMetadata c)) inputs = Some res ∧
    rcEnvironment the_answer = irEnvironment res.
Proof.
  destruct (resolve_pinned_version canonical_order manager executor request (start + Second) bound the_answer resolved
    stored_binding inputs reach_bound resolve_result bound_found bound_reads)
    as (inj & c & res & Hi & Hc & Hr & He & _).
  exists inj, c, res. exact (conj Hi (conj Hc (conj Hr He))).
Defined.

Lemma created_unambiguous : unambiguous registration after_create.
Proof.
  assert (bindings after_create = ∅) as E by (vm_compute; reflexivity).
  intros k s Hs. rewrite E in Hs. exact (False_ind _ (lookup_empty_Some _ _ Hs)).
Qed.
Lemma bound_unambiguous : unambiguous registration bound.
Proof.
  assert (bindings bound = {[ run_id := stored_binding ]}) as E by (vm_compute; reflexivity).
  intros k s Hs _. rewrite E in Hs. apply lookup_singleton_Some in Hs as [_ <-]. split; reflexivity.
Qed.

Lemma register_order_irrelevant_witness :
  Manager.RegisterBinding (BE:=memory_backend (MO:=canonical_order)) manager scheduler registration start bound =
  Manager.RegisterBinding (BE:=memory_backend (MO:=reverse_order)) manager scheduler registration start bound.
Proof. exact (register_order_irrelevant canonical_order reverse_order manager scheduler registration start bound reach_bound bound_unambiguous). Defined.

Lemma register_idempotent_witness :
  ∃ s, bindings bound !! run_id = Some s ∧
    Manager.RegisterBinding (BE:=memory_backend (MO:=reverse_order)) manager scheduler registration (start + Second) bound =
    (Ok (mbBinding s), bound).
Proof.
  destruct (register_idempotent canonical_order reverse_order manager scheduler registration start after_create the_binding
    bound bound manager scheduler (start + Second) reach_created eq_refl created_unambiguous bound_unambiguous register_result
    (rtc_refl _ _) eq_refl) as (s & Hs & _ & Hr); [vm_compute; reflexivity|].
  exists s. exact (conj Hs Hr).
Defined.
End BindingWitnesses.
