(* ===== verification/Rotations.v ===== *)
(** * Master-key rotation on the development backend

    Resumable rewrapping of the records under the previous key
    (src/credential/rotation.go, backend.go:56-200): what a batch does to the
    set of records still under the source key, that batches reach an empty set,
    and that neither rotation nor finalization changes what the store holds:
    the plaintext vault of [Vault] is the same before and after. *)

From Stdlib Require Import Ascii.
From S2P Require Import Prelude GoStrings GoTime Json Crypto Envelope MasterKey Credential Builtin Backend MemoryBackend Manager Vault.

(** ** Places

    A place is a credential and one of its versions; [places b k] are those
    whose record is under key [k]. *)

Section Places.
Context `{MO : MapOrder}.

Definition record_items (source id : string) (m : Metadata) (l : list (Z * EnvRecord)) : list (string * rotationRecord) :=
  (λ y : Z * EnvRecord, (id, mkRotationRecord m y.1 y.2)) <$> filter (λ y, recMasterKeyID y.2 = source) l.

(** The records the nested loops select, in the order they meet them. *)
Definition source_items (source : string) (l : list (string * stored)) : list (string * rotationRecord) :=
  mjoin ((λ x : string * stored, record_items source x.1 (stMetadata x.2) (iterate (stRecords x.2))) <$> l).

Lemma source_items_cons source id c l :
  source_items source ((id, c) :: l) =
  record_items source id (stMetadata c) (iterate (stRecords c)) ++ source_items source l.
Proof. done. Qed.

Definition item_place (x : string * rotationRecord) : string * Z := (x.1, rrVersion x.2).

Definition in_place (cs : gmap string stored) (source : string) (p : string * Z) : Prop :=
  ∃ c r, cs !! p.1 = Some c ∧ stRecords c !! p.2 = Some r ∧ recMasterKeyID r = source.

Lemma elem_of_source_items source cs id x :
  (id, x) ∈ source_items source (iterate cs) ↔
  ∃ c, cs !! id = Some c ∧ rrMetadata x = stMetadata c ∧ stRecords c !! rrVersion x = Some (rrRecord x) ∧
    recMasterKeyID (rrRecord x) = source.
Proof.
  unfold source_items, record_items. rewrite list_elem_of_join. setoid_rewrite list_elem_of_fmap. split.
  - intros (l & Hin & ([id' c] & -> & Hc%elem_of_iterate)). apply list_elem_of_fmap in Hin as ([v r] & [= -> ->] & Hf).
    apply list_elem_of_filter in Hf as [Hk Hr%elem_of_iterate]. by exists c.
  - intros (c & Hc & Hm & Hr & Hk). eexists. split; [|exists (id, c); split; [done|by apply elem_of_iterate]].
    apply list_elem_of_fmap. exists (rrVersion x, rrRecord x). split; [destruct x; simpl in *; by subst|].
    apply list_elem_of_filter. split; [done|by apply elem_of_iterate].
Qed.

Lemma NoDup_source_items source cs : NoDup (item_place <$> source_items source (iterate cs)).
Proof.
  unfold source_items. pose proof (NoDup_iterate_keys cs) as Hnd.
  induction (iterate cs) as [|[id c] l IH]; [constructor|].
  rewrite fmap_cons in Hnd. apply NoDup_cons in Hnd as [Hnin Hnd]. cbn [fmap list_fmap mjoin list_join].
  rewrite fmap_app. apply NoDup_app. split_and!; [| |by apply IH].
  - unfold record_items. rewrite <-list_fmap_compose.
    assert (NoDup (filter (λ y : Z * EnvRecord, recMasterKeyID y.2 = source) (iterate (stRecords c))).*1) as Hf.
    { pose proof (NoDup_iterate_keys (stRecords c)) as Hk. revert Hk. generalize (iterate (stRecords c)). intros k.
      induction k as [|y k IHk]; [done|]. rewrite fmap_cons, NoDup_cons, filter_cons. intros [Hn Hk].
      case_decide; [|by apply IHk]. rewrite fmap_cons, NoDup_cons. split; [|by apply IHk].
      intros Hin. apply Hn. apply list_elem_of_fmap in Hin as (z & -> & Hz). apply list_elem_of_filter in Hz as [_ Hz].
      apply list_elem_of_fmap. eauto. }
    assert (∀ k : list (Z * EnvRecord), (item_place ∘ (λ y : Z * EnvRecord, (id, mkRotationRecord (stMetadata c) y.1 y.2))) <$> k
      = (pair id) <$> k.*1) as ->.
    { intros k. rewrite <-list_fmap_compose. done. }
    apply NoDup_fmap_2; [|done]. by intros ? ? [= ->].
  - intros p Hp Hp'. apply Hnin.
    apply list_elem_of_fmap in Hp as ([i x] & -> & Hx). apply list_elem_of_fmap in Hx as (y & [= -> ->] & _).
    apply list_elem_of_fmap in Hp' as ([i' x'] & Heq & Hx'). apply list_elem_of_join in Hx' as (k & Hx' & Hk).
    apply list_elem_of_fmap in Hk as ([i2 c2] & -> & Hin). apply list_elem_of_fmap in Hx' as (y' & [= -> ->] & _).
    injection Heq as <- _. apply list_elem_of_fmap. by exists (id, c2).
Qed.

Definition places (cs : gmap string stored) (source : string) : gset (string * Z) :=
  list_to_set (item_place <$> source_items source (iterate cs)).

Lemma elem_of_places cs source p : p ∈ places cs source ↔ in_place cs source p.
Proof.
  unfold places. rewrite elem_of_list_to_set, list_elem_of_fmap. split.
  - intros ([id x] & -> & (c & Hc & _ & Hr & Hk)%elem_of_source_items). by exists c, (rrRecord x).
  - intros (c & r & Hc & Hr & Hk). destruct p as [id v]. exists (id, mkRotationRecord (stMetadata c) v r).
    split; [done|]. apply elem_of_source_items. by exists c.
Qed.

Lemma size_places cs source : size (places cs source) = length (source_items source (iterate cs)).
Proof. unfold places. rewrite size_list_to_set by apply NoDup_source_items. by rewrite length_fmap. Qed.

(** The counter of [StartRotation] counts exactly these places. *)
Lemma count_key_places source b : count_key source b = Z.of_nat (size (places (credentials b) source)).
Proof.
  rewrite size_places. unfold count_key, source_items. generalize (iterate (credentials b)). intros l.
  induction l as [|[id c] l IH]; [done|]. rewrite sum_by_cons, IH. cbn [fmap list_fmap mjoin list_join snd].
  rewrite length_app. unfold record_items at 2. rewrite length_fmap, Nat2Z.inj_add. f_equal.
  generalize (iterate (stRecords c)). intros k. induction k as [|y k IHk]; [done|].
  unfold count_by in *. rewrite sum_by_cons, IHk, filter_cons.
  destruct (String.eqb_spec (recMasterKeyID y.2) source); case_decide; try done; cbn [length]; lia.
Qed.
End Places.

(** The places do not depend on the iteration order. *)
Lemma places_order (MO MO' : MapOrder) cs source : places (MO:=MO) cs source = places (MO:=MO') cs source.
Proof. apply set_eq. intros p. by rewrite (elem_of_places (MO:=MO)), (elem_of_places (MO:=MO')). Qed.

(** ** A batch *)

Section Batch.
Context `{CR : Crypto} `{MO : MapOrder}.

(** The transformed records of a list of items, or the first error. *)
Fixpoint transform_items (transform : rotationRecord → result CredError EnvRecord)
    (l : list (string * rotationRecord)) : result CredError (list replacement) :=
  match l with
  | [] => Ok []
  | (id, x) :: l' =>
      r ← transform x;
      rs ← transform_items transform l';
      Ok ((id, rrVersion x, r) :: rs)
  end.

Lemma transform_items_app f l k :
  transform_items f (l ++ k) =
  (rs ← transform_items f l; rs' ← transform_items f k; Ok (rs ++ rs')).
Proof.
  induction l as [|[id x] l IH]; cbn [transform_items app mbind result_bind].
  - by destruct (transform_items f k).
  - destruct (f x) as [r|]; cbn [mbind result_bind]; [|done]. rewrite IH.
    destruct (transform_items f l) as [rs|]; cbn [mbind result_bind]; [|done].
    by destruct (transform_items f k).
Qed.

(** A loop that stops at the limit is the transformation of a prefix. *)
Lemma collect_records_spec (limit : nat) source f id m l acc :
  (length acc ≤ limit)%nat →
  collect_records (Z.of_nat limit) source f id m l acc =
  (rs ← transform_items f (take (limit - length acc) (record_items source id m l)); Ok (acc ++ rs)).
Proof.
  revert acc. induction l as [|[v r] l IH]; intros acc Hlen; cbn [collect_records].
  { unfold record_items. cbn. rewrite take_nil. cbn. by rewrite app_nil_r. }
  destruct (Z.eqb_spec (Z.of_nat (length acc)) (Z.of_nat limit)) as [He|Hne].
  { assert (limit - length acc = 0)%nat as -> by lia. rewrite take_0. cbn. by rewrite app_nil_r. }
  unfold record_items. rewrite filter_cons. cbn [snd].
  destruct (String.eqb_spec (recMasterKeyID r) source) as [Hk|Hk]; cbn [negb]; case_decide; try done.
  - rewrite fmap_cons. assert (limit - length acc = S (limit - S (length acc)))%nat as -> by lia.
    cbn [take transform_items rrVersion fst snd]. destruct (f (mkRotationRecord m v r)) as [r'|]; cbn [mbind result_bind]; [|done].
    rewrite IH by (rewrite length_app; simpl; lia). rewrite length_app. cbn [length].
    fold (record_items source id m l). assert (length acc + 1 = S (length acc))%nat as -> by lia.
    destruct (transform_items f _) as [rs|]; cbn [mbind result_bind]; [|done]. by rewrite <-app_assoc.
  - by apply IH.
Qed.

Lemma transform_items_length f l rs : transform_items f l = Ok rs → length rs = length l.
Proof.
  revert rs. induction l as [|[id x] l IH]; intros rs Ht; cbn [transform_items] in Ht; [by simplify_eq|].
  apply bind_Ok in Ht as (r & _ & Ht). apply bind_Ok in Ht as (rs' & Hrs & [= <-]). simpl. by rewrite (IH rs').
Qed.

Lemma collect_spec (limit : nat) source f l acc :
  (length acc ≤ limit)%nat →
  collect (Z.of_nat limit) source f l acc =
  (rs ← transform_items f (take (limit - length acc) (source_items source l)); Ok (acc ++ rs)).
Proof.
  revert acc. induction l as [|[id c] l IH]; intros acc Hlen; cbn [collect].
  { unfold source_items. cbn. rewrite take_nil. cbn. by rewrite app_nil_r. }
  rewrite collect_records_spec by done. rewrite source_items_cons.
  set (items := record_items source id (stMetadata c) (iterate (stRecords c))).
  rewrite take_app, transform_items_app.
  destruct (transform_items f (take _ items)) as [rs|] eqn:Ht; cbn [mbind result_bind]; [|done].
  apply transform_items_length in Ht as Hrl. rewrite length_take in Hrl. clear Ht.
  rewrite IH by (rewrite length_app; lia). rewrite length_app.
  assert (limit - (length acc + length rs) = limit - length acc - length items)%nat as -> by lia.
  destruct (transform_items f _) as [rs'|]; cbn [mbind result_bind]; [|done].
  by rewrite <-app_assoc.
Qed.

(** What the batch reads and writes, place by place. *)
Lemma transform_items_elem f l rs id v r :
  transform_items f l = Ok rs → (id, v, r) ∈ rs →
  ∃ x, (id, x) ∈ l ∧ rrVersion x = v ∧ f x = Ok r.
Proof.
  revert rs. induction l as [|[id' x] l IH]; intros rs Ht Hin; cbn [transform_items] in Ht.
  - injection Ht as <-. by apply elem_of_nil in Hin.
  - apply bind_Ok in Ht as (r' & Hr & Ht). apply bind_Ok in Ht as (rs' & Hrs & [= <-]).
    apply elem_of_cons in Hin as [[= -> -> ->]|Hin].
    + exists x. split; [apply list_elem_of_here|done].
    + destruct (IH rs' Hrs Hin) as (y & Hy & ?). exists y. split; [by apply list_elem_of_further|done].
Qed.

Lemma transform_items_places f l rs :
  transform_items f l = Ok rs → (λ x : replacement, x.1) <$> rs = item_place <$> l.
Proof.
  revert rs. induction l as [|[id x] l IH]; intros rs Ht; cbn [transform_items] in Ht; [by simplify_eq|].
  apply bind_Ok in Ht as (r & _ & Ht). apply bind_Ok in Ht as (rs' & Hrs & [= <-]).
  rewrite !fmap_cons. by rewrite (IH rs').
Qed.

(** A batch over items that all transform succeeds. *)
Lemma transform_items_total f l :
  (∀ id x, (id, x) ∈ l → is_ok (f x) = true) → is_ok (transform_items f l) = true.
Proof.
  induction l as [|[id x] l IH]; intros Hf; [done|]. cbn [transform_items].
  destruct (f x) as [r|] eqn:Hx; cbn [mbind result_bind].
  - destruct (transform_items f l) as [rs|]; [done|]. apply IH. intros i y Hy. by eapply Hf, list_elem_of_further.
  - specialize (Hf id x ltac:(apply list_elem_of_here)). by rewrite Hx in Hf.
Qed.

(** *** Replacements *)

Lemma replace_lookup x cs id c :
  replace_record x cs !! id = Some c →
  ∃ c0, cs !! id = Some c0 ∧ stMetadata c = stMetadata c0 ∧
    ∀ v, stRecords c !! v = (if decide (x.1 = (id, v)) then Some x.2 else stRecords c0 !! v).
Proof.
  destruct x as [[i w] r]. cbn [replace_record fst snd]. destruct (decide (i = id)) as [->|Hne].
  - rewrite lookup_alter_eq. destruct (cs !! id) as [c0|]; [|done]. intros [= <-]. exists c0. split_and!; try done.
    intros v. cbn [stRecords]. destruct (decide (w = v)) as [->|Hv].
    + rewrite lookup_insert_eq. by rewrite decide_True.
    + rewrite lookup_insert_ne by done. rewrite decide_False by congruence. done.
  - rewrite lookup_alter_ne by done. intros Hc. exists c. split_and!; try done.
    intros v. rewrite decide_False by congruence. done.
Qed.

Lemma replace_lookup_back x cs id c0 :
  cs !! id = Some c0 → ∃ c, replace_record x cs !! id = Some c.
Proof.
  destruct x as [[i w] r]. cbn [replace_record]. intros Hc. destruct (decide (i = id)) as [->|Hne].
  - rewrite lookup_alter_eq, Hc. by eexists.
  - rewrite lookup_alter_ne by done. by exists c0.
Qed.

(** Replacing, under another key, the records of distinct stored places
    removes exactly those places from the source key's. *)
Lemma apply_places l cs source p :
  (∀ x, x ∈ l → recMasterKeyID x.2 ≠ source) → 
  in_place (apply_replacements l cs) source p ↔ in_place cs source p ∧ p ∉ ((λ x : replacement, x.1) <$> l).
Proof.
  revert cs. induction l as [|x l IH]; intros cs Hk; cbn [apply_replacements foldl].
  { split; [intros ?; split; [done|apply not_elem_of_nil]|by intros [? _]]. }
  fold (apply_replacements l (replace_record x cs)).
  rewrite IH by (intros y Hy; by apply Hk, list_elem_of_further).
  rewrite fmap_cons, not_elem_of_cons.
  assert (in_place (replace_record x cs) source p ↔ in_place cs source p ∧ p ≠ x.1) as ->; [|tauto].
  destruct p as [id v]. split.
  - intros (c & r & Hc & Hr & Hs). cbn [fst snd] in *. apply replace_lookup in Hc as (c0 & Hc0 & _ & Hrec).
    rewrite Hrec in Hr. case_decide as Hd.
    + injection Hr as <-. exfalso. by apply (Hk x); [apply list_elem_of_here|].
    + split; [by exists c0, r|]. congruence.
  - intros [(c0 & r & Hc0 & Hr & Hs) Hne]. cbn [fst snd] in *.
    destruct (replace_lookup_back x cs id c0 Hc0) as [c Hc]. exists c, r. split; [done|].
    apply replace_lookup in Hc as (c1 & Hc1 & _ & Hrec). simplify_eq. rewrite Hrec, decide_False by (intros Heq; by apply Hne). done.
Qed.

(** *** The vault does not change *)

Lemma replace_vault (ring : gmap string MasterKey) b (V : vault) x e inputs :
  simulates ring b V → vEntries V !! x.1.1 = Some e → veInputs e !! x.1.2 = Some inputs →
  seals ring (veMetadata e) x.1.2 x.2 inputs →
  simulates ring (set_credentials (replace_record x (credentials b)) b) V.
Proof.
  destruct x as [[id v] r]. cbn [fst snd]. intros [He Hrep] Hv Hi Hse. split; [|done].
  cbn [view memory_laws credentials set_credentials] in *. cbn [replace_record].
  destruct (credentials b !! id) as [c|] eqn:Hc; [|by rewrite alter_None].
  rewrite (alter_Some _ _ _ _ Hc). rewrite <-(insert_id (vEntries V) id e) by done.
  apply map_Forall2_insert_2; [|done]. pose proof (He id) as Hid. rewrite Hc, Hv in Hid.
  inversion Hid as [? ? Hr|]; subst. destruct Hr as [Hmd [Hmid Hver Hdom] Hctx Hrec].
  split; cbn [stMetadata stRecords]; [done| |done|].
  - split; cbn [stMetadata stRecords]; try done. intros w. rewrite <-Hdom.
    destruct (decide (v = w)) as [->|]; [|by rewrite lookup_insert_ne].
    rewrite lookup_insert_eq. specialize (Hrec w). rewrite Hi in Hrec. inversion Hrec. split; eauto.
  - rewrite <-(insert_id (veInputs e) v inputs) by done. by apply map_Forall2_insert_2.
Qed.

Lemma apply_vault (ring : gmap string MasterKey) l b (V : vault) :
  simulates ring b V →
  (∀ x, x ∈ l → ∃ e inputs, vEntries V !! x.1.1 = Some e ∧ veInputs e !! x.1.2 = Some inputs ∧
     seals ring (veMetadata e) x.1.2 x.2 inputs) →
  simulates ring (set_credentials (apply_replacements l (credentials b)) b) V.
Proof.
  revert b. induction l as [|x l IH]; intros b Hsim Hl; cbn [apply_replacements foldl].
  - by destruct b.
  - destruct (Hl x) as (e & inputs & He & Hi & Hse); [apply list_elem_of_here|].
    apply (IH (set_credentials (replace_record x (credentials b)) b)).
    + by eapply replace_vault.
    + intros y Hy. by apply Hl, list_elem_of_further.
Qed.
End Batch.

(** ** Key status *)

Section Tally.
Context `{MO : MapOrder}.

(** A counting loop over a map of [int64] counters, short of overflow. *)
Lemma tally_count l mp k :
  (∀ i, 0 ≤ default 0 (mp !! i) ∧ default 0 (mp !! i) + Z.of_nat (length l) < 2 ^ 63) →
  default 0 (tally l mp !! k) = default 0 (mp !! k) + count_by (String.eqb k) l.
Proof.
  revert mp. induction l as [|x l IH]; intros mp Hb; cbn [tally foldl].
  { unfold count_by. cbn. lia. }
  fold (tally l (<[x := i64 (default 0 (mp !! x) + 1)]> mp)).
  assert (∀ i, default 0 (<[x := i64 (default 0 (mp !! x) + 1)]> mp !! i) =
               default 0 (mp !! i) + if String.eqb i x then 1 else 0) as Hi.
  { intros i. destruct (String.eqb_spec i x) as [->|Hne].
    - rewrite lookup_insert_eq. cbn [default from_option id]. specialize (Hb x). cbn [length] in Hb.
      rewrite i64_small; [done|]. lia.
    - rewrite lookup_insert_ne by done. lia. }
  rewrite IH.
  - rewrite Hi. unfold count_by. rewrite sum_by_cons. lia.
  - intros i. rewrite Hi. specialize (Hb i). cbn [length] in Hb. destruct (String.eqb i x); lia.
Qed.

Lemma record_keys_count k b : count_by (String.eqb k) (record_keys b) = Z.of_nat (size (places (credentials b) k)).
Proof.
  rewrite <-count_key_places. unfold record_keys, count_key. generalize (iterate (credentials b)). intros l.
  induction l as [|[id c] l IH]; [done|]. rewrite fmap_cons.
  change (mjoin (?a :: ?k)) with (a ++ mjoin k). rewrite count_by_app, sum_by_cons, IH. f_equal. cbn [snd]. generalize (iterate (stRecords c)). intros rs.
  induction rs as [|y rs IHr]; [done|]. unfold count_by in *. rewrite fmap_cons, !sum_by_cons, IHr.
  by rewrite String.eqb_sym.
Qed.

Lemma find_active b :
  match List.find (λ x, active_rotation x.2) (iterate (rotations b)) with
  | Some x => active_rotation x.2 = true ∧ rotations b !! x.1 = Some x.2
  | None => ∀ id r, rotations b !! id = Some r → active_rotation r = false
  end.
Proof.
  destruct (List.find _ _) as [[id r]|] eqn:Hf.
  - apply List.find_some in Hf as [Hin Ha]. rewrite <-list_elem_of_In, elem_of_iterate in Hin. done.
  - intros id r Hr. pose proof (List.find_none _ _ Hf (id, r)) as Hn. apply Hn.
    by rewrite <-list_elem_of_In, elem_of_iterate.
Qed.

Lemma retained_keys_elem b k :
  k ∈ retained_keys b ↔ ∃ id x, backups b !! id = Some x ∧ IsZero (buExpiredAt x) = true ∧ k ∈ buKeyIDs x.
Proof.
  unfold retained_keys. rewrite list_elem_of_join. setoid_rewrite list_elem_of_fmap. split.
  - intros (l & Hk & ([id x] & -> & Hx%elem_of_iterate)). cbn [snd] in Hk.
    destruct (IsZero _) eqn:Hz; [|by apply elem_of_nil in Hk]. eauto.
  - intros (id & x & Hx & Hz & Hk). eexists. split; [|exists (id, x); split; [done|by apply elem_of_iterate]].
    cbn [snd]. by rewrite Hz.
Qed.

Lemma count_none k l : count_by (String.eqb k) l = 0 ↔ k ∉ l.
Proof.
  rewrite count_by_zero, Forall_forall. setoid_rewrite String.eqb_neq. split.
  - intros Hf Hin. by apply (Hf k Hin).
  - intros Hn x Hx ->. done.
Qed.
End Tally.

(** ** Finalization *)

Section Finalization.
Context `{CR : Crypto} `{MO : MapOrder}.

(** How many records are still under a key. *)
Definition remaining (b : memoryBackend) (source : string) : nat := size (places (credentials b) source).

Lemma finalize_free b id rot now :
  rotations b !! id = Some rot → active_rotation rot = true →
  match remaining b (roSourceKeyID rot) with
  | O => FinalizeRotation id now b =
           (Ok (finalized_at now rot), set_rotations (<[id := finalized_at now rot]> (rotations b)) b)
  | S _ => FinalizeRotation id now b = (Err ErrRotationNotReady, b)
  end.
Proof.
  intros Hrot Hact. unfold FinalizeRotation. rewrite Hrot, Hact. cbn [negb].
  set (found := existsb _ (iterate (credentials b))).
  assert (found = true ↔ ∃ p, p ∈ places (credentials b) (roSourceKeyID rot)) as Hf.
  { unfold found. setoid_rewrite elem_of_places. rewrite existsb_exists. split.
    - intros ([i c] & Hin & Hx). rewrite <-list_elem_of_In, elem_of_iterate in Hin. apply existsb_exists in Hx as ([v r] & Hr & Hk).
      rewrite <-list_elem_of_In, elem_of_iterate in Hr. cbn [snd] in *. bool_facts. by exists (i, v), c, r.
    - intros ([i v] & c & r & Hc & Hr & Hk). exists (i, c). rewrite <-list_elem_of_In, elem_of_iterate.
      split; [done|]. apply existsb_exists. exists (v, r). rewrite <-list_elem_of_In, elem_of_iterate.
      split; [done|]. by apply String.eqb_eq. }
  unfold remaining. destruct (size _) as [|n] eqn:Hn.
  - apply size_empty_inv in Hn. destruct found; [|done]. destruct (proj1 Hf eq_refl) as [p Hp]. set_solver.
  - destruct found; [done|]. exfalso.
    destruct (size_pos_elem_of (places (credentials b) (roSourceKeyID rot))) as [p Hp]; [lia|].
    discriminate (proj2 Hf (ex_intro _ p Hp)).
Qed.

(** C35: finalization is a fence: as long as one record is under the source key
    of an unfinished rotation it is refused and nothing is written. *)
Theorem finalize_fence b id rot now :
  rotations b !! id = Some rot → active_rotation rot = true → id ≠ "" →
  (FinalizeMasterKeyRotation id now b = (Err ErrRotationNotReady, b) ↔ remaining b (roSourceKeyID rot) ≠ 0%nat) ∧
  (is_ok (FinalizeMasterKeyRotation id now b).1 = true ↔ remaining b (roSourceKeyID rot) = 0%nat).
Proof.
  intros Hrot Hact Hid. pose proof (finalize_free b id rot now Hrot Hact) as Hfin.
  unfold FinalizeMasterKeyRotation. rewrite (proj2 (String.eqb_neq _ _) Hid).
  cbn [guard_err on_store be_FinalizeRotation memory_backend].
  destruct (remaining b _) as [|k]; rewrite Hfin; split; split; done.
Qed.
End Finalization.

(** ** What rotation guarantees *)

Section RotationTheorems.
Context `{CL : CryptoLaws} `{MO : MapOrder}.
Context (m : Manager) (Hkeys : set_ok (keys m)).

Local Abbreviation ring := (Keyring (keys m)).
Local Abbreviation current := (Current (keys m)).


Lemma vault_place b V id c v r :
  simulates ring b V → credentials b !! id = Some c → stRecords c !! v = Some r →
  ∃ e inputs, vEntries V !! id = Some e ∧ veInputs e !! v = Some inputs ∧ stMetadata c = veMetadata e ∧
    seals ring (veMetadata e) v r inputs.
Proof.
  intros [He _] Hc Hr. specialize (He id). cbn [view memory_laws] in He. rewrite Hc in He.
  inversion He as [? e Hrep Q1 Q2|]; subst. destruct Hrep as [Hmd _ _ Hrec]. specialize (Hrec v). rewrite Hr in Hrec.
  inversion Hrec as [? inputs Hse Q3 Q4|]; subst. by exists e, inputs.
Qed.

Lemma seals_sealed md v r inputs :
  seals ring md v r inputs ↔
  (∃ k dk, ring !! recMasterKeyID r = Some k ∧ sealed r (version_context md v) k dk (json_map inputs)) ∧
  valid_inputs inputs ∧ len (json_map inputs) ≤ maxPlaintextPayload.
Proof.
  split.
  - intros [Hd Hv Hf]. split; [|done]. by apply Decrypt_sealed.
  - intros (Hd & Hv & Hf). split; [|done..]. by apply Decrypt_sealed.
Qed.

Lemma rewrap_good b V source entropy id x :
  simulates ring b V → (id, x) ∈ source_items source (iterate (credentials b)) →
  (12 ≤ String.length (entropy x))%nat →
  ∃ r e inputs, rewrap_item m entropy x = Ok r ∧ recMasterKeyID r = mkID current ∧
    vEntries V !! id = Some e ∧ veInputs e !! rrVersion x = Some inputs ∧
    seals ring (veMetadata e) (rrVersion x) r inputs.
Proof.
  intros Hsim (c & Hc & Hmd & Hr & _)%elem_of_source_items Hent.
  destruct (vault_place b V id c _ _ Hsim Hc Hr) as (e & inputs & He & Hi & Hme & Hse).
  apply seals_sealed in Hse as ((k & dk & Hk & Hs) & Hv & Hf).
  rewrite <-Hme, <-Hmd in Hs. change (version_context (rrMetadata x) (rrVersion x)) with (item_context x) in Hs.
  destruct (Rewrap_total _ _ ring current (entropy x) _ _ _ Hk Hs (set_current _ Hkeys) Hent)
    as (r & Hrw & Hs' & Hid & _).
  exists r, e, inputs. unfold rewrap_item. rewrite Hrw. split_and!; try done.
  apply seals_sealed. split; [|done]. exists current, dk. rewrite Hid, <-Hme, <-Hmd.
  split; [by apply set_ok_current|done].
Qed.

Lemma active_find b id rot :
  rotations b !! id = Some rot → active_rotation rot = true → roState rot ≠ RotationFinalized.
Proof. unfold active_rotation. intros _ Ha. by bool_facts. Qed.

Lemma batch_progress b V id rot (limit : nat) entropy wall :
  simulates ring b V → rotations b !! id = Some rot → active_rotation rot = true →
  roSourceKeyID rot ≠ mkID current → (∀ x, (12 ≤ String.length (entropy x))%nat) →
  let done := (limit `min` remaining b (roSourceKeyID rot))%nat in
  ∃ st b', RotateBatch id (Z.of_nat limit) (rewrap_item m entropy) wall b =
      (Ok (with_progress st (i64 (roProcessedRecords rot + Z.of_nat done)) wall rot), b') ∧
    st ≠ RotationFinalized ∧ simulates ring b' V ∧
    remaining b' (roSourceKeyID rot) = (remaining b (roSourceKeyID rot) - done)%nat ∧
    rotations b' = <[id := with_progress st (i64 (roProcessedRecords rot + Z.of_nat done)) wall rot]> (rotations b).
Proof.
  intros Hsim Hrot Hact Hsrc Hent dn. unfold RotateBatch. rewrite Hrot, Hact. cbn [negb].
  set (source := roSourceKeyID rot) in *. set (items := source_items source (iterate (credentials b))).
  rewrite (collect_spec limit source _ _ []) by (simpl; lia). cbn [length app]. rewrite Nat.sub_0_r. fold items.
  assert (∀ i x, (i, x) ∈ take limit items → (i, x) ∈ items) as Hsub.
  { intros i x. apply subseteq_take. }
  destruct (transform_items _ (take limit items)) as [rs|e] eqn:Ht.
  2:{ pose proof (transform_items_total (rewrap_item m entropy) (take limit items)) as Htot. rewrite Ht in Htot.
      discriminate Htot. intros i x Hin%Hsub. destruct (rewrap_good b V source entropy i x Hsim Hin (Hent x)) as (r & _ & _ & -> & _). done. }
  cbn [mbind result_bind].
  assert (length rs = dn) as Hlen.
  { rewrite (transform_items_length _ _ _ Ht), length_take. subst dn. unfold remaining. by rewrite size_places. }
  rewrite Hlen. set (st := if _ =? _ then _ else _).
  assert (∀ i v r, (i, v, r) ∈ rs → ∃ x, (i, x) ∈ items ∧ rrVersion x = v ∧ rewrap_item m entropy x = Ok r) as Helem.
  { intros i v r Hin. destruct (transform_items_elem _ _ _ _ _ _ Ht Hin) as (x & Hx & Hv & Hr). exists x. auto. }
  eexists st, _. split; [done|]. split; [unfold st; by case_match|].
  set (b1 := set_credentials _ b).
  assert (simulates ring b1 V) as Hsim1.
  { apply apply_vault; [done|]. intros [[i v] r] Hin. destruct (Helem _ _ _ Hin) as (x & Hx & <- & Hr).
    destruct (rewrap_good b V source entropy i x Hsim Hx (Hent x)) as (r' & e & inputs & Hr' & _ & He & Hi & Hse).
    rewrite Hr in Hr'. injection Hr' as <-. by exists e, inputs. }
  split; [by destruct Hsim1|]. split; [|done].
  unfold remaining, b1. cbn [credentials set_rotations set_credentials].
  assert (places (apply_replacements rs (credentials b)) source =
          places (credentials b) source ∖ list_to_set ((λ x : replacement, x.1) <$> rs)) as ->.
  { apply set_eq. intros p. rewrite elem_of_difference, elem_of_list_to_set, !elem_of_places. apply apply_places.
    intros [[i v] r] Hin. destruct (Helem _ _ _ Hin) as (x & Hx & _ & Hr). cbn [snd].
    destruct (rewrap_good b V source entropy i x Hsim Hx (Hent x)) as (r' & e & inputs & Hr' & Hid & _).
    rewrite Hr in Hr'. injection Hr' as <-. by rewrite Hid. }
  rewrite (transform_items_places _ _ _ Ht). rewrite size_difference.
  - rewrite size_list_to_set; [by rewrite length_fmap, <-(transform_items_length _ _ _ Ht), Hlen|].
    rewrite fmap_take. apply sublist_NoDup with (item_place <$> items); [apply NoDup_source_items|apply sublist_take].
  - intros p. rewrite elem_of_list_to_set, elem_of_places, list_elem_of_fmap.
    intros ([i x] & -> & (c & Hc & _ & Hr & Hk)%Hsub%elem_of_source_items). by exists c, (rrRecord x).
Qed.


(** Resuming a rotation [n] times. *)
Fixpoint resume_times (n : nat) (id : string) (size : Z) (entropy : nat → rotationRecord → reader)
    (wall : time) (b : memoryBackend) : memoryBackend :=
  match n with
  | O => b
  | S n' => resume_times n' id size entropy wall
              (ResumeMasterKeyRotation m id size (entropy n') wall b).2
  end.

Lemma resume_batch id size entropy wall b :
  id ≠ "" → 1 ≤ size ≤ 1000 → is_Some (Previous (keys m)) →
  ResumeMasterKeyRotation m id size entropy wall b = RotateBatch id size (rewrap_item m entropy) wall b.
Proof.
  intros Hid Hs Hp. unfold ResumeMasterKeyRotation.
  rewrite (proj2 (String.eqb_neq _ _) Hid), (proj2 (Z.ltb_ge _ _)), (proj2 (Z.ltb_ge _ _)), bool_decide_eq_true_2 by (done || lia).
  done.
Qed.

Lemma resume_times_spec n id (limit : nat) entropy wall b V rot :
  simulates ring b V → rotations b !! id = Some rot → active_rotation rot = true →
  roSourceKeyID rot ≠ mkID current → (∀ k x, (12 ≤ String.length (entropy k x))%nat) →
  id ≠ "" → (1 ≤ limit ≤ 1000)%nat → is_Some (Previous (keys m)) →
  let b' := resume_times n id (Z.of_nat limit) entropy wall b in
  simulates ring b' V ∧ remaining b' (roSourceKeyID rot) = (remaining b (roSourceKeyID rot) - n * limit)%nat ∧
  ∃ rot', rotations b' !! id = Some rot' ∧ active_rotation rot' = true ∧
    roSourceKeyID rot' = roSourceKeyID rot ∧ roTargetKeyID rot' = roTargetKeyID rot.
Proof.
  revert b rot. induction n as [|n IH]; intros b rot Hsim Hrot Hact Hsrc Hent Hid Hl Hp b'.
  - subst b'. cbn [resume_times]. split; [done|]. split; [lia|]. by exists rot.
  - destruct (batch_progress b V id rot limit (entropy n) wall Hsim Hrot Hact Hsrc (Hent n))
      as (st & b1 & Hb & Hst & Hsim1 & Hrem & Hrots).
    subst b'. cbn [resume_times]. rewrite resume_batch, Hb by (done || lia). cbn [snd].
    set (rot1 := with_progress _ _ _ _) in *.
    destruct (IH b1 rot1) as (HsimN & HremN & rot' & Hr' & Ha' & Hs' & Ht'); try done.
    { rewrite Hrots. apply lookup_insert_eq. }
    { unfold active_rotation, rot1. cbn [with_progress roState]. by rewrite bool_decide_eq_false_2. }
    split; [done|]. split; [|by exists rot'].
    change (roSourceKeyID rot1) with (roSourceKeyID rot) in HremN. rewrite HremN, Hrem. lia.
Qed.

(** With no record left under the previous key the current key suffices. *)
Lemma reduced_ring b V p :
  simulates ring b V → Previous (keys m) = Some p → remaining b (mkID p) = 0%nat →
  simulates {[ mkID current := current ]} b V.
Proof.
  intros [He Hrep] Hp Hrem. split; [|done]. cbn [view memory_laws] in *. intros id. specialize (He id).
  destruct (credentials b !! id) as [c|] eqn:Hc; inversion He as [? e Hr Q1 Q2|Q1 Q2]; subst; constructor.
  destruct Hr as [Hmd Hent Hctx Hrec]. split; try done. intros v. specialize (Hrec v).
  destruct (stRecords c !! v) as [r|] eqn:Hr; inversion Hrec as [? inputs Hse Q3 Q4|Q3 Q4]; subst; constructor.
  destruct Hse as [Hd Hv Hf]. split; try done. apply Decrypt_sealed in Hd as (k & dk & Hk & Hs).
  apply Decrypt_sealed. exists k, dk. split; [|done].
  apply (set_keyring _ Hkeys) in Hk as [Hkid [->|Hkp]].
  - rewrite <-Hkid. apply lookup_singleton_eq.
  - exfalso. unfold remaining in Hrem. apply size_empty_inv in Hrem.
    assert ((id, v) ∈ places (credentials b) (mkID p)) as Hin; [|set_solver].
    apply elem_of_places. exists c, r. split_and!; try done. cbn. congruence.
Qed.

(** A batch makes progress and loses nothing: resuming an unfinished
    rotation succeeds, moves exactly the batch size or all that is left from
    the source key to the current one, counts them, and leaves the plaintext
    vault as it was: every version of every credential still decrypts to the
    same inputs. *)
Lemma rotation_batch_progress b V id rot (limit : nat) entropy wall :
  simulates ring b V → rotations b !! id = Some rot → active_rotation rot = true →
  roSourceKeyID rot ≠ mkID current → (∀ x, (12 ≤ String.length (entropy x))%nat) →
  id ≠ "" → (1 ≤ limit ≤ 1000)%nat → is_Some (Previous (keys m)) →
  let done := (limit `min` remaining b (roSourceKeyID rot))%nat in
  ∃ rot' b', ResumeMasterKeyRotation m id (Z.of_nat limit) entropy wall b = (Ok rot', b') ∧
    rotations b' !! id = Some rot' ∧ roState rot' ≠ RotationFinalized ∧
    roProcessedRecords rot' = i64 (roProcessedRecords rot + Z.of_nat done) ∧
    remaining b' (roSourceKeyID rot) = (remaining b (roSourceKeyID rot) - done)%nat ∧
    simulates ring b' V.
Proof.
  intros Hsim Hrot Hact Hsrc Hent Hid Hl Hp dn. rewrite resume_batch by (done || lia).
  destruct (batch_progress b V id rot limit entropy wall Hsim Hrot Hact Hsrc Hent) as (st & b1 & Hb & Hst & Hsim1 & Hrem & Hrots).
  eexists _, b1. split; [exact Hb|]. rewrite Hrots, lookup_insert_eq. done.
Qed.

(** C11: a rotation completes and frees the old key: once started, after
    enough batches (of any admitted size) finalization succeeds, no record is
    left under the previous key, and the whole vault decrypts with a keyring
    that holds the current key alone. *)
Theorem rotation_completes b V ids start rot b0 p n (limit : nat) entropy wall now :
  simulates ring b V → StartMasterKeyRotation m ids start b = (Ok rot, b0) → Previous (keys m) = Some p →
  (∀ k x, (12 ≤ String.length (entropy k x))%nat) → (1 ≤ limit ≤ 1000)%nat →
  (remaining b (mkID p) ≤ n * limit)%nat →
  let b1 := resume_times n (roID rot) (Z.of_nat limit) entropy wall b0 in
  ∃ rot' b2, FinalizeMasterKeyRotation (roID rot) now b1 = (Ok rot', b2) ∧ roState rot' = RotationFinalized ∧
    roSourceKeyID rot' = mkID p ∧ remaining b2 (mkID p) = 0%nat ∧
    simulates {[ mkID current := current ]} b2 V.
Proof.
  intros Hsim Hstart Hp Hent Hl Hn b1.
  unfold StartMasterKeyRotation in Hstart. rewrite Hp in Hstart. cbn [of_option mbind result_bind] in Hstart.
  destruct (_ || _); [done|]. cbn [guard_err mbind result_bind] in Hstart.
  destruct (newUUID ids) as [[uid rest]|] eqn:Huid; [|done]. cbn [of_option mbind result_bind on_store] in Hstart.
  cbn [be_StartRotation memory_backend] in Hstart. unfold StartRotation in Hstart.
  destruct (existsb _ _); [done|]. injection Hstart as <- <-. cbn [roTotalRecords roSourceKeyID roState roID with_total] in *.
  set (rot0 := with_total _ _ _) in *. set (b0 := set_rotations _ b) in *.
  assert (uid ≠ "") as Hne by (intros ->; by apply newUUID_spec in Huid as [? _]).
  assert (active_rotation rot0 = true) as Hact.
  { unfold active_rotation, rot0. cbn [with_total roState]. by case_match. }
  destruct (set_previous _ Hkeys p Hp) as [_ Hpc].
  destruct (resume_times_spec n uid limit entropy wall b0 V rot0) as (Hsim1 & Hrem1 & rot1 & Hr1 & Ha1 & Hs1 & _); try done.
  { by destruct Hsim. }
  { apply lookup_insert_eq. }
  change (roSourceKeyID rot0) with (mkID p) in *. fold b1 in Hsim1, Hrem1, Hr1.
  change (remaining b0 (mkID p)) with (remaining b (mkID p)) in Hrem1.
  assert (remaining b1 (mkID p) = 0%nat) as Hz by lia.
  pose proof (finalize_free b1 uid rot1 now Hr1 Ha1) as Hfin. rewrite Hs1, Hz in Hfin.
  unfold FinalizeMasterKeyRotation. rewrite (proj2 (String.eqb_neq _ _) Hne). cbn [guard_err on_store be_FinalizeRotation memory_backend].
  eexists _, _. split; [exact Hfin|]. split_and!; try done.
  apply (reduced_ring _ V p); [by destruct Hsim1|done|done].
Qed.


(** A single credential version can be re-encrypted at any time: for a
    stored version of the organization the call succeeds, puts the record
    under the current key and the fresh data key drawn from the entropy, and
    leaves the plaintext vault as it was; for any other version it reports
    that nothing was found and writes nothing. *)
Lemma rotate_credential_exact b V request entropy now :
  simulates ring b V → coOrganizationID request ≠ "" → coCredentialID request ≠ "" → coVersion request ≠ 0 →
  (∀ x, (72 ≤ String.length (entropy x))%nat) →
  let stored_version := ∃ c, credentials b !! coCredentialID request = Some c ∧
    mOrganizationID (stMetadata c) = coOrganizationID request ∧ is_Some (stRecords c !! coVersion request) in
  (stored_version → ∃ b' c' r x, RotateCredentialKey m request entropy now b = (Ok (), b') ∧ simulates ring b' V ∧
     credentials b' !! coCredentialID request = Some c' ∧ stRecords c' !! coVersion request = Some r ∧
     recMasterKeyID r = mkID current ∧
     ∃ plaintext, sealed r (recContext r) current (take_str 32 (drop_str 16 (entropy x))) plaintext) ∧
  (¬ stored_version → RotateCredentialKey m request entropy now b = (Err ErrNotFound, b)).
Proof.
  intros Hsim Ho Hc Hv Hent stored_version. unfold RotateCredentialKey.
  rewrite (proj2 (String.eqb_neq _ _) Ho), (proj2 (String.eqb_neq _ _) Hc), (proj2 (Z.eqb_neq _ _) Hv).
  cbn [orb guard_err on_store be_RotateCredential memory_backend]. unfold RotateCredential, stored_version.
  destruct (credentials b !! coCredentialID request) as [c|] eqn:Hcred.
  2:{ split; [by intros (c & Hc' & _)|done]. }
  destruct (String.eqb_spec (mOrganizationID (stMetadata c)) (coOrganizationID request)) as [Horg|Horg]; cbn [negb].
  2:{ split; [intros (c' & Hc' & Ho' & _); congruence|done]. }
  destruct (stRecords c !! coVersion request) as [r|] eqn:Hr.
  2:{ split; [intros (c' & Hc' & _ & [r Hr']); congruence|done]. }
  split; [intros _|intros Hno; exfalso; apply Hno; exists c; rewrite Hr; eauto].
  destruct (vault_place b V _ c _ _ Hsim Hcred Hr) as (e & inputs & He & Hi & Hme & Hse).
  set (x := mkRotationRecord (stMetadata c) (coVersion request) r).
  assert (item_context x = version_context (veMetadata e) (coVersion request)) as Hctx by (unfold x, item_context; cbn; by rewrite Hme).
  destruct Hse as [Hd Hval Hfit].
  assert (validate (item_context x) = Ok ()) as Hvc.
  { rewrite Hctx. apply Decrypt_sealed in Hd as (k & dk & _ & [[? _] _ _ _ _ _ _]). done. }
  destruct (Encrypt_total (json_map inputs) (item_context x) current (entropy x) Hvc (set_current _ Hkeys) (Hent x))
    as (r' & dk & Henc & Hs' & Hid & Hdk & _).
  assert (reencrypt_item m entropy x = Ok r') as Hre.
  { unfold reencrypt_item, RotateDataKey. rewrite Hctx. cbn [rrRecord x]. rewrite Hd.
    cbn [mbind result_bind]. rewrite Hctx in Henc. by rewrite Henc. }
  fold x. rewrite Hre.
  assert (seals ring (veMetadata e) (coVersion request) r' inputs) as Hse'.
  { split; [|done..]. apply Decrypt_sealed. exists current, dk. rewrite Hid, <-Hctx.
    split; [by apply set_ok_current|done]. }
  eexists _, (mkStored (stMetadata c) (<[coVersion request := r']> (stRecords c))), r', x. split; [done|].
  split; [by eapply (replace_vault ring b V (coCredentialID request, coVersion request, r') e inputs)|].
  cbn [credentials set_credentials replace_record]. rewrite (alter_Some _ _ _ _ Hcred), lookup_insert_eq.
  split; [done|]. cbn [stRecords]. rewrite lookup_insert_eq. split; [done|]. split; [done|].
  exists (json_map inputs). rewrite <-Hdk. assert (recContext r' = item_context x) as -> by apply Hs'. done.
Qed.

(** The key status tells when the previous key may go: the record counts
    are exact for every key; the database flag is up precisely when a
    previous key is configured, no record is under it and no rotation is
    unfinished, and the backup flag precisely when no unexpired backup set
    lists it. *)
Lemma key_status_exact b :
  Z.of_nat (length (record_keys b)) < 2 ^ 63 → Z.of_nat (length (retained_keys b)) < 2 ^ 63 →
  ∃ st, manager_key_status m b = Ok st ∧
  (∀ k, default 0 (ksRecordCounts st !! k) = Z.of_nat (remaining b k)) ∧
  (ksDatabaseReferencesCleared st = true ↔
    ∃ p, Previous (keys m) = Some p ∧ remaining b (mkID p) = 0%nat ∧
      ∀ id r, rotations b !! id = Some r → roState r = RotationFinalized) ∧
  (ksBackupReferencesCleared st = true ↔
    ∃ p, Previous (keys m) = Some p ∧
      ∀ id x, backups b !! id = Some x → IsZero (buExpiredAt x) = true → mkID p ∉ buKeyIDs x).
Proof.
  intros Hn Hn'. unfold manager_key_status. cbn [be_KeyStatus memory_backend]. eexists. split; [reflexivity|]. unfold key_status.
  cbn [ksRecordCounts ksDatabaseReferencesCleared ksBackupReferencesCleared].
  assert (∀ k, default 0 (tally (record_keys b) ∅ !! k) = Z.of_nat (remaining b k)) as Hcount.
  { intros k. rewrite tally_count, record_keys_count; [done|]. intros i. rewrite lookup_empty. cbn. lia. }
  assert (∀ k, default 0 (tally (retained_keys b) ∅ !! k) = count_by (String.eqb k) (retained_keys b)) as Hret.
  { intros k. rewrite tally_count; [by rewrite lookup_empty|]. intros i. rewrite lookup_empty. cbn. lia. }
  split; [done|]. rewrite !andb_true_iff, negb_true_iff, String.eqb_neq, Hcount, Hret, !Z.eqb_eq, count_none.
  destruct (Previous (keys m)) as [p|] eqn:Hp.
  2:{ split; split; [by intros [[? _] _]|by intros (p & ? & _)|by intros [? _]|by intros (p & ? & _)]. }
  destruct (set_previous _ Hkeys p Hp) as [[Hpid _] _]. split.
  - pose proof (find_active b) as Hfa. destruct (List.find _ _) as [[id r]|]; cbn [fmap option_fmap option_map snd].
    + destruct Hfa as [Ha Hr]. unfold active_rotation in Ha. cbn [fst snd] in Ha, Hr. split.
      * intros [_ Hfin]. by rewrite Hfin in Ha.
      * intros (q & _ & _ & Hall). apply Hall in Hr. rewrite Hr in Ha. discriminate Ha.
    + split.
      * intros [[_ Hz] _]. exists p. split_and!; [done|lia|]. intros id r Hr.
        specialize (Hfa id r Hr). unfold active_rotation in Hfa. by bool_facts.
      * intros (q & [= <-] & Hz & _). rewrite Hz. done.
  - rewrite retained_keys_elem. split.
    + intros [_ Hno]. exists p. split; [done|]. intros id x Hx Hz Hin. apply Hno. eauto.
    + intros (q & [= <-] & Hall). split; [done|]. intros (id & x & Hx & Hz & Hin). by eapply Hall.
Qed.
End RotationTheorems.

(** A larger keyring reads whatever a smaller one reads: the step from a
    deployment with one key to its rotation window. *)
Lemma simulates_weaken `{CL : CryptoLaws} `{MapOrder} (ring ring' : gmap string MasterKey) (b : memoryBackend) V :
  ring ⊆ ring' → simulates ring b V → simulates ring' b V.
Proof.
  intros Hsub [He Hrep]. split; [|done]. eapply map_Forall2_impl; [exact He|].
  intros id c e [Hmd Hent Hctx Hrec]. split; try done. eapply map_Forall2_impl; [exact Hrec|].
  intros v r inputs [Hd Hv Hf]. split; try done. apply Decrypt_sealed in Hd as (k & dk & Hk & Hs).
  apply Decrypt_sealed. exists k, dk. split; [by eapply lookup_weaken|done].
Qed.

(** ** A rotation on the development backend *)

Module RotationExample.
Import VaultExample.
#[local] Existing Instances toy_crypto toy_crypto_laws canonical_order.
Definition new_master : MasterKey := mkMasterKey "key-b" (stream 32 90).
Definition rotation_keys : KeySet :=
  mkKeySet new_master (Some (mkMasterKey "key-a" (stream 32 5)))
    (<["key-b" := new_master]> (Keyring key_set)).
Definition rotator : Manager := mkManager rotation_keys (Some builtin_injector) DefaultResolutionPolicy.
Lemma rotation_keys_ok : set_ok rotation_keys.
Proof.
  split; cbn [Current Previous Keyring rotation_keys].
  - by split.
  - intros p [= <-]. split; [by split|done].
  - intros k x. rewrite lookup_insert_Some. cbn [Keyring key_set]. rewrite lookup_singleton_Some. naive_solver.
Qed.
Lemma rotator_related : simulates (Keyring (keys rotator)) after_create vault_created.
Proof. apply (simulates_weaken (Keyring key_set)); [by apply insert_subseteq|apply created]. Qed.

Definition started : memoryBackend := (StartMasterKeyRotation rotator (stream 16 77) 5000 after_create).2.
Definition rotation_id : string := Eval vm_compute in default "" (fst <$> newUUID (stream 16 77)).
Definition the_rotation : Rotation := mkRotation rotation_id "key-a" "key-b" RotationPending 1 0 5000 5000 0.
Lemma start_answer : (StartMasterKeyRotation rotator (stream 16 77) 5000 after_create).1 = Ok the_rotation.
Proof. vm_compute. reflexivity. Qed.
Lemma start_result : StartMasterKeyRotation rotator (stream 16 77) 5000 after_create = (Ok the_rotation, started).
Proof. unfold started. rewrite <-start_answer. apply surjective_pairing. Qed.
Lemma started_found : rotations started !! rotation_id = Some the_rotation.
Proof. vm_compute. reflexivity. Qed.
Lemma started_related : simulates (Keyring (keys rotator)) started vault_created.
Proof.
  assert (credentials started = credentials after_create ∧ idempotency started = idempotency after_create) as [Hc Hi]
    by (split; vm_compute; reflexivity).
  destruct rotator_related as [He Hr]. split; cbn [view replays memory_laws] in *; [by rewrite Hc|by rewrite Hi].
Qed.
Lemma started_remaining : remaining started "key-a" = 1%nat.
Proof. vm_compute. reflexivity. Qed.
Lemma created_remaining : remaining after_create "key-a" = 1%nat.
Proof. vm_compute. reflexivity. Qed.
Definition noise (_ : rotationRecord) : reader := stream 72 123.
Lemma noise_long x : (12 ≤ String.length (noise x))%nat.
Proof. vm_compute. lia. Qed.
Lemma noise_long' x : (72 ≤ String.length (noise x))%nat.
Proof. vm_compute. lia. Qed.
End RotationExample.

Section RotationWitnesses.
Import VaultExample RotationExample.
#[local] Existing Instances toy_crypto toy_crypto_laws canonical_order.

Lemma rotation_batch_progress_witness :
  ∃ rot' b', ResumeMasterKeyRotation rotator rotation_id 10 noise 6000 started = (Ok rot', b') ∧
    remaining b' "key-a" = (remaining started "key-a" - 10 `min` remaining started "key-a")%nat.
Proof.
  destruct (rotation_batch_progress rotator rotation_keys_ok started vault_created rotation_id the_rotation 10 noise 6000
    started_related started_found eq_refl ltac:(discriminate) noise_long ltac:(discriminate)
    ltac:(lia) (ex_intro _ _ eq_refl)) as (rot' & b' & Hr & _ & _ & _ & Hrem & _).
  exists rot', b'. exact (conj Hr Hrem).
Defined.

Lemma rotation_completes_witness :
  ∃ rot' b2, FinalizeMasterKeyRotation rotation_id 7000
    (resume_times rotator 1 rotation_id 10 (λ _, noise) 6000 started) = (Ok rot', b2) ∧
    simulates {[ "key-b" := new_master ]} b2 vault_created.
Proof.
  destruct (rotation_completes rotator rotation_keys_ok after_create vault_created (stream 16 77) 5000 the_rotation started
    (mkMasterKey "key-a" (stream 32 5)) 1 10 (λ _, noise) 6000 7000 rotator_related start_result eq_refl
    (λ _, noise_long) ltac:(lia) ltac:(cbn [mkID]; rewrite created_remaining; lia))
    as (rot' & b2 & Hf & _ & _ & _ & Hsim).
  exists rot', b2. exact (conj Hf Hsim).
Defined.

Lemma finalize_fence_witness :
  FinalizeMasterKeyRotation rotation_id 7000 started = (Err ErrRotationNotReady, started).
Proof.
  apply (proj2 (proj1 (finalize_fence started rotation_id the_rotation 7000 started_found eq_refl ltac:(discriminate)))).
  cbn [roSourceKeyID the_rotation]. rewrite started_remaining. discriminate.
Defined.

Definition created_record : EnvRecord := default zero_record (stRecords stored_now !! 1).
Lemma created_version : stRecords stored_now !! 1 = Some created_record.
Proof. vm_compute. reflexivity. Qed.

Lemma the_version_stored :
  ∃ c, credentials after_create !! id = Some c ∧ mOrganizationID (stMetadata c) = "org-a" ∧ is_Some (stRecords c !! 1).
Proof.
  exists stored_now. split; [exact stored_now_found|]. split; [vm_compute; reflexivity|].
  rewrite created_version. eauto.
Qed.

Lemma foreign_version_absent :
  ¬ ∃ c, credentials after_create !! id = Some c ∧ mOrganizationID (stMetadata c) = "org-b" ∧ is_Some (stRecords c !! 1).
Proof.
  intros (c & Hc & Ho & _).
  assert (Some c = Some stored_now) as Heq by exact (eq_trans (eq_sym Hc) stored_now_found).
  apply (f_equal (fmap (λ c, mOrganizationID (stMetadata c)))) in Heq. cbn [fmap option_fmap option_map] in Heq.
  rewrite Ho in Heq. vm_compute in Heq. discriminate.
Qed.

Lemma rotate_credential_exact_witness :
  (∃ b', RotateCredentialKey rotator (mkCredRotation "org-a" id 1) noise 0 after_create = (Ok (), b')) ∧
  RotateCredentialKey rotator (mkCredRotation "org-b" id 1) noise 0 after_create = (Err ErrNotFound, after_create).
Proof.
  destruct (rotate_credential_exact rotator rotation_keys_ok after_create vault_created (mkCredRotation "org-a" id 1) noise 0
    rotator_related ltac:(discriminate) ltac:(discriminate) ltac:(discriminate) noise_long') as [Hok _].
  destruct (rotate_credential_exact rotator rotation_keys_ok after_create vault_created (mkCredRotation "org-b" id 1) noise 0
    rotator_related ltac:(discriminate) ltac:(discriminate) ltac:(discriminate) noise_long') as [_ Hno].
  split.
  - destruct Hok as (b' & c' & r & x & Hr & _).
    + exact the_version_stored.
    + exists b'. exact Hr.
  - apply Hno. exact foreign_version_absent.
Defined.

Lemma started_records : Z.of_nat (length (record_keys started)) < 2 ^ 63.
Proof. vm_compute. reflexivity. Qed.
Lemma started_backups : Z.of_nat (length (retained_keys started)) < 2 ^ 63.
Proof. vm_compute. reflexivity. Qed.

Lemma key_status_exact_witness :
  ∃ st, manager_key_status rotator started = Ok st ∧ (ksDatabaseReferencesCleared st = true ↔
    ∃ p, Previous (keys rotator) = Some p ∧ remaining started (mkID p) = 0%nat ∧
      ∀ i r, rotations started !! i = Some r → roState r = RotationFinalized).
Proof.
  destruct (key_status_exact rotator rotation_keys_ok started started_records started_backups) as (st & Hst & _ & Hd & _).
  exists st. exact (conj Hst Hd).
Defined.
End RotationWitnesses.
