(* ===== verification/Spool.v ===== *)
(** * The authenticated audit spool

    [audit/spool.go] over its two tables: [audit_spool], listed in the order of
    its primary key, and the single row of [audit_chain_state].  A statement
    the database refuses to run is an argument ([up]); a transaction that fails
    is rolled back, which here is an [Err] that carries no new state.  Reads
    that the code issues as separate statements outside a transaction take
    separate snapshots, so that what commits between them is part of the model.

    [jsonb] stands for PostgreSQL: the text a [jsonb] column gives back for the
    document stored in it. *)

From Stdlib Require Import Ascii.
From S2P Require Import Prelude GoStrings Json GoTime TimeParse Crypto AuditEvent.

Inductive AuditError : Type := ErrAudit | ErrSink.
#[export] Instance AuditError_eq_dec : EqDecision AuditError.
Proof. solve_decision. Defined.

(** ** The column type of [event] *)

Class Jsonb : Type := { jsonb : string → option string }.

(** A document whose strings hold no NUL is accepted, and decoding what the
    column returns for a document it accepted gives what was stored, whatever
    layout it returns it in. *)
Definition nul_free (s : string) : bool := forall_bytes (λ a, negb (bz a =? 0)) s.
Class JsonbLaws `{Jsonb} : Prop := {
  jsonb_accepts e s :
    encodable e → Forall (λ t, nul_free t = true) (texts e) → Marshal e = Some s → is_Some (jsonb s);
  jsonb_keeps e s d :
    encodable e → Marshal e = Some s → jsonb s = Some d → Unmarshal d = Some e
}.

Lemma jsonb_stores `{JsonbLaws} e s :
  encodable e → Forall (λ t, nul_free t = true) (texts e) → Marshal e = Some s →
  ∃ d, jsonb s = Some d ∧ Unmarshal d = Some e.
Proof. intros He Hn Hs. destruct (jsonb_accepts e s He Hn Hs) as [d Hd]. eauto using jsonb_keeps. Qed.

(** ** Tables *)

Record row : Type := mkRow {
  rSequence : Z;
  rEvent : string;
  rPrevious : string;
  rMac : string;
  rDelivered : option time
}.
Record chain : Type := mkChain { rows : list row; last_sequence : Z; last_mac : string }.

(** The tables after the migration. *)
Definition empty_chain : chain := mkChain [] 0 "".

Definition undelivered (r : row) : bool := bool_decide (rDelivered r = None).
Definition pending_rows (l : list row) : list row := filter (λ r, undelivered r = true) l.
Definition pending_count (c : chain) : Z := Z.of_nat (length (pending_rows (rows c))).

(** A new primary key takes its place in the order; an existing one is a
    constraint violation. *)
Fixpoint insert_row (r : row) (l : list row) : option (list row) :=
  match l with
  | [] => Some [r]
  | x :: l' => if rSequence r <? rSequence x then Some (r :: l)
               else if rSequence r =? rSequence x then None else cons x <$> insert_row r l'
  end.

(** [CHECK (octet_length(previous_mac) IN (0, 32))], [octet_length(mac) = 32]. *)
Definition row_constraints (r : row) : bool :=
  ((len (rPrevious r) =? 0) || (len (rPrevious r) =? 32)) && (len (rMac r) =? 32).

(** ** The spool *)

Record Spool : Type := mkSpool { key : string; maximumPending : Z }.

Module Record.
Record t : Type := mk { Sequence : Z; Event : AuditEvent.Event; MAC : string }.
End Record.
#[export] Instance Record_eq_dec : EqDecision Record.t.
Proof. solve_decision. Defined.

Definition New (key : string) (maximumPending : Z) : result AuditError Spool :=
  if negb (len key =? 32) || (maximumPending <? 1) then Err ErrAudit else Ok (mkSpool key maximumPending).

Inductive statement : Type :=
  | SelectHead | CountPending | InsertRow | UpdateHead | SelectRows | SelectLast | UpdateDelivered.

Section Spool.
Context `{Crypto, Jsonb}.

Definition authenticate (spool : Spool) (sequence : Z) (previous encoded : string) : string :=
  hmac_sha256 (key spool) (be_bytes 8 (u64 sequence) +:+ previous +:+ encoded).

Definition AppendTx (spool : Spool) (up : statement → bool) (c : chain) (event : Event)
  : result AuditError chain :=
  _ ← guard_err (negb (validate event)) ErrAudit;
  _ ← guard_err (negb (up SelectHead)) ErrAudit;
  let sequence := last_sequence c in
  let previous := last_mac c in
  _ ← guard_err (negb (up CountPending) || (maximumPending spool <=? pending_count c)) ErrAudit;
  let sequence := i64 (sequence + 1) in
  encoded ← of_option ErrAudit (Marshal event);
  let mac := authenticate spool sequence previous encoded in
  document ← of_option ErrAudit (jsonb encoded);
  let r := mkRow sequence document previous mac None in
  _ ← guard_err (negb (up InsertRow) || negb (row_constraints r)) ErrAudit;
  table ← of_option ErrAudit (insert_row r (rows c));
  _ ← guard_err (negb (up UpdateHead)) ErrAudit;
  Ok (mkChain table sequence mac).

(** A stored document, decoded and encoded again. *)
Definition canonical (document : string) : option (Event * string) :=
  event ← Unmarshal document; encoded ← Marshal event; Some (event, encoded).

Definition pending_record (spool : Spool) (r : row) : option Record.t :=
  '(event, encoded) ← canonical (rEvent r);
  if negb (String.eqb (rMac r) (authenticate spool (rSequence r) (rPrevious r) encoded)) then None
  else Some (Record.mk (rSequence r) event (rMac r)).

(** The three statements see [c1], [c2] and [c3]. *)
Definition Pending (spool : Spool) (up : statement → bool) (c1 c2 c3 : chain) (limit : Z)
  : result AuditError (list Record.t) :=
  _ ← guard_err ((limit <? 1) || (1000 <? limit)) ErrAudit;
  _ ← guard_err (negb (up SelectRows)) ErrAudit;
  records ← of_option ErrAudit
    (mapM (pending_record spool) (take (Z.to_nat limit) (pending_rows (rows c1))));
  _ ← guard_err (negb (up SelectHead)) ErrAudit;
  if 0 <? last_sequence c2 then
    _ ← guard_err (negb (up SelectLast)) ErrAudit;
    r ← of_option ErrAudit (last (rows c3));
    _ ← guard_err (negb (last_sequence c2 =? rSequence r) || negb (String.eqb (last_mac c2) (rMac r))) ErrAudit;
    Ok records
  else Ok records.

(** [UPDATE audit_spool SET delivered_at ...] and the rows it affects. *)
Definition marks (sequence : Z) (mac : string) (r : row) : bool :=
  (rSequence r =? sequence) && String.eqb (rMac r) mac && undelivered r.
Definition set_delivered (deliveredAt : time) (r : row) : row :=
  mkRow (rSequence r) (rEvent r) (rPrevious r) (rMac r) (Some (UTC deliveredAt)).

(** A statement that fails changes nothing: an UPDATE that took effect without
    being acknowledged is not modelled. *)
Definition MarkDelivered (up : statement → bool) (c : chain) (sequence : Z) (mac : string) (deliveredAt : time)
  : result AuditError chain :=
  _ ← guard_err ((sequence <? 1) || negb (len mac =? 32) || IsZero deliveredAt) ErrAudit;
  _ ← guard_err (negb (up UpdateDelivered)) ErrAudit;
  _ ← guard_err (negb (count_by (marks sequence mac) (rows c) =? 1)) ErrAudit;
  Ok (mkChain ((λ r, if marks sequence mac r then set_delivered deliveredAt r else r) <$> rows c)
              (last_sequence c) (last_mac c)).

Fixpoint verify_rows (spool : Spool) (expectedSequence : Z) (previous : string) (l : list row)
  : option (Z * string) :=
  match l with
  | [] => Some (expectedSequence, previous)
  | r :: l' =>
      '(_, encoded) ← canonical (rEvent r);
      let expectedSequence := i64 (expectedSequence + 1) in
      if negb (rSequence r =? expectedSequence) || negb (String.eqb (rPrevious r) previous) ||
         negb (String.eqb (rMac r) (authenticate spool (rSequence r) previous encoded)) then None
      else verify_rows spool expectedSequence (rMac r) l'
  end.

(** The rows are read from [c1], the head from [c2]. *)
Definition Verify (spool : Spool) (up : statement → bool) (c1 c2 : chain) : result AuditError () :=
  _ ← guard_err (negb (up SelectRows)) ErrAudit;
  '(expectedSequence, previous) ← of_option ErrAudit (verify_rows spool 0 "" (rows c1));
  guard_err (negb (up SelectHead) || negb (last_sequence c2 =? expectedSequence) ||
             negb (String.eqb (last_mac c2) previous)) ErrAudit.

Definition PendingCount (spool : Spool) (up : statement → bool) (c : chain) : result AuditError (Z * Z) :=
  _ ← guard_err (negb (up CountPending)) ErrAudit; Ok (pending_count c, maximumPending spool).

(** *** Recording outside a state change *)

(** How a commit ends: acknowledged, refused, or lost on the way back after
    the server has applied it. *)
Inductive commit : Type := Committed | Refused | Unacknowledged.

Record Recorder : Type := mkRecorder { spool_of : Spool; degraded : bool }.

(** The error, the tables and the recorder afterwards. *)
Definition Recorder_Record (recorder : Recorder) (begins : bool) (up : statement → bool) (outcome : commit)
  (c : chain) (event : Event) : result AuditError () * chain * Recorder :=
  let failed c := (Err ErrAudit, c, mkRecorder (spool_of recorder) true) in
  if negb begins then failed c
  else match AppendTx (spool_of recorder) up c event with
       | Err _ => failed c
       | Ok c' => match outcome with
                  | Committed => (Ok (), c', recorder)
                  | Refused => failed c
                  | Unacknowledged => failed c'
                  end
       end.
End Spool.

Definition all_up : statement → bool := λ _, true.

(** ** Lemmas *)

Lemma pending_rows_app l k : pending_rows (l ++ k) = pending_rows l ++ pending_rows k.
Proof. apply filter_app. Qed.

Lemma insert_row_last r l :
  Forall (λ x, rSequence x < rSequence r) l → insert_row r l = Some (l ++ [r]).
Proof.
  induction 1 as [|x l Hx Hl IH]; [done|]. simpl.
  rewrite (proj2 (Z.ltb_ge _ _)), (proj2 (Z.eqb_neq _ _)), IH by lia. done.
Qed.

(** Identifiers a valid event may hold contain no NUL. *)
Lemma clean_nul_free s : clean s = true → nul_free s = true.
Proof.
  unfold clean, ContainsAny, nul_free. rewrite negb_true_iff. intros [_ Hs]%orb_false_elim.
  apply negb_false_iff in Hs. eapply forall_bytes_impl, Hs. intros a. simpl.
  rewrite !negb_true_iff. intros Ha. by apply orb_false_elim in Ha as [Ha _].
Qed.

Lemma token_nul_free s : token s = true → nul_free s = true.
Proof.
  unfold token. case_match; [done|]. intros Ht. unfold range_string in Ht.
  rewrite (rune_loop_bytes token_rune) in Ht.
  - eapply forall_bytes_impl, Ht. intros a Ha. apply negb_true_iff, Z.eqb_neq. intros E.
    unfold token_rune in Ha. by rewrite E in Ha.
  - intros r Hr. unfold token_rune, in_range. bool_prop.
    repeat split; first [apply andb_false_iff; right; apply Z.leb_gt; lia | lia].
Qed.

Lemma known_nul_free s l :
  forallb nul_free l = true → known s l = true → nul_free s = true.
Proof.
  intros Hl Hs. apply bool_decide_eq_true in Hs. rewrite forallb_forall in Hl.
  apply Hl. by apply list_elem_of_In.
Qed.

Lemma validate_nul_free e : validate e = true → Forall (λ t, nul_free t = true) (texts e).
Proof.
  intros (_ & _ & Ht & Ho & Hr & Hc & Hl & Hi)%validate_iff. unfold texts. apply Forall_app_2; [repeat apply Forall_cons_2; [..|constructor]|].
  - eapply known_nul_free, Ht. done.
  - eapply known_nul_free, Ho. done.
  - eapply known_nul_free, Hr. done.
  - by apply token_nul_free.
  - destruct Hl as [-> |]; [done|by apply token_nul_free].
  - apply Forall_forall. intros s Hs. apply clean_nul_free. rewrite forallb_forall in Hi.
    apply Hi. by apply list_elem_of_In.
Qed.

Section SpoolLemmas.
Context `{CryptoLaws, JsonbLaws}.
Implicit Types (spool : Spool) (c : chain) (e : Event).

Lemma len_authenticate spool n p x : len (authenticate spool n p x) = 32.
Proof. apply len_hmac. Qed.

Lemma canonical_stored e s d :
  encodable e → Marshal e = Some s → Unmarshal d = Some e → canonical d = Some (e, s).
Proof. intros He Hs Hd. unfold canonical. rewrite Hd. simpl. by rewrite Hs. Qed.

Lemma verify_rows_app spool n p l k :
  verify_rows spool n p (l ++ k) = '(n', p') ← verify_rows spool n p l; verify_rows spool n' p' k.
Proof.
  revert n p. induction l as [|r l IH]; intros n p; [done|]. simpl.
  destruct (canonical (rEvent r)) as [[ev s]|]; [|done]. simpl. case_match; [done|]. apply IH.
Qed.

Lemma verify_rows_cons spool n p r l n' p' :
  verify_rows spool n p (r :: l) = Some (n', p') ↔
  ∃ ev s, canonical (rEvent r) = Some (ev, s) ∧ rSequence r = i64 (n + 1) ∧ rPrevious r = p ∧
    rMac r = authenticate spool (rSequence r) p s ∧ verify_rows spool (rSequence r) (rMac r) l = Some (n', p').
Proof.
  simpl. destruct (canonical (rEvent r)) as [[ev s]|]; simpl; [|naive_solver]. split.
  - intros Hv. case_match; [done|]. bool_prop. destruct H3 as [[-> ->] ?]. eauto 10.
  - intros (ev' & s' & ? & Hs & Hp & Hm & Hv). simplify_eq.
    rewrite <-Hs, Z.eqb_refl, String.eqb_refl, (proj2 (String.eqb_eq _ _)) by done. done.
Qed.

(** A verified chain is numbered without gaps and the MACs are full digests. *)
Lemma verify_rows_numbered spool n p l n' p' :
  verify_rows spool n p l = Some (n', p') → 0 ≤ n → n + Z.of_nat (length l) < 2 ^ 63 →
  n' = n + Z.of_nat (length l) ∧ rSequence <$> l = seqZ (n + 1) (Z.of_nat (length l)) ∧
  Forall (λ r, len (rMac r) = 32) l.
Proof.
  revert n p. induction l as [|r l IH]; intros n p Hv Hn Hlt.
  - simpl in *. simplify_eq. split; [lia|]. split; [done|constructor].
  - apply verify_rows_cons in Hv as (ev & s & _ & Hs & _ & Hm & Hv).
    cbn [length] in Hlt. rewrite i64_small in Hs by lia.
    destruct (IH (rSequence r) (rMac r)) as (-> & Hl & Hf); [done|lia|lia|].
    cbn [length]. split; [lia|]. split.
    + rewrite seqZ_cons by lia. rewrite fmap_cons, Hl. f_equal; [done|]. f_equal; lia.
    + constructor; [rewrite Hm; apply len_authenticate|done].
Qed.

Lemma verify_rows_last spool n p l n' p' :
  verify_rows spool n p l = Some (n', p') →
  match last l with Some r => n' = rSequence r ∧ p' = rMac r | None => n' = n ∧ p' = p end.
Proof.
  revert n p. induction l as [|r l IH]; intros n p Hv; [by simplify_eq/=|].
  apply verify_rows_cons in Hv as (ev & s & _ & _ & _ & _ & Hv). apply IH in Hv.
  destruct l as [|x l]; [by destruct Hv|]. change (last (r :: x :: l)) with (last (x :: l)).
  destruct (last (x :: l)) eqn:E; [done|]. by apply last_None in E.
Qed.

Lemma Verify_Ok spool c1 c2 :
  Verify spool all_up c1 c2 = Ok () ↔
  verify_rows spool 0 "" (rows c1) = Some (last_sequence c2, last_mac c2).
Proof.
  unfold Verify. change (all_up SelectRows) with true. cbn [negb guard_err mbind result_bind].
  destruct (verify_rows spool 0 "" (rows c1)) as [[n p]|]; [|split; intros ?; discriminate].
  cbn [of_option mbind result_bind]. rewrite guard_err_Ok. change (all_up SelectHead) with true. simpl. bool_prop.
  split; [by intros [-> ->]|intros [= -> ->]; done].
Qed.

(** Sequence numbers still to give out. *)
Definition room (c : chain) : Prop := Z.of_nat (length (rows c)) < max_int64.

(** The facts about a verified spool the theorems use. *)
Record verified spool c : Prop := {
  vf_rows : verify_rows spool 0 "" (rows c) = Some (last_sequence c, last_mac c);
  vf_last : last_sequence c = Z.of_nat (length (rows c));
  vf_numbers : rSequence <$> rows c = seqZ 1 (Z.of_nat (length (rows c)));
  vf_macs : Forall (λ r, len (rMac r) = 32) (rows c);
  vf_head : len (last_mac c) = 0 ∨ len (last_mac c) = 32
}.

Lemma Verify_verified spool c : room c → Verify spool all_up c c = Ok () ↔ verified spool c.
Proof.
  intros Hroom. rewrite Verify_Ok. split; [|by intros []]. intros Hv. unfold room, max_int64 in Hroom.
  destruct (verify_rows_numbered _ _ _ _ _ _ Hv) as (Hn & Hl & Hm); [done|lia|].
  split; [done|lia|done|done|]. apply verify_rows_last in Hv.
  destruct (last (rows c)) as [r|] eqn:E; [|left; by destruct Hv as [_ ->]].
  right. destruct Hv as [_ ->]. rewrite Forall_forall in Hm. apply Hm.
  apply last_Some in E as [l ->]. set_solver.
Qed.

Lemma verified_NoDup spool c : verified spool c → NoDup (rSequence <$> rows c).
Proof. intros []. rewrite vf_numbers0. apply NoDup_seqZ. Qed.

Lemma verified_below spool c :
  verified spool c → Forall (λ r, 1 ≤ rSequence r ≤ last_sequence c) (rows c).
Proof.
  intros []. apply Forall_forall. intros r Hr.
  assert (rSequence r ∈ rSequence <$> rows c) as Hin by (apply list_elem_of_fmap; eauto).
  rewrite vf_numbers0, elem_of_seqZ in Hin. lia.
Qed.

(** The row [AppendTx] adds. *)
Definition appended spool c (document encoded : string) : row :=
  mkRow (last_sequence c + 1) document (last_mac c)
    (authenticate spool (last_sequence c + 1) (last_mac c) encoded) None.

Lemma AppendTx_compute spool c e :
  verified spool c → room c → encodable e → validate e = true → pending_count c < maximumPending spool →
  ∃ d s, Marshal e = Some s ∧ Unmarshal d = Some e ∧
    AppendTx spool all_up c e =
      Ok (mkChain (rows c ++ [appended spool c d s]) (last_sequence c + 1) (rMac (appended spool c d s))).
Proof.
  intros Hv Hroom He Hval Hpend. destruct (Marshal_total e He) as [s Hs].
  destruct (jsonb_stores e s He (validate_nul_free e Hval) Hs) as (d & Hd & Hu).
  exists d, s. split; [done|]. split; [done|]. unfold AppendTx. rewrite Hval. unfold all_up.
  rewrite (proj2 (Z.leb_gt _ _)) by done. cbn [negb orb guard_err mbind result_bind].
  rewrite Hs. cbn [of_option mbind result_bind]. rewrite Hd. cbn [of_option mbind result_bind].
  unfold room, max_int64 in Hroom. pose proof (vf_last _ _ Hv) as Hlast.
  rewrite i64_small by lia. fold (appended spool c d s).
  assert (row_constraints (appended spool c d s) = true) as ->.
  { unfold row_constraints, appended. cbn [rPrevious rMac]. rewrite len_authenticate.
    destruct (vf_head _ _ Hv) as [->| ->]; done. }
  cbn [negb guard_err mbind result_bind]. rewrite insert_row_last; [done|].
  eapply Forall_impl; [by eapply verified_below|]. intros r Hr. cbn [rSequence appended]. simpl in Hr. lia.
Qed.

Lemma appended_verified spool c e d s :
  verified spool c → Z.of_nat (length (rows c)) < max_int64 - 1 → encodable e → Marshal e = Some s → Unmarshal d = Some e →
  verified spool (mkChain (rows c ++ [appended spool c d s]) (last_sequence c + 1) (rMac (appended spool c d s))).
Proof.
  intros Hv Hroom He Hs Hu. unfold max_int64 in Hroom. apply Verify_verified.
  - unfold room, max_int64. cbn [rows]. rewrite length_app. cbn [length]. lia.
  - apply Verify_Ok. cbn [rows last_sequence last_mac]. rewrite verify_rows_app, (vf_rows _ _ Hv).
    cbn [mbind option_bind]. rewrite verify_rows_cons. exists e, s. cbn [rEvent rSequence rPrevious rMac appended].
    rewrite (canonical_stored e s) by done. pose proof (vf_last _ _ Hv). rewrite i64_small by lia. done.
Qed.

(** The events of the spool, in order. *)
Definition events (c : chain) : list Event := omap (λ r, Unmarshal (rEvent r)) (rows c).

Lemma pending_count_app c r n m :
  pending_count (mkChain (rows c ++ [r]) n m) = pending_count c + (if undelivered r then 1 else 0).
Proof.
  unfold pending_count. cbn [rows]. rewrite pending_rows_app, length_app. unfold pending_rows at 2.
  rewrite filter_cons. destruct (undelivered r); cbn [decide bool_decide]; simpl; lia.
Qed.

Lemma AppendTx_down spool up c e st :
  st ∈ [SelectHead; CountPending; InsertRow; UpdateHead] → up st = false → AppendTx spool up c e = Err ErrAudit.
Proof.
  intros Hin Hdown. unfold AppendTx. destruct (validate e); [|done]. simpl.
  destruct (up SelectHead) eqn:E1; [|done]. simpl.
  destruct (negb (up CountPending) || _) eqn:E2; [done|]. simpl.
  destruct (Marshal e); [|done]. simpl. destruct (jsonb _); [|done]. simpl.
  destruct (negb (up InsertRow) || _) eqn:E3; [done|]. simpl. destruct (insert_row _ _); [|done]. simpl.
  destruct (up UpdateHead) eqn:E4; [|done]. exfalso. bool_prop. rewrite !elem_of_cons in Hin.
  destruct E2 as [E2 _], E3 as [E3 _]. destruct Hin as [->|[->|[->|[->|Hin]]]]; try congruence.
  by apply not_elem_of_nil in Hin.
Qed.

Lemma AppendTx_refused spool c e :
  validate e && (pending_count c <? maximumPending spool) = false → AppendTx spool all_up c e = Err ErrAudit.
Proof.
  intros Hb. unfold AppendTx. destruct (validate e); [|done]. simpl in *. apply Z.ltb_ge in Hb.
  by rewrite (proj2 (Z.leb_le _ _)).
Qed.

(** C16: [AppendTx] does exactly this on a spool that verifies: a valid event is
    appended while the number of undelivered ones is below the configured
    maximum, in one new undelivered row that leaves the others alone, and the
    spool verifies afterwards and holds at most the maximum; at the maximum, or
    for an invalid event, and whenever the database refuses a statement, it
    fails, and gives the transaction it runs in no chain to commit. *)
Theorem append_exact spool c e :
  Verify spool all_up c c = Ok () → Z.of_nat (length (rows c)) < max_int64 - 1 → encodable e →
  (∀ up s, s ∈ [SelectHead; CountPending; InsertRow; UpdateHead] → up s = false →
     AppendTx spool up c e = Err ErrAudit) ∧
  if validate e && (pending_count c <? maximumPending spool) then
    ∃ c' r, AppendTx spool all_up c e = Ok c' ∧ Verify spool all_up c' c' = Ok () ∧
      rows c' = rows c ++ [r] ∧ rDelivered r = None ∧ events c' = events c ++ [e] ∧
      last_sequence c' = last_sequence c + 1 ∧
      pending_count c' = pending_count c + 1 ∧ pending_count c' ≤ maximumPending spool
  else AppendTx spool all_up c e = Err ErrAudit.
Proof.
  intros Hv Hroom He. assert (room c) as Hr by (unfold room; lia).
  apply Verify_verified in Hv; [|done]. split; [intros up st; apply AppendTx_down|].
  destruct (validate e && _) eqn:Hb; [|by apply AppendTx_refused].
  apply andb_prop in Hb as [Hval Hpend]. apply Z.ltb_lt in Hpend.
  destruct (AppendTx_compute spool c e) as (d & s & Hs & Hu & Ha); [done..|].
  rewrite Ha. eexists _, (appended spool c d s). split; [done|].
  split. { apply Verify_verified, appended_verified with e; try done.
    unfold room. cbn [rows]. rewrite length_app. simpl. lia. }
  split; [done|]. split; [done|]. split.
  { unfold events. cbn [rows]. rewrite omap_app. simpl. by rewrite Hu. }
  split; [done|]. rewrite pending_count_app. simpl. lia.
Qed.

(** *** Tampering *)

(** Two rows that authenticate the same record. *)
Definition same_record (r r' : row) : Prop :=
  rSequence r = rSequence r' ∧ rPrevious r = rPrevious r' ∧ rMac r = rMac r' ∧
  snd <$> canonical (rEvent r) = snd <$> canonical (rEvent r').

(** The messages the digests of rows are taken of. *)
Definition authenticated (r : row) : option string :=
  (λ x, be_bytes 8 (u64 (rSequence r)) +:+ rPrevious r +:+ snd x) <$> canonical (rEvent r).
Definition messages (l : list row) : list string := omap authenticated l.

Lemma authenticated_message r ev s l :
  r ∈ l → canonical (rEvent r) = Some (ev, s) → be_bytes 8 (u64 (rSequence r)) +:+ rPrevious r +:+ s ∈ messages l.
Proof. intros Hr Hc. apply list_elem_of_omap. exists r. split; [done|]. unfold authenticated. by rewrite Hc. Qed.
Lemma messages_app l l' : messages (l ++ l') = messages l ++ messages l'.
Proof. apply omap_app. Qed.

Lemma verify_rows_head_len spool l n p :
  Z.of_nat (length l) < max_int64 → verify_rows spool 0 "" l = Some (n, p) →
  len p = if bool_decide (l = []) then 0 else 32.
Proof.
  intros Hroom Hv. unfold max_int64 in Hroom.
  destruct (verify_rows_numbered _ _ _ _ _ _ Hv) as (_ & _ & Hf); [done|lia|].
  apply verify_rows_last in Hv. destruct l as [|x l _] using rev_ind; [by destruct Hv as [_ ->]|].
  rewrite last_snoc in Hv. destruct Hv as [_ ->]. rewrite bool_decide_eq_false_2 by (by destruct l).
  rewrite Forall_forall in Hf. apply Hf. set_solver.
Qed.

Lemma verify_rows_snoc spool l r n p :
  verify_rows spool 0 "" (l ++ [r]) = Some (n, p) →
  ∃ m q ev s, verify_rows spool 0 "" l = Some (m, q) ∧ canonical (rEvent r) = Some (ev, s) ∧
    rSequence r = n ∧ rSequence r = i64 (m + 1) ∧ rPrevious r = q ∧ rMac r = p ∧
    rMac r = authenticate spool (rSequence r) q s.
Proof.
  rewrite verify_rows_app. destruct (verify_rows spool 0 "" l) as [[m q]|]; [|done].
  cbn [mbind option_bind]. intros Hv. apply verify_rows_cons in Hv as (ev & s & Hc & Hn & Hp & Hm & Hv).
  simpl in Hv. simplify_eq. by exists m, (rPrevious r), ev, s.
Qed.

Lemma verify_rows_same spool l l' n p :
  Z.of_nat (length l) < max_int64 → length l = length l' →
  collision_free (hmac_sha256 (key spool)) (messages l ++ messages l') →
  verify_rows spool 0 "" l = Some (n, p) → verify_rows spool 0 "" l' = Some (n, p) →
  Forall2 same_record l l'.
Proof.
  revert l' n p. induction l as [|r l IH] using rev_ind; intros l' n p Hroom Hlen Hfree Hv Hv'.
  - destruct l'; [constructor|done].
  - destruct l' as [|r' l' _] using rev_ind; [rewrite length_app in Hlen; simpl in Hlen; lia|].
    rewrite !length_app in *. simpl in *.
    apply verify_rows_snoc in Hv as (m & q & ev & s & E & Hc & Hs & Hn & Hp & Hm & Ha).
    apply verify_rows_snoc in Hv' as (m' & q' & ev' & s' & E' & Hc' & Hs' & Hn' & Hp' & Hm' & Ha').
    pose proof (verify_rows_head_len _ l _ _ ltac:(lia) E) as Hq.
    pose proof (verify_rows_head_len _ l' _ _ ltac:(lia) E') as Hq'.
    assert (q = q' ∧ s = s') as [-> ->].
    { assert (be_bytes 8 (u64 n) +:+ q +:+ s = be_bytes 8 (u64 n) +:+ q' +:+ s') as He.
      { apply Hfree; [apply elem_of_app; left|apply elem_of_app; right|unfold authenticate in Ha, Ha'; congruence].
        - rewrite <-Hs at 1. rewrite <-Hp at 1. eapply authenticated_message; [|exact Hc]. set_solver.
        - rewrite <-Hs' at 1. rewrite <-Hp' at 1. eapply authenticated_message; [|exact Hc']. set_solver. }
      apply app_inv_len in He as [_ He]; [|done]. apply app_inv_len; [|done].
      assert (l = [] ↔ l' = []) as Hnil by (destruct l, l'; simpl in Hlen; split; intros; (done || lia)).
      assert (len q = len q') as Hqq; [|unfold len in Hqq; lia]. rewrite Hq, Hq'.
      by rewrite (bool_decide_ext _ _ Hnil). }
    assert (m = m') as ->.
    { unfold max_int64 in *. apply verify_rows_numbered in E as (E & _), E' as (E' & _); [|lia..].
      rewrite E, E'. lia. }
    apply Forall2_app.
    { apply (IH l' m' q'); [lia|lia| |done|done]. eapply collision_free_sub; [|exact Hfree]. rewrite !messages_app. set_solver. } repeat constructor; [congruence..|]. by rewrite Hc, Hc'.
Qed.

(** C15: the spool is tamper evident: whatever was done to its rows, if it still
    verifies against a head then it holds, record for record, what every other
    spool with this head that verifies holds: the same number of records under
    the same sequence numbers and digests, each with the same canonical event.
    Editing, removing, inserting or reordering records while the head stays makes
    verification fail.  It is assumed that the keyed digest does not collide on
    the messages authenticated in the two spools. *)
Theorem tamper_evident spool c1 c2 :
  room c1 → room c2 → Verify spool all_up c1 c1 = Ok () → Verify spool all_up c2 c2 = Ok () →
  last_sequence c1 = last_sequence c2 → last_mac c1 = last_mac c2 →
  collision_free (hmac_sha256 (key spool)) (messages (rows c1) ++ messages (rows c2)) →
  Forall2 same_record (rows c1) (rows c2).
Proof.
  intros Hr1 Hr2 [Hv1 Hl1 _ _ _]%Verify_verified [Hv2 Hl2 _ _ _]%Verify_verified Hs Hm Hfree; [|done..].
  rewrite Hs, Hm in Hv1. eapply verify_rows_same; [done|lia|done|done|done].
Qed.

(** *** Delivery *)

(** A record is what the spool holds in its row. *)
Definition record_of_row (r : row) (rec : Record.t) : Prop :=
  Record.Sequence rec = rSequence r ∧ Record.MAC rec = rMac r ∧ Unmarshal (rEvent r) = Some (Record.Event rec).

Lemma verify_rows_canonical spool n p l n' p' :
  verify_rows spool n p l = Some (n', p') → Forall (λ r, is_Some (pending_record spool r)) l.
Proof.
  revert n p. induction l as [|r l IH]; intros n p Hv; [constructor|].
  apply verify_rows_cons in Hv as (ev & s & Hc & _ & Hp & Hm & Hv). constructor; [|by eapply IH].
  unfold pending_record. rewrite Hc. cbn [mbind option_bind]. subst p.
  by rewrite (proj2 (String.eqb_eq _ _) Hm).
Qed.

Lemma pending_record_of spool r rec : pending_record spool r = Some rec → record_of_row r rec.
Proof.
  unfold pending_record, canonical. destruct (Unmarshal (rEvent r)) as [ev|] eqn:Hu; [|done].
  cbn [mbind option_bind]. destruct (Marshal ev) as [s|]; [|done]. cbn [mbind option_bind].
  case_match; [done|]. intros. simplify_eq. by split_and!.
Qed.

Lemma head_matches spool c :
  verified spool c → 0 < last_sequence c →
  ∃ r, last (rows c) = Some r ∧ last_sequence c = rSequence r ∧ last_mac c = rMac r.
Proof.
  intros Hv Hpos. pose proof (verify_rows_last _ _ _ _ _ _ (vf_rows _ _ Hv)) as Hl.
  pose proof (vf_last _ _ Hv). destruct (last (rows c)) as [r|] eqn:E; [by exists r|].
  apply last_None in E. rewrite E in *. simpl in *. lia.
Qed.

Lemma Pending_verified spool c limit :
  verified spool c → 1 ≤ limit ≤ 1000 →
  ∃ records, Pending spool all_up c c c limit = Ok records ∧
    Forall2 record_of_row (take (Z.to_nat limit) (pending_rows (rows c))) records.
Proof.
  intros Hv Hlimit. pose proof (verify_rows_canonical _ _ _ _ _ _ (vf_rows _ _ Hv)) as Hc.
  assert (Forall (λ r, is_Some (pending_record spool r)) (take (Z.to_nat limit) (pending_rows (rows c)))) as Hp.
  { apply Forall_take, Forall_forall. intros r [_ Hr]%list_elem_of_filter. rewrite Forall_forall in Hc. auto. }
  destruct (mapM (pending_record spool) (take (Z.to_nat limit) (pending_rows (rows c)))) as [records|] eqn:E.
  - exists records. split.
    + unfold Pending. rewrite (proj2 (Z.ltb_ge limit 1)), (proj2 (Z.ltb_ge 1000 limit)) by lia. cbn [orb guard_err mbind result_bind]. unfold all_up.
      cbn [negb guard_err mbind result_bind]. rewrite E. cbn [of_option mbind result_bind].
      destruct (0 <? last_sequence c) eqn:Epos; [|done]. apply Z.ltb_lt in Epos.
      destruct (head_matches _ _ Hv Epos) as (r & -> & -> & ->). cbn [of_option mbind result_bind].
      by rewrite Z.eqb_refl, String.eqb_refl.
    + apply mapM_Some in E. eapply Forall2_impl; [exact E|]. intros r rec. apply pending_record_of.
  - exfalso. apply mapM_None in E. apply Exists_exists in E as (r & Hr & E).
    rewrite Forall_forall in Hp. destruct (Hp r Hr) as [x Hx]. congruence.
Qed.

(** Marking leaves everything authenticated alone. *)
Lemma verify_rows_mark spool n p l f :
  (∀ r, rSequence (f r) = rSequence r ∧ rEvent (f r) = rEvent r ∧ rPrevious (f r) = rPrevious r ∧ rMac (f r) = rMac r) →
  verify_rows spool n p (f <$> l) = verify_rows spool n p l.
Proof.
  intros Hf. revert n p. induction l as [|r l IH]; intros n p; [done|]. cbn [fmap list_fmap verify_rows].
  destruct (Hf r) as (-> & -> & -> & ->). destruct (canonical (rEvent r)) as [[ev s]|]; [|done].
  cbn [mbind option_bind]. case_match; [done|]. apply IH.
Qed.

Definition mark (sequence : Z) (mac : string) (t : time) (r : row) : row :=
  if marks sequence mac r then set_delivered t r else r.

Lemma mark_same sequence mac t r :
  rSequence (mark sequence mac t r) = rSequence r ∧ rEvent (mark sequence mac t r) = rEvent r ∧
  rPrevious (mark sequence mac t r) = rPrevious r ∧ rMac (mark sequence mac t r) = rMac r.
Proof. unfold mark. by case_match. Qed.

Lemma undelivered_mark sequence mac t r :
  undelivered (mark sequence mac t r) = undelivered r && negb (marks sequence mac r).
Proof.
  unfold mark. destruct (marks sequence mac r) eqn:E; simpl.
  - by rewrite andb_false_r.
  - by rewrite andb_true_r.
Qed.

(** Sequence numbers identify rows. *)
Lemma marks_unique r l :
  NoDup (rSequence <$> l) → r ∈ l → undelivered r = true →
  count_by (marks (rSequence r) (rMac r)) l = 1.
Proof.
  intros Hnd Hin Hu. induction l as [|x l IH]; [by apply not_elem_of_nil in Hin|].
  rewrite fmap_cons in Hnd. apply NoDup_cons in Hnd as [Hx Hnd].
  unfold count_by in *. cbn [sum_by foldr]. fold (sum_by (λ x, if marks (rSequence r) (rMac r) x then 1 else 0) l).
  apply elem_of_cons in Hin as [<-|Hin].
  - unfold marks at 1. rewrite Z.eqb_refl, String.eqb_refl, Hu. cbn [andb].
    assert (count_by (marks (rSequence r) (rMac r)) l = 0) as Hz; [|unfold count_by in Hz; lia].
    apply count_by_zero. apply Forall_forall. intros y Hy. unfold marks.
    destruct (rSequence y =? rSequence r) eqn:E; [|done]. bool_facts. exfalso. apply Hx.
    rewrite <-E. apply list_elem_of_fmap. by exists y.
  - rewrite IH by done. unfold marks. destruct (rSequence x =? rSequence r) eqn:E; [|done]. bool_facts.
    exfalso. apply Hx. rewrite E. apply list_elem_of_fmap. by exists r.
Qed.

Lemma MarkDelivered_row spool c r t :
  verified spool c → r ∈ rows c → undelivered r = true → t ≠ zero_time →
  MarkDelivered all_up c (rSequence r) (rMac r) t =
    Ok (mkChain (mark (rSequence r) (rMac r) t <$> rows c) (last_sequence c) (last_mac c)).
Proof.
  intros Hv Hin Hu Ht. unfold MarkDelivered.
  pose proof (verified_below _ _ Hv) as Hb. rewrite Forall_forall in Hb. specialize (Hb _ Hin).
  pose proof (vf_macs _ _ Hv) as Hm. rewrite Forall_forall in Hm.
  rewrite (proj2 (Z.ltb_ge _ _)), (Hm _ Hin) by lia. unfold IsZero. rewrite (proj2 (Z.eqb_neq t 0)) by done.
  cbn [orb negb guard_err mbind result_bind]. unfold all_up. cbn [negb guard_err mbind result_bind Z.eqb Pos.eqb].
  by rewrite (marks_unique r (rows c)) by (done || by eapply verified_NoDup).
Qed.

Lemma mark_verified spool c sequence mac t :
  verified spool c → verified spool (mkChain (mark sequence mac t <$> rows c) (last_sequence c) (last_mac c)).
Proof.
  intros []. split; cbn [rows last_sequence last_mac]; rewrite ?length_fmap; try done.
  - by rewrite verify_rows_mark by apply mark_same.
  - rewrite <-vf_numbers0, <-list_fmap_compose. apply list_fmap_ext. intros i r _. apply mark_same.
  - apply Forall_fmap. eapply Forall_impl; [exact vf_macs0|]. intros r Hr. simpl.
    by rewrite (proj2 (proj2 (proj2 (mark_same _ _ _ r)))).
Qed.

Lemma marks_same_row l r x :
  NoDup (rSequence <$> l) → r ∈ l → x ∈ l → rSequence x = rSequence r → x = r.
Proof.
  intros Hnd Hr Hx Hs. apply list_elem_of_lookup in Hr as [i Hi], Hx as [j Hj].
  assert (i = j) as ->; [|congruence].
  eapply NoDup_lookup; [exact Hnd|rewrite list_lookup_fmap, Hi; done|rewrite list_lookup_fmap, Hj; simpl; congruence].
Qed.

Lemma pending_rows_mark l r t :
  NoDup (rSequence <$> l) → r ∈ l → undelivered r = true →
  pending_rows (mark (rSequence r) (rMac r) t <$> l) = filter (λ x, rSequence x ≠ rSequence r) (pending_rows l).
Proof.
  intros Hnd Hin Hu. assert (∀ x, x ∈ l → marks (rSequence r) (rMac r) x = bool_decide (rSequence x = rSequence r)) as Hm.
  { intros x Hx. case_bool_decide as E.
    - rewrite (marks_same_row l r x) by done. unfold marks. by rewrite Z.eqb_refl, String.eqb_refl, Hu.
    - unfold marks. by rewrite (proj2 (Z.eqb_neq _ _)). }
  clear Hnd Hin. induction l as [|x l IH]; [done|].
  rewrite fmap_cons. unfold pending_rows in *. rewrite !filter_cons, undelivered_mark, Hm by set_solver.
  rewrite IH by (intros y Hy; apply Hm; set_solver).
  destruct (undelivered x) eqn:Ux; cbn [andb]; [|by destruct (decide (false = true))].
  destruct (decide (true = true)) as [_|]; [|done]. rewrite filter_cons.
  case_bool_decide as E; cbn [negb].
  - destruct (decide (false = true)); [done|]. by destruct (decide (rSequence x ≠ rSequence r)).
  - destruct (decide (true = true)) as [_|]; [|done].
    destruct (decide (rSequence x ≠ rSequence r)); [|done]. f_equal.
    unfold mark. by rewrite Hm, bool_decide_eq_false_2 by set_solver.
Qed.

(** Delivery reads the spool in order and takes from it exactly what was
    delivered: on a spool that verifies, [Pending] returns the first undelivered
    records up to the limit, in sequence order, with the event and the digest
    stored for each; acknowledging any of them succeeds once, takes that record
    and no other out of the undelivered ones, and leaves a spool that verifies;
    acknowledging it a second time fails. *)
Lemma pending_exact spool c limit :
  Verify spool all_up c c = Ok () → room c → 1 ≤ limit ≤ 1000 →
  ∃ records, Pending spool all_up c c c limit = Ok records ∧
    Forall2 record_of_row (take (Z.to_nat limit) (pending_rows (rows c))) records ∧
    ∀ rec t, rec ∈ records → t ≠ zero_time →
      ∃ c', MarkDelivered all_up c (Record.Sequence rec) (Record.MAC rec) t = Ok c' ∧
        Verify spool all_up c' c' = Ok () ∧
        pending_rows (rows c') = filter (λ r, rSequence r ≠ Record.Sequence rec) (pending_rows (rows c)) ∧
        MarkDelivered all_up c' (Record.Sequence rec) (Record.MAC rec) t = Err ErrAudit.
Proof.
  intros Hver Hroom Hl. apply Verify_verified in Hver as Hv; [|done].
  destruct (Pending_verified spool c limit Hv Hl) as (records & Hp & Hf). exists records.
  split; [done|]. split; [done|]. intros rec t Hrec Ht.
  apply list_elem_of_lookup in Hrec as [i Hi].
  destruct (Forall2_lookup_r _ _ _ _ _ Hf Hi) as (r & Hr & Hsame & Hmac & _).
  assert (r ∈ pending_rows (rows c)) as Hin 
    by (eapply subseteq_take, list_elem_of_lookup_2, Hr).
  apply list_elem_of_filter in Hin as [Hu Hin]. rewrite Hsame, Hmac.
  rewrite (MarkDelivered_row spool) by done. eexists. split; [done|]. pose proof (verified_NoDup _ _ Hv) as Hnd.
  split. { apply Verify_verified; [|by apply mark_verified]. unfold room. cbn [rows]. by rewrite length_fmap. }
  split; [by apply pending_rows_mark|].
  unfold MarkDelivered. destruct (_ || _); [done|]. cbn [guard_err mbind result_bind rows]. unfold all_up at 1.
  cbn [negb guard_err mbind result_bind].
  assert (count_by (marks (rSequence r) (rMac r)) (mark (rSequence r) (rMac r) t <$> rows c) = 0) as ->; [|done].
  apply count_by_zero, Forall_fmap, Forall_forall. intros x _. simpl. unfold mark.
  destruct (marks (rSequence r) (rMac r) x) eqn:E; [|done].
  unfold marks. cbn [rSequence rMac undelivered rDelivered set_delivered]. by rewrite andb_false_r.
Qed.

(** C37: the reads behind a delivery are separate statements, and a record that
    commits between them is taken for tampering: on every spool that verifies
    and is not empty, if an append commits after [Pending] has read the head and
    before it reads the last record, or after [Verify] has read the records and
    before it reads the head, the read reports [ErrAudit], although the spool
    verifies before and after and the same reads succeed on either state alone. *)
Theorem pending_race spool c c' e limit :
  Verify spool all_up c c = Ok () → Z.of_nat (length (rows c)) < max_int64 - 1 → encodable e →
  0 < last_sequence c → 1 ≤ limit ≤ 1000 → AppendTx spool all_up c e = Ok c' →
  Pending spool all_up c c c' limit = Err ErrAudit ∧ Verify spool all_up c c' = Err ErrAudit ∧
  Verify spool all_up c' c' = Ok () ∧
  is_ok (Pending spool all_up c c c limit) = true ∧ is_ok (Pending spool all_up c' c' c' limit) = true.
Proof.
  intros Hver Hroom He Hpos Hl Ha. assert (room c) as Hr by (unfold room; lia).
  apply Verify_verified in Hver as Hv; [|done].
  assert (validate e && (pending_count c <? maximumPending spool) = true) as Hb.
  { destruct (validate e && _) eqn:Hb; [done|]. rewrite AppendTx_refused in Ha; done. }
  apply andb_prop in Hb as [Hval Hpend]. apply Z.ltb_lt in Hpend.
  destruct (AppendTx_compute spool c e) as (d & s & Hs & Hu & Hc); [done..|].
  rewrite Hc in Ha. assert (c' = mkChain (rows c ++ [appended spool c d s]) (last_sequence c + 1)
    (rMac (appended spool c d s))) as Hc' by congruence. clear Ha Hc.
  assert (verified spool c') as Hv' by (rewrite Hc'; by eapply appended_verified).
  assert (room c') as Hr' by (rewrite Hc'; unfold room in *; cbn [rows]; rewrite length_app; simpl; lia).
  destruct (Pending_verified spool c limit Hv Hl) as (records & Hp & _).
  destruct (Pending_verified spool c' limit Hv' Hl) as (records' & Hp' & _).
  split; [|split; [|split; [by apply Verify_verified|by rewrite Hp, Hp']]].
  - unfold Pending in *. destruct ((limit <? 1) || (1000 <? limit)); [done|].
    cbn [guard_err mbind result_bind] in *. unfold all_up in *. cbn [negb guard_err mbind result_bind] in *.
    destruct (mapM _ _); [|done]. cbn [of_option mbind result_bind] in *.
    rewrite (proj2 (Z.ltb_lt _ _)) by done. rewrite Hc'. cbn [rows]. rewrite last_snoc.
    cbn [of_option mbind result_bind]. cbn [rSequence appended].
    by rewrite (proj2 (Z.eqb_neq (last_sequence c) (last_sequence c + 1))) by lia.
  - unfold Verify. unfold all_up. cbn [negb guard_err mbind result_bind]. rewrite (vf_rows _ _ Hv).
    cbn [of_option mbind result_bind]. rewrite Hc'. cbn [last_sequence orb].
    by rewrite (proj2 (Z.eqb_neq (last_sequence c + 1) (last_sequence c))) by lia.
Qed.
End SpoolLemmas.

(** ** Execution *)

(** A column that keeps the text it is given satisfies the column's contract. *)
#[local] Instance text_column : Jsonb := {| jsonb := Some |}.
#[local] Instance text_column_laws : JsonbLaws.
Proof. split; [by eexists|]. intros e s d He Hs [= <-]. by apply Marshal_Unmarshal. Qed.

#[local] Existing Instances toy_crypto toy_crypto_laws.

Module SpoolExample.
Definition spool : Spool := mkSpool (stream 32 5) 2.
Definition after (c : chain) (e : Event) : chain :=
  match AppendTx spool all_up c e with Ok c' => c' | Err _ => c end.
Definition one : chain := after empty_chain sample_event.
Definition two : chain := after one sample_event.
Definition when : time := 738945 * 86400 * Second.

(** The same spool with its record acknowledged. *)
Definition acknowledged : chain :=
  match MarkDelivered all_up one 1 (last_mac one) when with Ok c' => c' | Err _ => one end.
Lemma acknowledged_verifies : Verify spool all_up acknowledged acknowledged = Ok ().
Proof. vm_compute. reflexivity. Qed.
Lemma acknowledged_room : room acknowledged.
Proof. vm_compute. reflexivity. Qed.
Lemma acknowledged_differs : acknowledged ≠ one.
Proof. intros E%(f_equal pending_count). vm_compute in E. discriminate. Qed.

Lemma one_verifies : Verify spool all_up one one = Ok ().
Proof. vm_compute. reflexivity. Qed.
Lemma one_small : Z.of_nat (length (rows one)) < max_int64 - 1.
Proof. vm_compute. reflexivity. Qed.
Lemma one_room : room one.
Proof. vm_compute. reflexivity. Qed.
Lemma one_positive : 0 < last_sequence one.
Proof. vm_compute. reflexivity. Qed.
Lemma two_appended : AppendTx spool all_up one sample_event = Ok two.
Proof. vm_compute. reflexivity. Qed.
End SpoolExample.

(** The bound is reached with two undelivered events. *)
Example append_bounded : AppendTx SpoolExample.spool all_up SpoolExample.two sample_event = Err ErrAudit.
Proof. vm_compute. reflexivity. Qed.

Lemma append_exact_witness :
  AppendTx SpoolExample.spool (λ s, match s with InsertRow => false | _ => true end)
    SpoolExample.one sample_event = Err ErrAudit.
Proof.
  destruct (append_exact SpoolExample.spool SpoolExample.one sample_event SpoolExample.one_verifies
    SpoolExample.one_small sample_encodable) as [Hdown _].
  apply (Hdown _ InsertRow); [|reflexivity]. right. right. left.
Defined.

Lemma spool_distinct_messages :
  collision_free (hmac_sha256 (key SpoolExample.spool)) (messages (rows SpoolExample.one) ++ messages (rows SpoolExample.acknowledged)).
Proof.
  replace (messages (rows SpoolExample.acknowledged)) with (messages (rows SpoolExample.one)) by (vm_compute; reflexivity).
  apply collision_free_twice, collision_free_NoDup. refine (bool_decide_unpack _ _). vm_compute. exact I.
Qed.
Lemma tamper_evident_witness : Forall2 same_record (rows SpoolExample.one) (rows SpoolExample.acknowledged).
Proof.
  apply (tamper_evident SpoolExample.spool SpoolExample.one SpoolExample.acknowledged SpoolExample.one_room
    SpoolExample.acknowledged_room SpoolExample.one_verifies SpoolExample.acknowledged_verifies);
    [vm_compute; reflexivity..|exact spool_distinct_messages].
Defined.

Lemma pending_exact_witness :
  ∃ records, Pending SpoolExample.spool all_up SpoolExample.one SpoolExample.one SpoolExample.one 10 = Ok records.
Proof.
  destruct (pending_exact SpoolExample.spool SpoolExample.one 10 SpoolExample.one_verifies
    SpoolExample.one_room) as (records & Hp & _); [split; [discriminate|discriminate]|].
  exists records. exact Hp.
Defined.

Lemma pending_race_witness :
  Pending SpoolExample.spool all_up SpoolExample.one SpoolExample.one SpoolExample.two 10 = Err ErrAudit.
Proof.
  apply (pending_race SpoolExample.spool SpoolExample.one SpoolExample.two sample_event 10
    SpoolExample.one_verifies SpoolExample.one_small sample_encodable SpoolExample.one_positive).
  - split; discriminate.
  - exact SpoolExample.two_appended.
Defined.
