(* ===== verification/Identity.v ===== *)
(** * Workload identities (src/transport/identity.go)

    What a verified client certificate says about its holder: exactly one URI
    name, under the trust domain, whose path is one of the workloads the service
    knows.  A certificate is the list of its URI names with the parts
    [net/url] gives them; verifying the chain is the TLS library's work. *)

From Stdlib Require Import Ascii.
From S2P Require Import Prelude GoStrings Crypto Envelope Credential.

Record uri : Type := mkUri { uScheme : string; uHost : string; uEscapedPath : string; uRawQuery : string; uFragment : string }.
Record tls_state : Type := mkTls { tHandshakeComplete : bool; tVersion : Z; tVerifiedChains : list (list (list uri)) }.
Definition VersionTLS13 : Z := 0x0304.

(** The first certificate of the first verified chain, over TLS 1.3. *)
Definition verified_leaf (tls : option tls_state) : option (list uri) :=
  match tls with
  | None => None
  | Some state =>
      if negb (tHandshakeComplete state) || negb (tVersion state =? VersionTLS13) then None
      else match tVerifiedChains state with (certificate :: _) :: _ => Some certificate | _ => None end
  end.

(** [strings.Split] at one character. *)
Fixpoint split_on (c : ascii) (s : string) : list string :=
  match s with
  | "" => [""]
  | String a s' => if bz a =? bz c then "" :: split_on c s'
                   else match split_on c s' with l :: ls => String a l :: ls | [] => [String a ""] end
  end.

(** [url.PathUnescape]. *)
Fixpoint PathUnescape (s : string) : option string :=
  match s with
  | "" => Some ""
  | String a s' =>
      if bz a =? 37 then
        match s' with
        | String h (String l s2) =>
            if any_hex h && any_hex l then String (zb (hex_value h * 16 + hex_value l)) <$> PathUnescape s2 else None
        | _ => None
        end
      else String a <$> PathUnescape s'
  end.

Definition instance_rune (c : Z) : bool :=
  in_range 97 122 c || in_range 65 90 c || in_range 48 57 c || (c =? 45) || (c =? 95) || (c =? 46).
Definition validInstance (value : string) : bool :=
  if String.eqb value "" || (128 <? len value) then false
  else if negb (forallb instance_rune (runes value)) then false
  else negb (String.eqb value ".") && negb (String.eqb value "..").

Record SPIFFEMapper : Type := mkMapper { TrustDomain : string }.

Definition fixed_role (name : string) : option WorkloadRole :=
  find (λ r, String.eqb name (role_string r)) [RoleSecretsOperator; RoleSecretsAuditor; RoleAPI].

(** [None] is [ErrWorkloadIdentity]. *)
Definition Identity (mapper : SPIFFEMapper) (certificate : list uri) : option WorkloadIdentity :=
  match certificate with
  | [identity] =>
      if String.eqb (TrustDomain mapper) "" then None
      else if negb (String.eqb (uScheme identity) "spiffe") || negb (String.eqb (uHost identity) (TrustDomain mapper)) ||
              negb (String.eqb (uRawQuery identity) "") || negb (String.eqb (uFragment identity) "") then None
      else match split_on "/" (TrimPrefix (uEscapedPath identity) "/") with
           | [workload; name] =>
               if negb (String.eqb workload "workload") then None
               else if String.eqb name "praetor-scheduler" then Some (mkIdentity RoleScheduler (role_string RoleScheduler))
               else role ← fixed_role name; Some (mkIdentity role name)
           | [workload; name; escaped] =>
               if negb (String.eqb workload "workload") || negb (String.eqb name "praetor-executor") then None
               else instance ← PathUnescape escaped;
                    if validInstance instance then Some (mkIdentity RoleExecutor (role_string RoleExecutor +:+ ":" +:+ instance))
                    else None
           | _ => None
           end
  | _ => None
  end.

(** [Server.requestIdentity]. *)
Definition requestIdentity (mapper : SPIFFEMapper) (tls : option tls_state) : option WorkloadIdentity :=
  certificate ← verified_leaf tls; Identity mapper certificate.

(** ** What an identity can be *)

(** A known instance's name is one the binding requests accept for executors. *)
Lemma instance_rune_ascii value : forallb instance_rune (runes value) = true →
  forall_bytes (λ a, instance_rune (bz a)) value = true.
Proof.
  intros Hv. rewrite <-(rune_loop_bytes instance_rune 0).
  - unfold runes, range_string in Hv. rewrite <-Hv. clear. induction (range_from 0 0 value) as [|[i r] l IH]; [done|]. simpl. by rewrite IH.
  - intros r Hr. unfold instance_rune, in_range. bool_prop. split_and!; try lia; apply andb_false_iff; right; apply Z.leb_gt; lia.
Qed.

Lemma Identity_subject mapper certificate identity :
  Identity mapper certificate = Some identity →
  (Role identity = RoleExecutor ∧ ∃ instance, validInstance instance = true ∧
     Subject identity = role_string RoleExecutor +:+ ":" +:+ instance) ∨
  (Role identity ≠ RoleExecutor ∧ Subject identity = role_string (Role identity)).
Proof.
  unfold Identity. intros Hi. destruct certificate as [|u [|]]; [done| |done]. case_match; [done|]. case_match; [done|].
  destruct (split_on _ _) as [|w [|n [|x [|]]]]; try done.
  - case_match; [done|]. case_match eqn:Hn; [simplify_eq; by right|].
    destruct (fixed_role n) as [role|] eqn:Hr; [|done]. simplify_eq/=. right. unfold fixed_role in Hr.
    apply find_some in Hr as [Hin Hr]. apply String.eqb_eq in Hr. split; [|done].
    destruct Hin as [<-|[<-|[<-|[]]]]; done.
  - case_match; [done|]. destruct (PathUnescape x) as [instance|]; [|done]. simpl in Hi. case_match; [|done].
    simplify_eq. left. split; [done|]. by exists instance.
Qed.
