(* ===== verification/Wire.v ===== *)
(** * The audit record on the wire

    [json.Marshal] of [audit.Record] as [HTTPSink.Deliver] posts it
    (src/audit/delivery.go) and the strict decoding of src/auditsink/handler.go:
    one JSON object, no unknown fields in it or in its event, nothing but white
    space after it.  Byte slices travel in standard base64; the decoder also
    takes an array of numbers for one. *)

From Stdlib Require Import Ascii.
From S2P Require Import Prelude GoStrings Json GoTime TimeParse JsonValue AuditEvent Spool.

(** ** encoding/base64, [StdEncoding] *)

Definition base64_char (z : Z) : ascii :=
  if z <? 26 then zb (65 + z) else if z <? 52 then zb (71 + z)
  else if z <? 62 then zb (z - 4) else if z =? 62 then "+"%char else "/"%char.
Definition base64_value (a : ascii) : option Z :=
  let b := bz a in
  if in_range 65 90 b then Some (b - 65) else if in_range 97 122 b then Some (b - 71)
  else if in_range 48 57 b then Some (b + 4)
  else if b =? 43 then Some 62 else if b =? 47 then Some 63 else None.

Fixpoint base64 (s : string) : string :=
  match s with
  | "" => ""
  | String a "" =>
      String (base64_char (bz a / 4)) (String (base64_char (bz a `mod` 4 * 16)) "==")
  | String a (String b "") =>
      String (base64_char (bz a / 4)) (String (base64_char (bz a `mod` 4 * 16 + bz b / 16))
        (String (base64_char (bz b `mod` 16 * 4)) "="))
  | String a (String b (String c s')) =>
      String (base64_char (bz a / 4)) (String (base64_char (bz a `mod` 4 * 16 + bz b / 16))
        (String (base64_char (bz b `mod` 16 * 4 + bz c / 64)) (String (base64_char (bz c `mod` 64)) (base64 s'))))
  end.

(** Line breaks are skipped; padding ends the input; the bits under the
    padding are not checked. *)
Definition line_break (a : ascii) : bool := (bz a =? 10) || (bz a =? 13).
Fixpoint skip_breaks (s : string) : string :=
  match s with String a s' => if line_break a then skip_breaks s' else String a (skip_breaks s') | "" => "" end.
Fixpoint decode_quanta (s : string) : option string :=
  match s with
  | "" => Some ""
  | String a (String b (String c (String d s'))) =>
      x ← base64_value a; y ← base64_value b;
      if bz c =? 61 then
        if (bz d =? 61) && String.eqb s' "" then Some (String (zb (x * 4 + y / 16)) "") else None
      else
        z ← base64_value c;
        let first := zb (x * 4 + y / 16) in let second := zb (y `mod` 16 * 16 + z / 4) in
        if bz d =? 61 then
          if String.eqb s' "" then Some (String first (String second "")) else None
        else
          w ← base64_value d; rest ← decode_quanta s';
          Some (String first (String second (String (zb (z `mod` 4 * 64 + w)) rest)))
  | _ => None
  end.
Definition base64_decode (s : string) : option string := decode_quanta (skip_breaks s).

Example base64_sample : base64 "any carnal pleas" = "YW55IGNhcm5hbCBwbGVhcw==".
Proof. reflexivity. Qed.

(** ** Records *)

Definition marshal_record (rec : Record.t) : option string :=
  event ← Marshal (Record.Event rec);
  Some (json_struct [("sequence", json_uint (Record.Sequence rec)); ("event", event);
                     ("mac", json_string (base64 (Record.MAC rec)))]).

(** A [\[\]byte] variable. *)
Fixpoint bytes_of (l : list Z) : string := match l with [] => "" | z :: l' => String (zb z) (bytes_of l') end.
Fixpoint values_of (s : string) : list Z := match s with "" => [] | String a s' => bz a :: values_of s' end.
Definition as_bytes : reader_of string := λ v old,
  match v with
  | JNull => Some ""
  | JStr _ s => base64_decode s
  | JArr l => bytes_of <$> elements (as_uint 8) 0 (values_of old) l
  | _ => None
  end.

Definition event_keys : list string :=
  ["schema_version"; "timestamp"; "event_type"; "operation"; "result"; "reason_code"; "workload_identity";
   "human_actor"; "organization_id"; "credential_id"; "run_id"; "rotation_id"; "executor_identity";
   "credential_version"; "credential_schema_version"; "key_version"; "request_id"; "latency_class"].
Definition strict_event (l : list (string * json)) (old : Event) : option Event :=
  if no_unknown event_keys l then decode_event l old else None.

Definition record_keys : list string := ["sequence"; "event"; "mac"].
Definition strict_record (l : list (string * json)) (old : Record.t) : option Record.t :=
  if no_unknown record_keys l then
    sequence ← field as_int "sequence" (Record.Sequence old) l;
    event ← field (as_struct strict_event) "event" (Record.Event old) l;
    mac ← field as_bytes "mac" (Record.MAC old) l;
    Some (Record.mk sequence event mac)
  else None.

Definition decode_record (s : string) : option Record.t :=
  v ← parse_document s; as_struct strict_record v (Record.mk 0 empty_event "").

Example decode_sample :
  (marshal_record (Record.mk 7 sample_event (EncodeToString "0123456789abcdef")) ≫= decode_record)
  = Some (Record.mk 7 sample_event (EncodeToString "0123456789abcdef")).
Proof. vm_compute. reflexivity. Qed.

(** ** Round trips *)

Lemma base64_char_spec z :
  0 ≤ z < 64 → base64_value (base64_char z) = Some z ∧ bz (base64_char z) ≠ 61 ∧ line_break (base64_char z) = false.
Proof.
  intros Hz. rewrite <-(Z2Nat.id z) by lia. assert (Z.to_nat z < 64)%nat as Hn by lia.
  revert Hn. generalize (Z.to_nat z). clear z Hz. intros n Hn.
  do 64 (destruct n as [|n]; [vm_compute; split; [reflexivity|split; [discriminate|reflexivity]]|]). lia.
Qed.

Lemma base64_value_char z : 0 ≤ z < 64 → base64_value (base64_char z) = Some z.
Proof. apply base64_char_spec. Qed.
Lemma base64_char_pad z : 0 ≤ z < 64 → bz (base64_char z) =? 61 = false.
Proof. intros Hz. apply Z.eqb_neq. by apply base64_char_spec. Qed.
Lemma base64_char_break z : 0 ≤ z < 64 → line_break (base64_char z) = false.
Proof. apply base64_char_spec. Qed.

Lemma sextets a b c :
  (0 ≤ bz a / 4 < 64 ∧ 0 ≤ bz a `mod` 4 * 16 < 64) ∧ 0 ≤ bz a `mod` 4 * 16 + bz b / 16 < 64 ∧
  0 ≤ bz b `mod` 16 * 4 < 64 ∧ 0 ≤ bz b `mod` 16 * 4 + bz c / 64 < 64 ∧ 0 ≤ bz c `mod` 64 < 64.
Proof. pose proof (bz_range a). pose proof (bz_range b). pose proof (bz_range c). lia. Qed.

Lemma zb_eq z a : z = bz a → zb z = a.
Proof. intros ->. apply zb_bz. Qed.

(** Induction three bytes at a time. *)
Lemma string_ind3 (P : string → Prop) :
  P "" → (∀ a, P (String a "")) → (∀ a b, P (String a (String b ""))) →
  (∀ a b c s, P s → P (String a (String b (String c s)))) → ∀ s, P s.
Proof.
  intros H0 H1 H2 H3 s. remember (String.length s) as n eqn:Hn. revert s Hn.
  induction (lt_wf n) as [n _ IH]; intros s ->.
  destruct s as [|a [|b [|c s]]]; [done..|]. apply H3. apply (IH (String.length s)); [simpl; lia|done].
Qed.

Lemma skip_breaks_base64 s : skip_breaks (base64 s) = base64 s.
Proof.
  induction s as [|a|a b|a b c s IH] using string_ind3; [done|..]; cbn [base64 skip_breaks].
  - destruct (sextets a a a) as ([H1 H2] & _). by rewrite !base64_char_break by done.
  - destruct (sextets a b b) as ([H1 _] & H2 & H3 & _). by rewrite !base64_char_break by done.
  - destruct (sextets a b c) as ([H1 _] & H2 & _ & H3 & H4).
    rewrite !base64_char_break by done. by rewrite IH.
Qed.

Lemma base64_roundtrip s : base64_decode (base64 s) = Some s.
Proof.
  unfold base64_decode. rewrite skip_breaks_base64.
  induction s as [|a|a b|a b c s IH] using string_ind3; [done|..]; cbn [base64 decode_quanta].
  - destruct (sextets a a a) as ([H1 H2] & _).
    rewrite !base64_value_char by done. cbn [mbind option_bind].
    change (bz "=" =? 61) with true. cbn [andb String.eqb]. do 2 f_equal. apply zb_eq.
    pose proof (bz_range a). lia.
  - destruct (sextets a b b) as ([H1 _] & H2 & H3 & _).
    rewrite !base64_value_char by done. cbn [mbind option_bind].
    rewrite base64_char_pad by done.
    change (bz "=" =? 61) with true. cbn [String.eqb]. pose proof (bz_range a). pose proof (bz_range b).
    do 2 f_equal; [apply zb_eq; lia|]. f_equal. apply zb_eq. lia.
  - destruct (sextets a b c) as ([H1 _] & H2 & _ & H3 & H4).
    rewrite !base64_value_char by done. cbn [mbind option_bind].
    rewrite !base64_char_pad by done. cbn [mbind option_bind].
    rewrite IH. cbn [mbind option_bind]. pose proof (bz_range a). pose proof (bz_range b). pose proof (bz_range c).
    do 2 f_equal; [apply zb_eq; lia|]. f_equal; [apply zb_eq; lia|]. f_equal. apply zb_eq. lia.
Qed.

Lemma base64_utf8 s : valid_utf8 (base64 s) = true.
Proof.
  apply valid_utf8_ascii. unfold ascii_only.
  assert (∀ z, 0 ≤ z < 64 → bz (base64_char z) <? 128 = true) as Hc.
  { intros z Hz. rewrite <-(Z2Nat.id z) by lia. assert (Z.to_nat z < 64)%nat as Hn by lia.
    revert Hn. generalize (Z.to_nat z). intros n Hn. do 64 (destruct n as [|n]; [reflexivity|]). lia. }
  induction s as [|a|a b|a b c s IH] using string_ind3; [done|..]; cbn [base64 forall_bytes].
  - destruct (sextets a a a) as ([H1 H2] & _). by rewrite !Hc.
  - destruct (sextets a b b) as ([H1 _] & H2 & H3 & _). by rewrite !Hc.
  - destruct (sextets a b c) as ([H1 _] & H2 & _ & H3 & H4). by rewrite !Hc, IH.
Qed.

Lemma event_known_keys e : no_unknown event_keys (event_members e) = true.
Proof.
  apply forallb_forall. intros [k v] Hin%list_elem_of_In. apply existsb_exists. exists k. split; [|apply same_name_refl].
  apply list_elem_of_In. assert (k ∈ (event_members e).*1) as Hk by (apply list_elem_of_fmap; by exists (k, v)).
  by apply (expand_keys (event_specs e)) in Hk.
Qed.

Definition wire_ok (rec : Record.t) : Prop :=
  encodable (Record.Event rec) ∧ 0 ≤ Record.Sequence rec < 2 ^ 63.

Definition record_members (rec : Record.t) : list (string * json) :=
  [("sequence", json_number (Record.Sequence rec)); ("event", JObj (event_members (Record.Event rec)));
   ("mac", json_text (base64 (Record.MAC rec)))].

Lemma marshal_record_render rec :
  encodable (Record.Event rec) → marshal_record rec = Some (render (JObj (record_members rec))).
Proof. intros He. unfold marshal_record. by rewrite Marshal_encodable. Qed.

(** What [Deliver] posts is what the handler decodes. *)
Lemma record_roundtrip rec s :
  wire_ok rec → marshal_record rec = Some s → decode_record s = Some rec.
Proof.
  intros [He Hz] Hs. rewrite marshal_record_render in Hs by done. simplify_eq.
  destruct (event_printable _ He) as [Hp Hh]. unfold decode_record. rewrite parse_document_render.
  2: { apply printable_members. unfold record_members. rewrite !Forall_cons. cbn [fst snd].
       split_and!; [done| |done|done|done| |constructor]; cbn.
       - exists (Record.Sequence rec). split; [lia|done].
       - split; [apply base64_utf8|done]. }
  2: { unfold record_members. cbn [height foldr fst snd json_number json_text] in *. rewrite Hh. unfold max_depth. lia. }
  cbn [mbind option_bind as_struct]. unfold strict_record, record_members.
  match goal with |- context [no_unknown ?k ?l] => assert (no_unknown k l = true) as -> by (vm_compute; reflexivity) end.
  assert (∀ k k', same_name k k' = bool_decide (fold_name k = fold_name k')) as Hn by done.
  assert (same_name "sequence" "event" = false ∧ same_name "sequence" "mac" = false ∧ same_name "event" "sequence" = false ∧
    same_name "event" "mac" = false ∧ same_name "mac" "sequence" = false ∧ same_name "mac" "event" = false)
    as (E1 & E2 & E3 & E4 & E5 & E6) by (vm_compute; done).
  cbn [field]. rewrite !same_name_refl, E1, E2, E3, E4, E5, E6.
  rewrite as_int_number by (unfold max_int64; lia). cbn [mbind option_bind as_struct].
  unfold strict_event. rewrite event_known_keys. cbn [Record.Event]. rewrite decode_event_members by done.
  cbn [mbind option_bind as_bytes json_text]. rewrite base64_roundtrip. cbn [mbind option_bind]. by destruct rec.
Qed.
