(* ===== verification/WireSize.v ===== *)
(** * Sizes on the wire

    The limits of the receiving side (60 KiB for an encoded event, 64 KiB for a
    request body) are never reached by an event the spool accepts. *)

From Stdlib Require Import Ascii.
From S2P Require Import Prelude GoStrings Json GoTime TimeParse JsonValue AuditEvent Spool Wire.

Lemma len_escape_byte a : len (escape_byte a) ≤ 6.
Proof. destruct a as [[] [] [] [] [] [] [] []]; vm_compute; discriminate. Qed.

Lemma len_take_str n s : len (take_str n s) ≤ Z.of_nat n.
Proof.
  unfold len. revert s. induction n as [|n IH]; intros [|a s]; simpl; try lia. specialize (IH s). lia.
Qed.

Lemma len_escape k s : len (escape_from k s) ≤ 6 * len s.
Proof.
  revert k. induction s as [|a s IH]; intros k; [done|]. cbn [escape_from]. rewrite len_cons.
  destruct k as [|k]; [|specialize (IH k); lia]. case_match.
  - rewrite len_app. pose proof (len_escape_byte a). specialize (IH 0%nat). lia.
  - destruct (decode_multi (String a s)) as [[r w]|] eqn:E.
    + apply decode_multi_width in E as [[_ Hw] _]. rewrite len_app. specialize (IH (pred w)).
      pose proof (len_take_str w (String a s)).
      assert (len (if r =? 0x2028 then String backslash "u2028" else if r =? 0x2029 then String backslash "u2029"
                   else take_str w (String a s)) ≤ 6); [|lia].
      do 2 (case_match; [vm_compute; discriminate|]). lia.
    + rewrite app_cons, len_cons, len_app. specialize (IH 0%nat). change (len "ufffd") with 5. lia.
Qed.

Lemma len_json_string s : len (json_string s) ≤ 6 * len s + 2.
Proof.
  unfold json_string. rewrite len_cons, len_app, len_cons. change (len "") with 0. pose proof (len_escape 0 s). lia.
Qed.

Lemma len_json_uint z : 0 ≤ z < 2 ^ 64 → len (json_uint z) ≤ 20.
Proof.
  intros Hz. unfold json_uint, len. assert (String.length (pretty (Z.to_N z)) ≤ 20)%nat; [|lia].
  apply length_pretty; [lia|]. apply N2Z.inj_lt. rewrite Z2N.id by lia.
  etrans; [apply Hz|]. vm_compute. reflexivity.
Qed.

Lemma len_json_members b l :
  0 ≤ b → Forall (λ x, len (json_string x.1) + len x.2 + 2 ≤ b) l →
  len (json_members l) ≤ b * Z.of_nat (length l).
Proof.
  intros Hb. induction 1 as [|[k v] l Hx Hl IH].
  { change (0 ≤ b * 0). lia. }
  cbn [fst snd length] in *.
  pose proof (len_nonneg v). destruct l as [|y l].
  - change (json_members [(k, v)]) with (json_string k +:+ String colon v). rewrite len_app, len_cons, Nat2Z.inj_succ, Z.mul_succ_r. cbn [length]. lia.
  - change (json_members _) with (json_string k +:+ String colon (v +:+ String comma (json_members (y :: l)))).
    rewrite len_app, len_cons, len_app, len_cons, Nat2Z.inj_succ, Z.mul_succ_r. lia.
Qed.

Lemma len_zeros k : len (zeros k) = Z.of_nat k.
Proof. unfold len. by rewrite length_zeros. Qed.

Lemma len_pad_int w z : (0 < w)%nat → 0 ≤ z < 10 ^ Z.of_nat w → len (pad_int w z) = Z.of_nat w.
Proof. intros Hw Hz. unfold len. by rewrite (proj1 (pad_int_spec w z Hw Hz)). Qed.

Lemma len_fraction n : 0 ≤ n < Second → len (fraction n) ≤ 10.
Proof.
  intros Hn. unfold fraction. destruct (pad_int_spec 9 n) as (Hl & Hd & _); [lia|done|].
  destruct (trim_zeros_spec _ Hd) as (_ & Hle & _). rewrite Hl in Hle.
  destruct (trim_zeros (pad_int 9 n)) as [|a u]; [vm_compute; discriminate|].
  change ("." +:+ String a u) with (String "." (String a u)). unfold len. simpl in *. lia.
Qed.

Lemma len_format t : printable_time t → len (Format_RFC3339Nano t 0) ≤ 40.
Proof.
  intros Hy. unfold printable_time in Hy. unfold Format_RFC3339Nano. cbv zeta. rewrite Z.mul_0_l, Z.add_0_r.
  set (s := (t / Second) `mod` 86400). assert (0 ≤ s < 86400) as Hs by (apply Z.mod_pos_bound; lia).
  destruct (civil_valid (t / Second / 86400)) as [Hm Hd].
  set (d := civil (t / Second / 86400)) in *. clearbody d s.
  assert (days_in (dMonth d) (dYear d) ≤ 31) by (unfold days_in; repeat case_match; lia).
  rewrite !len_app. rewrite !len_pad_int by (try lia; try change (10 ^ Z.of_nat 4) with 10000;
    try change (10 ^ Z.of_nat 2) with 100; lia).
  pose proof (len_fraction (t `mod` Second) ltac:(by apply Z.mod_pos_bound)).
  change (len "-") with 1. change (len "T") with 1. change (len ":") with 1. change (len (zone 0)) with 1. lia.
Qed.

(** ** An event the spool accepts *)

Lemma token_len s : token s = true → len s ≤ 64.
Proof. unfold token. case_match; [done|]. bool_prop. intros _. lia. Qed.

Lemma known_len s l : forallb (λ x, len x <=? 64) l = true → known s l = true → len s ≤ 64.
Proof.
  intros Hl Hs. apply bool_decide_eq_true in Hs. rewrite forallb_forall in Hl.
  apply Z.leb_le, Hl. by apply list_elem_of_In.
Qed.

Lemma validate_lens e : AuditEvent.validate e = true → Forall (λ s, len s ≤ 255) (texts e).
Proof.
  intros (_ & _ & Ht & Ho & Hr & Hc & Hl & Hi)%validate_iff. unfold texts. apply Forall_app_2.
  - assert (∀ s, len s ≤ 64 → len s ≤ 255) as Hw by (intros; lia).
    repeat constructor; apply Hw.
    + by eapply known_len, Ht.
    + by eapply known_len, Ho.
    + by eapply known_len, Hr.
    + by apply token_len.
    + destruct Hl as [-> |]; [vm_compute; discriminate|by apply token_len].
  - apply Forall_forall. intros s Hs. rewrite forallb_forall in Hi.
    specialize (Hi s (proj1 (list_elem_of_In _ _) Hs)). unfold clean in Hi. bool_prop. lia.
Qed.

Lemma length_event_members e : (length (event_members e) ≤ 18)%nat.
Proof.
  unfold event_members. assert (∀ l, length (l ≫= expand) ≤ length l)%nat as H.
  { induction l as [|x l IH]; [done|]. rewrite bind_cons, length_app. unfold expand at 1. case_match; simpl; lia. }
  apply (H (event_specs e)).
Qed.

Definition spec_small (x : string * (bool * json)) : Prop := len x.1 ≤ 25 ∧ len (render x.2.2) ≤ 1600.

Lemma event_specs_small e : encodable e → AuditEvent.validate e = true → Forall spec_small (event_specs e).
Proof.
  intros (_ & Ht & H1 & H2 & H3) Hv. pose proof (len_format _ Ht). apply validate_lens in Hv.
  unfold texts, identifiers in Hv. cbn [app] in Hv. rewrite !Forall_cons in Hv. destruct_and!.
  assert (∀ s, len s ≤ 255 → len (render (json_text s)) ≤ 1600) as Htext.
  { intros s Hs. change (render (json_text s)) with (json_string s). pose proof (len_json_string s). lia. }
  assert (∀ z, 0 ≤ z < 2 ^ 64 → len (render (json_number z)) ≤ 1600) as Hnum.
  { intros z Hz. change (render (json_number z)) with (json_uint z). pose proof (len_json_uint z Hz). lia. }
  unfold event_specs. rewrite !Forall_cons. unfold spec_small. cbn [fst snd].
  split_and!; try match goal with
    | |- len (String _ _) ≤ 25 => apply Z.leb_le; reflexivity
    | |- Forall _ [] => constructor
    | |- len (render (json_text (Format_RFC3339Nano _ _))) ≤ _ => apply Htext; lia
    | |- len (render (json_text _)) ≤ _ => by apply Htext
    | |- len (render (json_number _)) ≤ _ => apply Hnum; lia
    end.
Qed.

Lemma Marshal_size e s :
  encodable e → AuditEvent.validate e = true → Marshal e = Some s → len s ≤ 60 * 1024.
Proof.
  intros He Hv Hs. rewrite Marshal_encodable in Hs by done.
  assert (s = render (JObj (event_members e))) as -> by congruence. clear Hs.
  change (render (JObj (event_members e))) with (json_struct (rendered (event_members e))).
  unfold json_struct. rewrite len_cons, len_app, len_cons. change (len "") with 0.
  assert (len (json_members (rendered (event_members e))) ≤ 1800 * Z.of_nat (length (rendered (event_members e)))) as Hm.
  { apply len_json_members; [lia|]. apply Forall_fmap, Forall_forall. intros [k v] Hin. unfold compose. cbn [fst snd].
    unfold event_members in Hin. apply list_elem_of_bind in Hin as ([k' [o v']] & Hin & Hx).
    pose proof (event_specs_small e He Hv) as Hsm. rewrite Forall_forall in Hsm. specialize (Hsm _ Hx).
    unfold expand in Hin. cbn [fst snd] in *. case_match; [by apply not_elem_of_nil in Hin|].
    apply list_elem_of_singleton in Hin. simplify_eq. destruct Hsm as [Hk Hz]. cbn [fst snd] in *.
    pose proof (len_json_string k'). lia. }
  unfold rendered in Hm at 2. rewrite length_map in Hm. pose proof (length_event_members e). lia.
Qed.

Lemma len_base64 s : len (base64 s) ≤ 2 * len s + 4.
Proof.
  induction s as [|a|a b|a b c s IH] using string_ind3; [vm_compute; discriminate|..]; cbn [base64];
    rewrite ?len_cons; change (len "") with 0; change (len "==") with 2; change (len "=") with 1; lia.
Qed.

Lemma marshal_record_size rec s :
  wire_ok rec → AuditEvent.validate (Record.Event rec) = true → len (Record.MAC rec) = 32 →
  marshal_record rec = Some s → len s ≤ 64 * 1024.
Proof.
  intros [He Hz] Hv Hmac Hs. unfold marshal_record in Hs. destruct (Marshal_total _ He) as [ev Hev].
  rewrite Hev in Hs. cbn [mbind option_bind] in Hs.
  pose proof (Marshal_size _ _ He Hv Hev) as Hsize. pose proof (len_json_uint (Record.Sequence rec) ltac:(lia)).
  pose proof (len_json_string (base64 (Record.MAC rec))). pose proof (len_base64 (Record.MAC rec)).
  set (text := json_struct _) in Hs. assert (s = text) as -> by congruence. unfold text, json_struct.
  rewrite len_cons, len_app, len_cons.
  change (json_members _) with (json_string "sequence" +:+ String colon (json_uint (Record.Sequence rec) +:+ String comma
    (json_string "event" +:+ String colon (ev +:+ String comma
      (json_string "mac" +:+ String colon (json_string (base64 (Record.MAC rec)))))))).
  rewrite ?len_app, ?len_cons, ?len_app, ?len_cons, ?len_app, ?len_cons, ?len_app, ?len_cons, ?len_app, ?len_cons.
  change (len "") with 0. change (len (json_string "sequence")) with 10. change (len (json_string "event")) with 7.
  change (len (json_string "mac")) with 5. lia.
Qed.
