(* ===== verification/AuditSink.v ===== *)
(** * The remote audit store (src/auditsink/store.go, handler.go)

    The append-only copy of the audit stream: a table of records in the order
    of their sequence numbers, the single head row, and the HTTP handler in
    front of them.  [Append] runs in one serializable transaction, so it is one
    step; what the database refuses to do is an argument, as is the clock.  The
    constraints and triggers of the migration are part of the step.

    A request carries what [net/http], [net/url], [mime] and [crypto/tls] make of
    it: the method, the parts of the URL, the media type of the Content-Type
    header ([None] when it does not parse), the verified client certificate. *)

From Stdlib Require Import Ascii.
From S2P Require Import Prelude GoStrings Json GoTime TimeParse Crypto Identity AuditEvent Spool Wire.

Inductive StoreError : Type := ErrInvalid | ErrConflict | ErrStore.
#[export] Instance StoreError_eq_dec : EqDecision StoreError.
Proof. solve_decision. Defined.

Inductive AppendResult : Type := Created | Replayed.
#[export] Instance AppendResult_eq_dec : EqDecision AppendResult.
Proof. solve_decision. Defined.

(** ** Tables *)

Record sink_row : Type := mkSinkRow {
  skSequence : Z;
  skEvent : string;
  skMac : string;
  skKey : string;
  skIdentity : string;
  skReceived : time
}.
Record sink : Type := mkSink { skRows : list sink_row; skLast : Z; skLastMac : string; skUpdated : time }.

(** The tables after the migration at [t]. *)
Definition empty_sink (t : time) : sink := mkSink [] 0 "" t.

(** What the database does with each part of the transaction. *)
Record sink_weather : Type := mkWeather {
  wBegin : bool; wHead : bool; wReplay : bool; wInsert : bool; wUpdate : bool; wCommit : commit
}.
Definition fair : sink_weather := mkWeather true true true true true Committed.

Definition find_record (sequence : Z) (l : list sink_row) : option sink_row :=
  head (filter (λ r, skSequence r = sequence) l).

(** The primary key, the two unique columns and the checks on the row. *)
Definition record_constraints (r : sink_row) (l : list sink_row) : bool :=
  (0 <? skSequence r) && (len (skMac r) =? 32) &&
  HasPrefix (skKey r) "audit-" && (len (skKey r) =? 70) && forall_bytes lower_hex (drop_str 6 (skKey r)) &&
  String.eqb (skIdentity r) "praetor-secrets" &&
  forallb (λ x, negb (skSequence x =? skSequence r) && negb (String.eqb (skMac x) (skMac r)) &&
                negb (String.eqb (skKey x) (skKey r))) l.

(** [remote_audit_stream_head_monotonic]. *)
Definition head_trigger (s : sink) (sequence : Z) (mac : string) (updated : time) : bool :=
  (sequence =? skLast s + 1) && (len mac =? 32) && (skUpdated s <=? updated).

Section AuditSink.
Context `{Jsonb}.

Definition idempotency_key (mac : string) : string := "audit-" +:+ EncodeToString mac.
Definition blank (s : string) : bool := String.eqb (TrimSpace s) "".

Definition sink_validate (record : Record.t) (idempotencyKey workloadIdentity : string) : result StoreError string :=
  let event := Record.Event record in
  _ ← guard_err ((Record.Sequence record <? 1) || negb (len (Record.MAC record) =? 32) ||
        negb (String.eqb workloadIdentity "praetor-secrets") ||
        negb (String.eqb idempotencyKey (idempotency_key (Record.MAC record))) ||
        negb (SchemaVersion event =? AuditSchemaVersion) || IsZero (Timestamp event) ||
        blank (EventType event) || blank (Operation event) || blank (Result event) || blank (ReasonCode event))
      ErrInvalid;
  canonical ← of_option ErrInvalid (Marshal event);
  _ ← guard_err (60 * 1024 <? len canonical) ErrInvalid;
  Ok canonical.

Definition exactReplay (w : sink_weather) (s : sink) (record : Record.t)
    (canonical idempotencyKey workloadIdentity : string) : result StoreError AppendResult :=
  _ ← guard_err (negb (wReplay w)) ErrConflict;
  stored ← of_option ErrConflict (find_record (Record.Sequence record) (skRows s));
  event ← of_option ErrStore (Unmarshal (skEvent stored));
  storedCanonical ← of_option ErrStore (Marshal event);
  _ ← guard_err (negb (String.eqb storedCanonical canonical) || negb (String.eqb (skMac stored) (Record.MAC record)) ||
        negb (String.eqb (skKey stored) idempotencyKey) || negb (String.eqb (skIdentity stored) workloadIdentity))
      ErrConflict;
  Ok Replayed.

(** The transaction's result and, if it commits, its new tables. *)
Definition append_tx (w : sink_weather) (now : time) (record : Record.t)
    (canonical idempotencyKey workloadIdentity : string) (s : sink) : result StoreError (AppendResult * sink) :=
  _ ← guard_err (negb (wBegin w)) ErrStore;
  _ ← guard_err (negb (wHead w)) ErrStore;
  if Record.Sequence record <=? skLast s then
    answer ← exactReplay w s record canonical idempotencyKey workloadIdentity;
    Ok (answer, s)
  else
    _ ← guard_err (negb (Record.Sequence record =? i64 (skLast s + 1))) ErrConflict;
    _ ← guard_err (negb (wInsert w)) ErrStore;
    document ← of_option ErrStore (jsonb canonical);
    let r := mkSinkRow (Record.Sequence record) document (Record.MAC record) idempotencyKey workloadIdentity (UTC now) in
    _ ← guard_err (negb (record_constraints r (skRows s))) ErrConflict;
    _ ← guard_err (negb (wUpdate w) || negb (head_trigger s (Record.Sequence record) (Record.MAC record) (UTC now))) ErrStore;
    Ok (Created, mkSink (skRows s ++ [r]) (Record.Sequence record) (Record.MAC record) (UTC now)).

Definition Append (w : sink_weather) (now : time) (record : Record.t) (idempotencyKey workloadIdentity : string)
    (s : sink) : result StoreError AppendResult * sink :=
  match sink_validate record idempotencyKey workloadIdentity with
  | Err _ => (Err ErrInvalid, s)
  | Ok canonical =>
      match append_tx w now record canonical idempotencyKey workloadIdentity s with
      | Err e => (Err e, s)
      | Ok (answer, s') =>
          match wCommit w with
          | Committed => (Ok answer, s')
          | Refused => (Err ErrStore, s)
          | Unacknowledged => (Err ErrStore, s')
          end
      end
  end.

(** ** The handler *)

Record http_request : Type := mkRequest {
  hMethod : string; hPath : string; hRawQuery : string; hTLS : option tls_state;
  hMediaType : option string; hBody : string; hIdempotencyKey : string
}.

Definition IngestionPath : string := "/internal/v1/audit/events".
Definition maxRequestBytes : Z := 64 * 1024.

(** [ToLower] on ASCII; whatever lies outside ASCII is refused further down. *)
Fixpoint ascii_lower (s : string) : string :=
  match s with
  | "" => ""
  | String a s' => String (if in_range 65 90 (bz a) then zb (bz a + 32) else a) (ascii_lower s')
  end.
Definition host_char (a : ascii) : bool := in_range 97 122 (bz a) || in_range 48 57 (bz a) || (bz a =? 45).
Definition host_label (label : string) : bool :=
  negb (String.eqb label "") && negb (HasPrefix label "-") && negb (HasSuffix label "-") && forall_bytes host_char label.
Definition separators : string := "/:@ " +:+ String (zb 9) (String (zb 13) (String (zb 10) "")).
Definition validSinkTrustDomain (value : string) : bool :=
  if String.eqb value "" || (253 <? len value) || negb (String.eqb value (ascii_lower value)) ||
     ContainsAny value separators then false
  else forallb host_label (split_on "." value).

Definition secretsServiceIdentity (certificate : list uri) (trustDomain : string) : bool :=
  match certificate with
  | [identity] => String.eqb (uScheme identity) "spiffe" && String.eqb (uHost identity) trustDomain &&
      String.eqb (uEscapedPath identity) "/workload/praetor-secrets" &&
      String.eqb (uRawQuery identity) "" && String.eqb (uFragment identity) ""
  | _ => false
  end.

Definition authenticated (trustDomain : string) (request : http_request) : bool :=
  match verified_leaf (hTLS request) with
  | Some certificate => secretsServiceIdentity certificate trustDomain
  | None => false
  end.

Definition status_of (answer : result StoreError AppendResult) : Z :=
  match answer with
  | Err ErrInvalid => 400 | Err ErrConflict => 409 | Err ErrStore => 503
  | Ok Created => 201 | Ok Replayed => 200
  end.

Definition ServeHTTP (trustDomain : string) (w : sink_weather) (now : time) (request : http_request) (s : sink) : Z * sink :=
  if negb (String.eqb (hMethod request) "POST") || negb (String.eqb (hPath request) IngestionPath) ||
     negb (String.eqb (hRawQuery request) "") then (404, s)
  else if negb (authenticated trustDomain request) then (401, s)
  else if negb (bool_decide (hMediaType request = Some "application/json")) then (415, s)
  else if maxRequestBytes <? len (hBody request) then (400, s)
  else match decode_record (hBody request) with
       | None => (400, s)
       | Some record =>
           if negb (len (Record.MAC record) =? 32) ||
              negb (String.eqb (hIdempotencyKey request) (idempotency_key (Record.MAC record))) then (400, s)
           else let '(answer, s') := Append w now record (hIdempotencyKey request) "praetor-secrets" s in
                (status_of answer, s')
       end.
End AuditSink.

(** ** The stream is gap-free, append-only and accepts retries *)

Section SinkLemmas.
Context `{JsonbLaws}.
Implicit Types (s : sink) (record : Record.t).

(** The record a row holds. *)
Definition holds (r : sink_row) record : Prop :=
  skSequence r = Record.Sequence record ∧ skMac r = Record.MAC record ∧
  skKey r = idempotency_key (Record.MAC record) ∧ skIdentity r = "praetor-secrets" ∧
  Unmarshal (skEvent r) = Some (Record.Event record).

Record sink_ok s : Prop := {
  so_numbers : skSequence <$> skRows s = seqZ 1 (Z.of_nat (length (skRows s)));
  so_last : skLast s = Z.of_nat (length (skRows s));
  so_head : skLastMac s = from_option skMac "" (last (skRows s));
  so_macs : NoDup (skMac <$> skRows s);
  so_rows : Forall (λ r, ∃ record, holds r record ∧ len (Record.MAC record) = 32) (skRows s)
}.

Lemma empty_sink_ok t : sink_ok (empty_sink t).
Proof. split; cbn; try done; constructor. Qed.

Lemma sink_validate_Ok record key identity canonical :
  sink_validate record key identity = Ok canonical →
  1 ≤ Record.Sequence record ∧ len (Record.MAC record) = 32 ∧ identity = "praetor-secrets" ∧
  key = idempotency_key (Record.MAC record) ∧ Marshal (Record.Event record) = Some canonical.
Proof.
  unfold sink_validate. intros Hv. apply guard_bind in Hv as [Hb Hv].
  apply of_option_bind in Hv as (c & Hc & Hv). apply guard_bind in Hv as [_ Hv]. simplify_eq. bool_prop.
  destruct_and!. done.
Qed.

Lemma find_record_spec sequence l r : find_record sequence l = Some r → r ∈ l ∧ skSequence r = sequence.
Proof.
  unfold find_record. intros Hh. apply head_Some_elem_of in Hh. apply list_elem_of_filter in Hh. naive_solver.
Qed.

Lemma find_record_unique sequence l r :
  NoDup (skSequence <$> l) → r ∈ l → skSequence r = sequence → find_record sequence l = Some r.
Proof.
  intros Hnd Hin Hs. unfold find_record. induction l as [|x l IH]; [by apply not_elem_of_nil in Hin|].
  rewrite fmap_cons in Hnd. apply NoDup_cons in Hnd as [Hx Hnd]. rewrite filter_cons.
  apply elem_of_cons in Hin as [<-|Hin]; [by rewrite decide_True|].
  rewrite decide_False; [by apply IH|]. intros E. apply Hx. rewrite E, <-Hs. apply list_elem_of_fmap. by exists r.
Qed.

Lemma sink_ok_NoDup s : sink_ok s → NoDup (skSequence <$> skRows s).
Proof. intros []. rewrite so_numbers0. apply NoDup_seqZ. Qed.

Definition sink_room s : Prop := Z.of_nat (length (skRows s)) < max_int64.

Lemma exactReplay_Ok w s record canonical key identity answer :
  exactReplay w s record canonical key identity = Ok answer →
  answer = Replayed ∧ ∃ r event, r ∈ skRows s ∧ skSequence r = Record.Sequence record ∧
    Unmarshal (skEvent r) = Some event ∧ Marshal event = Some canonical ∧ skMac r = Record.MAC record ∧
    skKey r = key ∧ skIdentity r = identity.
Proof.
  unfold exactReplay. intros Hx. apply guard_bind in Hx as [_ Hx]. apply of_option_bind in Hx as (r & Hf & Hx).
  apply of_option_bind in Hx as (event & Hu & Hx). apply of_option_bind in Hx as (c & Hm & Hx).
  apply guard_bind in Hx as [Hb Hx]. apply find_record_spec in Hf as [Hin Hs]. simplify_eq. bool_prop.
  destruct Hb as [[[-> ?] ?] ?]. split; [done|]. by exists r, event.
Qed.

(** The cases of a transaction that goes through. *)
Lemma append_tx_cases w now record canonical key identity s answer s' :
  append_tx w now record canonical key identity s = Ok (answer, s') → sink_ok s → sink_room s →
  (answer = Replayed ∧ s' = s ∧ exactReplay w s record canonical key identity = Ok Replayed) ∨
  (answer = Created ∧ Record.Sequence record = skLast s + 1 ∧
   ∃ d, jsonb canonical = Some d ∧
     let r := mkSinkRow (Record.Sequence record) d (Record.MAC record) key identity now in
     record_constraints r (skRows s) = true ∧ skUpdated s ≤ now ∧
     s' = mkSink (skRows s ++ [r]) (Record.Sequence record) (Record.MAC record) now).
Proof.
  intros Ha Hok Hroom. unfold append_tx in Ha. apply guard_bind in Ha as [_ Ha]. apply guard_bind in Ha as [_ Ha].
  case_match.
  - left. apply bind_Ok in Ha as (a & Hx & Ha). simplify_eq.
    assert (answer = Replayed) as -> by (by apply exactReplay_Ok in Hx as [? _]).
    done.
  - right. apply guard_bind in Ha as [Hseq Ha]. apply guard_bind in Ha as [_ Ha].
    apply of_option_bind in Ha as (d & Hd & Ha). apply guard_bind in Ha as [Hc Ha].
    apply guard_bind in Ha as [Hw Ha]. simplify_eq. bool_prop. destruct Hw as [_ Hw].
    rewrite i64_small in Hseq by (unfold sink_room, max_int64 in Hroom; rewrite (so_last _ Hok); lia). unfold head_trigger in Hw. bool_prop. destruct Hw as [[Hw1 _] Hw2].
    unfold UTC in *. split; [done|]. split; [done|]. exists d. done.
Qed.

Lemma append_created_ok w now record canonical key identity s s' :
  append_tx w now record canonical key identity s = Ok (Created, s') → sink_ok s → sink_room s →
  sink_validate record key identity = Ok canonical → encodable (Record.Event record) →
  sink_ok s' ∧ ∃ r, skRows s' = skRows s ++ [r] ∧ holds r record.
Proof.
  intros Ha Hok Hroom Hv He. apply sink_validate_Ok in Hv as (_ & Hlen & -> & -> & Hm).
  destruct (append_tx_cases _ _ _ _ _ _ _ _ _ Ha Hok Hroom) as [[? _]|(_ & Hs & d & Hd & Hc & _ & ->)]; [done|].
  set (r := mkSinkRow _ _ _ _ _ _) in *. assert (holds r record) as Hr.
  { unfold holds, r. cbn. split_and!; try done. by eapply jsonb_keeps. }
  split; [|by exists r]. destruct Hok as [Hn Hl Hh Hmac Hrows]. split; cbn [skRows skLast skLastMac].
  - rewrite fmap_app, length_app, Hn. cbn [length fmap list_fmap]. rewrite Nat2Z.inj_add, seqZ_app by lia.
    f_equal. change (Z.of_nat 1) with 1. rewrite seqZ_cons, seqZ_nil by lia. f_equal. cbn. lia.
  - rewrite length_app. cbn [length]. lia.
  - by rewrite last_snoc.
  - rewrite fmap_app. apply NoDup_app. split; [done|]. split; [|apply NoDup_singleton].
    intros m Hin ->%list_elem_of_singleton. apply list_elem_of_fmap in Hin as (x & Hx & Hin).
    unfold record_constraints in Hc. apply andb_prop in Hc as [_ Hc]. rewrite forallb_forall in Hc.
    specialize (Hc x (proj1 (list_elem_of_In _ _) Hin)). bool_prop. naive_solver.
  - apply Forall_app_2; [done|]. constructor; [|constructor]. by exists record.
Qed.

Lemma replay_stored s record r w key identity canonical :
  sink_ok s → r ∈ skRows s → holds r record → wReplay w = true →
  sink_validate record key identity = Ok canonical →
  exactReplay w s record canonical key identity = Ok Replayed.
Proof.
  intros Hok Hin (Hs & Hm & Hk & Hi & Hu) Hw (_ & _ & -> & -> & Hc)%sink_validate_Ok.
  unfold exactReplay. rewrite Hw. cbn [negb guard_err mbind result_bind].
  rewrite (find_record_unique _ _ r) by (done || by apply sink_ok_NoDup). cbn [of_option mbind result_bind].
  rewrite Hu. cbn [of_option mbind result_bind]. rewrite Hc. cbn [of_option mbind result_bind].
  rewrite Hm, Hk, Hi, !String.eqb_refl. done.
Qed.

Lemma idempotency_key_ok mac :
  len mac = 32 → HasPrefix (idempotency_key mac) "audit-" = true ∧ len (idempotency_key mac) = 70 ∧
  forall_bytes lower_hex (drop_str 6 (idempotency_key mac)) = true.
Proof.
  intros Hm. unfold idempotency_key. split; [apply HasPrefix_app|]. split.
  - rewrite len_app, len_EncodeToString. change (len "audit-") with 6. lia.
  - rewrite (drop_str_app' 6 "audit-") by done. apply EncodeToString_lower.
Qed.

(** A database that serves stores the next record, if its canonical form is a
    document and its digest is new. *)
Lemma append_constraints record s d now :
  sink_ok s → Record.Sequence record = skLast s + 1 → len (Record.MAC record) = 32 →
  Record.MAC record ∉ skMac <$> skRows s →
  record_constraints (mkSinkRow (Record.Sequence record) d (Record.MAC record) (idempotency_key (Record.MAC record))
    "praetor-secrets" now) (skRows s) = true.
Proof.
  intros Hok Hseq Hmac Hfresh. pose proof (so_last _ Hok) as Hlast.
  unfold record_constraints. cbn [skSequence skMac skKey skIdentity].
  destruct (idempotency_key_ok _ Hmac) as (-> & -> & ->). rewrite Hmac, (proj2 (Z.ltb_lt _ _)), String.eqb_refl by lia.
  cbn [andb Z.eqb Pos.eqb]. apply forallb_forall. intros x Hx%list_elem_of_In.
  assert (skSequence x ∈ skSequence <$> skRows s) as Hxs by (apply list_elem_of_fmap; by exists x).
  rewrite (so_numbers _ Hok), elem_of_seqZ in Hxs.
  assert (skMac x ≠ Record.MAC record) as Hxm by (intros E; apply Hfresh; rewrite <-E; apply list_elem_of_fmap; by exists x).
  pose proof (so_rows _ Hok) as Hrows. rewrite Forall_forall in Hrows.
  destruct (Hrows x Hx) as (rec' & (_ & Hm' & Hk' & _) & _).
  assert (skKey x ≠ idempotency_key (Record.MAC record)) as Hxk.
  { rewrite Hk', <-Hm'. unfold idempotency_key. intros E%(inj (String.append _))%(inj EncodeToString). done. }
  bool_prop. split_and!; [lia|done|done].
Qed.

Lemma Append_created now record key identity canonical d s :
  sink_ok s → sink_room s → sink_validate record key identity = Ok canonical → jsonb canonical = Some d →
  Record.Sequence record = skLast s + 1 → Record.MAC record ∉ skMac <$> skRows s → skUpdated s ≤ now →
  Append fair now record key identity s =
    (Ok Created, mkSink (skRows s ++ [mkSinkRow (Record.Sequence record) d (Record.MAC record) key identity now])
       (Record.Sequence record) (Record.MAC record) now).
Proof.
  intros Hok Hroom Hv Hd Hseq Hfresh Hnow. pose proof (so_last _ Hok) as Hlast. unfold sink_room, max_int64 in Hroom.
  unfold Append. rewrite Hv. apply sink_validate_Ok in Hv as (_ & Hmac & -> & -> & _).
  unfold append_tx. cbn [wBegin wHead wInsert wUpdate wCommit fair negb guard_err mbind result_bind orb].
  rewrite (proj2 (Z.leb_gt _ _)), i64_small, (proj2 (Z.eqb_eq _ _) Hseq) by lia. cbn [negb guard_err mbind result_bind].
  rewrite Hd. cbn [of_option mbind result_bind]. unfold head_trigger, UTC.
  rewrite append_constraints, (proj2 (Z.eqb_eq _ _) Hseq), Hmac, (proj2 (Z.leb_le _ _)) by done. done.
Qed.

(** A database that serves answers a stored record without writing. *)
Lemma Append_replayed now record key identity canonical r s :
  sink_ok s → r ∈ skRows s → holds r record → sink_validate record key identity = Ok canonical →
  Append fair now record key identity s = (Ok Replayed, s).
Proof.
  intros Hok Hin Hr Hv. unfold Append. rewrite Hv. unfold append_tx. cbn [wBegin wHead fair negb guard_err mbind result_bind].
  assert (skSequence r ∈ skSequence <$> skRows s) as Hx by (apply list_elem_of_fmap; by exists r).
  rewrite (so_numbers _ Hok), elem_of_seqZ in Hx. pose proof (so_last _ Hok) as Hlast. destruct Hr as [Hseq Hr].
  rewrite (proj2 (Z.leb_le _ _)), (replay_stored s record r) by (done || lia). done.
Qed.

Lemma Append_cases w now record key identity s answer s' :
  Append w now record key identity s = (answer, s') → sink_ok s → sink_room s → encodable (Record.Event record) →
  s' = s ∨ ∃ canonical, sink_validate record key identity = Ok canonical ∧
    append_tx w now record canonical key identity s = Ok (Created, s') ∧ wCommit w ≠ Refused ∧
    (answer = Ok Created ∨ (answer = Err ErrStore ∧ wCommit w = Unacknowledged)).
Proof.
  intros Ha Hok Hroom He. unfold Append in Ha.
  destruct (sink_validate record key identity) as [canonical|] eqn:Hv; [|left; congruence].
  destruct (append_tx w now record canonical key identity s) as [[a s1]|] eqn:Ht; [|left; congruence].
  destruct (append_tx_cases _ _ _ _ _ _ _ _ _ Ht Hok Hroom) as [(-> & -> & _)|(-> & _)];
    [left; by destruct (wCommit w); simplify_eq|].
  destruct (wCommit w) eqn:Hw; simplify_eq; [right|by left|right]; exists canonical; naive_solver.
Qed.

(** C38: the remote copy is an append-only stream: from a store whose records
    are numbered from 1 without gaps under distinct digests, whatever one call
    of [Append] is given and however the database behaves, the store keeps that
    form and either does not change or gains exactly the record of the call, as
    its next one; [Created] is answered only for a record that was added,
    [Replayed] only for one that is stored with the same canonical event and
    digest, and an invalid or conflicting record is never stored.  A database
    that serves adds every valid next record with a new digest, and any record
    that is stored, the latest or an older one, can be sent again any number of
    times: the answer is [Replayed] and nothing is written. *)
Theorem sink_append_stream w now record key identity s answer s' :
  sink_ok s → sink_room s → encodable (Record.Event record) →
  Append w now record key identity s = (answer, s') →
  sink_ok s' ∧
  (s' = s ∨ ∃ r, skRows s' = skRows s ++ [r] ∧ holds r record ∧ Record.Sequence record = skLast s + 1) ∧
  (answer = Ok Created → s' ≠ s) ∧
  (answer = Ok Replayed → s' = s ∧ ∃ r event, r ∈ skRows s ∧ skSequence r = Record.Sequence record ∧
     skMac r = Record.MAC record ∧ Unmarshal (skEvent r) = Some event ∧ Marshal event = Marshal (Record.Event record)) ∧
  (answer = Err ErrInvalid ∨ answer = Err ErrConflict → s' = s) ∧
  (∀ canonical d, w = fair → sink_validate record key identity = Ok canonical → jsonb canonical = Some d →
     Record.Sequence record = skLast s + 1 → Record.MAC record ∉ skMac <$> skRows s → skUpdated s ≤ now →
     answer = Ok Created) ∧
  (∀ r record' key' identity' canonical' now', r ∈ skRows s' → holds r record' →
     sink_validate record' key' identity' = Ok canonical' →
     Append fair now' record' key' identity' s' = (Ok Replayed, s')) ∧
  (s' ≠ s → ∀ now', sink_room s' → Append fair now' record key identity s' = (Ok Replayed, s')).
Proof.
  intros Hok Hroom He Ha.
  assert (∀ canonical d, w = fair → sink_validate record key identity = Ok canonical → jsonb canonical = Some d →
    Record.Sequence record = skLast s + 1 → Record.MAC record ∉ skMac <$> skRows s → skUpdated s ≤ now →
    answer = Ok Created) as Hcreated.
  { intros c d -> Hv Hd Hseq Hf Hnow. pose proof (Append_created _ _ _ _ _ _ _ Hok Hroom Hv Hd Hseq Hf Hnow). congruence. }
  destruct (Append_cases _ _ _ _ _ _ _ _ Ha Hok Hroom He) as [->|(c & Hv & Ht & Hw & Hans)].
  - split; [done|]. split; [by left|]. split; [|split; [|split; [done|split; [done|split; [|done]]]]].
    + intros ->. unfold Append in Ha. destruct (sink_validate record key identity) as [c|]; [|done].
      destruct (append_tx _ _ _ _ _ _ _) as [[a s1]|] eqn:Ht; [|done].
      destruct (append_tx_cases _ _ _ _ _ _ _ _ _ Ht Hok Hroom) as [(-> & -> & _)|(-> & _ & d & _ & _ & _ & ->)];
        destruct (wCommit w); try discriminate. intros _.
      apply (f_equal (λ x, length (skRows x.2))) in Ha. cbn [snd skRows] in Ha.
      rewrite length_app in Ha. cbn [length] in Ha. lia.
    + intros ->. split; [done|]. unfold Append in Ha.
      destruct (sink_validate record key identity) as [c|] eqn:Hv; [|done].
      destruct (append_tx _ _ _ _ _ _ _) as [[a s1]|] eqn:Ht; [|done].
      destruct (append_tx_cases _ _ _ _ _ _ _ _ _ Ht Hok Hroom) as [(-> & -> & Hx)|(-> & _)];
        [|by destruct (wCommit w)].
      apply exactReplay_Ok in Hx as (_ & r & event & ? & ? & ? & Hc & ? & _). apply sink_validate_Ok in Hv as (_ & _ & _ & _ & Hm).
      exists r, event. rewrite Hc, Hm. done.
    + eauto using Append_replayed.
  - destruct (append_created_ok _ _ _ _ _ _ _ _ Ht Hok Hroom Hv He) as (Hok' & r & Hrows & Hr).
    pose proof (append_tx_cases _ _ _ _ _ _ _ _ _ Ht Hok Hroom) as [[? _]|(_ & Hseq & _)]; [done|].
    assert (s' ≠ s) as Hne.
    { intros ->. apply (f_equal length) in Hrows. rewrite length_app in Hrows. simpl in Hrows. lia. }
    split; [done|]. split; [right; by exists r|]. split; [done|]. split; [|split; [|split; [done|split]]].
    + intros ->. destruct Hans as [?|[? _]]; done.
    + intros [->| ->]; destruct Hans as [?|[? _]]; done.
    + eauto using Append_replayed.
    + intros _ now' _. apply (Append_replayed now' record key identity c r); [done| |done..].
      rewrite Hrows. apply elem_of_app. right. by apply list_elem_of_singleton.
Qed.
End SinkLemmas.

(** ** Execution *)

#[local] Existing Instances text_column text_column_laws.

Module SinkExample.
Definition when : time := 738945 * 86400 * Second.
Definition record : Record.t := Record.mk 1 sample_event (stream 32 9).
Definition one : sink :=
  (Append fair when record (idempotency_key (Record.MAC record)) "praetor-secrets" (empty_sink when)).2.

Lemma start_room : sink_room (empty_sink when).
Proof. vm_compute. reflexivity. Qed.
Lemma sink_one_room : sink_room one.
Proof. vm_compute. reflexivity. Qed.
Lemma sent :
  Append fair when record (idempotency_key (Record.MAC record)) "praetor-secrets" (empty_sink when) = (Ok Created, one).
Proof. vm_compute. reflexivity. Qed.
Definition second : Record.t := Record.mk 2 sample_event (stream 32 90).
Definition two : sink :=
  (Append fair when second (idempotency_key (Record.MAC second)) "praetor-secrets" one).2.
Lemma sent_second :
  Append fair when second (idempotency_key (Record.MAC second)) "praetor-secrets" one = (Ok Created, two).
Proof. vm_compute. reflexivity. Qed.
End SinkExample.

(** A record that leaves a gap is refused. *)
Example gap_refused :
  (let r := Record.mk 3 sample_event (stream 32 9) in
   Append fair SinkExample.when r (idempotency_key (Record.MAC r)) "praetor-secrets" SinkExample.one).1 = Err ErrConflict.
Proof. vm_compute. reflexivity. Qed.

(** The older of two records is sent again. *)
Lemma sink_append_stream_witness :
  Append fair SinkExample.when SinkExample.record (idempotency_key (Record.MAC SinkExample.record)) "praetor-secrets"
    SinkExample.two = (Ok Replayed, SinkExample.two).
Proof.
  pose proof (sink_append_stream fair SinkExample.when SinkExample.record
    (idempotency_key (Record.MAC SinkExample.record)) "praetor-secrets" (empty_sink SinkExample.when) (Ok Created)
    SinkExample.one (empty_sink_ok _) SinkExample.start_room sample_encodable SinkExample.sent) as Hs.
  destruct Hs as (Hok & [E|(r & Hrows & Hr & _)] & Hne & _); [by destruct (Hne eq_refl E)|].
  pose proof (sink_append_stream fair SinkExample.when SinkExample.second
    (idempotency_key (Record.MAC SinkExample.second)) "praetor-secrets" SinkExample.one (Ok Created)
    SinkExample.two Hok SinkExample.sink_one_room sample_encodable SinkExample.sent_second) as Hs.
  destruct Hs as (_ & [E|(r' & Hrows' & _)] & Hne' & _ & _ & _ & Hagain & _); [by destruct (Hne' eq_refl E)|].
  eapply (Hagain r SinkExample.record); [|exact Hr|vm_compute; reflexivity].
  rewrite Hrows', Hrows. apply elem_of_app. left. apply elem_of_app. right. apply list_elem_of_here.
Defined.
