(* ===== verification/Delivery.v ===== *)
(** * Delivering the audit stream (src/audit/delivery.go)

    The worker reads undelivered records from the spool, posts each to the
    remote store and acknowledges it locally.  A [world] is the spool's tables
    and the remote tables together; what the network, the two databases, the
    clocks and concurrent requests do is an argument of every step: [appends]
    are audit records that commit while the worker is between two statements.
    The worker's loop ends when its context does, which here is the end of the
    list of polls. *)

From Stdlib Require Import Ascii.
From S2P Require Import Prelude GoStrings Json GoTime TimeParse Crypto Identity AuditEvent Spool Wire WireSize AuditSink.

(** What happens to a request on its way. *)
Inductive transmission : Type := Answered | RequestLost | ResponseLost.

(** Where the worker posts to and the client certificate it presents there. *)
Record endpoint : Type := mkEndpoint { ePath : string; eRawQuery : string; eTLS : option tls_state; eTrustDomain : string }.

(** One iteration of the batch: the network, the remote database and its
    clock, what commits to the spool meanwhile, the local database and clock. *)
Record moment : Type := mkMoment {
  mNet : transmission; mSink : sink_weather; mSinkNow : time;
  mAppends : list Event; mUp : statement → bool; mNow : time
}.
(** One poll: the reads of [Pending], with what commits between them, and the
    iterations that follow. *)
Record poll : Type := mkPoll {
  pUp : statement → bool; pBeforeHead : list Event; pBeforeLast : list Event; pMoments : list moment
}.

Record world : Type := mkWorld { wChain : chain; wSink : sink; wLastDelivered : Z }.

Record DeliveryConfig : Type := mkDeliveryConfig { BatchSize : Z; PollInterval : duration; RequestTimeout : duration }.

Definition valid_delivery_config (c : DeliveryConfig) : bool :=
  negb ((BatchSize c <? 1) || (1000 <? BatchSize c) || (PollInterval c <? 100 * Millisecond) ||
        (Minute <? PollInterval c) || (RequestTimeout c <? Second) || (Minute <? RequestTimeout c)).

(** [time.Time.UnixNano]. *)
Definition unix_epoch : time := 719162 * 86400 * Second.
Definition UnixNano (t : time) : Z := i64 (t - unix_epoch).

Record DeliveryWorker : Type := mkWorker { wkSpool : Spool; wkEndpoint : endpoint; wkBatchSize : Z }.

Definition NewDeliveryWorker (spool : Spool) (ep : endpoint) (config : DeliveryConfig)
  : result AuditError DeliveryWorker :=
  if valid_delivery_config config then Ok (mkWorker spool ep (BatchSize config)) else Err ErrAudit.

(** [DeliveryWorker.Status]: whether it is degraded and its last delivery. *)
Definition worker_status (degraded : bool) (w : world) : bool * time :=
  (degraded, if wLastDelivered w =? 0 then zero_time else wLastDelivered w + unix_epoch).

(** [SecurityStatus], and [Recorder.Status], which reads it from the recorder,
    the spool and the worker. *)
Record SecurityStatus : Type := mkStatus {
  AuditIntegrityHealthy : bool; AuditDeliveryDegraded : bool;
  PendingAuditEvents : Z; MaximumPendingAuditEvents : Z; LastAuditDelivery : time
}.
Definition Recorder_Status (recorder : Recorder) (up : statement → bool) (worker_degraded : bool) (w : world)
  : result AuditError SecurityStatus * Recorder :=
  match PendingCount (spool_of recorder) up (wChain w) with
  | Err _ => (Err ErrAudit, mkRecorder (spool_of recorder) true)
  | Ok (pending, maximum) =>
      let '(degraded_delivery, delivered) := worker_status worker_degraded w in
      (Ok (mkStatus (negb (degraded recorder)) degraded_delivery pending maximum delivered), recorder)
  end.

Section Delivery.
Context `{Crypto, Jsonb}.

Definition post (ep : endpoint) (body mac : string) : http_request :=
  mkRequest "POST" (ePath ep) (eRawQuery ep) (eTLS ep) (Some "application/json") body (idempotency_key mac).

Definition Deliver (ep : endpoint) (net : transmission) (w : sink_weather) (now : time)
    (record : Record.t) (s : sink) : result AuditError () * sink :=
  if (Record.Sequence record <? 1) || negb (len (Record.MAC record) =? 32) || negb (AuditEvent.validate (Record.Event record))
  then (Err ErrSink, s)
  else match marshal_record record with
       | None => (Err ErrSink, s)
       | Some body =>
           match net with
           | RequestLost => (Err ErrSink, s)
           | Answered | ResponseLost =>
               let '(status, s') := ServeHTTP (eTrustDomain ep) w now (post ep body (Record.MAC record)) s in
               let lost := match net with ResponseLost => true | _ => false end in
               if lost || (status <? 200) || (300 <=? status) then (Err ErrSink, s') else (Ok (), s')
           end
       end.

(** Audit records committed by others; what the spool refuses leaves no trace. *)
Definition append_one (spool : Spool) (c : chain) (e : Event) : chain :=
  match AppendTx spool all_up c e with Ok c' => c' | Err _ => c end.
Definition appends (spool : Spool) : list Event → chain → chain := flip (foldl (append_one spool)).

Fixpoint deliver_loop (worker : DeliveryWorker) (ms : list moment) (records : list Record.t) (w : world)
    {struct records} : result AuditError () * world :=
  match records with
  | [] => (Ok (), w)
  | record :: records' =>
      match ms with
      | [] => (Err ErrSink, w)
      | m :: ms' =>
          let '(answer, s) := Deliver (wkEndpoint worker) (mNet m) (mSink m) (mSinkNow m) record (wSink w) in
          let w := mkWorld (appends (wkSpool worker) (mAppends m) (wChain w)) s (wLastDelivered w) in
          match answer with
          | Err _ => (Err ErrSink, w)
          | Ok _ =>
              match MarkDelivered (mUp m) (wChain w) (Record.Sequence record) (Record.MAC record) (mNow m) with
              | Err _ => (Err ErrAudit, w)
              | Ok c => deliver_loop worker ms' records' (mkWorld c s (UnixNano (mNow m)))
              end
          end
      end
  end.

Definition deliverBatch (worker : DeliveryWorker) (p : poll) (w : world) : result AuditError () * world :=
  let c1 := wChain w in
  let c2 := appends (wkSpool worker) (pBeforeHead p) c1 in
  let c3 := appends (wkSpool worker) (pBeforeLast p) c2 in
  let w := mkWorld c3 (wSink w) (wLastDelivered w) in
  match Pending (wkSpool worker) (pUp p) c1 c2 c3 (wkBatchSize worker) with
  | Err _ => (Err ErrAudit, w)
  | Ok records => deliver_loop worker (pMoments p) records w
  end.

(** The polling loop: its error, the degraded flag and the world. *)
Fixpoint run_polls (worker : DeliveryWorker) (polls : list poll) (degraded : bool) (w : world)
  : result AuditError () * bool * world :=
  match polls with
  | [] => (Ok (), degraded, w)
  | p :: polls' =>
      match deliverBatch worker p w with
      | (Err ErrAudit, w') => (Err ErrAudit, true, w')
      | (Err ErrSink, w') => run_polls worker polls' true w'
      | (Ok _, w') => run_polls worker polls' false w'
      end
  end.

(** [Run]: the spool is verified first, [between] committing during the two
    reads of the verification. *)
Definition Run (worker : DeliveryWorker) (up : statement → bool) (between : list Event) (polls : list poll) (w : world)
  : result AuditError () * bool * world :=
  let c2 := appends (wkSpool worker) between (wChain w) in
  let w' := mkWorld c2 (wSink w) (wLastDelivered w) in
  match Verify (wkSpool worker) up (wChain w) c2 with
  | Err _ => (Err ErrAudit, true, w')
  | Ok _ => run_polls worker polls false w'
  end.
End Delivery.

(** ** The spool under concurrent appends *)

Section SpoolGrowth.
Context `{CryptoLaws, JsonbLaws}.
Implicit Types (spool : Spool) (c : chain).

Definition good_row (r : row) : Prop :=
  ∃ e, Unmarshal (rEvent r) = Some e ∧ encodable e ∧ AuditEvent.validate e = true.
Definition spool_ok spool c : Prop := verified spool c ∧ Forall good_row (rows c).

Lemma insert_row_length r l l' : insert_row r l = Some l' → length l' = S (length l).
Proof.
  revert l'. induction l as [|x l IH]; intros l' Hi; simpl in Hi; [by simplify_eq|].
  case_match; [by simplify_eq|]. case_match; [done|].
  destruct (insert_row r l) as [t|] eqn:E; [|done]. simplify_eq/=. f_equal. by apply IH.
Qed.

Lemma AppendTx_length spool up c e c' : AppendTx spool up c e = Ok c' → length (rows c') = S (length (rows c)).
Proof.
  unfold AppendTx. intros Ha. apply guard_bind in Ha as [_ Ha]. apply guard_bind in Ha as [_ Ha].
  apply guard_bind in Ha as [_ Ha]. apply of_option_bind in Ha as (s & _ & Ha).
  apply of_option_bind in Ha as (d & _ & Ha). apply guard_bind in Ha as [_ Ha].
  apply of_option_bind in Ha as (l & Hl & Ha). apply guard_bind in Ha as [_ Ha]. simplify_eq.
  by eapply insert_row_length.
Qed.

(** [c'] is [c] with undelivered rows added at the end. *)
Definition extends (c c' : chain) : Prop :=
  ∃ l, rows c' = rows c ++ l ∧ Forall (λ r, undelivered r = true) l.

Lemma extends_refl c : extends c c.
Proof. exists []. by rewrite app_nil_r. Qed.
Lemma extends_trans c1 c2 c3 : extends c1 c2 → extends c2 c3 → extends c1 c3.
Proof.
  intros (l & Hl & Hu) (k & Hk & Hv). exists (l ++ k). rewrite Hk, Hl, app_assoc. split; [done|by apply Forall_app_2].
Qed.
Lemma extends_length c c' : extends c c' → (length (rows c) ≤ length (rows c'))%nat.
Proof. intros (l & -> & _). rewrite length_app. lia. Qed.

Lemma append_one_length spool c e : (length (rows c) ≤ length (rows (append_one spool c e)))%nat.
Proof. unfold append_one. destruct (AppendTx _ _ _ _) eqn:E; [|done]. apply AppendTx_length in E. lia. Qed.
Lemma appends_length spool es c : (length (rows c) ≤ length (rows (appends spool es c)))%nat.
Proof.
  unfold appends, flip. revert c. induction es as [|e es IH]; intros c; [done|]. simpl.
  etrans; [apply append_one_length|apply IH].
Qed.

Lemma append_one_ok spool c e :
  spool_ok spool c → room (append_one spool c e) → encodable e →
  spool_ok spool (append_one spool c e) ∧ extends c (append_one spool c e).
Proof.
  intros [Hv Hg] Hroom He. unfold append_one in *.
  destruct (AppendTx spool all_up c e) as [c'|] eqn:Ha; [|split; [done|apply extends_refl]].
  pose proof (AppendTx_length _ _ _ _ _ Ha) as Hlen. unfold room in Hroom.
  destruct (AuditEvent.validate e && (pending_count c <? maximumPending spool)) eqn:Hb; [|by rewrite AppendTx_refused in Ha].
  apply andb_prop in Hb as [Hval Hp]. apply Z.ltb_lt in Hp.
  destruct (AppendTx_compute spool c e) as (d & s & Hs & Hu & Hc); [done|unfold room; lia|done..|].
  rewrite Hc in Ha. simplify_eq. split; [split|].
  - apply appended_verified with e; try done. lia.
  - cbn [rows]. apply Forall_app_2; [done|]. constructor; [|constructor]. by exists e.
  - exists [appended spool c d s]. split; [done|]. by constructor.
Qed.

Lemma appends_ok spool es c :
  spool_ok spool c → room (appends spool es c) → Forall encodable es →
  spool_ok spool (appends spool es c) ∧ extends c (appends spool es c).
Proof.
  revert c. induction es as [|e es IH]; intros c Hok Hroom He; [split; [done|apply extends_refl]|].
  apply Forall_cons in He as [He Hes]. change (appends spool (e :: es) c) with (appends spool es (append_one spool c e)) in *.
  destruct (append_one_ok spool c e Hok) as [Hok1 Hx1]; [|done|].
  { unfold room in *. pose proof (appends_length spool es (append_one spool c e)). lia. }
  destruct (IH _ Hok1 Hroom Hes) as [Hok2 Hx2]. split; [done|by eapply extends_trans].
Qed.
End SpoolGrowth.

(** ** One delivery *)

Section OneDelivery.
Context `{CryptoLaws, JsonbLaws}.
Implicit Types (s : sink) (record : Record.t).

Definition good_record record : Prop :=
  1 ≤ Record.Sequence record < 2 ^ 63 ∧ encodable (Record.Event record).

Lemma Append_effect w now record key identity s answer s' :
  Append w now record key identity s = (answer, s') → sink_ok s → sink_room s → encodable (Record.Event record) →
  sink_ok s' ∧
  (s' = s ∨ ∃ r, skRows s' = skRows s ++ [r] ∧ holds r record ∧ Record.Sequence record = skLast s + 1) ∧
  (is_ok answer = true → Record.Sequence record ≤ skLast s').
Proof.
  intros Ha Hok Hroom He. destruct (Append_cases _ _ _ _ _ _ _ _ Ha Hok Hroom He) as [->|(c & Hv & Ht & _)].
  - split; [done|]. split; [by left|]. intros Hans. unfold Append in Ha.
    destruct (sink_validate record key identity) as [c|]; [|by simplify_eq].
    destruct (append_tx _ _ _ _ _ _ _) as [[a s1]|] eqn:Ht; [|by simplify_eq].
    destruct (append_tx_cases _ _ _ _ _ _ _ _ _ Ht Hok Hroom) as [(-> & -> & Hx)|(-> & _ & d & _ & _ & _ & ->)].
    + apply exactReplay_Ok in Hx as (_ & r & event & Hin & Hr & _). rewrite (so_last _ Hok).
      assert (skSequence r ∈ skSequence <$> skRows s) as Hr' by (apply list_elem_of_fmap; by exists r).
      rewrite (so_numbers _ Hok), elem_of_seqZ in Hr'. lia.
    + exfalso. assert (answer ≠ Err ErrStore) as Hne by (by intros ->).
      destruct (wCommit w); [|congruence|congruence].
      apply (f_equal (λ x, length (skRows x.2))) in Ha. cbn [snd skRows] in Ha.
      rewrite length_app in Ha. cbn [length] in Ha. lia.
  - destruct (append_created_ok _ _ _ _ _ _ _ _ Ht Hok Hroom Hv He) as (Hok' & r & Hrows & Hr).
    pose proof (append_tx_cases _ _ _ _ _ _ _ _ _ Ht Hok Hroom) as [[? _]|(_ & Hseq & _)]; [done|].
    split; [done|]. split; [right; by exists r|]. intros _.
    rewrite (so_last _ Hok'), Hrows, length_app, Hseq, (so_last _ Hok). simpl. lia.
Qed.

(** The handler sees the record that was posted. *)
Lemma ServeHTTP_post ep w now record body s status s' :
  good_record record → marshal_record record = Some body →
  ServeHTTP (eTrustDomain ep) w now (post ep body (Record.MAC record)) s = (status, s') →
  (300 ≤ status ∧ s' = s) ∨
  ∃ answer, Append w now record (idempotency_key (Record.MAC record)) "praetor-secrets" s = (answer, s') ∧
    status = status_of answer.
Proof.
  intros [Hseq He] Hb Hs. unfold ServeHTTP in Hs.
  assert (∀ x, x = status → 300 ≤ x → s = s' → 300 ≤ status ∧ s' = s) as Hstop by naive_solver.
  do 4 (match type of Hs with (if ?b then _ else _) = _ => destruct b end; [left; simplify_eq; by eapply Hstop|]).
  cbn [hBody post] in Hs. rewrite (record_roundtrip record body) in Hs; [|split; [done|lia]|done].
  match type of Hs with (if ?b then _ else _) = _ => destruct b end; [left; simplify_eq; by eapply Hstop|].
  cbn [hIdempotencyKey post] in Hs.
  destruct (Append _ _ _ _ _ s) as [answer s1] eqn:Ha. simplify_eq. right. by exists answer.
Qed.

(** What a delivery can do to the store, and what its success tells. *)
Lemma Deliver_effect ep net w now record s answer s' :
  Deliver ep net w now record s = (answer, s') → sink_ok s → sink_room s → good_record record →
  sink_ok s' ∧
  (s' = s ∨ ∃ r, skRows s' = skRows s ++ [r] ∧ holds r record ∧ Record.Sequence record = skLast s + 1) ∧
  (is_ok answer = true → Record.Sequence record ≤ skLast s').
Proof.
  intros Hd Hok Hroom Hgood. assert (sink_ok s ∧ (s = s ∨ ∃ r, skRows s = skRows s ++ [r] ∧ holds r record ∧
    Record.Sequence record = skLast s + 1) ∧ (false = true → Record.Sequence record ≤ skLast s)) as Hsame
    by (split; [done|split; [by left|done]]).
  unfold Deliver in Hd. case_match; [by simplify_eq|].
  destruct (marshal_record record) as [body|] eqn:Hm; [|by simplify_eq].
  assert (∀ status s1, ServeHTTP (eTrustDomain ep) w now (post ep body (Record.MAC record)) s = (status, s1) →
    sink_ok s1 ∧ (s1 = s ∨ ∃ r, skRows s1 = skRows s ++ [r] ∧ holds r record ∧ Record.Sequence record = skLast s + 1) ∧
    (status < 300 → Record.Sequence record ≤ skLast s1)) as Hserve.
  { intros status s1 Hs. destruct (ServeHTTP_post _ _ _ _ _ _ _ _ Hgood Hm Hs) as [[Hst ->]|(a & Ha & ->)].
    - split; [done|]. split; [by left|lia].
    - destruct (Append_effect _ _ _ _ _ _ _ _ Ha Hok Hroom (proj2 Hgood)) as (Hok1 & Hx & Hseq).
      split; [done|]. split; [done|]. intros Hst. apply Hseq. destruct a as [|[]]; simpl in *; [done|lia..]. }
  destruct net; [|by simplify_eq|];
    destruct (ServeHTTP _ _ _ _ s) as [status s1] eqn:Hs; destruct (Hserve _ _ eq_refl) as (Hok1 & Hx & Hseq).
  - cbv zeta in Hd. cbn [orb] in Hd. destruct ((status <? 200) || (300 <=? status)) eqn:Hb; simplify_eq;
      (split; [done|split; [done|]]); [done|]. intros _. bool_prop. apply Hseq. lia.
  - cbv zeta in Hd. cbn [orb] in Hd. simplify_eq. by split_and!.
Qed.
End OneDelivery.

(** ** The two tables in step *)

Section Sync.
Context `{CryptoLaws, JsonbLaws}.
Implicit Types (w : world) (k : nat).

Definition copied (r : row) (q : sink_row) : Prop :=
  skSequence q = rSequence r ∧ skMac q = rMac r ∧ Unmarshal (skEvent q) = Unmarshal (rEvent r).

(** The remote table is a copy of an initial part of the spool; the first [k]
    records are acknowledged and the others are not; the copy is at most one
    record ahead of the acknowledgements. *)
Record synced spool w k : Prop := {
  sy_spool : spool_ok spool (wChain w);
  sy_sink : sink_ok (wSink w);
  sy_copied : Forall2 copied (take (length (skRows (wSink w))) (rows (wChain w))) (skRows (wSink w));
  sy_window : (k ≤ length (skRows (wSink w)) ≤ S k)%nat;
  sy_done : Forall (λ r, undelivered r = false) (take k (rows (wChain w)));
  sy_todo : Forall (λ r, undelivered r = true) (drop k (rows (wChain w)))
}.

Lemma synced_length spool w k :
  synced spool w k → (length (skRows (wSink w)) ≤ length (rows (wChain w)))%nat.
Proof. intros []. apply Forall2_length in sy_copied0. rewrite length_take in sy_copied0. lia. Qed.

Lemma synced_pending spool w k : synced spool w k → pending_rows (rows (wChain w)) = drop k (rows (wChain w)).
Proof.
  intros []. rewrite <-(take_drop k (rows (wChain w))) at 1. rewrite pending_rows_app.
  assert (∀ l, Forall (λ r, undelivered r = false) l → pending_rows l = []) as Hnone.
  { intros l Hl. unfold pending_rows. induction Hl as [|x l Hx _ IH]; [done|]. rewrite filter_cons, Hx. by case_decide. }
  assert (∀ l, Forall (λ r, undelivered r = true) l → pending_rows l = l) as Hall.
  { intros l Hl. unfold pending_rows. induction Hl as [|x l Hx _ IH]; [done|]. rewrite filter_cons, Hx, IH. by case_decide. }
  by rewrite Hnone, Hall.
Qed.

Lemma synced_extends spool w k c t :
  synced spool w k → spool_ok spool c → extends (wChain w) c → synced spool (mkWorld c (wSink w) t) k.
Proof.
  intros Hs Hok (l & Hl & Hu). pose proof (synced_length _ _ _ Hs) as Hlen. destruct Hs as [_ Hsi Hc Hw Hd Ht].
  split; cbn [wChain wSink]; rewrite ?Hl; try done.
  - by rewrite take_app_le.
  - rewrite take_app_le by lia. done.
  - rewrite drop_app_le by lia. by apply Forall_app_2.
Qed.

Lemma synced_row spool w k i r :
  synced spool w k → rows (wChain w) !! i = Some r → rSequence r = Z.of_nat i + 1 ∧ good_row r.
Proof.
  intros [[Hv Hg] _ _ _ _ _] Hi. split; [|by eapply Forall_lookup_1].
  assert ((rSequence <$> rows (wChain w)) !! i = Some (rSequence r)) as Hn by (by rewrite list_lookup_fmap, Hi).
  rewrite (vf_numbers _ _ Hv) in Hn. apply lookup_seqZ in Hn. lia.
Qed.

Lemma good_record_of r record i :
  rSequence r = Z.of_nat i + 1 → Z.of_nat i < max_int64 → good_row r → record_of_row r record → good_record record.
Proof.
  intros Hr Hi (e & He & Henc & _) (Hs & _ & Hu). unfold max_int64 in Hi. split; [lia|]. rewrite Hu in He. by simplify_eq.
Qed.

Lemma synced_deliver spool w k r record ep net sw now answer s t :
  synced spool w k → room (wChain w) → rows (wChain w) !! k = Some r → record_of_row r record →
  Deliver ep net sw now record (wSink w) = (answer, s) →
  synced spool (mkWorld (wChain w) s t) k ∧ (is_ok answer = true → length (skRows s) = S k).
Proof.
  intros Hs Hroom Hk Hr Hd. pose proof (synced_length _ _ _ Hs) as Hlen.
  destruct (synced_row _ _ _ _ _ Hs Hk) as [Hseq Hgood]. pose proof (lookup_lt_Some _ _ _ Hk) as Hlt.
  unfold room in Hroom. assert (good_record record) as Hgr by (eapply good_record_of; eauto; lia).
  destruct (Deliver_effect _ _ _ _ _ _ _ _ Hd (sy_sink _ _ _ Hs)) as (Hok & Hx & Hans);
    [unfold sink_room; lia|done|]. destruct Hs as [Hsp Hsi Hc Hw Hdone Htodo].
  pose proof (so_last _ Hsi) as Hlast. pose proof (so_last _ Hok) as Hlast'. pose proof Hr as (Hrs & Hrm & Hru).
  destruct Hx as [->|(q & Hq & (Hq1 & Hq2 & _ & _ & Hq3) & Hnext)].
  - split; [by split|]. intros Ha%Hans. lia.
  - assert (length (skRows (wSink w)) = k) as Hm by lia. split; [|intros _; rewrite Hq, length_app; simpl; lia].
    split; cbn [wChain wSink]; try done; rewrite Hq, length_app, Hm; cbn [length]; [|lia].
    rewrite Nat.add_1_r, (take_S_r _ _ r) by done. rewrite Hm in Hc. apply Forall2_app; [done|].
    constructor; [|constructor]. unfold copied. by rewrite Hq1, Hq2, Hq3.
Qed.

Lemma MarkDelivered_Ok up c sequence mac t c' :
  MarkDelivered up c sequence mac t = Ok c' →
  c' = mkChain (mark sequence mac t <$> rows c) (last_sequence c) (last_mac c).
Proof.
  unfold MarkDelivered. intros Hm. do 3 apply guard_bind in Hm as [_ Hm]. by simplify_eq.
Qed.

Lemma synced_mark spool w k r record t l :
  synced spool w k → rows (wChain w) !! k = Some r → record_of_row r record → length (skRows (wSink w)) = S k →
  synced spool (mkWorld (mkChain (mark (Record.Sequence record) (Record.MAC record) t <$> rows (wChain w))
    (last_sequence (wChain w)) (last_mac (wChain w))) (wSink w) l) (S k).
Proof.
  intros Hs Hk (-> & -> & _) Hlen. pose proof Hs as [[Hv Hg] Hsi Hc Hw Hd Ht].
  assert (∀ i x, rows (wChain w) !! i = Some x → undelivered (mark (rSequence r) (rMac r) t x) =
    undelivered x && negb (bool_decide (i = k))) as Hmark.
  { intros i x Hi. rewrite undelivered_mark. destruct (undelivered x) eqn:Hu; [|done]. simpl. f_equal.
    destruct (synced_row _ _ _ _ _ Hs Hi) as [Hxi _]. destruct (synced_row _ _ _ _ _ Hs Hk) as [Hrk _].
    unfold marks. case_bool_decide as E.
    - subst i. rewrite Hk in Hi. simplify_eq. by rewrite Z.eqb_refl, String.eqb_refl, Hu.
    - by rewrite (proj2 (Z.eqb_neq _ _)) by lia. }
  split; cbn [wChain wSink rows]; try done.
  - split; [by apply mark_verified|]. cbn [rows]. apply Forall_fmap. eapply Forall_impl; [exact Hg|].
    intros x (e & He & Hx). exists e. destruct (mark_same (rSequence r) (rMac r) t x) as (_ & -> & _). done.
  - rewrite <-fmap_take. apply Forall2_fmap_l. eapply Forall2_impl; [exact Hc|]. intros x q (H1' & H2' & H3').
    unfold copied, compose. destruct (mark_same (rSequence r) (rMac r) t x) as (-> & -> & _ & ->). done.
  - lia.
  - rewrite <-fmap_take. apply Forall_fmap, Forall_lookup. intros i x Hi. unfold compose.
    apply lookup_take_Some in Hi as [Hi Hlt]. rewrite (Hmark i x Hi). case_bool_decide as E; [by rewrite andb_false_r|].
    rewrite andb_true_r. eapply (Forall_lookup_1 _ _ i x Hd). apply lookup_take_Some. split; [done|lia].
  - rewrite <-fmap_drop. apply Forall_fmap, Forall_lookup. intros i x Hi. unfold compose.
    rewrite lookup_drop in Hi. rewrite (Hmark _ x Hi), bool_decide_eq_false_2, andb_true_r by lia.
    rewrite Forall_lookup in Ht. apply (Ht (S i)). rewrite lookup_drop. by replace (k + S i)%nat with (S k + i)%nat by lia.
Qed.
End Sync.

(** ** Batches and runs *)

Section Runs.
Context `{CryptoLaws, JsonbLaws}.
Implicit Types (w : world) (k : nat).

Definition moment_ok (m : moment) : Prop := Forall encodable (mAppends m).
Definition poll_ok (p : poll) : Prop :=
  Forall encodable (pBeforeHead p) ∧ Forall encodable (pBeforeLast p) ∧ Forall moment_ok (pMoments p).

Lemma deliver_loop_length worker ms records w answer w' :
  deliver_loop worker ms records w = (answer, w') → (length (rows (wChain w)) ≤ length (rows (wChain w')))%nat.
Proof.
  revert ms w. induction records as [|record records IH]; intros ms w Hd; [simplify_eq/=; lia|].
  destruct ms as [|m ms]; [simplify_eq/=; lia|]. cbn [deliver_loop] in Hd.
  destruct (Deliver _ _ _ _ record _) as [[u|e] s] eqn:E; cbn [wChain wSink] in Hd.
  - destruct (MarkDelivered _ _ _ _ _) as [c|e] eqn:Em.
    + apply IH in Hd. apply MarkDelivered_Ok in Em. subst c. cbn [wChain rows] in Hd. rewrite length_fmap in Hd.
      pose proof (appends_length (wkSpool worker) (mAppends m) (wChain w)). lia.
    + simplify_eq. cbn [wChain]. apply appends_length.
  - simplify_eq. cbn [wChain]. apply appends_length.
Qed.

Lemma deliverBatch_length worker p w answer w' :
  deliverBatch worker p w = (answer, w') → (length (rows (wChain w)) ≤ length (rows (wChain w')))%nat.
Proof.
  unfold deliverBatch. intros Hd. etrans; [apply (appends_length (wkSpool worker) (pBeforeHead p))|].
  etrans; [apply (appends_length (wkSpool worker) (pBeforeLast p))|].
  destruct (Pending _ _ _ _ _ _); [by apply deliver_loop_length in Hd|]. by simplify_eq.
Qed.

(** The records still to deliver are those of the next rows. *)
Definition batch_of w k (records : list Record.t) : Prop :=
  Forall2 record_of_row (take (length records) (drop k (rows (wChain w)))) records.

Lemma batch_of_cons w k record records :
  batch_of w k (record :: records) →
  ∃ r, rows (wChain w) !! k = Some r ∧ record_of_row r record ∧ batch_of w (S k) records.
Proof.
  unfold batch_of. cbn [length]. intros Hb. destruct (drop k (rows (wChain w))) as [|r l] eqn:E; [by inversion Hb|].
  cbn [take] in Hb. apply Forall2_cons in Hb as [Hr Hb]. exists r. split_and!; [|done|].
  - rewrite <-(Nat.add_0_r k), <-lookup_drop, E. done.
  - assert (drop (S k) (rows (wChain w)) = l) as ->; [|done].
    rewrite <-Nat.add_1_r, <-drop_drop, E. done.
Qed.

Lemma record_of_mark sequence mac t r record :
  record_of_row r record → record_of_row (mark sequence mac t r) record.
Proof. unfold record_of_row. destruct (mark_same sequence mac t r) as (-> & -> & _ & ->). done. Qed.

Lemma batch_of_extends w w' k records :
  batch_of w k records → extends (wChain w) (wChain w') → batch_of w' k records.
Proof.
  unfold batch_of. intros Hb (l & -> & _). pose proof (Forall2_length _ _ _ Hb) as Hl. rewrite length_take, length_drop in Hl.
  destruct (decide (k ≤ length (rows (wChain w)))%nat).
  - rewrite drop_app_le by done. rewrite take_app_le; [done|]. rewrite length_drop. lia.
  - assert (length records = 0%nat) as E by lia. apply length_zero_iff_nil in E as ->. constructor.
Qed.

Lemma deliver_loop_synced worker ms records w k answer w' :
  synced (wkSpool worker) w k → batch_of w k records → Forall moment_ok ms →
  deliver_loop worker ms records w = (answer, w') → room (wChain w') →
  ∃ k', synced (wkSpool worker) w' k' ∧ (k ≤ k')%nat ∧ (is_ok answer = true → k' = k + length records)%nat.
Proof.
  revert ms w k. induction records as [|record records IH]; intros ms w k Hs Hb Hms Hd Hroom.
  - simplify_eq/=. exists k. split; [done|]. split; [lia|]. lia.
  - destruct ms as [|m ms]; [simplify_eq/=; exists k; split; [done|split; [lia|done]]|].
    apply Forall_cons in Hms as [Hm Hms]. pose proof (deliver_loop_length _ _ _ _ _ _ Hd) as Hlen.
    apply batch_of_cons in Hb as (r & Hk & Hr & Hb).
    assert (room (wChain w)) as Hroom0 by (unfold room in *; lia).
    cbn [deliver_loop] in Hd. destruct (Deliver _ _ _ _ record _) as [a s] eqn:E. cbn [wChain wSink] in Hd.
    destruct (synced_deliver _ _ _ _ _ _ _ _ _ _ _ (wLastDelivered w) Hs Hroom0 Hk Hr E) as [Hs1 Hans].
    set (c1 := appends (wkSpool worker) (mAppends m) (wChain w)) in *.
    assert (room c1 → spool_ok (wkSpool worker) c1 ∧ extends (wChain w) c1) as Hc1.
    { intros Hr1. apply appends_ok; [by destruct Hs|done|done]. }
    assert (room c1 → synced (wkSpool worker) (mkWorld c1 s (wLastDelivered w)) k) as Hs2.
    { intros Hr1. destruct (Hc1 Hr1). eapply (synced_extends _ (mkWorld (wChain w) s (wLastDelivered w))); done. }
    destruct a as [[]|e]; [|simplify_eq; cbn [wChain] in *; exists k; split; [by apply Hs2|split; [lia|done]]].
    destruct (MarkDelivered _ _ _ _ _) as [c|e] eqn:Em;
      [|simplify_eq; cbn [wChain] in *; exists k; split; [by apply Hs2|split; [lia|done]]].
    pose proof (deliver_loop_length _ _ _ _ _ _ Hd) as Hlen2. apply MarkDelivered_Ok in Em as ->.
    cbn [wChain rows] in Hlen2. rewrite length_fmap in Hlen2.
    assert (room c1) as Hr1 by (unfold room in *; lia). destruct (Hc1 Hr1) as [_ Hx].
    assert (rows c1 !! k = Some r) as Hk1.
    { destruct Hx as (l & -> & _). by apply lookup_app_l_Some. }
    destruct (IH ms _ (S k) (synced_mark _ _ _ _ _ (mNow m) (UnixNano (mNow m)) (Hs2 Hr1) Hk1 Hr (Hans eq_refl)))
      as (k' & Hs' & Hk' & Hok'); [|done|exact Hd|done|].
    + apply (batch_of_extends _ (mkWorld c1 s (wLastDelivered w))) in Hb; [|done].
      unfold batch_of in *. cbn [wChain rows] in *. rewrite <-fmap_drop, <-fmap_take.
      apply Forall2_fmap_l. eapply Forall2_impl; [exact Hb|]. intros x q. apply record_of_mark.
    + exists k'. split; [done|]. split; [lia|]. intros Ha. rewrite (Hok' Ha). cbn [length]. lia.
Qed.

Lemma Pending_records spool up c1 c2 c3 limit records :
  Pending spool up c1 c2 c3 limit = Ok records →
  Forall2 record_of_row (take (Z.to_nat limit) (pending_rows (rows c1))) records.
Proof.
  unfold Pending. intros Hp. apply guard_bind in Hp as [_ Hp]. apply guard_bind in Hp as [_ Hp].
  apply of_option_bind in Hp as (l & Hl & Hp). apply guard_bind in Hp as [_ Hp].
  assert (l = records) as ->.
  { case_match; [|by simplify_eq]. apply guard_bind in Hp as [_ Hp]. apply of_option_bind in Hp as (r & _ & Hp).
    apply guard_bind in Hp as [_ Hp]. by simplify_eq. }
  apply mapM_Some in Hl. eapply Forall2_impl; [exact Hl|]. intros r rec. apply pending_record_of.
Qed.

Lemma deliverBatch_synced worker p w k answer w' :
  synced (wkSpool worker) w k → poll_ok p → deliverBatch worker p w = (answer, w') → room (wChain w') →
  ∃ k', synced (wkSpool worker) w' k' ∧ (k ≤ k')%nat ∧
    (is_ok answer = true → k' = Nat.min (k + Z.to_nat (wkBatchSize worker)) (length (rows (wChain w))))%nat.
Proof.
  intros Hs (Hh & Hl & Hms) Hd Hroom. unfold deliverBatch in Hd.
  set (c2 := appends (wkSpool worker) (pBeforeHead p) (wChain w)) in *.
  set (c3 := appends (wkSpool worker) (pBeforeLast p) c2) in *.
  assert (room c3) as Hr3.
  { destruct (Pending _ _ _ _ _ _); [|by simplify_eq]. apply deliver_loop_length in Hd. unfold room in *. cbn [wChain] in Hd. lia. }
  assert (room c2) as Hr2 
    by (pose proof (appends_length (wkSpool worker) (pBeforeLast p) c2) as Hlen; fold c3 in Hlen; unfold room in *; lia).
  destruct (appends_ok (wkSpool worker) (pBeforeHead p) (wChain w)) as [Hok2 Hx2]; [by destruct Hs|done..|].
  destruct (appends_ok (wkSpool worker) (pBeforeLast p) c2) as [Hok3 Hx3]; [done..|].
  assert (extends (wChain w) c3) as Hx by (by eapply extends_trans).
  assert (synced (wkSpool worker) (mkWorld c3 (wSink w) (wLastDelivered w)) k) as Hs3 by (by eapply synced_extends).
  destruct (Pending _ _ _ _ _ _) as [records|] eqn:Hp; [|simplify_eq; exists k; split; [done|split; [lia|done]]].
  apply Pending_records in Hp. rewrite (synced_pending _ _ _ Hs) in Hp.
  pose proof (Forall2_length _ _ _ Hp) as Hlen. rewrite length_take, length_drop in Hlen.
  assert (batch_of w k records) as Hb.
  { unfold batch_of. rewrite <-Hlen, <-take_take.
    by rewrite (take_ge (drop k _) (length _ - k)) by (rewrite length_drop; done). }
  pose proof (synced_length _ _ _ Hs) as Hsl. pose proof (sy_window _ _ _ Hs).
  destruct (deliver_loop_synced _ _ _ _ _ _ _ Hs3 (batch_of_extends _ (mkWorld c3 (wSink w) (wLastDelivered w)) _ _ Hb Hx)
    Hms Hd Hroom) as (k' & Hs' & Hk' & Hok').
  exists k'. split; [done|]. split; [done|]. intros Ha. rewrite (Hok' Ha). lia.
Qed.
End Runs.

(** ** Deliveries that go through *)

Lemma token_chunks s :
  forall_bytes (λ a, token_rune (bz a)) s = true → Forall (λ x, IsSpace x.1 = false) (chunks_from 0 s).
Proof.
  induction s as [|a s IH]; [constructor|]. cbn [forall_bytes chunks_from]. intros [Ha Hs]%andb_prop.
  assert (bz a < 128 ∧ IsSpace (bz a) = false) as [Hlt Hsp].
  { clear -Ha. destruct a as [[] [] [] [] [] [] [] []]; vm_compute in Ha |- *; done. }
  unfold decode_rune. rewrite (proj2 (Z.ltb_lt _ _)) by done. constructor; [done|]. by apply IH.
Qed.

Lemma drop_space_none l : Forall (λ x, IsSpace x.1 = false) l → drop_space l = l.
Proof. intros Hl. destruct Hl as [|[r c] l Hx]; [done|]. simpl in *. by rewrite Hx. Qed.

Lemma token_blank s : token s = true → blank s = false.
Proof.
  unfold token. case_match eqn:Hb; [done|]. intros Ht. unfold range_string in Ht.
  rewrite (rune_loop_bytes token_rune) in Ht.
  2: { intros r Hr. unfold token_rune, in_range. bool_prop.
       repeat split; first [apply andb_false_iff; right; apply Z.leb_gt; lia | lia]. }
  unfold blank, TrimSpace. pose proof (token_chunks s Ht) as Hc.
  rewrite (drop_space_none _ Hc), drop_space_none, reverse_involutive by (by apply Forall_reverse).
  destruct s as [|a s]; [done|]. cbn [forall_bytes] in Ht. apply andb_prop in Ht as [Ha _].
  cbn [chunks_from]. destruct (decode_rune (String a s)) as [r w] eqn:Er.
  assert ((1 ≤ w)%nat) as Hw.
  { unfold decode_rune in Er. case_match; [by simplify_eq; lia|].
    destruct (decode_multi (String a s)) as [[r' w']|] eqn:E; simpl in Er; simplify_eq; [|lia].
    apply decode_multi_width in E. lia. }
  destruct w as [|w]; [lia|]. done.
Qed.

Lemma known_blank s l : forallb (λ x, negb (blank x)) l = true → known s l = true → blank s = false.
Proof.
  intros Hl Hs. apply bool_decide_eq_true in Hs. rewrite forallb_forall in Hl.
  apply negb_true_iff, Hl. by apply list_elem_of_In.
Qed.

Section Fair.
Context `{CryptoLaws, JsonbLaws}.
Implicit Types (w : world) (k : nat).

Lemma sink_validate_event record canonical :
  1 ≤ Record.Sequence record → len (Record.MAC record) = 32 → encodable (Record.Event record) →
  AuditEvent.validate (Record.Event record) = true → Marshal (Record.Event record) = Some canonical →
  sink_validate record (idempotency_key (Record.MAC record)) "praetor-secrets" = Ok canonical.
Proof.
  intros Hs Hm He Hv Hc. pose proof (Marshal_size _ _ He Hv Hc) as Hsize.
  apply validate_iff in Hv as (H1' & H2' & H3' & H4' & H5' & H6' & _). unfold sink_validate.
  rewrite (proj2 (Z.ltb_ge _ _)), Hm, !String.eqb_refl, H1' by done.
  unfold IsZero. rewrite (proj2 (Z.eqb_neq (Timestamp _) 0)) by done.
  rewrite (known_blank _ knownEventTypes), (known_blank _ knownOperations), (known_blank _ knownResults), token_blank by
    (done || (vm_compute; reflexivity)).
  cbn [negb orb guard_err mbind result_bind Z.eqb Pos.eqb]. change (1 =? AuditSchemaVersion) with true.
  cbn [negb orb guard_err mbind result_bind]. rewrite Hc. cbn [of_option mbind result_bind].
  by rewrite (proj2 (Z.ltb_ge _ _)) by done.
Qed.

Definition endpoint_ok (ep : endpoint) : Prop :=
  ePath ep = IngestionPath ∧ eRawQuery ep = "" ∧ authenticated (eTrustDomain ep) (post ep "" "") = true.

Lemma Append_next now record s :
  sink_ok s → sink_room s → Record.Sequence record = skLast s + 1 → len (Record.MAC record) = 32 →
  encodable (Record.Event record) → AuditEvent.validate (Record.Event record) = true →
  Record.MAC record ∉ skMac <$> skRows s → skUpdated s ≤ now →
  ∃ s', Append fair now record (idempotency_key (Record.MAC record)) "praetor-secrets" s = (Ok Created, s') ∧
    skUpdated s' = now.
Proof.
  intros Hok Hroom Hseq Hmac He Hv Hfresh Hnow. pose proof (so_last _ Hok) as Hlast. unfold sink_room, max_int64 in Hroom.
  destruct (Marshal_total _ He) as [canonical Hc].
  destruct (jsonb_accepts _ _ He (validate_nul_free _ Hv) Hc) as [d Hd].
  assert (sink_validate record (idempotency_key (Record.MAC record)) "praetor-secrets" = Ok canonical) as Hval
    by (apply sink_validate_event; done || lia).
  eexists. split; [by eapply Append_created|done].
Qed.

Lemma ServeHTTP_fair ep sw now record body s :
  endpoint_ok ep → good_record record → AuditEvent.validate (Record.Event record) = true →
  len (Record.MAC record) = 32 → marshal_record record = Some body →
  ServeHTTP (eTrustDomain ep) sw now (post ep body (Record.MAC record)) s =
    let '(answer, s') := Append sw now record (idempotency_key (Record.MAC record)) "praetor-secrets" s in
    (status_of answer, s').
Proof.
  intros (Hp & Hq & Ha) [Hseq He] Hv Hmac Hb. unfold ServeHTTP. cbn [hMethod hPath hRawQuery hMediaType hBody hIdempotencyKey post].
  rewrite Hp, Hq, !String.eqb_refl. cbn [negb orb].
  change (authenticated (eTrustDomain ep) (post ep body (Record.MAC record))) with
    (authenticated (eTrustDomain ep) (post ep "" "")). rewrite Ha. cbn [negb].
  rewrite bool_decide_eq_true_2 by done. cbn [negb].
  assert (wire_ok record) as Hw by (split; [done|lia]).
  pose proof (marshal_record_size _ _ Hw Hv Hmac Hb) as Hsize. rewrite (proj2 (Z.ltb_ge _ _)) by done.
  rewrite (record_roundtrip record body) by done. rewrite Hmac, String.eqb_refl. done.
Qed.

Lemma Deliver_fair spool ep now w k r record :
  synced spool w k → room (wChain w) → rows (wChain w) !! k = Some r → record_of_row r record →
  endpoint_ok ep → NoDup (rMac <$> rows (wChain w)) → skUpdated (wSink w) ≤ now →
  ∃ s, Deliver ep Answered fair now record (wSink w) = (Ok (), s) ∧ skUpdated s ≤ now.
Proof.
  intros Hs Hroom Hk Hr Hep Hnd Hnow. destruct (synced_row _ _ _ _ _ Hs Hk) as [Hseq Hgood].
  pose proof (lookup_lt_Some _ _ _ Hk) as Hlt. pose proof (synced_length _ _ _ Hs) as Hlen. unfold room in Hroom.
  assert (good_record record) as Hgr by (eapply good_record_of; eauto; lia).
  destruct Hgood as (e & He & Henc & Hval). pose proof Hr as (Hrs & Hrm & Hru). rewrite He in Hru. simplify_eq.
  assert (len (Record.MAC record) = 32) as Hmac.
  { rewrite Hrm. destruct Hs as [[Hv _] _ _ _ _ _]. eapply (Forall_lookup_1 _ _ _ _ (vf_macs _ _ Hv)). exact Hk. }
  destruct (Marshal_total _ Henc) as [canonical Hc].
  assert (∃ body, marshal_record record = Some body) as [body Hb] by (unfold marshal_record; rewrite Hc; by eexists).
  unfold Deliver. rewrite Hmac, Hval, (proj2 (Z.ltb_ge _ _)) by (destruct Hgr; lia). cbn [negb orb Z.eqb Pos.eqb].
  rewrite Hb, ServeHTTP_fair by done. pose proof (sy_sink _ _ _ Hs) as Hok. pose proof (so_last _ Hok) as Hlast.
  pose proof (sy_copied _ _ _ Hs) as Hcop. pose proof (sy_window _ _ _ Hs) as Hwin.
  destruct (decide (length (skRows (wSink w)) = k)) as [Hm|Hm].
  - destruct (Append_next now record (wSink w)) as (s & Ha & Hu); try done; [unfold sink_room; lia|lia| |].
    + rewrite Hm in Hcop. intros Hin. apply list_elem_of_fmap in Hin as (q & Hq & Hin).
      apply list_elem_of_lookup in Hin as [i Hi]. destruct (Forall2_lookup_r _ _ _ _ _ Hcop Hi) as (x & Hx & _ & Hxm & _).
      apply lookup_take_Some in Hx as [Hx Hik].
      assert (i = k); [|lia]. eapply NoDup_lookup; [exact Hnd|rewrite list_lookup_fmap, Hx; done|].
      rewrite list_lookup_fmap, Hk. simpl. congruence.
    + rewrite Ha. cbn [status_of]. eexists. split; [done|]. lia.
  - assert (length (skRows (wSink w)) = S k) as Hm' by lia. rewrite Hm', (take_S_r _ _ r) in Hcop by done.
    apply Forall2_app_inv_l in Hcop as (q1 & q2 & _ & Hq & Hrows).
    apply Forall2_cons_inv_l in Hq as (q & q3 & (Hq1 & Hq2 & Hq3) & Hq' & ->). inversion Hq'; subst q3.
    assert (q ∈ skRows (wSink w)) as Hin by (rewrite Hrows; set_solver).
    pose proof (so_rows _ Hok) as Hrs'. rewrite Forall_forall in Hrs'. destruct (Hrs' q Hin) as (rec' & (_ & Hm2 & Hk2 & Hi2 & _) & _).
    assert (holds q record) as Hh.
    { unfold holds. rewrite Hq1, Hq2, Hq3, Hrs, Hrm, Hk2, Hi2, <-Hm2, Hq2. done. }
    unfold Append. rewrite (sink_validate_event record canonical) by (done || (destruct Hgr; lia)).
    unfold append_tx. cbn [wBegin wHead fair negb guard_err mbind result_bind].
    rewrite (proj2 (Z.leb_le _ _)) by lia. rewrite (replay_stored _ record q); try done.
    + cbn [mbind result_bind wCommit fair status_of]. eexists. split; [done|]. done.
    + apply sink_validate_event; try done. destruct Hgr; lia.
Qed.
End Fair.

(** ** Distinct records have distinct digests, when these do not collide *)

Lemma be_bytes_inj n z z' : 0 ≤ z < 256 ^ Z.of_nat n → 0 ≤ z' < 256 ^ Z.of_nat n → be_bytes n z = be_bytes n z' → z = z'.
Proof.
  revert z z'. induction n as [|n IH]; intros z z' Hz Hz' He; [simpl in *; lia|].
  rewrite Nat2Z.inj_succ, Z.pow_succ_r in Hz, Hz' by lia. cbn [be_bytes] in He.
  assert (String.length (be_bytes n (z / 256)) = String.length (be_bytes n (z' / 256))) as Hl.
  { pose proof (len_be_bytes n (z / 256)). pose proof (len_be_bytes n (z' / 256)). unfold len in *. lia. }
  apply app_inv_len in He as [He Hb]; [|done]. apply IH in He; [|split; [apply Z.div_pos; lia|apply Z.div_lt_upper_bound; lia]..].
  assert (zb (z `mod` 256) = zb (z' `mod` 256)) as Hb' by congruence.
  apply (f_equal bz) in Hb'. rewrite !bz_zb in Hb' by (apply Z.mod_pos_bound; lia). lia.
Qed.

Section Drain.
Context `{CryptoLaws, JsonbLaws}.
Implicit Types (w : world) (k : nat).

Lemma verify_rows_macs spool n p l n' p' :
  verify_rows spool n p l = Some (n', p') → Forall (λ r, ∃ ev s, canonical (rEvent r) = Some (ev, s) ∧ rMac r = authenticate spool (rSequence r) (rPrevious r) s) l.
Proof.
  revert n p. induction l as [|r l IH]; intros n p Hv; [constructor|].
  apply verify_rows_cons in Hv as (ev & s & Hc & _ & Hp & Hm & Hv). constructor; [|by eapply IH]. exists ev, s. by rewrite Hp.
Qed.

Lemma distinct_macs spool c :
  verified spool c → room c → collision_free (hmac_sha256 (key spool)) (messages (rows c)) → NoDup (rMac <$> rows c).
Proof.
  intros Hv Hroom Hfree. apply NoDup_alt. intros i j m Hi Hj.
  rewrite list_lookup_fmap in Hi, Hj. apply fmap_Some in Hi as (r & Hi & ->), Hj as (r' & Hj & Hm).
  pose proof (verify_rows_macs _ _ _ _ _ _ (vf_rows _ _ Hv)) as Hf.
  destruct (Forall_lookup_1 _ _ _ _ Hf Hi) as (ev & s & Hc & Hr), (Forall_lookup_1 _ _ _ _ Hf Hj) as (ev' & s' & Hc' & Hr').
  pose proof (verified_NoDup _ _ Hv) as Hnd. pose proof (verified_below _ _ Hv) as Hb.
  pose proof (Forall_lookup_1 _ _ _ _ Hb Hi) as Hbi. pose proof (Forall_lookup_1 _ _ _ _ Hb Hj) as Hbj. simpl in Hbi, Hbj.
  rewrite (vf_last _ _ Hv) in Hbi, Hbj. unfold room, max_int64 in Hroom.
  assert (be_bytes 8 (u64 (rSequence r)) +:+ rPrevious r +:+ s = be_bytes 8 (u64 (rSequence r')) +:+ rPrevious r' +:+ s') as E.
  { apply Hfree; [eapply authenticated_message; [by eapply list_elem_of_lookup_2|done]..|]. unfold authenticate in Hr, Hr'. congruence. }
  apply app_inv_len in E as [E _].
  - rewrite !u64_small in E by lia. apply be_bytes_inj in E; [|change (256 ^ Z.of_nat 8) with (2 ^ 64); lia..].
    eapply NoDup_lookup; [exact Hnd|rewrite list_lookup_fmap, Hi; done|rewrite list_lookup_fmap, Hj; simpl; congruence].
  - pose proof (len_be_bytes 8 (u64 (rSequence r))). pose proof (len_be_bytes 8 (u64 (rSequence r'))).
    unfold len in *. lia.
Qed.

(** *** Everything works and nothing interferes *)

Definition fair_moment (now t : time) : moment := mkMoment Answered fair now [] all_up t.
Definition fair_poll (n : nat) (now t : time) : poll := mkPoll all_up [] [] (replicate n (fair_moment now t)).

(** What a fair batch keeps. *)
Record settled worker (now : time) w k : Prop := {
  se_synced : synced (wkSpool worker) w k;
  se_room : room (wChain w);
  se_macs : NoDup (rMac <$> rows (wChain w));
  se_clock : skUpdated (wSink w) ≤ now
}.

Lemma rows_mark_macs sequence mac t (l : list row) : rMac <$> (mark sequence mac t <$> l) = rMac <$> l.
Proof. rewrite <-list_fmap_compose. apply list_fmap_ext. intros i r _. apply mark_same. Qed.
Lemma events_mark sequence mac t (l : list row) n m :
  events (mkChain (mark sequence mac t <$> l) n m) = omap (λ r, Unmarshal (rEvent r)) l.
Proof.
  unfold events. cbn [rows]. induction l as [|r l IH]; [done|]. cbn [fmap list_fmap omap list_omap].
  destruct (mark_same sequence mac t r) as (_ & -> & _). by rewrite <-IH.
Qed.

Lemma deliver_loop_fair worker now t n records w k :
  settled worker now w k → batch_of w k records → endpoint_ok (wkEndpoint worker) → t ≠ zero_time →
  (length records ≤ n)%nat →
  ∃ w', deliver_loop worker (replicate n (fair_moment now t)) records w = (Ok (), w') ∧
    settled worker now w' (k + length records) ∧ length (rows (wChain w')) = length (rows (wChain w)) ∧
    events (wChain w') = events (wChain w).
Proof.
  intros Hse Hb Hep Ht. revert n w k Hse Hb. induction records as [|record records IH]; intros n w k Hse Hb Hn.
  - exists w. rewrite Nat.add_0_r. by split_and!.
  - destruct n as [|n]; [simpl in Hn; lia|]. destruct Hse as [Hs Hroom Hnd Hclock].
    apply batch_of_cons in Hb as (r & Hk & Hr & Hb).
    destruct (Deliver_fair _ _ now _ _ _ _ Hs Hroom Hk Hr Hep Hnd Hclock) as (s & Hd & Hu).
    destruct (synced_deliver _ _ _ _ _ _ _ _ _ _ _ (wLastDelivered w) Hs Hroom Hk Hr Hd) as [Hs1 Hlen].
    pose proof Hr as (Hrs & Hrm & _). assert (undelivered r = true) as Hur.
    { pose proof (sy_todo _ _ _ Hs) as Htodo. apply (Forall_lookup_1 _ _ 0%nat r Htodo). by rewrite lookup_drop, Nat.add_0_r. }
    cbn [deliver_loop replicate fair_moment mNet mSink mSinkNow mAppends mUp mNow].
    rewrite Hd. cbn [wChain wSink]. change (appends (wkSpool worker) [] (wChain w)) with (wChain w).
    destruct Hs as [[Hv Hg] _ _ _ _ _].
    rewrite Hrs, Hrm, (MarkDelivered_row (wkSpool worker)) by (done || by eapply list_elem_of_lookup_2).
    pose proof (synced_mark _ _ _ _ _ t (UnixNano t) Hs1 Hk Hr (Hlen eq_refl)) as Hs2. cbn [wChain wSink] in Hs2.
    rewrite Hrs, Hrm in Hs2.
    destruct (IH n _ (S k) (Build_settled worker now _ _ Hs2 ltac:(unfold room in *; cbn [wChain rows]; by rewrite length_fmap)
      ltac:(cbn [wChain rows]; by rewrite rows_mark_macs) ltac:(done))) as (w' & Hw & Hse' & Hl' & Hev').
    + unfold batch_of in *. cbn [wChain rows]. rewrite <-fmap_drop, <-fmap_take. apply Forall2_fmap_l.
      eapply Forall2_impl; [exact Hb|]. intros x q. apply record_of_mark.
    + simpl in Hn. lia.
    + exists w'. split; [exact Hw|]. cbn [length]. rewrite Nat.add_succ_r. split; [exact Hse'|].
      rewrite Hl', Hev'. cbn [wChain rows]. rewrite length_fmap, events_mark. done.
Qed.

Definition backlog w k : nat := (length (rows (wChain w)) - k)%nat.

(** A fair batch delivers a batch. *)
Lemma deliverBatch_fair worker now t w k :
  settled worker now w k → endpoint_ok (wkEndpoint worker) → t ≠ zero_time → 1 ≤ wkBatchSize worker ≤ 1000 →
  ∃ w' k', deliverBatch worker (fair_poll 1000 now t) w = (Ok (), w') ∧ settled worker now w' k' ∧
    (backlog w' k' = backlog w k - Z.to_nat (wkBatchSize worker))%nat ∧ events (wChain w') = events (wChain w).
Proof.
  intros Hse Hep Ht Hb. pose proof Hse as [Hs Hroom Hnd Hclock]. pose proof Hs as [[Hv _] _ _ _ _ _].
  destruct (Pending_verified (wkSpool worker) (wChain w) (wkBatchSize worker) Hv Hb) as (records & Hp & Hf).
  rewrite (synced_pending _ _ _ Hs) in Hf. pose proof (Forall2_length _ _ _ Hf) as Hlen.
  rewrite length_take, length_drop in Hlen. assert (batch_of w k records) as Hbatch.
  { unfold batch_of. rewrite <-Hlen, <-take_take. by rewrite (take_ge (drop k _) (length _ - k)) by (rewrite length_drop; done). }
  destruct (deliver_loop_fair worker now t 1000 records w k Hse Hbatch Hep Ht) as (w' & Hd & Hse' & Hl & He); [lia|].
  exists w', (k + length records)%nat. unfold deliverBatch, fair_poll.
  cbn [pUp pBeforeHead pBeforeLast pMoments]. unfold appends, flip. cbn [foldl].
  rewrite Hp. destruct w as [c s l]. split; [exact Hd|]. split; [done|]. split; [|done].
  unfold backlog. rewrite Hl. lia.
Qed.

Lemma run_polls_fair worker now t n degraded w k :
  settled worker now w k → endpoint_ok (wkEndpoint worker) → t ≠ zero_time → 1 ≤ wkBatchSize worker ≤ 1000 →
  ∃ w' k', run_polls worker (replicate n (fair_poll 1000 now t)) degraded w = (Ok (), degraded && (n =? 0)%nat, w') ∧
    settled worker now w' k' ∧ (backlog w' k' = backlog w k - n * Z.to_nat (wkBatchSize worker))%nat ∧
    events (wChain w') = events (wChain w).
Proof.
  intros Hse Hep Ht Hb. revert degraded w k Hse. induction n as [|n IH]; intros degraded w k Hse.
  - exists w, k. rewrite andb_true_r. split_and!; [done|done|lia|done].
  - destruct (deliverBatch_fair worker now t w k) as (w1 & k1 & Hd & Hse1 & Hb1 & He1); [done..|].
    cbn [replicate run_polls]. rewrite Hd. destruct (IH false w1 k1 Hse1) as (w2 & k2 & Hr & Hse2 & Hb2 & He2).
    exists w2, k2. rewrite Hr, andb_false_r. split_and!; [done|done|lia|congruence].
Qed.

Lemma run_polls_length worker polls degraded w answer d w' :
  run_polls worker polls degraded w = (answer, d, w') → (length (rows (wChain w)) ≤ length (rows (wChain w')))%nat.
Proof.
  revert degraded w. induction polls as [|p polls IH]; intros degraded w Hr; [simplify_eq/=; lia|].
  cbn [run_polls] in Hr. destruct (deliverBatch worker p w) as [a w1] eqn:E.
  pose proof (deliverBatch_length _ _ _ _ _ E). destruct a as [|[]]; try (apply IH in Hr; lia). simplify_eq. lia.
Qed.

Lemma run_polls_synced worker polls degraded w k answer d w' :
  synced (wkSpool worker) w k → Forall poll_ok polls → run_polls worker polls degraded w = (answer, d, w') →
  room (wChain w') → ∃ k', synced (wkSpool worker) w' k' ∧ (k ≤ k')%nat.
Proof.
  revert degraded w k. induction polls as [|p polls IH]; intros degraded w k Hs Hps Hr Hroom; [simplify_eq/=; eauto|].
  apply Forall_cons in Hps as [Hp Hps]. cbn [run_polls] in Hr. destruct (deliverBatch worker p w) as [a w1] eqn:E.
  assert (room (wChain w1)) as Hroom1.
  { unfold room in *. destruct a as [|[]]; try (apply run_polls_length in Hr; lia). by simplify_eq. }
  destruct (deliverBatch_synced _ _ _ _ _ _ Hs Hp E Hroom1) as (k1 & Hs1 & Hk1 & _).
  destruct a as [|[]]; [|simplify_eq; eauto|].
  all: destruct (IH _ _ _ Hs1 Hps Hr Hroom) as (k2 & ? & ?); exists k2; split; [done|lia].
Qed.

(** ** What delivery guarantees *)

(** The worlds the service and its worker reach from an empty spool and an
    empty store: audit records are appended and runs of the worker happen, with
    any weather. *)
Inductive reaches worker : world → Prop :=
  | reaches_start t : reaches worker (mkWorld empty_chain (empty_sink t) 0)
  | reaches_append w es :
      reaches worker w → Forall encodable es →
      reaches worker (mkWorld (appends (wkSpool worker) es (wChain w)) (wSink w) (wLastDelivered w))
  | reaches_run w up between polls answer degraded w' :
      reaches worker w → Forall encodable between → Forall poll_ok polls →
      Run worker up between polls w = (answer, degraded, w') → reaches worker w'.

Lemma synced_start spool t : synced spool (mkWorld empty_chain (empty_sink t) 0) 0.
Proof.
  split; cbn [wChain wSink]; [|apply empty_sink_ok|constructor|simpl; lia|constructor|constructor].
  split; [|constructor]. apply Verify_verified; [|reflexivity]. unfold room. vm_compute. done.
Qed.

Lemma reaches_synced worker w : reaches worker w → room (wChain w) → ∃ k, synced (wkSpool worker) w k.
Proof.
  induction 1 as [t|w es _ IH Hes|w up between polls answer degraded w' _ IH Hb Hps Hr]; intros Hroom.
  - exists 0%nat. apply synced_start.
  - cbn [wChain] in Hroom. pose proof (appends_length (wkSpool worker) es (wChain w)).
    destruct IH as [k Hs]; [unfold room in *; lia|]. exists k.
    destruct (appends_ok (wkSpool worker) es (wChain w)) as [Hok Hx]; [by destruct Hs|done|done|].
    by eapply synced_extends.
  - unfold Run in Hr. set (c2 := appends (wkSpool worker) between (wChain w)) in *.
    assert (room c2) as Hroom2.
    { destruct (Verify _ _ _ _); [apply run_polls_length in Hr|simplify_eq; done].
      cbn [wChain] in Hr. unfold room in *. lia. }
    pose proof (appends_length (wkSpool worker) between (wChain w)) as Hlen. fold c2 in Hlen.
    destruct IH as [k Hs]; [unfold room in *; lia|].
    destruct (appends_ok (wkSpool worker) between (wChain w)) as [Hok Hx]; [by destruct Hs|done|done|].
    fold c2 in Hok, Hx. pose proof (synced_extends _ _ _ _ (wLastDelivered w) Hs Hok Hx) as Hs2.
    destruct (Verify _ _ _ _); [|simplify_eq; eauto].
    destruct (run_polls_synced _ _ _ _ _ _ _ _ Hs2 Hps Hr Hroom) as (k' & ? & _). eauto.
Qed.

Lemma synced_pending_count spool w k : synced spool w k → pending_count (wChain w) = Z.of_nat (backlog w k).
Proof. intros Hs. unfold pending_count. rewrite (synced_pending _ _ _ Hs), length_drop. done. Qed.

(** C8: no audit record is lost, altered, reordered or stored twice on its way
    to the remote store: in every world that the service and its delivery worker
    reach from an empty spool and an empty store, whatever requests and answers
    the network loses, wherever the two databases fail or leave a commit
    unacknowledged and whatever else is appended between any two statements, the
    spool verifies, the remote table is, record by record, an initial part of
    the spool in its order, every record that was acknowledged locally is in it,
    and it is at most one record ahead of the acknowledgements. *)
Theorem delivery_exactly_once worker w :
  reaches worker w → room (wChain w) →
  Verify (wkSpool worker) all_up (wChain w) (wChain w) = Ok () ∧
  Forall2 copied (take (length (skRows (wSink w))) (rows (wChain w))) (skRows (wSink w)) ∧
  (∀ r, r ∈ rows (wChain w) → undelivered r = false → ∃ q, q ∈ skRows (wSink w) ∧ copied r q) ∧
  0 ≤ Z.of_nat (length (skRows (wSink w))) - (Z.of_nat (length (rows (wChain w))) - pending_count (wChain w)) ≤ 1.
Proof.
  intros Hr Hroom. destruct (reaches_synced _ _ Hr Hroom) as [k Hs]. pose proof (synced_length _ _ _ Hs) as Hlen.
  rewrite (synced_pending_count _ _ _ Hs). destruct Hs as [[Hv _] _ Hc Hw Hd Ht].
  split; [by apply Verify_verified|]. split; [done|]. split; [|unfold backlog; lia].
  intros r [i Hi]%list_elem_of_lookup Hu. assert (i < k)%nat as Hik.
  { destruct (decide (i < k)%nat) as [|Hge]; [done|]. rewrite Forall_lookup in Ht.
    rewrite (Ht (i - k)%nat r) in Hu; [done|]. rewrite lookup_drop. by replace (k + (i - k))%nat with i by lia. }
  assert (take (length (skRows (wSink w))) (rows (wChain w)) !! i = Some r) as Htake.
  { apply lookup_take_Some. split; [done|lia]. }
  destruct (Forall2_lookup_l _ _ _ _ _ Hc Htake) as (q & Hq & Hcq). exists q. split; [by eapply list_elem_of_lookup_2|done].
Qed.

(** C39: delivery makes progress: from every world the service and its worker
    reach, once the network and the databases work, no other writer interferes
    and the store's clock is not behind its last record, a run of the worker
    over [n] polls succeeds and is not degraded; if [n] batches cover the
    backlog, nothing is left to deliver, the whole spool, with the events it had,
    is in the remote store in order.  It is assumed that the keyed digest does
    not collide on the messages authenticated in the spool. *)
Theorem delivery_drains spool ep config worker w n now t :
  NewDeliveryWorker spool ep config = Ok worker → reaches worker w → room (wChain w) → endpoint_ok ep →
  skUpdated (wSink w) ≤ now → t ≠ zero_time → pending_count (wChain w) ≤ Z.of_nat n * BatchSize config →
  collision_free (hmac_sha256 (key spool)) (messages (rows (wChain w))) →
  ∃ w', Run worker all_up [] (replicate n (fair_poll 1000 now t)) w = (Ok (), false, w') ∧
    pending_count (wChain w') = 0 ∧ Forall2 copied (rows (wChain w')) (skRows (wSink w')) ∧
    events (wChain w') = events (wChain w).
Proof.
  intros Hnew Hr Hroom Hep Hnow Ht Hn Hfree. unfold NewDeliveryWorker in Hnew.
  destruct (valid_delivery_config config) eqn:Hcfg; [|done]. simplify_eq.
  destruct (reaches_synced _ _ Hr Hroom) as [k Hs]. pose proof Hs as [[Hv _] _ _ _ _ _]. cbn [wkSpool] in *.
  pose proof (distinct_macs _ _ Hv Hroom Hfree) as Hnd.
  assert (1 ≤ BatchSize config ≤ 1000) as Hb by (unfold valid_delivery_config in Hcfg; bool_prop; lia).
  set (worker := mkWorker spool ep (BatchSize config)) in *.
  destruct (run_polls_fair worker now t n false w k) as (w' & k' & Hrun & [Hs' Hroom' _ _] & Hbl & He); [by split|done..|].
  rewrite (synced_pending_count _ _ _ Hs) in Hn. cbn [wkBatchSize worker] in Hbl.
  assert (backlog w' k' = 0%nat) as Hz.
  { rewrite Hbl. apply Nat.sub_0_le. apply Nat2Z.inj_le. rewrite Nat2Z.inj_mul, Z2Nat.id by lia. done. }
  exists w'. split_and!; [|by rewrite (synced_pending_count _ _ _ Hs'), Hz| |done].
  - unfold Run. cbn [wkSpool worker]. change (appends spool [] (wChain w)) with (wChain w).
    rewrite (proj2 (Verify_verified spool (wChain w) Hroom) Hv). destruct w as [c s l]. exact Hrun.
  - destruct Hs' as [_ _ Hc Hw _ _]. unfold backlog in Hz. by rewrite take_ge in Hc by lia.
Qed.
End Drain.

(** ** Execution *)

#[local] Existing Instances toy_crypto toy_crypto_laws text_column text_column_laws.

Module DeliveryExample.
Definition when : time := 738945 * 86400 * Second.
Definition spool : Spool := mkSpool (stream 32 5) 100.
Definition certificate : list uri := [mkUri "spiffe" "praetor.internal" "/workload/praetor-secrets" "" ""].
Definition ep : endpoint :=
  mkEndpoint IngestionPath "" (Some (mkTls true VersionTLS13 [[certificate]])) "praetor.internal".
Definition config : DeliveryConfig := mkDeliveryConfig 2 Second Second.
Definition worker : DeliveryWorker := mkWorker spool ep 2.

(** Three records; then a run that delivers the first, while a fourth is
    appended, and loses the answer to the second. *)
Definition start : world := mkWorld empty_chain (empty_sink when) 0.
Definition three : world :=
  mkWorld (appends spool [sample_event; sample_event; sample_event] (wChain start)) (wSink start) 0.
Definition lossy : poll :=
  mkPoll all_up [] [] [mkMoment Answered fair when [sample_event] all_up when;
                       mkMoment ResponseLost fair when [] all_up when].
Definition interrupted : world := (Run worker all_up [] [lossy] three).2.

Lemma worker_created : NewDeliveryWorker spool ep config = Ok worker.
Proof. reflexivity. Qed.
Lemma endpoint_good : endpoint_ok ep.
Proof. split; [reflexivity|]. split; [reflexivity|]. vm_compute. reflexivity. Qed.
Lemma interrupted_run : Run worker all_up [] [lossy] three = (Ok (), true, interrupted).
Proof. vm_compute. reflexivity. Qed.
Lemma reached : reaches worker interrupted.
Proof.
  eapply reaches_run; [|constructor| |exact interrupted_run].
  - apply (reaches_append worker start); [apply (reaches_start worker when)|]. repeat constructor; apply sample_encodable.
  - repeat constructor; apply sample_encodable.
Qed.
Lemma interrupted_room : room (wChain interrupted).
Proof. vm_compute. reflexivity. Qed.
Lemma clock : skUpdated (wSink interrupted) ≤ when.
Proof. refine (bool_decide_unpack _ _). vm_compute. exact I. Qed.
Lemma distinct_messages : collision_free (hmac_sha256 (key spool)) (messages (rows (wChain interrupted))).
Proof. apply collision_free_NoDup. refine (bool_decide_unpack _ _). vm_compute. exact I. Qed.
Lemma small : pending_count (wChain interrupted) ≤ Z.of_nat 2 * BatchSize config.
Proof. refine (bool_decide_unpack _ _). vm_compute. exact I. Qed.
End DeliveryExample.

(** The store has both records, one of them acknowledged. *)
Example interrupted_state :
  (length (skRows (wSink DeliveryExample.interrupted)), pending_count (wChain DeliveryExample.interrupted)) = (2%nat, 3).
Proof. vm_compute. reflexivity. Qed.

Lemma delivery_exactly_once_witness :
  Forall2 copied (take (length (skRows (wSink DeliveryExample.interrupted))) (rows (wChain DeliveryExample.interrupted)))
    (skRows (wSink DeliveryExample.interrupted)).
Proof.
  apply (delivery_exactly_once DeliveryExample.worker DeliveryExample.interrupted DeliveryExample.reached
    DeliveryExample.interrupted_room).
Defined.

Lemma delivery_drains_witness :
  ∃ w', Run DeliveryExample.worker all_up [] (replicate 2 (fair_poll 1000 DeliveryExample.when DeliveryExample.when))
    DeliveryExample.interrupted = (Ok (), false, w') ∧ pending_count (wChain w') = 0.
Proof.
  destruct (delivery_drains DeliveryExample.spool DeliveryExample.ep DeliveryExample.config DeliveryExample.worker
    DeliveryExample.interrupted 2 DeliveryExample.when DeliveryExample.when DeliveryExample.worker_created DeliveryExample.reached
    DeliveryExample.interrupted_room DeliveryExample.endpoint_good DeliveryExample.clock) as (w' & Hrun & Hz & _).
  - discriminate.
  - exact DeliveryExample.small.
  - exact DeliveryExample.distinct_messages.
  - exists w'. split; [exact Hrun|exact Hz].
Defined.
