(* ===== verification/Storage.v ===== *)
(** * Stored forms (src/credential/postgres.go, [encodeStorage])

    The JSON documents of envelope records and of remembered responses, and
    what reading them back gives.  A [\[\]byte] is written in base64; the two
    spellings of an empty one, and of an empty list ([null] and [\[\]]), read
    back alike. *)

From Stdlib Require Import Ascii.
From S2P Require Import Prelude GoStrings Json GoTime TimeParse JsonValue Crypto Envelope AuditEvent Spool Wire Credential.

(** ** Envelope records *)

Definition marshal_context (c : EnvContext) : string :=
  json_struct [("credential_id", json_string (ctxCredentialID c)); ("organization_id", json_string (ctxOrganizationID c));
    ("schema_version", json_uint (ctxSchemaVersion c)); ("credential_version", json_uint (ctxCredentialVersion c))].
Definition json_bytes (s : string) : string := json_string (base64 s).

Definition marshal_envelope (r : EnvRecord) : string :=
  json_struct [("version", json_uint (recVersion r)); ("algorithm", json_string (recAlgorithm r));
    ("record_id", json_string (recRecordID r)); ("master_key_id", json_string (recMasterKeyID r));
    ("context", marshal_context (recContext r)); ("payload_nonce", json_bytes (recPayloadNonce r));
    ("ciphertext", json_bytes (recCiphertext r)); ("wrap_nonce", json_bytes (recWrapNonce r));
    ("wrapped_data_key", json_bytes (recWrappedDataKey r))].

Definition read_context (l : list (string * json)) (old : EnvContext) : option EnvContext :=
  credential ← field as_string "credential_id" (ctxCredentialID old) l;
  organization ← field as_string "organization_id" (ctxOrganizationID old) l;
  schema ← field (as_uint 32) "schema_version" (ctxSchemaVersion old) l;
  version ← field (as_uint 64) "credential_version" (ctxCredentialVersion old) l;
  Some (mkContext credential organization schema version).

Definition read_envelope (l : list (string * json)) (old : EnvRecord) : option EnvRecord :=
  version ← field (as_uint 32) "version" (recVersion old) l;
  algorithm ← field as_string "algorithm" (recAlgorithm old) l;
  record ← field as_string "record_id" (recRecordID old) l;
  key ← field as_string "master_key_id" (recMasterKeyID old) l;
  context ← field (as_struct read_context) "context" (recContext old) l;
  nonce ← field as_bytes "payload_nonce" (recPayloadNonce old) l;
  ciphertext ← field as_bytes "ciphertext" (recCiphertext old) l;
  wnonce ← field as_bytes "wrap_nonce" (recWrapNonce old) l;
  wrapped ← field as_bytes "wrapped_data_key" (recWrappedDataKey old) l;
  Some (mkRecord version algorithm record key context nonce ciphertext wnonce wrapped).

Definition empty_record : EnvRecord := mkRecord 0 "" "" "" (mkContext "" "" 0 0) "" "" "" "".
Definition unmarshal_envelope (s : string) : option EnvRecord :=
  v ← parse_document s; as_struct read_envelope v empty_record.

(** ** Metadata *)

Definition state_string (st : State) : string := match st with StateActive => "active" | StateRetired => "retired" end.
Definition state_of (s : string) : option State :=
  if String.eqb s "active" then Some StateActive else if String.eqb s "retired" then Some StateRetired else None.

Definition strings_value (l : list string) : json := match l with [] => JNull | _ => JArr (json_text <$> l) end.

Definition marshal_metadata (m : Metadata) : option string :=
  created ← json_time (mCreatedAt m) 0;
  updated ← json_time (mUpdatedAt m) 0;
  Some (json_struct [("id", json_string (mID m)); ("organization_id", json_string (mOrganizationID m));
    ("name", json_string (mName m)); ("credential_type", json_string (mCredentialType m));
    ("schema_version", json_uint (mSchemaVersion m)); ("version", json_uint (mVersion m));
    ("state", json_string (state_string (mState m))); ("secret_fields", render (strings_value (mSecretFields m)));
    ("created_at", created); ("updated_at", updated)]).

Definition as_state : reader_of State := λ v old, s ← as_string v (state_string old); state_of s.
Definition read_metadata (l : list (string * json)) (old : Metadata) : option Metadata :=
  id ← field as_string "id" (mID old) l;
  organization ← field as_string "organization_id" (mOrganizationID old) l;
  name ← field as_string "name" (mName old) l;
  type ← field as_string "credential_type" (mCredentialType old) l;
  schema ← field (as_uint 32) "schema_version" (mSchemaVersion old) l;
  version ← field (as_uint 64) "version" (mVersion old) l;
  state ← field as_state "state" (mState old) l;
  fields ← field as_strings "secret_fields" (mSecretFields old) l;
  created ← field as_time "created_at" (mCreatedAt old) l;
  updated ← field as_time "updated_at" (mUpdatedAt old) l;
  Some (mkMetadata id organization name type schema version state fields created updated).

Definition empty_metadata : Metadata := mkMetadata "" "" "" "" 0 0 StateActive [] zero_time zero_time.
Definition unmarshal_metadata (s : string) : option Metadata :=
  v ← parse_document s; as_struct read_metadata v empty_metadata.

(** ** Round trips *)

Definition envelope_texts (r : EnvRecord) : list string :=
  [recAlgorithm r; recRecordID r; recMasterKeyID r; ctxCredentialID (recContext r); ctxOrganizationID (recContext r)].
Definition storable_record (r : EnvRecord) : Prop :=
  Forall (λ s, valid_utf8 s = true) (envelope_texts r) ∧ 0 ≤ recVersion r < 2 ^ 32 ∧
  0 ≤ ctxSchemaVersion (recContext r) < 2 ^ 32 ∧ 0 ≤ ctxCredentialVersion (recContext r) < 2 ^ 64.
#[export] Instance storable_record_dec r : Decision (storable_record r).
Proof. unfold storable_record. apply _. Defined.

Definition metadata_texts (m : Metadata) : list string :=
  [mID m; mOrganizationID m; mName m; mCredentialType m] ++ mSecretFields m.
Definition storable_metadata (m : Metadata) : Prop :=
  Forall (λ s, valid_utf8 s = true) (metadata_texts m) ∧ 0 ≤ mSchemaVersion m < 2 ^ 32 ∧ 0 ≤ mVersion m < 2 ^ 64 ∧
  printable_time (mCreatedAt m) ∧ printable_time (mUpdatedAt m).
#[export] Instance storable_metadata_dec m : Decision (storable_metadata m).
Proof. unfold storable_metadata, printable_time. apply _. Defined.

Definition context_members (c : EnvContext) : list (string * json) :=
  [("credential_id", json_text (ctxCredentialID c)); ("organization_id", json_text (ctxOrganizationID c));
   ("schema_version", json_number (ctxSchemaVersion c)); ("credential_version", json_number (ctxCredentialVersion c))].
Definition envelope_members (r : EnvRecord) : list (string * json) :=
  [("version", json_number (recVersion r)); ("algorithm", json_text (recAlgorithm r));
   ("record_id", json_text (recRecordID r)); ("master_key_id", json_text (recMasterKeyID r));
   ("context", JObj (context_members (recContext r))); ("payload_nonce", json_text (base64 (recPayloadNonce r)));
   ("ciphertext", json_text (base64 (recCiphertext r))); ("wrap_nonce", json_text (base64 (recWrapNonce r)));
   ("wrapped_data_key", json_text (base64 (recWrappedDataKey r)))].
Definition metadata_members (m : Metadata) : list (string * json) :=
  [("id", json_text (mID m)); ("organization_id", json_text (mOrganizationID m)); ("name", json_text (mName m));
   ("credential_type", json_text (mCredentialType m)); ("schema_version", json_number (mSchemaVersion m));
   ("version", json_number (mVersion m)); ("state", json_text (state_string (mState m)));
   ("secret_fields", strings_value (mSecretFields m));
   ("created_at", json_text (Format_RFC3339Nano (mCreatedAt m) 0));
   ("updated_at", json_text (Format_RFC3339Nano (mUpdatedAt m) 0))].

(** A member under its own name, among members of distinct names. *)
Lemma field_member {A} (read : reader_of A) k zero v a l :
  NoDup (fold_name <$> l.*1) → (k, v) ∈ l → read v zero = Some a → field read k zero l = Some a.
Proof.
  intros Hnd Hin Hr. induction l as [|[k' v'] l IH]; [by apply not_elem_of_nil in Hin|].
  simpl in Hnd. apply NoDup_cons in Hnd as [Hk Hnd]. cbn [field]. apply elem_of_cons in Hin as [E|Hin].
  - simplify_eq. rewrite same_name_refl, Hr. cbn [mbind option_bind]. by apply field_absent.
  - assert (fold_name k ≠ fold_name k') as Hne.
    { intros E. apply Hk. rewrite <-E. apply list_elem_of_fmap. exists k. split; [done|]. apply list_elem_of_fmap. by exists (k, v). }
    unfold same_name. rewrite bool_decide_eq_false_2 by done. by apply IH.
Qed.

Ltac member_of := solve [repeat first [apply list_elem_of_here | apply list_elem_of_further]].
Ltac distinct_names := apply (bool_decide_unpack _); vm_compute; exact I.

Lemma context_names c : NoDup (fold_name <$> (context_members c).*1).
Proof. change ((context_members c).*1) with ["credential_id"; "organization_id"; "schema_version"; "credential_version"]. distinct_names. Qed.
Lemma envelope_names r : NoDup (fold_name <$> (envelope_members r).*1).
Proof.
  change ((envelope_members r).*1) with ["version"; "algorithm"; "record_id"; "master_key_id"; "context"; "payload_nonce";
    "ciphertext"; "wrap_nonce"; "wrapped_data_key"]. distinct_names.
Qed.
Lemma metadata_names m : NoDup (fold_name <$> (metadata_members m).*1).
Proof.
  change ((metadata_members m).*1) with ["id"; "organization_id"; "name"; "credential_type"; "schema_version"; "version";
    "state"; "secret_fields"; "created_at"; "updated_at"]. distinct_names.
Qed.

Lemma read_context_members c :
  0 ≤ ctxSchemaVersion c < 2 ^ 32 → 0 ≤ ctxCredentialVersion c < 2 ^ 64 →
  read_context (context_members c) (mkContext "" "" 0 0) = Some c.
Proof.
  intros H1 H2. pose proof (context_names c) as Hn. unfold read_context. cbn [ctxCredentialID ctxOrganizationID ctxSchemaVersion ctxCredentialVersion].
  erewrite !(field_member as_string) by (done || member_of || reflexivity). cbn [mbind option_bind].
  erewrite (field_member (as_uint 32)) by (done || member_of || by apply as_uint_number). cbn [mbind option_bind].
  erewrite (field_member (as_uint 64)) by (done || member_of || by apply as_uint_number). by destruct c.
Qed.

Lemma as_bytes_text s old : as_bytes (json_text (base64 s)) old = Some s.
Proof. apply base64_roundtrip. Qed.
Lemma as_time_text t old : printable_time t → as_time (json_text (Format_RFC3339Nano t 0)) old = Some t.
Proof. intros Ht. cbn. rewrite escape_safe by apply format_safe. by apply parse_format. Qed.
Lemma as_state_text st old : as_state (json_text (state_string st)) old = Some st.
Proof. by destruct st. Qed.
Lemma elements_text l old : elements as_string "" old (json_text <$> l) = Some l.
Proof. revert old. induction l as [|s l IH]; intros old; [done|]. cbn [fmap list_fmap elements as_string json_text]. by rewrite IH. Qed.
Lemma as_strings_value l old : as_strings (strings_value l) old = Some l.
Proof. destruct l as [|s l]; [done|]. apply elements_text. Qed.

Lemma read_envelope_members r : storable_record r → read_envelope (envelope_members r) empty_record = Some r.
Proof.
  intros (_ & H1 & H2 & H3). pose proof (envelope_names r) as Hn. unfold read_envelope, empty_record.
  cbn [recVersion recAlgorithm recRecordID recMasterKeyID recContext recPayloadNonce recCiphertext recWrapNonce recWrappedDataKey].
  erewrite (field_member (as_uint 32)) by (done || member_of || by apply as_uint_number). cbn [mbind option_bind].
  erewrite !(field_member as_string) by (done || member_of || reflexivity). cbn [mbind option_bind].
  erewrite (field_member (as_struct read_context)) by (done || member_of || by apply read_context_members). cbn [mbind option_bind].
  erewrite !(field_member as_bytes) by (done || member_of || apply as_bytes_text). by destruct r.
Qed.

Lemma read_metadata_members m : storable_metadata m → read_metadata (metadata_members m) empty_metadata = Some m.
Proof.
  intros (_ & H1 & H2 & H3 & H4). pose proof (metadata_names m) as Hn. unfold read_metadata, empty_metadata.
  cbn [mID mOrganizationID mName mCredentialType mSchemaVersion mVersion mState mSecretFields mCreatedAt mUpdatedAt].
  erewrite !(field_member as_string) by (done || member_of || reflexivity). cbn [mbind option_bind].
  erewrite (field_member (as_uint 32)) by (done || member_of || by apply as_uint_number). cbn [mbind option_bind].
  erewrite (field_member (as_uint 64)) by (done || member_of || by apply as_uint_number). cbn [mbind option_bind].
  erewrite (field_member as_state) by (done || member_of || apply as_state_text). cbn [mbind option_bind].
  erewrite (field_member as_strings) by (done || member_of || apply as_strings_value). cbn [mbind option_bind].
  erewrite !(field_member as_time) by (done || member_of || by apply as_time_text). by destruct m.
Qed.

Lemma number_printable z : 0 ≤ z → printable (json_number z).
Proof. intros Hz. exists z. done. Qed.

Lemma record_document r :
  storable_record r → parse_document (marshal_envelope r) = Some (JObj (envelope_members r)).
Proof.
  intros (Ht & H1 & H2 & H3). unfold envelope_texts in Ht. rewrite !Forall_cons in Ht.
  change (marshal_envelope r) with (render (JObj (envelope_members r))). apply parse_document_render.
  - apply printable_members. unfold envelope_members. rewrite !Forall_cons. cbn [fst snd].
    split_and!; try done; try apply number_printable; try lia; try (split; [apply base64_utf8|done]); try (split; [tauto|done]).
    apply printable_members. unfold context_members. rewrite !Forall_cons. cbn [fst snd].
    split_and!; try done; try apply number_printable; try lia; split; try done; tauto.
  - vm_compute. discriminate.
Qed.

Lemma height_strings l : 0 ≤ height (strings_value l) ≤ 1.
Proof.
  assert (∀ k, foldr (λ x h, Z.max (height x) h) 0 (json_text <$> k) = 0) as Hk
    by (intros k; induction k as [|x k IH]; [done|cbn [fmap list_fmap foldr height json_text] in *; by rewrite IH]).
  destruct l as [|s l]; [cbn; lia|]. unfold strings_value. cbn [height]. rewrite Hk. lia.
Qed.
Lemma strings_printable l : Forall (λ s, valid_utf8 s = true) l → printable (strings_value l).
Proof.
  intros Hl. assert (∀ k, Forall (λ s, valid_utf8 s = true) k → foldr (λ x P, printable x ∧ P) True (json_text <$> k)) as Hk
    by (induction 1 as [|x k Hx _ IH]; [done|]; cbn [fmap list_fmap foldr]; by split).
  destruct l as [|s l]; [done|]. by apply Hk.
Qed.

Lemma metadata_document m :
  storable_metadata m → ∃ s, marshal_metadata m = Some s ∧ parse_document s = Some (JObj (metadata_members m)).
Proof.
  intros (Ht & H1 & H2 & H3 & H4). unfold metadata_texts in Ht. apply Forall_app in Ht as [Ht Hf]. rewrite !Forall_cons in Ht.
  exists (render (JObj (metadata_members m))). split.
  { unfold marshal_metadata. by rewrite !json_time_utc by done. }
  pose proof (format_utf8 (mCreatedAt m)). pose proof (format_utf8 (mUpdatedAt m)).
  apply parse_document_render.
  - apply printable_members. unfold metadata_members. rewrite !Forall_cons. cbn [fst snd].
    split_and!; try done; try apply number_printable; try lia; try (split; [tauto|done]); [by destruct (mState m)|].
    by apply strings_printable.
  - cbn [height metadata_members foldr fst snd json_number json_text]. pose proof (height_strings (mSecretFields m)). unfold max_depth. lia.
Qed.

Lemma envelope_stored r : storable_record r → unmarshal_envelope (marshal_envelope r) = Some r.
Proof.
  intros Hr. unfold unmarshal_envelope. rewrite record_document by done. cbn [mbind option_bind as_struct]. by apply read_envelope_members.
Qed.
Lemma metadata_stored m s : storable_metadata m → marshal_metadata m = Some s → unmarshal_metadata s = Some m.
Proof.
  intros Hm Hs. destruct (metadata_document m Hm) as (s' & Hs' & Hd). simplify_eq. unfold unmarshal_metadata. rewrite Hd.
  cbn [mbind option_bind as_struct]. by apply read_metadata_members.
Qed.
