(* ===== verification/Server.v ===== *)
(** * The HTTP boundary (src/transport/server.go, rotation.go, json.go)

    [ServeHTTP] over a credential service and an audit recorder that are known
    by their interfaces only: the decoding of request bodies, the routes, the
    role each route asks for, the status and problem code of every answer, and
    the completion event of the request.

    A request carries what [net/http], [net/url], [mime] and [crypto/tls] make
    of it: the method, the escaped path, the media type of the Content-Type
    header ([None] when it does not parse), the body ([None] when it cannot be
    read).  Headers that every answer gets alike are left out. *)

From Stdlib Require Import Ascii.
From S2P Require Import Prelude GoStrings Json GoTime TimeParse JsonValue Crypto Envelope Credential AuditEvent Spool Identity Delivery.

(** ** Requests and answers *)

Record request : Type := mkHttp {
  rqMethod : string; rqPath : string; rqTLS : option tls_state; rqMediaType : option string;
  rqBody : option string; rqIdempotencyKeys : list string; rqOrganization : string
}.

Inductive payload : Type :=
  | PProblem (code : string)
  | PMetadata (m : Metadata) | PBinding (b : Binding) | PResolved (r : ResolvedCredential)
  | PRotation (r : Rotation) | PKeyStatus (k : KeyStatus) | PRecovery (v : RecoveryValidation)
  | PBackup (b : BackupSet) | PSecurityStatus (s : SecurityStatus) | PNone.
Record response : Type := mkResponse { rpStatus : Z; rpLocation : option string; rpPayload : payload }.

Definition problem (status : Z) (code : string) : response := mkResponse status None (PProblem code).
Definition answer (status : Z) (p : payload) : response := mkResponse status None p.

Definition problem_of (e : CredError) : Z * string :=
  match e with
  | ErrInvalidInput => (400, "invalid_request")
  | ErrUnauthorized => (403, "operation_not_permitted")
  | ErrBindingNotActive => (403, "run_binding_not_active")
  | ErrNotFound | ErrBindingNotFound => (404, "resource_not_found")
  | ErrBindingConflict => (409, "run_binding_conflict")
  | ErrIdempotencyConflict => (409, "idempotency_conflict")
  | ErrVersionConflict => (409, "version_conflict")
  | ErrCredentialNotActive => (409, "credential_not_active")
  | ErrAttemptConflict => (409, "attempt_conflict")
  | ErrRotationConflict => (409, "rotation_conflict")
  | ErrRotationNotReady => (409, "rotation_not_ready")
  | ErrRotationUnavailable => (503, "rotation_unavailable")
  | ErrBackupConflict => (409, "backup_conflict")
  | ErrRecoveryValidation => (409, "recovery_validation_failed")
  | ErrStorage => (503, "service_unavailable")
  | ErrEncryption | ErrBindingExpired | ErrBindingExhausted | ErrResolution => (500, "secure_operation_failed")
  end.
Definition writeServiceProblem (e : CredError) : response := problem (problem_of e).1 (problem_of e).2.

(** ** Bodies *)

Inductive DecodeError : Type := errInvalidJSON | errTooLarge.
Definition maxRequestBody : Z := 1048576.

(** [decodeJSON] into a variable of the type that [read] assigns. *)
Definition decodeJSON {A} (read : reader_of A) (zero : A) (r : request) : result DecodeError A :=
  _ ← guard_err (negb (bool_decide (rqMediaType r = Some "application/json"))) errInvalidJSON;
  body ← of_option errInvalidJSON (rqBody r);
  _ ← guard_err (len body =? 0) errInvalidJSON;
  _ ← guard_err (maxRequestBody <? len body) errTooLarge;
  v ← of_option errInvalidJSON (parse_document body);
  _ ← guard_err (negb (distinct_keys v)) errInvalidJSON;
  of_option errInvalidJSON (read v zero).

Definition writeDecodeProblem (e : DecodeError) : response :=
  match e with
  | errTooLarge => problem 413 "request_too_large"
  | errInvalidJSON => problem 400 "invalid_request"
  end.

Record actorBody : Type := mkActor { acUserID : string; acUsername : string; acDecision : string }.
Definition read_actor : reader_of actorBody := as_struct (λ l old,
  if no_unknown ["user_id"; "username"; "authorization_decision_id"] l then
    user ← field as_string "user_id" (acUserID old) l;
    name ← field as_string "username" (acUsername old) l;
    decision ← field as_string "authorization_decision_id" (acDecision old) l;
    Some (mkActor user name decision)
  else None).

Definition validActor (a : actorBody) : bool :=
  let combined := len (acUserID a) + (if String.eqb (acUsername a) "" then 0 else 1 + len (acUsername a)) in
  negb (String.eqb (acUserID a) "") && (combined <=? 255) &&
  negb (ContainsAny (acUserID a +:+ acUsername a +:+ acDecision a) control_chars) && (len (acDecision a) <=? 255).

Definition actorContext (ctx : Request.t) (a : actorBody) : Request.t :=
  Request.mk (Request.ID ctx) (Request.WorkloadIdentity ctx) (Request.Operation ctx)
    (if String.eqb (acUsername a) "" then acUserID a else acUserID a +:+ ":" +:+ acUsername a) (Request.StartedAt ctx).

Definition no_actor : actorBody := mkActor "" "" "".

(** The create, replace, update and retire bodies share their decoding: each
    names the fields it has. *)
Record credentialBody : Type := mkCredBody {
  cbOrganizationID : string; cbName : string; cbCredentialType : string; cbSchemaVersion : Z;
  cbExpectedVersion : Z; cbInputs : gmap string string; cbActor : actorBody
}.
Definition no_body : credentialBody := mkCredBody "" "" "" 0 0 ∅ no_actor.
Definition read_body (names : list string) : reader_of credentialBody := as_struct (λ l old,
  if no_unknown names l then
    organization ← field as_string "organization_id" (cbOrganizationID old) l;
    name ← field as_string "name" (cbName old) l;
    type ← field as_string "credential_type" (cbCredentialType old) l;
    schema ← field (as_uint 32) "schema_version" (cbSchemaVersion old) l;
    expected ← field (as_uint 64) "expected_version" (cbExpectedVersion old) l;
    inputs ← field as_string_map "inputs" (cbInputs old) l;
    actor ← field read_actor "actor" (cbActor old) l;
    Some (mkCredBody organization name type schema expected inputs actor)
  else None).
Definition createCredentialBody : reader_of credentialBody :=
  read_body ["organization_id"; "name"; "credential_type"; "schema_version"; "inputs"; "actor"].
Definition replaceCredentialBody : reader_of credentialBody := read_body ["expected_version"; "inputs"; "actor"].
Definition updateCredentialBody : reader_of credentialBody := read_body ["expected_version"; "name"; "actor"].
Definition retireCredentialBody : reader_of credentialBody := read_body ["expected_version"; "actor"].

Record registerBindingBody : Type := mkBindingBody {
  gbRunID : string; gbDispatchID : string; gbOrganizationID : string; gbCredentialID : string;
  gbExecutorIdentity : string; gbNotBefore : time * Z; gbExpiresAt : time * Z; gbMaxResolutions : Z
}.
Definition read_binding : reader_of registerBindingBody := as_struct (λ l old,
  if no_unknown ["run_id"; "dispatch_id"; "organization_id"; "credential_id"; "executor_identity"; "not_before";
                 "expires_at"; "max_resolutions"] l then
    run ← field as_string "run_id" (gbRunID old) l;
    dispatch ← field as_string "dispatch_id" (gbDispatchID old) l;
    organization ← field as_string "organization_id" (gbOrganizationID old) l;
    credential ← field as_string "credential_id" (gbCredentialID old) l;
    executor ← field as_string "executor_identity" (gbExecutorIdentity old) l;
    notBefore ← field as_zoned "not_before" (gbNotBefore old) l;
    expiresAt ← field as_zoned "expires_at" (gbExpiresAt old) l;
    maximum ← field (as_uint 32) "max_resolutions" (gbMaxResolutions old) l;
    Some (mkBindingBody run dispatch organization credential executor notBefore expiresAt maximum)
  else None).
Definition no_binding : registerBindingBody := mkBindingBody "" "" "" "" "" (0, 0) (0, 0) 0.

Record cancelBindingBody : Type := mkCancelBody { ccDispatchID : string; ccReason : string }.
Definition read_cancel : reader_of cancelBindingBody := as_struct (λ l old,
  if no_unknown ["dispatch_id"; "reason"] l then
    dispatch ← field as_string "dispatch_id" (ccDispatchID old) l;
    reason ← field as_string "reason" (ccReason old) l;
    Some (mkCancelBody dispatch reason)
  else None).

Record resolveBody : Type := mkResolveBody { rvAttemptID : string; rvRequestedAt : time }.
Definition read_resolve : reader_of resolveBody := as_struct (λ l old,
  if no_unknown ["attempt_id"; "requested_at"] l then
    attempt ← field as_string "attempt_id" (rvAttemptID old) l;
    requested ← field as_time "requested_at" (rvRequestedAt old) l;
    Some (mkResolveBody attempt requested)
  else None).

(** A body with one integer, or one string, of the given name. *)
Definition read_int (name : string) : reader_of Z := as_struct (λ l old,
  if no_unknown [name] l then field as_int name old l else None).
Definition read_text (name : string) : reader_of string := as_struct (λ l old,
  if no_unknown [name] l then field as_string name old l else None).

Definition read_backup : reader_of BackupSet := as_struct (λ l old,
  if no_unknown ["id"; "artifact_sha256"; "key_ids"; "created_at"; "retain_until"; "expired_at"] l then
    id ← field as_string "id" (buID old) l;
    artifact ← field as_string "artifact_sha256" (buArtifactSHA256 old) l;
    keys ← field as_strings "key_ids" (buKeyIDs old) l;
    created ← field as_time "created_at" (buCreatedAt old) l;
    retain ← field as_time "retain_until" (buRetainUntil old) l;
    expired ← field as_time "expired_at" (buExpiredAt old) l;
    Some (mkBackup id artifact keys created retain expired)
  else None).
Definition no_backup : BackupSet := mkBackup "" "" [] zero_time zero_time zero_time.

(** ** The interfaces the server is built from

    The first argument of an operation is the audit request of its context. *)

Class CredentialService (St : Type) : Type := {
  cs_Create : Request.t → CreateRequest → St → result CredError Metadata * St;
  cs_Get : Request.t → string → string → St → result CredError Metadata * St;
  cs_ReplaceInputs : Request.t → ReplaceInputsRequest → St → result CredError Metadata * St;
  cs_UpdateMetadata : Request.t → UpdateMetadataRequest → St → result CredError Metadata * St;
  cs_Retire : Request.t → RetireRequest → St → result CredError Metadata * St;
  cs_RegisterBinding : Request.t → Credential.WorkloadIdentity → RegisterBindingRequest → St → result CredError Binding * St;
  cs_InspectBinding : Request.t → Credential.WorkloadIdentity → string → St → result CredError Binding * St;
  cs_CancelBinding : Request.t → Credential.WorkloadIdentity → CancelBindingRequest → St → result CredError Binding * St;
  cs_Resolve : Request.t → Credential.WorkloadIdentity → ResolveRequest → St → result CredError ResolvedCredential * St;
  cs_StartRotation : Request.t → St → result CredError Rotation * St;
  cs_GetRotation : Request.t → string → St → result CredError Rotation * St;
  cs_ResumeRotation : Request.t → string → Z → St → result CredError Rotation * St;
  cs_FinalizeRotation : Request.t → string → St → result CredError Rotation * St;
  cs_RotateCredential : Request.t → CredentialRotationRequest → St → result CredError unit * St;
  cs_KeyStatus : Request.t → St → result CredError KeyStatus * St;
  cs_ValidateRecovery : Request.t → Z → St → result CredError RecoveryValidation * St;
  cs_RegisterBackup : Request.t → BackupSet → St → result CredError BackupSet * St;
  cs_ExpireBackup : Request.t → string → St → result CredError BackupSet * St
}.

Class AuditRecorder (Au : Type) : Type := {
  ar_Record : Event → Au → result AuditError unit * Au;
  ar_Status : Au → result AuditError SecurityStatus * Au
}.

Record Server : Type := mkServer { mapper : SPIFFEMapper; has_auditor : bool }.

Definition NewServer (m : SPIFFEMapper) (auditors : nat) : result CredError Server :=
  if String.eqb (TrustDomain m) "" || (1 <? Z.of_nat auditors) then Err ErrInvalidInput
  else Ok (mkServer m (negb (Z.of_nat auditors =? 0))).

(** ** Operations *)

Definition is_method (m : string) (r : request) : bool := String.eqb (rqMethod r) m.

Definition requestOperation (method path : string) : string :=
  let verb m := String.eqb method m in let equals p := String.eqb path p in
  let below := HasPrefix path in let ends := HasSuffix path in
  if verb "POST" && equals "/internal/v1/run-bindings" then OperationRunBindingRegistered
  else if verb "GET" && equals "/internal/v1/security-status" then OperationSecurityStatusRead
  else if verb "GET" && equals "/internal/v1/operations/key-status" then OperationKeyStatusRead
  else if verb "POST" && equals "/internal/v1/operations/recovery-validations" then OperationRecoveryValidationFinished
  else if verb "POST" && equals "/internal/v1/operations/backups" then OperationBackupRegistered
  else if verb "POST" && ends "/expire" then OperationBackupExpired
  else if verb "POST" && equals "/internal/v1/operations/rotations" then OperationMasterKeyRotationStarted
  else if verb "GET" && below "/internal/v1/operations/rotations/" then OperationMasterKeyRotationInspected
  else if verb "POST" && ends "/resume" then OperationMasterKeyRotationResumed
  else if verb "POST" && ends "/finalize" then OperationMasterKeyRotationFinalized
  else if verb "POST" && below "/internal/v1/operations/credentials/" && ends "/rotate" then OperationCredentialKeyRotated
  else if verb "POST" && equals "/internal/v1/credentials" then OperationCredentialCreated
  else if verb "GET" && below "/internal/v1/credentials/" then OperationCredentialRead
  else if verb "PUT" && ends "/inputs" then OperationCredentialInputsReplaced
  else if verb "PATCH" && below "/internal/v1/credentials/" then OperationCredentialMetadataUpdated
  else if verb "POST" && ends "/retire" then OperationCredentialRetired
  else if verb "GET" && below "/internal/v1/run-bindings/" then OperationRunBindingInspected
  else if verb "POST" && ends "/cancel" then OperationRunBindingCanceled
  else if verb "POST" && ends "/credential:resolve" then OperationCredentialResolved
  else OperationUnknownRoute.

Definition transactionallyAudited (operation : string) : bool :=
  bool_decide (operation ∈ [OperationRunBindingRegistered; OperationRunBindingCanceled; OperationCredentialResolved;
    OperationCredentialCreated; OperationCredentialInputsReplaced; OperationCredentialMetadataUpdated;
    OperationCredentialRetired; OperationMasterKeyRotationStarted; OperationMasterKeyRotationResumed;
    OperationMasterKeyRotationFinalized; OperationCredentialKeyRotated; OperationRecoveryValidationFinished;
    OperationBackupRegistered; OperationBackupExpired]).

Definition requestRunID (path : string) : string :=
  let trimmed :=
    if HasPrefix path "/internal/v1/run-bindings/"
    then TrimSuffix (TrimPrefix path "/internal/v1/run-bindings/") "/cancel"
    else if HasPrefix path "/internal/v1/runs/"
    then TrimSuffix (TrimPrefix path "/internal/v1/runs/") "/credential:resolve"
    else "" in
  if Contains trimmed "/" || negb (len trimmed =? 36) then "" else trimmed.

Definition requestRotationID (path : string) : string :=
  if negb (HasPrefix path "/internal/v1/operations/rotations/") then ""
  else let value := TrimSuffix (TrimSuffix (TrimPrefix path "/internal/v1/operations/rotations/") "/resume") "/finalize" in
       if Contains value "/" || negb (len value =? 36) then "" else value.

(** [strings.Trim] at one character, and [strconv.ParseUint] in base 10 for 64 bits. *)
Fixpoint trim_left (c : ascii) (s : string) : string :=
  match s with String a s' => if bz a =? bz c then trim_left c s' else s | "" => "" end.
Fixpoint trim_right (c : ascii) (s : string) : string :=
  match s with
  | "" => ""
  | String a s' => match trim_right c s' with "" => if bz a =? bz c then "" else String a "" | t => String a t end
  end.
Definition Trim (c : ascii) (s : string) : string := trim_right c (trim_left c s).
Definition ParseUint64 (s : string) : option Z :=
  if String.eqb s "" || negb (forall_bytes digit_byte s) then None
  else let z := decimal 0 s in if z <? 2 ^ 64 then Some z else None.

(** ** Handlers *)

Section Handlers.
Context {St Au : Type} `{CredentialService St, AuditRecorder Au}.
Implicit Types (ctx : Request.t) (identity : Credential.WorkloadIdentity) (r : request) (s : St) (w : St * Au).

Definition forbidden : response := problem 403 "operation_not_permitted".
Definition bad_request : response := problem 400 "invalid_request".
Definition not_found : response := problem 404 "resource_not_found".
Definition has_role identity (role : WorkloadRole) : bool := bool_decide (Role identity = role).

(** The answer to a service call. *)
Definition respond {A} (success : A → response) (x : result CredError A * St) : response * St :=
  (match x.1 with Ok a => success a | Err e => writeServiceProblem e end, x.2).
(** One value of the Idempotency-Key header, and not the empty one. *)
Definition idempotency_header r : option string :=
  match rqIdempotencyKeys r with [k] => if String.eqb k "" then None else Some k | _ => None end.

Definition createCredential ctx identity r s : response * St :=
  if negb (has_role identity RoleAPI) then (forbidden, s)
  else match decodeJSON createCredentialBody no_body r with
       | Err _ => (bad_request, s)
       | Ok body =>
           if negb (validActor (cbActor body)) then (bad_request, s)
           else match idempotency_header r with
                | None => (bad_request, s)
                | Some key =>
                    respond (λ m, mkResponse 201 (Some ("/internal/v1/credentials/" +:+ mID m)) (PMetadata m))
                      (cs_Create (actorContext ctx (cbActor body))
                         (mkCreate (cbOrganizationID body) (cbName body) (cbCredentialType body) (cbSchemaVersion body)
                            (cbInputs body) key) s)
                end
       end.

Definition credentialRoute ctx identity r s : response * St :=
  if negb (has_role identity RoleAPI) then (forbidden, s)
  else
    let relative := TrimPrefix (rqPath r) "/internal/v1/credentials/" in
    let inputsRoute := HasSuffix relative "/inputs" in
    let retireRoute := HasSuffix relative "/retire" in
    let credentialID := TrimSuffix (TrimSuffix relative "/inputs") "/retire" in
    if String.eqb credentialID "" || Contains credentialID "/" then (not_found, s)
    else
      let organizationID := TrimSpace (rqOrganization r) in
      if String.eqb organizationID "" || (255 <? len organizationID) then (bad_request, s)
      else if is_method "GET" r && negb inputsRoute && negb retireRoute then
        respond (λ m, answer 200 (PMetadata m)) (cs_Get ctx organizationID credentialID s)
      else if is_method "PUT" r && inputsRoute then
        match decodeJSON replaceCredentialBody no_body r with
        | Err _ => (bad_request, s)
        | Ok body =>
            if negb (validActor (cbActor body)) then (bad_request, s)
            else respond (λ m, answer 200 (PMetadata m))
                   (cs_ReplaceInputs (actorContext ctx (cbActor body))
                      (mkReplace credentialID organizationID (cbExpectedVersion body) (cbInputs body)) s)
        end
      else if is_method "PATCH" r && negb inputsRoute && negb retireRoute then
        match decodeJSON updateCredentialBody no_body r with
        | Err _ => (bad_request, s)
        | Ok body =>
            if negb (validActor (cbActor body)) then (bad_request, s)
            else respond (λ m, answer 200 (PMetadata m))
                   (cs_UpdateMetadata (actorContext ctx (cbActor body))
                      (mkUpdate credentialID organizationID (cbExpectedVersion body) (cbName body)) s)
        end
      else if is_method "POST" r && retireRoute then
        match decodeJSON retireCredentialBody no_body r with
        | Err _ => (bad_request, s)
        | Ok body =>
            if negb (validActor (cbActor body)) then (bad_request, s)
            else respond (λ m, answer 200 (PMetadata m))
                   (cs_Retire (actorContext ctx (cbActor body))
                      (mkRetire credentialID organizationID (cbExpectedVersion body)) s)
        end
      else (not_found, s).

Definition registerBinding ctx identity r s : response * St :=
  if negb (has_role identity RoleScheduler) then (forbidden, s)
  else match decodeJSON read_binding no_binding r with
       | Err e => (writeDecodeProblem e, s)
       | Ok body =>
           match idempotency_header r with
           | None => (bad_request, s)
           | Some key =>
               respond (λ b, mkResponse 201 (Some ("/internal/v1/run-bindings/" +:+ bdRunID b)) (PBinding b))
                 (cs_RegisterBinding ctx identity
                    (mkRegister (gbRunID body) (gbDispatchID body) (gbOrganizationID body) (gbCredentialID body)
                       (gbExecutorIdentity body) (gbNotBefore body).1 (gbNotBefore body).2 (gbExpiresAt body).1
                       (gbExpiresAt body).2 (gbMaxResolutions body) key) s)
           end
       end.

Definition inspectBinding ctx identity (runID : string) s : response * St :=
  if negb (has_role identity RoleScheduler) then (forbidden, s)
  else respond (λ b, answer 200 (PBinding b)) (cs_InspectBinding ctx identity runID s).

Definition cancelBinding ctx identity r (runID : string) s : response * St :=
  if negb (has_role identity RoleScheduler) then (forbidden, s)
  else match decodeJSON read_cancel (mkCancelBody "" "") r with
       | Err e => (writeDecodeProblem e, s)
       | Ok body => respond (λ b, answer 200 (PBinding b))
                      (cs_CancelBinding ctx identity (mkCancel runID (ccDispatchID body) (ccReason body)) s)
       end.

Definition resolve ctx identity r (runID : string) s : response * St :=
  if negb (has_role identity RoleExecutor) then (forbidden, s)
  else match decodeJSON read_resolve (mkResolveBody "" zero_time) r with
       | Err e => (writeDecodeProblem e, s)
       | Ok body => respond (λ c, answer 200 (PResolved c))
                      (cs_Resolve ctx identity (mkResolve runID (rvAttemptID body) (rvRequestedAt body)) s)
       end.

Definition rotationRoute ctx r s : response * St :=
  match split_on "/" (TrimPrefix (rqPath r) "/internal/v1/operations/rotations/") with
  | [] => (not_found, s)
  | rotationID :: rest =>
      if String.eqb rotationID "" then (not_found, s)
      else if is_method "GET" r && bool_decide (rest = []) then
        respond (λ x, answer 200 (PRotation x)) (cs_GetRotation ctx rotationID s)
      else if is_method "POST" r && bool_decide (rest = ["resume"]) then
        match decodeJSON (read_int "batch_size") 0 r with
        | Err e => (writeDecodeProblem e, s)
        | Ok batchSize =>
            if (batchSize <? 1) || (1000 <? batchSize) then (bad_request, s)
            else respond (λ x, answer 200 (PRotation x)) (cs_ResumeRotation ctx rotationID batchSize s)
        end
      else if is_method "POST" r && bool_decide (rest = ["finalize"]) then
        respond (λ x, answer 200 (PRotation x)) (cs_FinalizeRotation ctx rotationID s)
      else (not_found, s)
  end.

Definition rotateCredential ctx r s : response * St :=
  let remainder := TrimSuffix (TrimPrefix (rqPath r) "/internal/v1/operations/credentials/") "/rotate" in
  match split_on "/" (Trim "/" remainder) with
  | [credentialID; versions; number] =>
      if negb (String.eqb versions "versions") then (not_found, s)
      else match ParseUint64 number with
           | None => (bad_request, s)
           | Some version =>
               if version =? 0 then (bad_request, s)
               else match decodeJSON (read_text "organization_id") "" r with
                    | Err e => (writeDecodeProblem e, s)
                    | Ok organizationID =>
                        respond (λ _, answer 204 PNone)
                          (cs_RotateCredential ctx (mkCredRotation organizationID credentialID version) s)
                    end
           end
  | _ => (not_found, s)
  end.

Definition operationRoute ctx identity r s : response * St :=
  let path := rqPath r in
  if negb (has_role identity RoleSecretsOperator) then (forbidden, s)
  else if is_method "POST" r && String.eqb path "/internal/v1/operations/recovery-validations" then
    match decodeJSON (read_int "sample_size") 0 r with
    | Err e => (writeDecodeProblem e, s)
    | Ok sampleSize =>
        if (sampleSize <? 1) || (1000 <? sampleSize) then (bad_request, s)
        else respond (λ x, answer 200 (PRecovery x)) (cs_ValidateRecovery ctx sampleSize s)
    end
  else if is_method "POST" r && String.eqb path "/internal/v1/operations/backups" then
    match decodeJSON read_backup no_backup r with
    | Err e => (writeDecodeProblem e, s)
    | Ok body => respond (λ x, answer 201 (PBackup x)) (cs_RegisterBackup ctx body s)
    end
  else if is_method "POST" r && HasPrefix path "/internal/v1/operations/backups/" && HasSuffix path "/expire" then
    let id := TrimSuffix (TrimPrefix path "/internal/v1/operations/backups/") "/expire" in
    if String.eqb id "" || Contains id "/" then (not_found, s)
    else respond (λ x, answer 200 (PBackup x)) (cs_ExpireBackup ctx id s)
  else if is_method "GET" r && String.eqb path "/internal/v1/operations/key-status" then
    respond (λ x, answer 200 (PKeyStatus x)) (cs_KeyStatus ctx s)
  else if is_method "POST" r && String.eqb path "/internal/v1/operations/rotations" then
    respond (λ x, mkResponse 201 (Some ("/internal/v1/operations/rotations/" +:+ roID x)) (PRotation x))
      (cs_StartRotation ctx s)
  else if HasPrefix path "/internal/v1/operations/rotations/" then rotationRoute ctx r s
  else if is_method "POST" r && HasPrefix path "/internal/v1/operations/credentials/" && HasSuffix path "/rotate" then
    rotateCredential ctx r s
  else (not_found, s).

Definition securityStatus (server : Server) identity (a : Au) : response * Au :=
  if negb (has_role identity RoleSecretsOperator) && negb (has_role identity RoleSecretsAuditor) then (forbidden, a)
  else if negb (has_auditor server) then (problem 503 "service_unavailable", a)
  else let '(x, a) := ar_Status a in
       (match x with Ok v => answer 200 (PSecurityStatus v) | Err _ => problem 503 "service_unavailable" end, a).

(** The routes of [ServeHTTP], for an authenticated request. *)
Definition dispatch (server : Server) ctx identity r w : response * (St * Au) :=
  let path := rqPath r in
  let on_service (h : St → response * St) : response * (St * Au) := let '(x, s) := h w.1 in (x, (s, w.2)) in
  let with_run (runID : string) (h : St → response * St) : response * (St * Au) :=
    if Contains runID "/" || String.eqb runID "" then (not_found, w) else on_service h in
  if is_method "GET" r && String.eqb path "/internal/v1/security-status" then
    let '(x, a) := securityStatus server identity w.2 in (x, (w.1, a))
  else if HasPrefix path "/internal/v1/operations/" then on_service (operationRoute ctx identity r)
  else if is_method "POST" r && String.eqb path "/internal/v1/credentials" then on_service (createCredential ctx identity r)
  else if HasPrefix path "/internal/v1/credentials/" then on_service (credentialRoute ctx identity r)
  else if is_method "POST" r && String.eqb path "/internal/v1/run-bindings" then on_service (registerBinding ctx identity r)
  else if is_method "GET" r && HasPrefix path "/internal/v1/run-bindings/" then
    let runID := TrimPrefix path "/internal/v1/run-bindings/" in
    with_run runID (inspectBinding ctx identity runID)
  else if is_method "POST" r && HasPrefix path "/internal/v1/run-bindings/" && HasSuffix path "/cancel" then
    let runID := TrimSuffix (TrimPrefix path "/internal/v1/run-bindings/") "/cancel" in
    with_run runID (cancelBinding ctx identity r runID)
  else if is_method "POST" r && HasPrefix path "/internal/v1/runs/" && HasSuffix path "/credential:resolve" then
    let runID := TrimSuffix (TrimPrefix path "/internal/v1/runs/") "/credential:resolve" in
    with_run runID (resolve ctx identity r runID)
  else (not_found, w).

(** [newRequestID]. *)
Definition newRequestID (random : option string) : string :=
  match random with Some value => EncodeToString value | None => "request-unavailable" end.

Definition with_ids (e : Event) (runID rotationID : string) : Event :=
  mkEvent (SchemaVersion e) (Timestamp e) (EventType e) (Operation e) (Result e) (ReasonCode e) (WorkloadIdentity e)
    (HumanActor e) (OrganizationID e) (CredentialID e) runID rotationID (ExecutorIdentity e) (CredentialVersion e)
    (CredentialSchema e) (KeyVersion e) (RequestID e) (LatencyClass e).

(** The deferred part of [ServeHTTP]: the completion event, unless the state
    change has audited itself. *)
Definition completion (ctx : Request.t) (path : string) (x : response) (finished : time) : option Event :=
  if (200 <=? rpStatus x) && (rpStatus x <? 300) && transactionallyAudited (Request.Operation ctx) then None
  else
    let '(result, reason) := StableResult (rpStatus x) in
    let reason := match rpPayload x with PProblem code => if String.eqb code "" then reason else code | _ => reason end in
    Some (with_ids (Completion (Some ctx) result reason finished) (requestRunID path) (requestRotationID path)).

Definition request_context (server : Server) (id : string) (started : time) r : Request.t :=
  Request.mk id (match requestIdentity (mapper server) (rqTLS r) with Some i => Subject i | None => "" end)
    (requestOperation (rqMethod r) (rqPath r)) "" started.

Definition ServeHTTP (server : Server) (random : option string) (started finished : time) r w : response * (St * Au) :=
  let ctx := request_context server (newRequestID random) started r in
  let '(x, w) := match requestIdentity (mapper server) (rqTLS r) with
                 | None => (problem 401 "workload_authentication_failed", w)
                 | Some identity => dispatch server ctx identity r w
                 end in
  if has_auditor server then
    match completion ctx (rqPath r) x finished with
    | Some e => (x, (w.1, (ar_Record e w.2).2))
    | None => (x, w)
    end
  else (x, w).
End Handlers.
