(* ===== verification/Routing.v ===== *)
(** * Who may do what over HTTP

    The routes, role checks and body checks of [Server.v] reduced to a decision:
    an authenticated request is either answered at once, or it is one call of
    the credential service that the caller's role is permitted, recorded under
    the operation it performs. *)

From Stdlib Require Import Ascii.
From S2P Require Import Prelude GoStrings Json GoTime TimeParse JsonValue Crypto Envelope Credential AuditEvent Spool Identity Delivery Server.

(** ** Prefixes and suffixes that exclude one another *)

Lemma HasSuffix_app t q : HasSuffix (t +:+ q) q = true.
Proof.
  unfold HasSuffix. rewrite length_string_app. rewrite (proj2 (Nat.leb_le _ _)) by lia.
  replace (String.length t + String.length q - String.length q)%nat with (String.length t) by lia.
  by rewrite drop_str_app, String.eqb_refl.
Qed.
Lemma HasSuffix_true s q : HasSuffix s q = true ↔ ∃ t, s = t +:+ q.
Proof.
  split; [|intros [t ->]; apply HasSuffix_app]. unfold HasSuffix. intros [Hl Hs]%andb_prop.
  apply String.eqb_eq in Hs. exists (take_str (String.length s - String.length q) s). rewrite <-Hs at 2. by rewrite take_drop_str.
Qed.

Lemma prefix_compare s p q : HasPrefix s p = true → HasPrefix s q = true → HasPrefix p q = true ∨ HasPrefix q p = true.
Proof.
  revert s q. induction p as [|a p IH]; intros s q Hp Hq; [right; by destruct q|].
  destruct q as [|b q]; [by left|]. destruct s as [|c s]; [done|]. simpl in *.
  apply andb_prop in Hp as [Ha Hp], Hq as [Hb Hq]. apply Z.eqb_eq in Ha, Hb.
  destruct (IH s q Hp Hq) as [H|H]; [left|right]; rewrite H, andb_true_r; apply Z.eqb_eq; lia.
Qed.
Lemma suffix_compare s p q : HasSuffix s p = true → HasSuffix s q = true → HasSuffix p q = true ∨ HasSuffix q p = true.
Proof.
  intros [t Ht]%HasSuffix_true [u Hu]%HasSuffix_true. subst s.
  destruct (decide (String.length q ≤ String.length p)%nat) as [Hl|Hl].
  - left. apply HasSuffix_true. exists (drop_str (String.length t) u).
    apply (f_equal (drop_str (String.length t))) in Hu as Hd. rewrite drop_str_app in Hd. rewrite Hd.
    pose proof (f_equal String.length Hu) as Hlen. rewrite !length_string_app in Hlen.
    rewrite <-(take_drop_str (String.length t) u) at 1. rewrite <-app_assoc_str.
    rewrite drop_str_app' by (rewrite length_take_str; lia). done.
  - right. apply HasSuffix_true. exists (drop_str (String.length u) t).
    apply (f_equal (drop_str (String.length u))) in Hu as Hd. rewrite drop_str_app in Hd. rewrite <-Hd.
    pose proof (f_equal String.length Hu) as Hlen. rewrite !length_string_app in Hlen.
    rewrite <-(take_drop_str (String.length u) t) at 1. rewrite <-app_assoc_str.
    rewrite drop_str_app' by (rewrite length_take_str; lia). done.
Qed.

Lemma prefix_excludes s p q : HasPrefix s p = true → HasPrefix p q || HasPrefix q p = false → HasPrefix s q = false.
Proof.
  intros Hp Hq. apply orb_false_iff in Hq as [H1 H2]. destruct (HasPrefix s q) eqn:E; [|done].
  destruct (prefix_compare s p q Hp E); congruence.
Qed.
Lemma suffix_excludes s p q : HasSuffix s p = true → HasSuffix p q || HasSuffix q p = false → HasSuffix s q = false.
Proof.
  intros Hp Hq. apply orb_false_iff in Hq as [H1 H2]. destruct (HasSuffix s q) eqn:E; [|done].
  destruct (suffix_compare s p q Hp E); congruence.
Qed.
Lemma prefix_differs s p q : HasPrefix s p = true → HasPrefix q p = false → String.eqb s q = false.
Proof. intros Hp Hq. apply String.eqb_neq. intros ->. congruence. Qed.

Lemma TrimPrefix_eq s p : HasPrefix s p = true → s = p +:+ TrimPrefix s p.
Proof. intros Hp. unfold TrimPrefix. rewrite Hp. apply HasPrefix_true in Hp as [t ->]. by rewrite drop_str_app. Qed.
Lemma TrimSuffix_app t q : TrimSuffix (t +:+ q) q = t.
Proof.
  unfold TrimSuffix. rewrite HasSuffix_app, length_string_app.
  replace (String.length t + String.length q - String.length q)%nat with (String.length t) by lia. apply take_str_app.
Qed.
Lemma TrimSuffix_eq s q : HasSuffix s q = true → s = TrimSuffix s q +:+ q.
Proof. intros [t ->]%HasSuffix_true. by rewrite TrimSuffix_app. Qed.
Lemma TrimSuffix_none s q : HasSuffix s q = false → TrimSuffix s q = s.
Proof. intros Hq. unfold TrimSuffix. by rewrite Hq. Qed.

(** Where a prefix and a suffix of a path may overlap. *)
Definition overlaps (p q : string) : list nat :=
  filter (λ n, HasSuffix (p +:+ drop_str n q) q = true) (seq 1 (String.length q)).

Lemma trimmed path p q :
  HasPrefix path p = true → HasSuffix path q = true →
  path = p +:+ TrimSuffix (TrimPrefix path p) q +:+ q ∨
  (∃ n, n ∈ overlaps p q ∧ TrimPrefix path p = drop_str n q ∧ TrimSuffix (TrimPrefix path p) q = TrimPrefix path p ∧
     path = p +:+ TrimPrefix path p).
Proof.
  intros Hp Hq. pose proof (TrimPrefix_eq _ _ Hp) as Hpath. set (t := TrimPrefix path p) in *.
  destruct (HasSuffix t q) eqn:E; [left; rewrite Hpath at 1; by rewrite <-TrimSuffix_eq|right].
  assert (HasSuffix path t = true) as Ht by (rewrite Hpath; apply HasSuffix_app).
  destruct (suffix_compare path t q Ht Hq) as [H|H]; [congruence|]. apply HasSuffix_true in H as [u Hu].
  assert (t = drop_str (String.length u) q) as Hd by (by rewrite Hu, drop_str_app).
  exists (String.length u). split_and!; [|done|by apply TrimSuffix_none|done].
  apply list_elem_of_filter. rewrite <-Hd, <-Hpath. split; [done|]. apply elem_of_seq.
  destruct u as [|a u]; [|rewrite Hu, length_string_app; simpl; lia].
  exfalso. rewrite app_nil_l_str in Hu. subst q. pose proof (HasSuffix_app "" t) as Hself. rewrite app_nil_l_str in Hself. congruence.
Qed.

Fixpoint join (l : list string) : string :=
  match l with [] => "" | [x] => x | x :: l' => x +:+ String "/" (join l') end.
Lemma split_join s : join (split_on "/" s) = s.
Proof.
  induction s as [|a s IH]; [done|]. simpl. assert (split_on "/" s ≠ []) as Hne by (by destruct s; simpl; repeat case_match).
  destruct (bz a =? bz "/") eqn:Ea.
  - apply Z.eqb_eq, bz_inj in Ea as ->. destruct (split_on "/" s) as [|x l] eqn:E; [done|].
    change (join ("" :: x :: l)) with (String "/" (join (x :: l))). by rewrite IH.
  - destruct (split_on "/" s) as [|x [|y l]]; [done|simpl in *; congruence|].
    change (join (String a x :: y :: l)) with (String a (x +:+ String "/" (join (y :: l)))).
    change (join (x :: y :: l)) with (x +:+ String "/" (join (y :: l))) in IH. by rewrite IH.
Qed.
Lemma split_parts s l : split_on "/" s = l → s = join l.
Proof. intros <-. by rewrite split_join. Qed.

(** ** Calls *)

Inductive call : Type :=
  | CallCreate (ctx : Request.t) (q : CreateRequest)
  | CallGet (ctx : Request.t) (organization id : string)
  | CallReplaceInputs (ctx : Request.t) (q : ReplaceInputsRequest)
  | CallUpdateMetadata (ctx : Request.t) (q : UpdateMetadataRequest)
  | CallRetire (ctx : Request.t) (q : RetireRequest)
  | CallRegisterBinding (ctx : Request.t) (caller : Credential.WorkloadIdentity) (q : RegisterBindingRequest)
  | CallInspectBinding (ctx : Request.t) (caller : Credential.WorkloadIdentity) (id : string)
  | CallCancelBinding (ctx : Request.t) (caller : Credential.WorkloadIdentity) (q : CancelBindingRequest)
  | CallResolve (ctx : Request.t) (caller : Credential.WorkloadIdentity) (q : ResolveRequest)
  | CallStartRotation (ctx : Request.t)
  | CallGetRotation (ctx : Request.t) (id : string)
  | CallResumeRotation (ctx : Request.t) (id : string) (batch : Z)
  | CallFinalizeRotation (ctx : Request.t) (id : string)
  | CallRotateCredential (ctx : Request.t) (q : CredentialRotationRequest)
  | CallKeyStatus (ctx : Request.t)
  | CallValidateRecovery (ctx : Request.t) (sample : Z)
  | CallRegisterBackup (ctx : Request.t) (b : BackupSet)
  | CallExpireBackup (ctx : Request.t) (id : string)
  | CallSecurityStatus (server : Server).

Definition operation_of (c : call) : string :=
  match c with
  | CallCreate _ _ => OperationCredentialCreated
  | CallGet _ _ _ => OperationCredentialRead
  | CallReplaceInputs _ _ => OperationCredentialInputsReplaced
  | CallUpdateMetadata _ _ => OperationCredentialMetadataUpdated
  | CallRetire _ _ => OperationCredentialRetired
  | CallRegisterBinding _ _ _ => OperationRunBindingRegistered
  | CallInspectBinding _ _ _ => OperationRunBindingInspected
  | CallCancelBinding _ _ _ => OperationRunBindingCanceled
  | CallResolve _ _ _ => OperationCredentialResolved
  | CallStartRotation _ => OperationMasterKeyRotationStarted
  | CallGetRotation _ _ => OperationMasterKeyRotationInspected
  | CallResumeRotation _ _ _ => OperationMasterKeyRotationResumed
  | CallFinalizeRotation _ _ => OperationMasterKeyRotationFinalized
  | CallRotateCredential _ _ => OperationCredentialKeyRotated
  | CallKeyStatus _ => OperationKeyStatusRead
  | CallValidateRecovery _ _ => OperationRecoveryValidationFinished
  | CallRegisterBackup _ _ => OperationBackupRegistered
  | CallExpireBackup _ _ => OperationBackupExpired
  | CallSecurityStatus _ => OperationSecurityStatusRead
  end.

(** The identity a call acts for, where the service asks for one. *)
Definition caller_of (c : call) : option Credential.WorkloadIdentity :=
  match c with
  | CallRegisterBinding _ i _ | CallInspectBinding _ i _ | CallCancelBinding _ i _ | CallResolve _ i _ => Some i
  | _ => None
  end.

(** The permissions of docs/service-api.md. *)
Definition permitted (role : WorkloadRole) : list string :=
  match role with
  | RoleAPI => [OperationCredentialCreated; OperationCredentialRead; OperationCredentialInputsReplaced;
                OperationCredentialMetadataUpdated; OperationCredentialRetired]
  | RoleScheduler => [OperationRunBindingRegistered; OperationRunBindingInspected; OperationRunBindingCanceled]
  | RoleExecutor => [OperationCredentialResolved]
  | RoleSecretsOperator =>
      [OperationSecurityStatusRead; OperationKeyStatusRead; OperationMasterKeyRotationStarted;
       OperationMasterKeyRotationInspected; OperationMasterKeyRotationResumed; OperationMasterKeyRotationFinalized;
       OperationCredentialKeyRotated; OperationRecoveryValidationFinished; OperationBackupRegistered; OperationBackupExpired]
  | RoleSecretsAuditor => [OperationSecurityStatusRead]
  end.

Section Perform.
Context {St Au : Type} `{CredentialService St, AuditRecorder Au}.

Definition perform (c : call) (w : St * Au) : response * (St * Au) :=
  let service (x : response * St) : response * (St * Au) := (x.1, (x.2, w.2)) in
  match c with
  | CallCreate ctx q =>
      service (respond (λ m, mkResponse 201 (Some ("/internal/v1/credentials/" +:+ mID m)) (PMetadata m)) (cs_Create ctx q w.1))
  | CallGet ctx organization id => service (respond (λ m, answer 200 (PMetadata m)) (cs_Get ctx organization id w.1))
  | CallReplaceInputs ctx q => service (respond (λ m, answer 200 (PMetadata m)) (cs_ReplaceInputs ctx q w.1))
  | CallUpdateMetadata ctx q => service (respond (λ m, answer 200 (PMetadata m)) (cs_UpdateMetadata ctx q w.1))
  | CallRetire ctx q => service (respond (λ m, answer 200 (PMetadata m)) (cs_Retire ctx q w.1))
  | CallRegisterBinding ctx i q =>
      service (respond (λ b, mkResponse 201 (Some ("/internal/v1/run-bindings/" +:+ bdRunID b)) (PBinding b))
                 (cs_RegisterBinding ctx i q w.1))
  | CallInspectBinding ctx i id => service (respond (λ b, answer 200 (PBinding b)) (cs_InspectBinding ctx i id w.1))
  | CallCancelBinding ctx i q => service (respond (λ b, answer 200 (PBinding b)) (cs_CancelBinding ctx i q w.1))
  | CallResolve ctx i q => service (respond (λ c, answer 200 (PResolved c)) (cs_Resolve ctx i q w.1))
  | CallStartRotation ctx =>
      service (respond (λ x, mkResponse 201 (Some ("/internal/v1/operations/rotations/" +:+ roID x)) (PRotation x))
                 (cs_StartRotation ctx w.1))
  | CallGetRotation ctx id => service (respond (λ x, answer 200 (PRotation x)) (cs_GetRotation ctx id w.1))
  | CallResumeRotation ctx id n => service (respond (λ x, answer 200 (PRotation x)) (cs_ResumeRotation ctx id n w.1))
  | CallFinalizeRotation ctx id => service (respond (λ x, answer 200 (PRotation x)) (cs_FinalizeRotation ctx id w.1))
  | CallRotateCredential ctx q => service (respond (λ _, answer 204 PNone) (cs_RotateCredential ctx q w.1))
  | CallKeyStatus ctx => service (respond (λ x, answer 200 (PKeyStatus x)) (cs_KeyStatus ctx w.1))
  | CallValidateRecovery ctx n => service (respond (λ x, answer 200 (PRecovery x)) (cs_ValidateRecovery ctx n w.1))
  | CallRegisterBackup ctx b => service (respond (λ x, answer 201 (PBackup x)) (cs_RegisterBackup ctx b w.1))
  | CallExpireBackup ctx id => service (respond (λ x, answer 200 (PBackup x)) (cs_ExpireBackup ctx id w.1))
  | CallSecurityStatus server =>
      if has_auditor server then
        let '(x, a) := ar_Status w.2 in
        (match x with Ok v => answer 200 (PSecurityStatus v) | Err _ => problem 503 "service_unavailable" end, (w.1, a))
      else (problem 503 "service_unavailable", w)
  end.
End Perform.

(** The request line of a call.  Some routes are looser than the API document:
    an input replacement is also reached under [.../retire/inputs], extra
    slashes around the credential of a key rotation are ignored, and where a
    suffix is cut off without its slash being there the suffix itself becomes
    the identifier. *)
Definition below (prefix id suffix path : string) : Prop :=
  path = prefix +:+ id +:+ suffix ∨ (suffix = String "/" id ∧ path = prefix +:+ id).
Definition method_of (c : call) : string :=
  match c with
  | CallGet _ _ _ | CallInspectBinding _ _ _ | CallGetRotation _ _ | CallKeyStatus _ | CallSecurityStatus _ => "GET"
  | CallReplaceInputs _ _ => "PUT"
  | CallUpdateMetadata _ _ => "PATCH"
  | _ => "POST"
  end.
Definition addresses (c : call) (path : string) : Prop :=
  match c with
  | CallCreate _ _ => path = "/internal/v1/credentials"
  | CallGet _ _ id => path = "/internal/v1/credentials/" +:+ id
  | CallReplaceInputs _ q =>
      path = "/internal/v1/credentials/" +:+ riCredentialID q +:+ "/inputs" ∨
      path = "/internal/v1/credentials/" +:+ riCredentialID q +:+ "/retire/inputs"
  | CallUpdateMetadata _ q => path = "/internal/v1/credentials/" +:+ umCredentialID q
  | CallRetire _ q => path = "/internal/v1/credentials/" +:+ rtCredentialID q +:+ "/retire"
  | CallRegisterBinding _ _ _ => path = "/internal/v1/run-bindings"
  | CallInspectBinding _ _ id => path = "/internal/v1/run-bindings/" +:+ id
  | CallCancelBinding _ _ q => below "/internal/v1/run-bindings/" (cbRunID q) "/cancel" path
  | CallResolve _ _ q => below "/internal/v1/runs/" (rsRunID q) "/credential:resolve" path
  | CallStartRotation _ => path = "/internal/v1/operations/rotations"
  | CallGetRotation _ id => path = "/internal/v1/operations/rotations/" +:+ id
  | CallResumeRotation _ id _ => path = "/internal/v1/operations/rotations/" +:+ id +:+ "/resume"
  | CallFinalizeRotation _ id => path = "/internal/v1/operations/rotations/" +:+ id +:+ "/finalize"
  | CallRotateCredential _ q =>
      ∃ t n, path = "/internal/v1/operations/credentials/" +:+ t +:+ "/rotate" ∧
        Trim "/" t = coCredentialID q +:+ "/versions/" +:+ n ∧ ParseUint64 n = Some (coVersion q)
  | CallKeyStatus _ => path = "/internal/v1/operations/key-status"
  | CallValidateRecovery _ _ => path = "/internal/v1/operations/recovery-validations"
  | CallRegisterBackup _ _ => path = "/internal/v1/operations/backups"
  | CallExpireBackup _ id => below "/internal/v1/operations/backups/" id "/expire" path
  | CallSecurityStatus _ => path = "/internal/v1/security-status"
  end.

Lemma trimmed_below path p q :
  HasPrefix path p = true → HasSuffix path (String "/" q) = true → overlaps p (String "/" q) = [1%nat] →
  below p (TrimSuffix (TrimPrefix path p) (String "/" q)) (String "/" q) path.
Proof.
  intros Hp Hq Ho. destruct (trimmed path p (String "/" q) Hp Hq) as [H|(n & Hn & H1 & H2 & H3)]; [by left|right].
  rewrite Ho in Hn. apply list_elem_of_singleton in Hn as ->. rewrite H2. split; [by rewrite H1|done].
Qed.

(** What the server decides before the service is asked. *)
Definition decision : Type := response + call.
Definition decided (identity : Credential.WorkloadIdentity) (r : request) (d : decision) : Prop :=
  match d with
  | inl x => 400 ≤ rpStatus x < 500 ∧ ∃ code, rpPayload x = PProblem code ∧ token code = true
  | inr c => operation_of c = requestOperation (rqMethod r) (rqPath r) ∧ rqMethod r = method_of c ∧ addresses c (rqPath r) ∧
             operation_of c ∈ permitted (Role identity) ∧ (caller_of c = None ∨ caller_of c = Some identity)
  end.
Definition act {St Au : Type} `{CredentialService St, AuditRecorder Au} (d : decision) (w : St * Au) : response * (St * Au) :=
  match d with inl x => (x, w) | inr c => perform c w end.

(** A handler of the service that acts by a decision. *)
Definition service_decides (identity : Credential.WorkloadIdentity) (r : request)
    (handler : ∀ (St : Type) (CS : CredentialService St), St → response * St) : Prop :=
  ∃ d, decided identity r d ∧
    ∀ St Au (CS : CredentialService St) (AR : AuditRecorder Au) (w : St * Au),
      (let '(x, s) := handler St CS w.1 in (x, (s, w.2))) = act d w.

Lemma has_role_true identity role : has_role identity role = true → Role identity = role.
Proof. apply bool_decide_eq_true_1. Qed.

Ltac refuse :=
  eexists (inl _); split; [|intros ? ? ? ? [? ?]; reflexivity]; split; [cbn; lia|eexists; split; [reflexivity|vm_compute; reflexivity]].
Ltac issue c :=
  exists (inr c); split; [|intros ? ? ? ? [? ?]; reflexivity];
  split; [first [assumption|done]|]; split; [first [assumption|done]|]; split; [first [assumption|done|cbn; eauto]|];
  split; [|by auto];
  match goal with H : Role _ = _ |- _ => rewrite H end; refine (bool_decide_unpack _ _); vm_compute; exact I.
Ltac decode e body :=
  match goal with |- context [decodeJSON ?read ?zero ?r] =>
    destruct (decodeJSON read zero r) as [body|e]; [|first [refuse|destruct e; refuse]] end.

(** The operation a request is recorded under, from what its route established
    about the method and the path. *)
Ltac routed :=
  unfold requestOperation; cbv zeta;
  repeat (match goal with
    | H : rqMethod ?r = _ |- context [rqMethod ?r] => rewrite H
    | |- context [String.eqb (String ?a ?s) (String ?b ?t)] =>
        let v := eval vm_compute in (String.eqb (String a s) (String b t)) in
        change (String.eqb (String a s) (String b t)) with v
    | H : HasSuffix ?p ?q = true |- context [HasSuffix ?p ?q] => rewrite H
    | H : HasSuffix ?p ?q = true |- context [HasSuffix ?p ?t] => rewrite (suffix_excludes p q t H eq_refl)
    | H : HasPrefix ?p ?q = true |- context [HasPrefix ?p ?q] => rewrite H
    | H : HasPrefix ?p ?q = true |- context [HasPrefix ?p ?t] => rewrite (prefix_excludes p q t H eq_refl)
    | H : HasPrefix ?p ?q = true |- context [String.eqb ?p ?t] => rewrite (prefix_differs p q t H eq_refl)
    end; cbn [andb]; cbv iota);
  reflexivity.

Section Decisions.
Implicit Types (ctx : Request.t) (identity : Credential.WorkloadIdentity) (r : request).

Lemma is_method_true m r : is_method m r = true → rqMethod r = m.
Proof. apply String.eqb_eq. Qed.

Lemma createCredential_decides ctx identity r :
  rqMethod r = "POST" → rqPath r = "/internal/v1/credentials" →
  service_decides identity r (λ St CS s, createCredential ctx identity r s).
Proof.
  intros Hm Hp. assert (OperationCredentialCreated = requestOperation (rqMethod r) (rqPath r)) as Hop by (by rewrite Hm, Hp).
  unfold service_decides, createCredential. destruct (has_role identity RoleAPI) eqn:Hr; [|refuse]. apply has_role_true in Hr.
  cbn [negb]. decode e body. destruct (validActor _) eqn:Ha; [|refuse]. cbn [negb].
  destruct (idempotency_header r) as [key|]; [|refuse]. issue (CallCreate (actorContext ctx (cbActor body))
    (mkCreate (cbOrganizationID body) (cbName body) (cbCredentialType body) (cbSchemaVersion body) (cbInputs body) key)).
Qed.

Lemma registerBinding_decides ctx identity r :
  rqMethod r = "POST" → rqPath r = "/internal/v1/run-bindings" →
  service_decides identity r (λ St CS s, registerBinding ctx identity r s).
Proof.
  intros Hm Hp. assert (OperationRunBindingRegistered = requestOperation (rqMethod r) (rqPath r)) as Hop by (by rewrite Hm, Hp).
  unfold service_decides, registerBinding. destruct (has_role identity RoleScheduler) eqn:Hr; [|refuse].
  apply has_role_true in Hr. cbn [negb]. decode e body. destruct (idempotency_header r) as [key|]; [|refuse].
  issue (CallRegisterBinding ctx identity (mkRegister (gbRunID body) (gbDispatchID body) (gbOrganizationID body)
    (gbCredentialID body) (gbExecutorIdentity body) (gbNotBefore body).1 (gbNotBefore body).2 (gbExpiresAt body).1
    (gbExpiresAt body).2 (gbMaxResolutions body) key)).
Qed.

Lemma inspectBinding_decides ctx identity r runID :
  rqMethod r = "GET" → rqPath r = "/internal/v1/run-bindings/" +:+ runID →
  OperationRunBindingInspected = requestOperation (rqMethod r) (rqPath r) →
  service_decides identity r (λ St CS s, inspectBinding ctx identity runID s).
Proof.
  intros Hm Hp Hop. unfold service_decides, inspectBinding. destruct (has_role identity RoleScheduler) eqn:Hr; [|refuse].
  apply has_role_true in Hr. issue (CallInspectBinding ctx identity runID).
Qed.

Lemma cancelBinding_decides ctx identity r runID :
  rqMethod r = "POST" → below "/internal/v1/run-bindings/" runID "/cancel" (rqPath r) →
  OperationRunBindingCanceled = requestOperation (rqMethod r) (rqPath r) →
  service_decides identity r (λ St CS s, cancelBinding ctx identity r runID s).
Proof.
  intros Hm Hp Hop. unfold service_decides, cancelBinding. destruct (has_role identity RoleScheduler) eqn:Hr; [|refuse].
  apply has_role_true in Hr. cbn [negb]. decode e body.
  issue (CallCancelBinding ctx identity (mkCancel runID (ccDispatchID body) (ccReason body))).
Qed.

Lemma resolve_decides ctx identity r runID :
  rqMethod r = "POST" → below "/internal/v1/runs/" runID "/credential:resolve" (rqPath r) →
  OperationCredentialResolved = requestOperation (rqMethod r) (rqPath r) →
  service_decides identity r (λ St CS s, resolve ctx identity r runID s).
Proof.
  intros Hm Hp Hop. unfold service_decides, resolve. destruct (has_role identity RoleExecutor) eqn:Hr; [|refuse].
  apply has_role_true in Hr. cbn [negb]. decode e body.
  issue (CallResolve ctx identity (mkResolve runID (rvAttemptID body) (rvRequestedAt body))).
Qed.
End Decisions.

Section Routes.
Implicit Types (ctx : Request.t) (identity : Credential.WorkloadIdentity) (r : request).

Lemma suffix_of_relative path p q :
  HasPrefix path p = true → HasSuffix (TrimPrefix path p) q = true → HasSuffix path q = true.
Proof.
  intros Hp Hq. unfold TrimPrefix in Hq. rewrite Hp in Hq. apply HasPrefix_true in Hp as [t ->]. rewrite drop_str_app in Hq.
  apply HasSuffix_true in Hq as [u ->]. rewrite app_assoc_str. apply HasSuffix_app.
Qed.

Lemma inputs_route relative prefix :
  HasSuffix relative "/inputs" = true →
  let id := TrimSuffix (TrimSuffix relative "/inputs") "/retire" in
  prefix +:+ relative = prefix +:+ id +:+ "/inputs" ∨ prefix +:+ relative = prefix +:+ id +:+ "/retire/inputs".
Proof.
  intros [t ->]%HasSuffix_true. cbv zeta. rewrite TrimSuffix_app. destruct (HasSuffix t "/retire") eqn:Et.
  - right. apply HasSuffix_true in Et as [u ->]. by rewrite TrimSuffix_app, <-app_assoc_str.
  - left. by rewrite TrimSuffix_none.
Qed.

Lemma contains_byte_app c s t : contains_byte c (s +:+ t) = contains_byte c s || contains_byte c t.
Proof. induction s as [|a s IH]; [done|]. simpl. rewrite IH. apply orb_assoc. Qed.

Lemma credentialRoute_decides ctx identity r :
  HasPrefix (rqPath r) "/internal/v1/credentials/" = true →
  service_decides identity r (λ St CS s, credentialRoute ctx identity r s).
Proof.
  intros Hp. unfold service_decides, credentialRoute. cbv zeta. destruct (has_role identity RoleAPI) eqn:Hr; [|refuse].
  apply has_role_true in Hr. cbn [negb]. pose proof (TrimPrefix_eq _ _ Hp) as Hpath.
  pose proof (suffix_of_relative _ _ "/inputs" Hp) as Hi. pose proof (suffix_of_relative _ _ "/retire" Hp) as Ht.
  set (relative := TrimPrefix _ _) in *. set (id := TrimSuffix (TrimSuffix relative "/inputs") "/retire").
  set (organization := TrimSpace _).
  destruct (String.eqb id "" || Contains id "/"); [refuse|]. destruct (_ || (255 <? _)); [refuse|].
  assert (HasSuffix relative "/inputs" = false → HasSuffix relative "/retire" = false → id = relative) as Hplain.
  { intros H1 H2. unfold id. by rewrite (TrimSuffix_none _ "/inputs"), TrimSuffix_none. }
  destruct (is_method "GET" r && _ && _) eqn:Eg.
  { apply andb_prop in Eg as [[Hm%is_method_true Hni%negb_true_iff]%andb_prop Hnr%negb_true_iff].
    rewrite <-(Hplain Hni Hnr) in Hpath.
    assert (OperationCredentialRead = requestOperation (rqMethod r) (rqPath r)) as Hop by routed.
    issue (CallGet ctx organization id). }
  clear Eg. destruct (is_method "PUT" r && HasSuffix relative "/inputs") eqn:Eu.
  { apply andb_prop in Eu as [Hm%is_method_true Hs]. assert (HasSuffix (rqPath r) "/inputs" = true) as Hs' by auto.
    assert (OperationCredentialInputsReplaced = requestOperation (rqMethod r) (rqPath r)) as Hop by (clear Hs; routed).
    assert (rqPath r = "/internal/v1/credentials/" +:+ id +:+ "/inputs" ∨
            rqPath r = "/internal/v1/credentials/" +:+ id +:+ "/retire/inputs") as Hline.
    { rewrite Hpath. exact (inputs_route relative _ Hs). }
    decode e body. destruct (validActor _); [|refuse].
    issue (CallReplaceInputs (actorContext ctx (cbActor body)) (mkReplace id organization (cbExpectedVersion body) (cbInputs body))). }
  clear Eu. destruct (is_method "PATCH" r && _ && _) eqn:Ep.
  { apply andb_prop in Ep as [[Hm%is_method_true Hni%negb_true_iff]%andb_prop Hnr%negb_true_iff].
    rewrite <-(Hplain Hni Hnr) in Hpath.
    assert (OperationCredentialMetadataUpdated = requestOperation (rqMethod r) (rqPath r)) as Hop by routed.
    decode e body. destruct (validActor _); [|refuse].
    issue (CallUpdateMetadata (actorContext ctx (cbActor body)) (mkUpdate id organization (cbExpectedVersion body) (cbName body))). }
  clear Ep. destruct (is_method "POST" r && HasSuffix relative "/retire") eqn:Ert; [|refuse].
  apply andb_prop in Ert as [Hm%is_method_true Hs]. assert (HasSuffix (rqPath r) "/retire" = true) as Hs' by auto.
  assert (rqPath r = "/internal/v1/credentials/" +:+ id +:+ "/retire") as Hline.
  { unfold id. rewrite (TrimSuffix_none relative "/inputs") by exact (suffix_excludes _ _ "/inputs" Hs eq_refl).
    by rewrite <-TrimSuffix_eq. }
  assert (OperationCredentialRetired = requestOperation (rqMethod r) (rqPath r)) as Hop by (clear Hs; routed).
  decode e body. destruct (validActor _); [|refuse].
  issue (CallRetire (actorContext ctx (cbActor body)) (mkRetire id organization (cbExpectedVersion body))).
Qed.

Lemma rotationRoute_decides ctx identity r :
  Role identity = RoleSecretsOperator → HasPrefix (rqPath r) "/internal/v1/operations/rotations/" = true →
  service_decides identity r (λ St CS s, rotationRoute ctx r s).
Proof.
  intros Hr Hp. unfold service_decides, rotationRoute. pose proof (TrimPrefix_eq _ _ Hp) as Hpath.
  set (relative := TrimPrefix _ _) in *.
  destruct (split_on "/" relative) as [|id rest] eqn:Es; [refuse|]. destruct (String.eqb id ""); [refuse|].
  apply split_parts in Es. rewrite Es in Hpath. clearbody relative. subst relative.
  destruct (is_method "GET" r && _) eqn:Eg.
  { apply andb_prop in Eg as [Hm%is_method_true ->%bool_decide_eq_true].
    assert (OperationMasterKeyRotationInspected = requestOperation (rqMethod r) (rqPath r)) as Hop by routed.
    issue (CallGetRotation ctx id). }
  clear Eg. destruct (is_method "POST" r && bool_decide (rest = ["resume"])) eqn:Er.
  { apply andb_prop in Er as [Hm%is_method_true ->%bool_decide_eq_true].
    assert (HasSuffix (rqPath r) "/resume" = true) as Hs by (rewrite Hpath; cbn [join]; rewrite app_assoc_str; apply HasSuffix_app).
    assert (OperationMasterKeyRotationResumed = requestOperation (rqMethod r) (rqPath r)) as Hop by routed.
    decode e n. destruct ((n <? 1) || (1000 <? n)); [refuse|]. issue (CallResumeRotation ctx id n). }
  clear Er. destruct (is_method "POST" r && bool_decide (rest = ["finalize"])) eqn:Ef; [|refuse].
  apply andb_prop in Ef as [Hm%is_method_true ->%bool_decide_eq_true].
  assert (HasSuffix (rqPath r) "/finalize" = true) as Hs by (rewrite Hpath; cbn [join]; rewrite app_assoc_str; apply HasSuffix_app).
  assert (OperationMasterKeyRotationFinalized = requestOperation (rqMethod r) (rqPath r)) as Hop by routed.
  issue (CallFinalizeRotation ctx id).
Qed.

Lemma rotateCredential_decides ctx identity r :
  Role identity = RoleSecretsOperator → rqMethod r = "POST" →
  HasPrefix (rqPath r) "/internal/v1/operations/credentials/" = true → HasSuffix (rqPath r) "/rotate" = true →
  service_decides identity r (λ St CS s, rotateCredential ctx r s).
Proof.
  intros Hr Hm Hp Hs. assert (OperationCredentialKeyRotated = requestOperation (rqMethod r) (rqPath r)) as Hop by routed.
  unfold service_decides, rotateCredential. cbv zeta.
  destruct (split_on "/" _) as [|id [|versions [|number [|]]]] eqn:Es; try refuse. apply split_parts in Es.
  destruct (String.eqb versions "versions") eqn:Ev; [|refuse]. apply String.eqb_eq in Ev as ->. cbn [negb].
  destruct (ParseUint64 number) as [version|] eqn:En; [|refuse].
  destruct (version =? 0); [refuse|].
  assert (∃ t, rqPath r = "/internal/v1/operations/credentials/" +:+ t +:+ "/rotate" ∧
    Trim "/" t = id +:+ "/versions/" +:+ number) as (t & Hline & Ht).
  { destruct (trimmed _ _ _ Hp Hs) as [H|(n & Hn & H1 & H2 & _)]; [by eexists|exfalso].
    rewrite H2, H1 in Es. change (overlaps _ _) with [1%nat] in Hn. apply list_elem_of_singleton in Hn as ->.
    apply (f_equal (contains_byte "/")) in Es. cbn [join] in Es. rewrite contains_byte_app in Es.
    change (contains_byte "/" (String "/" ("versions" +:+ String "/" number))) with true in Es. rewrite orb_true_r in Es. vm_compute in Es. discriminate. }
  decode e organization.
  exists (inr (CallRotateCredential ctx (mkCredRotation organization id version))).
  split; [|intros ? ? ? ? [? ?]; reflexivity]. split; [done|]. split; [done|]. split; [by exists t, number|].
  split; [|by left]. cbn [operation_of]. rewrite Hr. refine (bool_decide_unpack _ _). vm_compute. exact I.
Qed.

Lemma operationRoute_decides ctx identity r :
  service_decides identity r (λ St CS s, operationRoute ctx identity r s).
Proof.
  unfold service_decides, operationRoute. cbv zeta. destruct (has_role identity RoleSecretsOperator) eqn:Hr; [|refuse].
  apply has_role_true in Hr. cbn [negb].
  destruct (is_method "POST" r && String.eqb _ "/internal/v1/operations/recovery-validations") eqn:E.
  { apply andb_prop in E as [Hm%is_method_true Hp%String.eqb_eq].
    assert (OperationRecoveryValidationFinished = requestOperation (rqMethod r) (rqPath r)) as Hop by (by rewrite Hm, Hp).
    decode e n. destruct ((n <? 1) || (1000 <? n)); [refuse|]. issue (CallValidateRecovery ctx n). }
  clear E. destruct (is_method "POST" r && String.eqb _ "/internal/v1/operations/backups") eqn:E.
  { apply andb_prop in E as [Hm%is_method_true Hp%String.eqb_eq].
    assert (OperationBackupRegistered = requestOperation (rqMethod r) (rqPath r)) as Hop by (by rewrite Hm, Hp).
    decode e b. issue (CallRegisterBackup ctx b). }
  clear E. destruct (is_method "POST" r && HasPrefix _ _ && HasSuffix _ "/expire") eqn:E.
  { apply andb_prop in E as [[Hm%is_method_true Hp]%andb_prop Hs].
    assert (OperationBackupExpired = requestOperation (rqMethod r) (rqPath r)) as Hop by routed.
    pose proof (trimmed_below _ _ "expire" Hp Hs eq_refl) as Hline. set (id := TrimSuffix _ _) in *.
    destruct (String.eqb id "" || Contains id "/"); [refuse|]. issue (CallExpireBackup ctx id). }
  clear E. destruct (is_method "GET" r && String.eqb _ "/internal/v1/operations/key-status") eqn:E.
  { apply andb_prop in E as [Hm%is_method_true Hp%String.eqb_eq].
    assert (OperationKeyStatusRead = requestOperation (rqMethod r) (rqPath r)) as Hop by (by rewrite Hm, Hp).
    issue (CallKeyStatus ctx). }
  clear E. destruct (is_method "POST" r && String.eqb _ "/internal/v1/operations/rotations") eqn:E.
  { apply andb_prop in E as [Hm%is_method_true Hp%String.eqb_eq].
    assert (OperationMasterKeyRotationStarted = requestOperation (rqMethod r) (rqPath r)) as Hop by (by rewrite Hm, Hp).
    issue (CallStartRotation ctx). }
  clear E. destruct (HasPrefix _ "/internal/v1/operations/rotations/") eqn:Hp.
  { exact (rotationRoute_decides ctx identity r Hr Hp). }
  clear Hp. destruct (is_method "POST" r && _ && HasSuffix _ "/rotate") eqn:E; [|refuse].
  apply andb_prop in E as [[Hm%is_method_true Hp]%andb_prop Hs]. exact (rotateCredential_decides ctx identity r Hr Hm Hp Hs).
Qed.

(** *** All routes *)

Lemma dispatch_decides server ctx identity r :
  ∃ d, decided identity r d ∧
    ∀ St Au (CS : CredentialService St) (AR : AuditRecorder Au) (w : St * Au), dispatch server ctx identity r w = act d w.
Proof.
  unfold dispatch. cbv zeta.
  destruct (is_method "GET" r && String.eqb (rqPath r) "/internal/v1/security-status") eqn:E.
  { apply andb_prop in E as [Hm%is_method_true Hp%String.eqb_eq]. unfold securityStatus.
    assert (OperationSecurityStatusRead = requestOperation (rqMethod r) (rqPath r)) as Hop by (by rewrite Hm, Hp).
    destruct (has_role identity RoleSecretsOperator) eqn:Ho; [|destruct (has_role identity RoleSecretsAuditor) eqn:Ha; [|refuse]];
      cbn [negb andb].
    1: apply has_role_true in Ho as Hr. 2: apply has_role_true in Ha as Hr.
    all: exists (inr (CallSecurityStatus server)); split;
      [split; [done|]; split; [done|]; split; [done|]; split;
        [rewrite Hr; refine (bool_decide_unpack _ _); vm_compute; exact I|by left]|].
    all: intros ? ? ? ? [s a]; cbn [act perform fst snd]; destruct (has_auditor server); [|done]; cbn [negb];
      by destruct (ar_Status a). }
  clear E. destruct (HasPrefix (rqPath r) "/internal/v1/operations/"); [exact (operationRoute_decides ctx identity r)|].
  destruct (is_method "POST" r && String.eqb (rqPath r) "/internal/v1/credentials") eqn:E.
  { apply andb_prop in E as [Hm%is_method_true Hp%String.eqb_eq]. exact (createCredential_decides ctx identity r Hm Hp). }
  clear E. destruct (HasPrefix (rqPath r) "/internal/v1/credentials/") eqn:E; [exact (credentialRoute_decides ctx identity r E)|].
  clear E. destruct (is_method "POST" r && String.eqb (rqPath r) "/internal/v1/run-bindings") eqn:E.
  { apply andb_prop in E as [Hm%is_method_true Hp%String.eqb_eq]. exact (registerBinding_decides ctx identity r Hm Hp). }
  clear E. destruct (is_method "GET" r && _) eqn:E.
  { apply andb_prop in E as [Hm%is_method_true Hp]. pose proof (TrimPrefix_eq _ _ Hp) as Hline. set (id := TrimPrefix _ _) in *.
    assert (OperationRunBindingInspected = requestOperation (rqMethod r) (rqPath r)) as Hop by (clear Hline; routed).
    destruct (Contains id "/" || String.eqb id ""); [refuse|]. exact (inspectBinding_decides ctx identity r id Hm Hline Hop). }
  clear E. destruct (is_method "POST" r && HasPrefix _ "/internal/v1/run-bindings/" && _) eqn:E.
  { apply andb_prop in E as [[Hm%is_method_true Hp]%andb_prop Hs].
    assert (OperationRunBindingCanceled = requestOperation (rqMethod r) (rqPath r)) as Hop by routed.
    pose proof (trimmed_below _ _ "cancel" Hp Hs eq_refl) as Hline. set (id := TrimSuffix _ _) in *.
    destruct (Contains id "/" || String.eqb id ""); [refuse|]. exact (cancelBinding_decides ctx identity r id Hm Hline Hop). }
  clear E. destruct (is_method "POST" r && HasPrefix _ "/internal/v1/runs/" && _) eqn:E; [|refuse].
  apply andb_prop in E as [[Hm%is_method_true Hp]%andb_prop Hs].
  assert (OperationCredentialResolved = requestOperation (rqMethod r) (rqPath r)) as Hop by routed.
  pose proof (trimmed_below _ _ "credential:resolve" Hp Hs eq_refl) as Hline. set (id := TrimSuffix _ _) in *.
  destruct (Contains id "/" || String.eqb id ""); [refuse|]. exact (resolve_decides ctx identity r id Hm Hline Hop).
Qed.
End Routes.

(** ** What the server guarantees *)

(** C12: nobody gets past the HTTP boundary but by its role: for every request
    and configuration, either the request is answered with a problem of the 4xx
    range that does not depend on the service, whose state stays as it is, or a
    client certificate verified over TLS 1.3 names a known workload and the
    request is exactly one call of the service, at the method and the path of
    its route, of an operation that the workload's role is permitted, for that workload where the call asks for an
    identity, and audited under that operation's name; the answer and the new
    state are those of the call.  The service and the recorder may be any that
    fit their interfaces. *)
Theorem http_authorized server random started finished r :
  let operation := requestOperation (rqMethod r) (rqPath r) in
  (∃ x, 400 ≤ rpStatus x < 500 ∧ (∃ code, rpPayload x = PProblem code ∧ token code = true) ∧
     ∀ St Au (CS : CredentialService St) (AR : AuditRecorder Au) (w : St * Au),
       let '(y, w') := ServeHTTP server random started finished r w in y = x ∧ w'.1 = w.1) ∨
  (∃ identity c, requestIdentity (mapper server) (rqTLS r) = Some identity ∧ operation_of c = operation ∧
     rqMethod r = method_of c ∧ addresses c (rqPath r) ∧
     operation ∈ permitted (Role identity) ∧ (caller_of c = None ∨ caller_of c = Some identity) ∧
     ∀ St Au (CS : CredentialService St) (AR : AuditRecorder Au) (w : St * Au),
       let '(y, w') := ServeHTTP server random started finished r w in
       y = (perform c w).1 ∧ w'.1 = (perform c w).2.1).
Proof.
  intros operation. assert (∀ St Au (AR : AuditRecorder Au) (CS : CredentialService St) (x : response) (w : St * Au) (e : option Event),
    (if has_auditor server then match e with Some e => (x, (w.1, (ar_Record e w.2).2)) | None => (x, w) end else (x, w)).1 = x ∧
    (if has_auditor server then match e with Some e => (x, (w.1, (ar_Record e w.2).2)) | None => (x, w) end else (x, w)).2.1 = w.1)
    as Hrecord by (intros; destruct (has_auditor server); [|done]; by destruct e).
  unfold ServeHTTP. set (ctx := request_context _ _ _ _).
  destruct (requestIdentity (mapper server) (rqTLS r)) as [identity|].
  - destruct (dispatch_decides server ctx identity r) as ([x|c] & Hd & Ha); cbn [act decided] in *.
    + left. exists x. split; [apply Hd|]. split; [apply Hd|]. intros St Au CS AR w. rewrite Ha.
      destruct (Hrecord St Au AR CS x w (completion ctx (rqPath r) x finished)) as [H1 H2].
      by destruct (if has_auditor server then _ else _).
    + right. exists identity, c. destruct Hd as (Hop & Hm & Hline & Hperm & Hcaller). rewrite Hop in Hperm.
      split; [done|]. split; [done|]. split; [done|]. split; [done|]. split; [done|]. split; [done|].
      intros St Au CS AR w. rewrite Ha. destruct (perform c w) as [x w1].
      destruct (Hrecord St Au AR CS x w1 (completion ctx (rqPath r) x finished)) as [H1 H2].
      by destruct (if has_auditor server then _ else _).
  - left. eexists. split; [|split; [|intros St Au CS AR w; set (x := problem 401 "workload_authentication_failed")]].
    3: { destruct (Hrecord St Au AR CS x w (completion ctx (rqPath r) x finished)) as [H1 H2].
         destruct (if has_auditor server then _ else _); cbn [fst snd] in *. split; [exact H1|exact H2]. }
    + cbn. lia.
    + eexists. split; [reflexivity|vm_compute; reflexivity].
Qed.

(** ** Completion events *)

(** A recorder that keeps what it is given. *)
Definition log_auditor (status : result AuditError SecurityStatus) : AuditRecorder (list Event) :=
  {| ar_Record e log := (Ok (), log ++ [e]); ar_Status log := (status, log) |}.

Definition control_free (s : string) : bool := negb (ContainsAny s control_chars).

Lemma control_free_bytes s : control_free s = forall_bytes (λ a, negb (contains_byte a control_chars)) s.
Proof. unfold control_free, ContainsAny. apply negb_involutive. Qed.
Lemma forall_bytes_drop p n s : forall_bytes p s = true → forall_bytes p (drop_str n s) = true.
Proof. revert s. induction n as [|n IH]; intros [|a s] Hs; try done. simpl in *. apply andb_prop in Hs as [_ Hs]. by apply IH. Qed.
Lemma forall_bytes_take p n s : forall_bytes p s = true → forall_bytes p (take_str n s) = true.
Proof.
  revert s. induction n as [|n IH]; intros [|a s] Hs; try done. simpl in *. apply andb_prop in Hs as [-> Hs]. by apply IH.
Qed.
Lemma control_free_trim p s : control_free s = true →
  control_free (TrimPrefix s p) = true ∧ control_free (TrimSuffix s p) = true.
Proof.
  rewrite !control_free_bytes. intros Hs. unfold TrimPrefix, TrimSuffix.
  split; case_match; try done; [by apply forall_bytes_drop|by apply forall_bytes_take].
Qed.
Lemma clean_short s : control_free s = true → len s ≤ 255 → clean s = true.
Proof. unfold control_free, clean. intros Hs Hl. rewrite (proj2 (Z.ltb_ge _ _)) by done. exact Hs. Qed.

Lemma request_ids_clean path :
  control_free path = true → clean (requestRunID path) = true ∧ clean (requestRotationID path) = true.
Proof.
  intros Hp. assert (∀ v, control_free v = true → clean (if Contains v "/" || negb (len v =? 36) then "" else v) = true) as Hv.
  { intros v Hv. destruct (Contains v "/"); [done|]. destruct (len v =? 36) eqn:Hl; [|done]. apply Z.eqb_eq in Hl.
    cbn [orb negb]. apply clean_short; [done|lia]. }
  split.
  - unfold requestRunID. cbv zeta. apply Hv. repeat case_match; [| |done]; by do 2 apply control_free_trim.
  - unfold requestRotationID. case_match; [done|]. cbv zeta. apply Hv. by do 3 apply control_free_trim.
Qed.

Lemma subject_clean mapper tls :
  clean (match requestIdentity mapper tls with Some i => Subject i | None => "" end) = true.
Proof.
  unfold requestIdentity. destruct (verified_leaf tls) as [c|]; [|done]. cbn [mbind option_bind].
  destruct (Identity mapper c) as [i|] eqn:Hi; [|done]. apply Identity_subject in Hi as [(_ & instance & Hv & ->)|[_ ->]];
    [|by destruct (Role i)].
  unfold validInstance in Hv. destruct (String.eqb instance "" || (128 <? len instance)) eqn:Hl; [done|].
  apply orb_false_iff in Hl as [_ Hl]. apply Z.ltb_ge in Hl.
  destruct (negb (forallb instance_rune (runes instance))) eqn:Hr; [done|]. apply negb_false_iff in Hr.
  apply instance_rune_ascii in Hr. apply clean_short.
  - rewrite control_free_bytes, !forall_bytes_app. change (forall_bytes _ (role_string RoleExecutor)) with true.
    change (forall_bytes _ ":") with true. cbn [andb]. eapply forall_bytes_impl; [|exact Hr].
    intros a. destruct a as [[] [] [] [] [] [] [] []]; vm_compute; done.
  - rewrite !len_app. change (len (role_string RoleExecutor)) with 16. change (len ":") with 1. lia.
Qed.

Lemma request_id_clean random :
  (∀ v, random = Some v → String.length v = 16%nat) → clean (newRequestID random) = true.
Proof.
  intros Hr. destruct random as [v|]; [|done]. specialize (Hr v eq_refl). apply clean_short.
  - rewrite control_free_bytes. eapply forall_bytes_impl; [|apply EncodeToString_lower].
    intros a. destruct a as [[] [] [] [] [] [] [] []]; vm_compute; done.
  - unfold newRequestID. rewrite len_EncodeToString. unfold len. lia.
Qed.

Lemma known_operation_of m p : KnownOperation (requestOperation m p) = true.
Proof. unfold requestOperation. cbv zeta. repeat (case_match; [vm_compute; reflexivity|]). vm_compute. reflexivity. Qed.

Definition token_problem (x : response) : Prop := ∀ code, rpPayload x = PProblem code → token code = true.

Lemma respond_token {St A} (success : A → response) (y : result CredError A * St) :
  (∀ a, token_problem (success a)) → token_problem (respond success y).1.
Proof.
  intros Hs. destruct y as [[a|e] s]; [apply Hs|]. intros code [= <-]. by destruct e; vm_compute.
Qed.

Lemma perform_token {St Au} {CS : CredentialService St} {AR : AuditRecorder Au} c (w : St * Au) : token_problem (perform c w).1.
Proof.
  destruct c; cbn [perform fst]; try (apply respond_token; intros a code; done).
  destruct (has_auditor server); [destruct (ar_Status w.2) as [[v|] a]; [done|]|]; intros code [= <-]; vm_compute; reflexivity.
Qed.

(** C13: every request is accounted for: whatever it asks, whoever asks it and
    however it ends, the server either records nothing, which it does exactly
    for a successful operation of those the service audits in its own
    transaction, or it hands the recorder exactly one completion event, after
    the answer is settled, that the spool's validation accepts: with the
    operation of the request, the result that corresponds to the status, the
    problem code as the reason, the authenticated workload and the request
    identifier. *)
Theorem http_audited server random started finished r St (CS : CredentialService St) (s : St) status log :
  has_auditor server = true → finished ≠ zero_time → control_free (rqPath r) = true →
  (∀ v, random = Some v → String.length v = 16%nat) →
  let operation := requestOperation (rqMethod r) (rqPath r) in
  let '(x, (_, log')) := @ServeHTTP St (list Event) CS (log_auditor status) server random started finished r (s, log) in
  (200 ≤ rpStatus x < 300 ∧ transactionallyAudited operation = true ∧ log' = log) ∨
  (¬ (200 ≤ rpStatus x < 300 ∧ transactionallyAudited operation = true) ∧ ∃ e, log' = log ++ [e] ∧
     AuditEvent.validate e = true ∧ Operation e = operation ∧ RequestID e = newRequestID random ∧
     WorkloadIdentity e = match requestIdentity (mapper server) (rqTLS r) with Some i => Subject i | None => "" end ∧
     Result e = (StableResult (rpStatus x)).1 ∧
     ReasonCode e = match rpPayload x with PProblem code => code | _ => (StableResult (rpStatus x)).2 end).
Proof.
  intros Haud Hfin Hpath Hrandom operation. unfold ServeHTTP. set (ctx := request_context _ _ _ _).
  assert (∃ x s', match requestIdentity (mapper server) (rqTLS r) with
                  | Some identity => @dispatch St (list Event) CS (log_auditor status) server ctx identity r (s, log)
                  | None => (problem 401 "workload_authentication_failed", (s, log))
                  end = (x, (s', log)) ∧ token_problem x) as (x & s' & -> & Htok).
  { destruct (requestIdentity (mapper server) (rqTLS r)) as [identity|].
    - destruct (dispatch_decides server ctx identity r) as ([x|c] & Hd & Ha); rewrite Ha; cbn [act decided] in *.
      + exists x, s. split; [done|]. destruct Hd as [_ (code & Hc & Ht)]. intros code' Hc'. congruence.
      + pose proof (@perform_token _ _ CS (log_auditor status) c (s, log)) as Ht.
        exists (@perform _ _ CS (log_auditor status) c (s, log)).1, (@perform _ _ CS (log_auditor status) c (s, log)).2.1.
        split; [|done]. destruct c; cbn [perform fst snd]; try done. by destruct (has_auditor server0).
    - exists (problem 401 "workload_authentication_failed"), s. split; [done|]. intros code [= <-]. vm_compute. reflexivity. }
  rewrite Haud. unfold completion. change (Request.Operation ctx) with operation.
  destruct ((200 <=? rpStatus x) && (rpStatus x <? 300) && transactionallyAudited operation) eqn:Htx.
  - left. bool_prop. tauto.
  - pose proof (StableResult_known (rpStatus x)) as [Hkr Hkt]. destruct (StableResult (rpStatus x)) as [result reason] eqn:Hst.
    cbn [fst snd] in *. right. split. { intros [Hs Ht]. rewrite Ht, andb_true_r in Htx. apply andb_false_iff in Htx as [Hx|Hx]; [apply Z.leb_gt in Hx|apply Z.ltb_ge in Hx]; lia. }
    eexists. split; [reflexivity|].
    set (code := match rpPayload x with PProblem code => if String.eqb code "" then reason else code | _ => reason end).
    assert (code = match rpPayload x with PProblem code => code | _ => reason end ∧ token code = true) as [Hcode Htoken].
    { unfold code. destruct (rpPayload x) as [c| | | | | | | | |] eqn:Hp; try done. pose proof (Htok c Hp) as Hc.
      destruct (String.eqb c "") eqn:Hempty; [|done]. apply String.eqb_eq in Hempty as ->. done. }
    destruct (request_ids_clean _ Hpath) as [Hrun Hrot]. rewrite Hst. split; [|split_and!; [reflexivity..|exact Hcode]].
    apply validate_iff. unfold with_ids, Completion. cbn [default from_option id SchemaVersion Timestamp EventType Operation Result
      ReasonCode LatencyClass identifiers forallb WorkloadIdentity HumanActor OrganizationID CredentialID RunID RotationID
      ExecutorIdentity KeyVersion RequestID].
    split_and!; try done; [apply known_operation_of|right; repeat case_match; vm_compute; reflexivity|].
    unfold identifiers. cbn [forallb WorkloadIdentity HumanActor OrganizationID CredentialID RunID RotationID
      ExecutorIdentity KeyVersion RequestID].
    unfold ctx, request_context. cbn [Request.WorkloadIdentity Request.HumanActor Request.ID].
    rewrite Hrun, Hrot, subject_clean, request_id_clean by done. reflexivity.
Qed.
