(* ===== verification/Service.v ===== *)
(** * The service behind the boundary

    The credential manager over a storage backend as the [CredentialService]
    the HTTP server asks for, and what whole histories of requests guarantee. *)

From Stdlib Require Import Ascii.
From S2P Require Import Prelude GoStrings Json GoTime TimeParse JsonValue Crypto Envelope MasterKey Credential Builtin Backend MemoryBackend Manager Vault Bindings AuditEvent Spool Identity Delivery Server Routing.

(** What one request reads of its surroundings: identifier and envelope
    entropy, the entropy of each item a batch rewrites, the manager's clock and
    the backend's. *)
Record moment : Type := mkMoment {
  moIDs : reader; moEntropy : reader; moItems : rotationRecord → reader; moNow : time; moWall : time
}.

Section Service.
Context `{CR : Crypto} `{MO : MapOrder} `{UT : UnicodeTables} `{SR : SchemaRegistry} {St : Type} (BE : Request.t → Backend St).

(** [credential.Manager] as [transport.CredentialService]: each call hands the
    audit context of its request to the backend. *)
Definition manager_service (m : Manager) (o : moment) : CredentialService St := {|
  cs_Create ctx q := CreateContext (BE:=BE ctx) m q (moIDs o) (moEntropy o) (moNow o);
  cs_Get ctx organization id s := (GetContext (BE:=BE ctx) organization id s, s);
  cs_ReplaceInputs ctx q := ReplaceInputsContext (BE:=BE ctx) m q (moEntropy o) (moNow o);
  cs_UpdateMetadata ctx q := UpdateMetadataContext (BE:=BE ctx) m q (moEntropy o) (moNow o);
  cs_Retire ctx q := RetireContext (BE:=BE ctx) m q (moEntropy o) (moNow o);
  cs_RegisterBinding ctx caller q := Manager.RegisterBinding (BE:=BE ctx) m caller q (moNow o);
  cs_InspectBinding ctx caller id s := (InspectBinding (BE:=BE ctx) caller id s, s);
  cs_CancelBinding ctx caller q := Manager.CancelBinding (BE:=BE ctx) caller q (moNow o);
  cs_Resolve ctx caller q := Resolve (BE:=BE ctx) m caller q (moNow o);
  cs_StartRotation ctx := StartMasterKeyRotation (BE:=BE ctx) m (moIDs o) (moNow o);
  cs_GetRotation ctx id s := (GetMasterKeyRotation (BE:=BE ctx) id s, s);
  cs_ResumeRotation ctx id n := ResumeMasterKeyRotation (BE:=BE ctx) m id n (moItems o) (moWall o);
  cs_FinalizeRotation ctx id := FinalizeMasterKeyRotation (BE:=BE ctx) id (moNow o);
  cs_RotateCredential ctx q := RotateCredentialKey (BE:=BE ctx) m q (moItems o) (moNow o);
  cs_KeyStatus ctx s := (manager_key_status (BE:=BE ctx) m s, s);
  cs_ValidateRecovery ctx n := ValidateRecovery (BE:=BE ctx) m n (moWall o);
  cs_RegisterBackup ctx b := Manager.RegisterBackup (BE:=BE ctx) b (moNow o);
  cs_ExpireBackup ctx id := Manager.ExpireBackup (BE:=BE ctx) id (moNow o)
|}.
End Service.

Lemma resolve_answers `{CR : Crypto, MO : MapOrder, UT : UnicodeTables, SR : SchemaRegistry} m i q now (b b' : memoryBackend) rc :
  Resolve m i q now b = (Ok rc, b') → rsRunID q = rcRunID rc ∧ rsAttemptID q = rcAttemptID rc ∧ validUUID (rsRunID q) = true.
Proof.
  unfold Resolve. destruct (_ || _); [done|]. destruct (injector m); [|done].
  destruct (validUUID (rsRunID q)); [|done]. destruct (_ || _); [done|]. destruct (be_ClaimResolution _ _ _ _) as [[[[d e] g]|] s]; [|done].
  intros [= <- _]. done.
Qed.

(** ** Histories of requests over the development backend *)

Definition memory_service `{CR : Crypto, MO : MapOrder, UT : UnicodeTables, SR : SchemaRegistry} :
  Manager → moment → CredentialService memoryBackend := manager_service (λ _, memory_backend).

Section Histories.
Context `{CR : Crypto} `{UT : UnicodeTables} `{SR : SchemaRegistry} {Au : Type} `{AR : AuditRecorder Au}.

(** One request; the manager may be another one than last time, since a new
    master key means a restart with new keys. *)
Inductive served (server : Server) (w : memoryBackend * Au) : memoryBackend * Au → Prop :=
| served_request (MO : MapOrder) m o random started finished r :
    MaxResolutions (policy m) < 2 ^ 32 →
    (∀ id rest, newUUID (moIDs o) = Some (id, rest) → credentials w.1 !! id = None) →
    served server w (ServeHTTP (H:=memory_service m o) server random started finished r w).2.

Lemma ServeHTTP_cases {St} (CS : CredentialService St) server random started finished r (w : St * Au) :
  let '(x, w') := ServeHTTP (H:=CS) server random started finished r w in
  (w'.1 = w.1 ∧ ∃ code, rpPayload x = PProblem code) ∨
  (∃ identity c, requestIdentity (mapper server) (rqTLS r) = Some identity ∧ addresses c (rqPath r) ∧
     operation_of c ∈ permitted (Role identity) ∧ (caller_of c = None ∨ caller_of c = Some identity) ∧
     x = (perform (H:=CS) c w).1 ∧ w'.1 = (perform (H:=CS) c w).2.1).
Proof.
  unfold ServeHTTP. set (ctx := request_context _ _ _ _).
  assert (∀ (x : response) (w1 : St * Au),
    let '(y, w2) := if has_auditor server then match completion ctx (rqPath r) x finished with
                      | Some e => (x, (w1.1, (ar_Record e w1.2).2)) | None => (x, w1) end else (x, w1) in
    y = x ∧ w2.1 = w1.1) as Hrecord by (intros; destruct (has_auditor server); [|done]; by destruct (completion _ _ _ _)).
  destruct (requestIdentity (mapper server) (rqTLS r)) as [identity|].
  - destruct (dispatch_decides server ctx identity r) as ([x|c] & Hd & Ha); rewrite Ha; cbn [act decided] in *.
    + specialize (Hrecord x w). destruct (if has_auditor server then _ else _) as [y w2]. destruct Hrecord as [-> ->].
      left. destruct Hd as (_ & code & Hc & _). eauto.
    + destruct (perform c w) as [x w1] eqn:E. specialize (Hrecord x w1).
      destruct (if has_auditor server then _ else _) as [y w2]. destruct Hrecord as [-> ->].
      right. exists identity, c. rewrite E. by destruct Hd as (_ & _ & Hl & Hp & Hi).
  - specialize (Hrecord (problem 401 "workload_authentication_failed") w).
    destruct (if has_auditor server then _ else _) as [y w2]. destruct Hrecord as [-> ->]. left. split; [done|]. by eexists.
Qed.

(** A call of the service is one operation of the manager, or none. *)
Lemma perform_steps {MO : MapOrder} m o c (w : memoryBackend * Au) :
  MaxResolutions (policy m) < 2 ^ 32 →
  (∀ id rest, newUUID (moIDs o) = Some (id, rest) → credentials w.1 !! id = None) →
  steps w.1 (perform (H:=memory_service m o) c w).2.1.
Proof.
  intros Hp Hid. destruct c; cbn [perform fst snd respond]; try apply rtc_refl; try (apply rtc_once; by constructor).
  - apply rtc_once. exact (step_credential MO m (CmdCreate q (moIDs o)) (moEntropy o) (moNow o) w.1 Hid).
  - apply rtc_once. exact (step_credential MO m (CmdReplace q) (moEntropy o) (moNow o) w.1 I).
  - apply rtc_once. exact (step_credential MO m (CmdUpdate q) (moEntropy o) (moNow o) w.1 I).
  - apply rtc_once. exact (step_credential MO m (CmdRetire q) (moEntropy o) (moNow o) w.1 I).
  - unfold memory_service, manager_service, ValidateRecovery, on_store. cbn [cs_ValidateRecovery].
    destruct (guard_err _ _); apply rtc_refl.
  - destruct (has_auditor server); [destruct (ar_Status w.2)|]; apply rtc_refl.
Qed.

Lemma served_steps server (w w' : memoryBackend * Au) : served server w w' → steps w.1 w'.1.
Proof.
  intros [MO m o random started finished r Hp Hid].
  pose proof (ServeHTTP_cases (memory_service m o) server random started finished r w) as Hc.
  destruct (ServeHTTP _ _ _ _ _ _) as [x w1]. cbn [snd].
  destruct Hc as [[-> _]|(i & c & _ & _ & _ & _ & _ & ->)]; [apply rtc_refl|]. by apply perform_steps.
Qed.

Lemma history_reachable server (w0 w : memoryBackend * Au) :
  w0.1 = newMemoryBackend → rtc (served server) w0 w → reachable w.1.
Proof.
  intros H0 Hh. unfold reachable. rewrite <-H0. clear H0. induction Hh as [|x y z Hs _ IH]; [apply rtc_refl|].
  etrans; [by apply (served_steps server)|done].
Qed.

Lemma respond_resolved {St A} (success : A → response) (y : result CredError A * St) rc :
  rpPayload (respond success y).1 = PResolved rc → ∃ a, y.1 = Ok a ∧ rpPayload (success a) = PResolved rc.
Proof. destruct y as [[a|e] s]; [by exists a|done]. Qed.

Lemma perform_resolved {St} {CS : CredentialService St} c (w : St * Au) rc :
  rpPayload (perform c w).1 = PResolved rc →
  ∃ ctx i q, c = CallResolve ctx i q ∧ (cs_Resolve ctx i q w.1).1 = Ok rc.
Proof.
  destruct c; cbn [perform fst];
    try (intros (a & Ha & Hb)%respond_resolved; first [discriminate Hb|injection Hb as ->; by eexists _, _, _]).
  destruct (has_auditor server); [destruct (ar_Status w.2) as [[v|] a]|]; done.
Qed.
End Histories.

Lemma requestIdentity_certificate m tls i :
  requestIdentity m tls = Some i →
  ∃ u, verified_leaf tls = Some [u] ∧ uScheme u = "spiffe" ∧ uHost u = TrustDomain m.
Proof.
  unfold requestIdentity. destruct (verified_leaf tls) as [c|]; [|done]. cbn [mbind option_bind]. unfold Identity.
  destruct c as [|u [|]]; [done| |done]. destruct (String.eqb (TrustDomain m) ""); [done|].
  destruct (negb (String.eqb (uScheme u) "spiffe") || _ || _ || _) eqn:E; [done|]. intros _. exists u. bool_prop. tauto.
Qed.

Section ServiceTheorems.
Context `{CR : Crypto} `{UT : UnicodeTables} `{SR : SchemaRegistry} {Au : Type} `{AR : AuditRecorder Au}.

(** C2: secrets leave the service only for the bound executor, whatever has
    happened before: after any history of HTTP requests, of any callers and at
    any times, an answer that carries resolved credential material was given to
    a client whose certificate was verified over TLS 1.3 and names, under the
    configured trust domain, the very executor that the binding of the run in
    the path is registered for; that binding is neither canceled nor expired
    and within its time window, and the attempt is recorded under the executor,
    the digest of the request and an expiry no later than the binding's; either
    it was recorded before and nothing is written, or it is new and takes one
    of the remaining resolutions. *)
Theorem http_resolve server (w0 w : memoryBackend * Au) (MO : MapOrder) m o random started finished r x w' rc :
  w0.1 = newMemoryBackend → rtc (served server) w0 w →
  ServeHTTP (H:=memory_service m o) server random started finished r w = (x, w') → rpPayload x = PResolved rc →
  ∃ u i q s s', verified_leaf (rqTLS r) = Some [u] ∧ uScheme u = "spiffe" ∧ uHost u = TrustDomain (mapper server) ∧
    requestIdentity (mapper server) (rqTLS r) = Some i ∧ Role i = RoleExecutor ∧
    rqPath r = "/internal/v1/runs/" +:+ rsRunID q +:+ "/credential:resolve" ∧
    rsRunID q = rcRunID rc ∧ rsAttemptID q = rcAttemptID rc ∧
    bindings w.1 !! rsRunID q = Some s ∧ bindings w'.1 !! rsRunID q = Some s' ∧
    Subject i = bdExecutorIdentity (mbBinding s) ∧
    bdState (mbBinding s) ≠ BindingCanceled ∧ bdState (mbBinding s) ≠ BindingExpired ∧
    bdNotBefore (mbBinding s) ≤ moNow o < bdExpiresAt (mbBinding s) ∧
    attempts w'.1 !! rsAttemptID q = Some (mkAttempt (rsRunID q) (Subject i) (attemptDigest q) (rcExpiresAt rc)) ∧
    rcExpiresAt rc ≤ bdExpiresAt (mbBinding s) ∧
    ((w'.1 = w.1 ∧ moNow o < rcExpiresAt rc) ∨
     (attempts w.1 !! rsAttemptID q = None ∧
      bdResolutionCount (mbBinding s') = bdResolutionCount (mbBinding s) + 1 ∧
      bdResolutionCount (mbBinding s') ≤ bdMaxResolutions (mbBinding s))).
Proof.
  intros H0 Hh Hs Hx. pose proof (history_reachable server w0 w H0 Hh) as Hreach.
  pose proof (ServeHTTP_cases (memory_service m o) server random started finished r w) as Hc. rewrite Hs in Hc.
  destruct Hc as [[_ [code Hcode]]|(i & c & Hi & Hl & _ & Hcaller & -> & Hw)]; [congruence|].
  apply perform_resolved in Hx as (ctx & i' & q & -> & Hr). destruct Hcaller as [Hcaller|Hcaller]; [done|].
  cbn [caller_of] in Hcaller. assert (i' = i) as -> by congruence. clear Hcaller.
  cbn [perform fst snd respond cs_Resolve memory_service manager_service addresses] in *.
  destruct (Resolve m i q (moNow o) w.1) as [y b'] eqn:Er. cbn [fst snd] in Hr, Hw. subst y.
  destruct (resolve_grants MO m i q (moNow o) w.1 rc b' Hreach Er) as (s & s' & H1 & H2 & H3 & H4 & H5 & H6 & H7 & H8 & H9 & Hd).
  destruct (requestIdentity_certificate _ _ _ Hi) as (u & Hu1 & Hu2 & Hu3). rewrite Hw.
  exists u, i, q, s, s'. pose proof (resolve_answers _ _ _ _ _ _ _ Er) as (Hq & Ha & Hv).
  split; [done|]. split; [done|]. split; [done|]. split; [done|]. split; [done|].
  split; [destruct Hl as [Hl|[Hl _]]; [done|]; rewrite <-(f_equal (drop_str 1) Hl : _ = rsRunID q) in Hv; vm_compute in Hv; done|].
  split_and!; first [done|apply H7].
Qed.
End ServiceTheorems.

(** ** A whole exchange: create, bind, resolve *)

Module ServiceExample.
Import VaultExample BindingExample.
#[local] Existing Instances toy_crypto toy_crypto_laws canonical_order ascii_tables.
#[local] Instance auditor : AuditRecorder (list Event) := log_auditor (Err ErrAudit).

Definition spiffe (path : string) : option tls_state :=
  Some (mkTls true VersionTLS13 [[[mkUri "spiffe" "prod.example" path "" ""]]]).
Definition server : Server := mkServer (mkMapper "prod.example") true.
Definition post (workload path : string) (body : list (string * json)) : Server.request :=
  mkHttp "POST" path (spiffe workload) (Some "application/json") (Some (render (JObj body))) ["key-1"] "".

Definition creation : Server.request := post "/workload/praetor-api" "/internal/v1/credentials"
  [("organization_id", json_text "org-a"); ("name", json_text "deploy"); ("credential_type", json_text "machine");
   ("schema_version", json_number 1);
   ("inputs", JObj [("username", json_text "root"); ("password", json_text "pw")]);
   ("actor", JObj [("user_id", json_text "u1"); ("username", json_text "alice"); ("authorization_decision_id", json_text "d1")])].
Definition binding : Server.request := post "/workload/praetor-scheduler" "/internal/v1/run-bindings"
  [("run_id", json_text run_id); ("dispatch_id", json_text dispatch_id); ("organization_id", json_text "org-a");
   ("credential_id", json_text id); ("executor_identity", json_text "praetor-executor:worker-1");
   ("not_before", json_text (Format_RFC3339Nano start 0)); ("expires_at", json_text (Format_RFC3339Nano (start + Hour) 0));
   ("max_resolutions", json_number 2)].
Definition resolution : Server.request := post "/workload/praetor-executor/worker-1"
  ("/internal/v1/runs/" +:+ run_id +:+ "/credential:resolve")
  [("attempt_id", json_text attempt_id); ("requested_at", json_text (Format_RFC3339Nano start 0))].

Definition at_creation : moment := mkMoment (stream 16 200) (stream 72 1) (λ _, "") 1000 1000.
Definition at_binding : moment := mkMoment "" "" (λ _, "") start start.
Definition at_resolution : moment := mkMoment "" "" (λ _, "") (start + Second) (start + Second).

Definition state0 : memoryBackend * list Event := (newMemoryBackend, []).
Definition handle (o : moment) (r : Server.request) (w : memoryBackend * list Event) : response * (memoryBackend * list Event) :=
  ServeHTTP (H:=memory_service manager o) server (Some (stream 16 7)) (moNow o) (moNow o) r w.
Definition state1 : memoryBackend * list Event := (handle at_creation creation state0).2.
Definition state2 : memoryBackend * list Event := (handle at_binding binding state1).2.
Definition state3 : memoryBackend * list Event := (handle at_resolution resolution state2).2.
Definition outcome : response := (handle at_resolution resolution state2).1.

Example creation_status : rpStatus (handle at_creation creation state0).1 = 201.
Proof. vm_compute. reflexivity. Qed.
Example binding_status : rpStatus (handle at_binding binding state1).1 = 201.
Proof. vm_compute. reflexivity. Qed.
Lemma outcome_payload : rpPayload outcome = PResolved the_answer.
Proof. vm_compute. reflexivity. Qed.

Lemma history : rtc (served server) state0 state2.
Proof.
  eapply rtc_l; [|eapply rtc_once].
  - apply (served_request server state0 canonical_order manager at_creation); [reflexivity|]. intros i rest _. apply lookup_empty.
  - apply (served_request server state1 canonical_order manager at_binding); [reflexivity|]. intros i rest Hi. discriminate Hi.
Qed.
Lemma resolution_served : handle at_resolution resolution state2 = (outcome, state3).
Proof. apply surjective_pairing. Qed.
End ServiceExample.

Section ServiceWitnesses.
Import VaultExample BindingExample ServiceExample.
#[local] Existing Instances toy_crypto toy_crypto_laws canonical_order ascii_tables ServiceExample.auditor.

Lemma http_resolve_witness :
  ∃ q s, bindings state2.1 !! rsRunID q = Some s ∧ rsRunID q = run_id ∧
    rqPath resolution = "/internal/v1/runs/" +:+ rsRunID q +:+ "/credential:resolve".
Proof.
  destruct (http_resolve server state0 state2 canonical_order manager at_resolution (Some (stream 16 7))
    (start + Second) (start + Second) resolution outcome state3 the_answer eq_refl history resolution_served outcome_payload)
    as (_ & _ & q & s & _ & _ & _ & _ & _ & _ & Hp & Hq & _ & Hs & _).
  exists q, s. exact (conj Hs (conj Hq Hp)).
Defined.

(** The API workload asks for the material itself. *)
Definition intrusion : Server.request :=
  post "/workload/praetor-api" ("/internal/v1/runs/" +:+ run_id +:+ "/credential:resolve") [].

Lemma intrusion_refused : rpStatus (handle at_resolution intrusion state2).1 = 403.
Proof. vm_compute. reflexivity. Qed.

Lemma http_audited_witness :
  let '(x, (_, log')) := handle at_resolution intrusion state2 in
  ∃ e, log' = state2.2 ++ [e] ∧ AuditEvent.validate e = true ∧ AuditEvent.Operation e = OperationCredentialResolved.
Proof.
  pose proof (http_audited server (Some (stream 16 7)) (start + Second) (start + Second) intrusion memoryBackend
    (memory_service manager at_resolution) state2.1 (Err ErrAudit) state2.2 eq_refl
    ltac:(discriminate) eq_refl ltac:(by intros v [= <-])) as H.
  pose proof intrusion_refused as Hs. unfold handle in *. change (moNow at_resolution) with (start + Second) in *.
  rewrite <-surjective_pairing in H. cbv zeta in H.
  destruct (ServeHTTP _ _ _ _ _ _) as [x [b log]]. cbn [fst snd] in *.
  destruct H as [[[_ H] _]|[_ (e & H1 & H2 & H3 & _)]]; [rewrite Hs in H; lia|]. exists e. exact (conj H1 (conj H2 H3)).
Defined.
End ServiceWitnesses.
