(* ===== verification/GoParse.v ===== *)
(** * Go's parsers of numbers, durations and addresses

    The configuration is text: this file gives the functions of [strconv],
    [time] and [net] that read it, as the Go library defines them.  An [int] has
    64 bits.  [ParseDuration] computes a fraction of a unit in binary64, which
    [SpecFloat] executes. *)

From Stdlib Require Import Ascii SpecFloat.
From S2P Require Import Prelude GoStrings Json TimeParse JsonValue.

(** ** strconv *)

(** The value of a non-empty string of decimal digits. *)
Definition parse_digits (s : string) : option Z :=
  if negb (String.eqb s "") && forall_bytes digit_byte s then Some (decimal 0 s) else None.

(** A sign and the rest. *)
Definition split_sign (s : string) : bool * string :=
  match s with
  | String a s' => if bz a =? 45 then (true, s') else if bz a =? 43 then (false, s') else (false, s)
  | "" => (false, "")
  end.

(** [strconv.ParseInt(s, 10, bits)]: [None] for a syntax error and for a value
    that [bits] bits do not hold. *)
Definition ParseInt (bits : Z) (s : string) : option Z :=
  let '(neg, rest) := split_sign s in
  un ← parse_digits rest;
  let n := if neg then - un else un in
  if (- 2 ^ (bits - 1) <=? n) && (n <? 2 ^ (bits - 1)) then Some n else None.
Definition Atoi : string → option Z := ParseInt 64.

(** ** time.ParseDuration *)

(** The digits at the head of [s]; [None] above 2^63. *)
Fixpoint leadingInt (x : Z) (s : string) : option (Z * string) :=
  match s with
  | String a s' =>
      if negb (digit_byte a) then Some (x, s)
      else if 2 ^ 63 / 10 <? x then None
      else let x' := x * 10 + digit_value a in
           if 2 ^ 63 <? x' then None else leadingInt x' s'
  | "" => Some (x, "")
  end.

(** The digits after the point as [x / 10 ^ scale]; those that no longer fit
    are passed over. *)
Fixpoint leadingFraction (overflow : bool) (x scale : Z) (s : string) : Z * Z * string :=
  match s with
  | String a s' =>
      if negb (digit_byte a) then (x, scale, s)
      else if overflow || ((2 ^ 63 - 1) / 10 <? x) then leadingFraction true x scale s'
      else let y := x * 10 + digit_value a in
           if 2 ^ 63 <? y then leadingFraction true x scale s'
           else leadingFraction false y (scale + 1) s'
  | "" => (x, scale, "")
  end.

(** [unitMap]; the two spellings of the micro sign are U+00B5 and U+03BC. *)
Definition unitMap (u : string) : option Z :=
  if String.eqb u "ns" then Some Nanosecond
  else if String.eqb u "us" || String.eqb u (String (zb 0xC2) (String (zb 0xB5) "s")) ||
          String.eqb u (String (zb 0xCE) (String (zb 0xBC) "s")) then Some 1000
  else if String.eqb u "ms" then Some Millisecond
  else if String.eqb u "s" then Some Second
  else if String.eqb u "m" then Some Minute
  else if String.eqb u "h" then Some Hour
  else None.

(** A unit runs up to the next digit or point. *)
Fixpoint span_unit (s : string) : string * string :=
  match s with
  | String a s' =>
      if (bz a =? 46) || digit_byte a then ("", s)
      else let '(u, rest) := span_unit s' in (String a u, rest)
  | "" => ("", "")
  end.

(** binary64: [float64(z)] for [z >= 0] and [uint64(x)], which truncates. *)
Definition float64 (z : Z) : spec_float := binary_normalize 53 1024 z 0 false.
Definition truncate (x : spec_float) : Z :=
  match x with
  | S754_finite false m e => if 0 <=? e then Z.pos m * 2 ^ e else Z.pos m / 2 ^ (- e)
  | _ => 0
  end.
(** [uint64(float64(f) * (float64(unit) / scale))], with scale a power of ten. *)
Definition fraction_of (f scale unit : Z) : Z :=
  truncate (SFmul 53 1024 (float64 f) (SFdiv 53 1024 (float64 unit) (float64 (10 ^ scale)))).

(** An optional point with its digits: their value and power of ten, the rest,
    and whether there was a digit. *)
Definition fraction_part (s : string) : Z * Z * string * bool :=
  match s with
  | String p t =>
      if bz p =? 46 then
        let '(f, scale, rest) := leadingFraction false 0 0 t in
        (f, scale, rest, negb (String.length rest =? String.length t)%nat)
      else (0, 0, s, false)
  | "" => (0, 0, "", false)
  end.

(** One number and its unit: the value in nanoseconds and the rest. *)
Definition duration_term (s : string) : option (Z * string) :=
  match s with
  | "" => None
  | String a _ =>
      if negb ((bz a =? 46) || digit_byte a) then None
      else
        '(v, s1) ← leadingInt 0 s;
        let pre := negb (String.length s1 =? String.length s)%nat in
        let '(f, scale, s2, post) := fraction_part s1 in
        if negb pre && negb post then None
        else
          let '(u, s3) := span_unit s2 in
          unit ← unitMap u;
          if 2 ^ 63 / unit <? v then None
          else
            let v1 := v * unit in
            let v2 := if 0 <? f then u64 (v1 + fraction_of f scale unit) else v1 in
            if 2 ^ 63 <? v2 then None else Some (v2, s3)
  end.

(** The loop over the terms: each consumes at least one byte. *)
Fixpoint duration_terms (fuel : nat) (d : Z) (s : string) : option Z :=
  match s with
  | "" => Some d
  | _ =>
      match fuel with
      | O => None
      | S fuel' =>
          '(v, rest) ← duration_term s;
          let d' := u64 (d + v) in
          if 2 ^ 63 <? d' then None else duration_terms fuel' d' rest
      end
  end.

Definition ParseDuration (s : string) : option duration :=
  let '(neg, rest) := split_sign s in
  if String.eqb rest "0" then Some 0
  else if String.eqb rest "" then None
  else
    d ← duration_terms (String.length rest) 0 rest;
    if neg then Some (- d) else if 2 ^ 63 - 1 <? d then None else Some d.

Example parse_duration_examples :
  ParseDuration "20s" = Some (20 * Second) ∧ ParseDuration "1h30m" = Some (90 * Minute) ∧
  ParseDuration "1.5s" = Some 1500000000 ∧ ParseDuration "-.25s" = Some (-250000000) ∧
  ParseDuration "0" = Some 0 ∧ ParseDuration "1" = None ∧ ParseDuration ".s" = None ∧
  ParseDuration "9223372036854775807ns" = Some max_int64 ∧ ParseDuration "9223372036854775808ns" = None ∧
  ParseDuration "-9223372036854775808ns" = Some min_int64 ∧
  ParseDuration "0.1000000000000000000000001h" = Some 360000000000 ∧ ParseDuration "1 s" = None.
Proof. by vm_compute. Qed.

(** ** net.SplitHostPort *)

Fixpoint index_byte (a : ascii) (s : string) : option nat :=
  match s with
  | "" => None
  | String b s' => if bz b =? bz a then Some O else S <$> index_byte a s'
  end.
Fixpoint last_index_byte (a : ascii) (s : string) : option nat :=
  match s with
  | "" => None
  | String b s' =>
      match last_index_byte a s' with
      | Some i => Some (S i)
      | None => if bz b =? bz a then Some O else None
      end
  end.

(** [None] is any of the address errors. *)
Definition SplitHostPort (hostport : string) : option (string * string) :=
  i ← last_index_byte ":" hostport;
  '(host, j, k) ←
    (if HasPrefix hostport "[" then
       e ← index_byte "]" hostport;
       if (S e =? i)%nat then Some (take_str (e - 1) (drop_str 1 hostport), 1%nat, S e) else None
     else
       let host := take_str i hostport in
       if contains_byte ":" host then None else Some (host, 0%nat, 0%nat));
  if contains_byte "[" (drop_str j hostport) || contains_byte "]" (drop_str k hostport) then None
  else Some (host, drop_str (S i) hostport).

Example split_host_port_examples :
  SplitHostPort "127.0.0.1:8443" = Some ("127.0.0.1", "8443") ∧ SplitHostPort ":0" = Some ("", "0") ∧
  SplitHostPort "[::1]:80" = Some ("::1", "80") ∧ SplitHostPort "::1" = None ∧
  SplitHostPort "localhost" = None ∧ SplitHostPort "[::1]" = None ∧ SplitHostPort "[a]b:1" = None.
Proof. by vm_compute. Qed.

(** ** What the parsers return *)

Lemma ParseInt_range bits s n : ParseInt bits s = Some n → - 2 ^ (bits - 1) ≤ n < 2 ^ (bits - 1).
Proof.
  unfold ParseInt. destruct (split_sign s) as [neg rest]. destruct (parse_digits rest) as [un|]; [|done].
  cbn [mbind option_bind]. intros H. cbv zeta in H. case_match eqn:Hr; [|done]. simplify_eq. bool_facts. lia.
Qed.

Lemma duration_terms_range fuel d s r :
  0 ≤ d ≤ 2 ^ 63 → duration_terms fuel d s = Some r → 0 ≤ r ≤ 2 ^ 63.
Proof.
  revert d s. induction fuel as [|fuel IH]; intros d [|a s] Hd; cbn [duration_terms]; try (intros; by simplify_eq).
  destruct (duration_term (String a s)) as [[v rest]|]; [|done]. cbn [mbind option_bind]. cbv zeta. case_match eqn:Hb; [done|].
  bool_facts. apply IH. split; [apply u64_range|done].
Qed.

(** A duration has 64 bits. *)
Lemma ParseDuration_range s d : ParseDuration s = Some d → min_int64 ≤ d ≤ max_int64.
Proof.
  unfold ParseDuration, min_int64, max_int64. destruct (split_sign s) as [neg rest]. case_match; [intros; simplify_eq; lia|].
  case_match; [done|]. destruct (duration_terms _ _ _) as [r|] eqn:Hr; [|done].
  apply duration_terms_range in Hr; [|lia]. cbn [mbind option_bind]. destruct neg; [intros; simplify_eq; lia|].
  case_match eqn:Hb; [done|]. bool_facts. intros; simplify_eq; lia.
Qed.

(** The fuel of the loop is enough: a term is not empty, and the result does
    not depend on how much more fuel there is. *)
Lemma leadingInt_shorter x s v rest :
  leadingInt x s = Some (v, rest) → (String.length rest ≤ String.length s)%nat.
Proof.
  revert x. induction s as [|a s IH]; intros x; cbn [leadingInt]; [intros; by simplify_eq|].
  repeat (case_match; try done); intros; simplify_eq/=; first [lia | match goal with H : leadingInt _ _ = _ |- _ => apply IH in H; lia end].
Qed.
Lemma leadingFraction_shorter o x scale s f sc rest :
  leadingFraction o x scale s = (f, sc, rest) → (String.length rest ≤ String.length s)%nat.
Proof.
  revert o x scale. induction s as [|a s IH]; intros o x scale; cbn [leadingFraction]; [intros; by simplify_eq|].
  repeat case_match; intros; simplify_eq/=; first [lia | match goal with H : leadingFraction _ _ _ _ = _ |- _ => apply IH in H; lia end].
Qed.
Lemma span_unit_shorter s u rest : span_unit s = (u, rest) → String.length s = (String.length u + String.length rest)%nat.
Proof.
  revert u. induction s as [|a s IH]; intros u; cbn [span_unit]; [intros; by simplify_eq|].
  case_match; [intros; by simplify_eq|]. destruct (span_unit s) as [u' r]. intros. simplify_eq/=. by rewrite (IH u').
Qed.
Lemma unitMap_nonempty u unit : unitMap u = Some unit → u ≠ "".
Proof. by intros Hu ->. Qed.

Lemma fraction_part_shorter s f scale rest post :
  fraction_part s = (f, scale, rest, post) → (String.length rest ≤ String.length s)%nat.
Proof.
  unfold fraction_part. destruct s as [|p t]; [intros; by simplify_eq|]. case_match; [|intros; by simplify_eq].
  destruct (leadingFraction false 0 0 t) as [[f' sc] t'] eqn:Ef. apply leadingFraction_shorter in Ef.
  intros. simplify_eq/=. lia.
Qed.

Lemma duration_term_shorter s v rest :
  duration_term s = Some (v, rest) → (String.length rest < String.length s)%nat.
Proof.
  unfold duration_term. destruct s as [|a s]; [done|]. generalize (String a s). clear. intros s H.
  case_match; [done|]. destruct (leadingInt 0 s) as [[v0 s1]|] eqn:E1; [|done].
  cbn [mbind option_bind] in H. apply leadingInt_shorter in E1.
  destruct (fraction_part s1) as [[[f scale] s2] post] eqn:E2. apply fraction_part_shorter in E2.
  case_match; [done|]. destruct (span_unit s2) as [u s3] eqn:Eu.
  destruct (unitMap u) as [unit|] eqn:Hu; [|done]. cbn [mbind option_bind] in H. cbv zeta in H.
  apply span_unit_shorter in Eu. apply unitMap_nonempty in Hu. destruct u; [done|]. cbn [String.length] in Eu.
  repeat (case_match; try done); simplify_eq; lia.
Qed.

Lemma duration_terms_fuel fuel d s :
  (String.length s ≤ fuel)%nat → duration_terms fuel d s = duration_terms (String.length s) d s.
Proof.
  assert (∀ n m d s, (String.length s ≤ n)%nat → (String.length s ≤ m)%nat →
    duration_terms n d s = duration_terms m d s) as Hmain; [|intros; by apply Hmain].
  clear. induction n as [|n IH]; intros m d s Hn Hm; [by destruct s; [destruct m|simpl in Hn; lia]|].
  destruct s as [|a s]; [by destruct m|]. destruct m as [|m]; [simpl in Hm; lia|]. cbn [duration_terms].
  destruct (duration_term (String a s)) as [[v rest]|] eqn:E; [|done]. apply duration_term_shorter in E.
  cbn [mbind option_bind]. cbv zeta. case_match; [done|]. apply IH; lia.
Qed.

(** ** Printed values parse back *)

Lemma split_sign_uint z t : 0 ≤ z → split_sign (json_uint z +:+ t) = (false, json_uint z +:+ t).
Proof.
  intros Hz. destruct (json_uint_head z Hz) as (a & d & E & Ha & _). rewrite E, app_cons.
  rewrite digit_byte_range in Ha. cbn [split_sign]. by rewrite !(proj2 (Z.eqb_neq _ _)) by lia.
Qed.

Lemma ParseInt_uint bits z : 0 ≤ z < 2 ^ (bits - 1) → ParseInt bits (json_uint z) = Some z.
Proof.
  intros Hz. unfold ParseInt. pose proof (split_sign_uint z "" (proj1 Hz)) as Hs. rewrite app_nil_r_str in Hs.
  rewrite Hs. unfold parse_digits. destruct (json_uint_head z) as (a & d & E & _); [lia|].
  rewrite (proj2 (String.eqb_neq (json_uint z) "")) by (by rewrite E).
  rewrite json_uint_digits, decimal_json by lia. cbn [negb andb mbind option_bind].
  rewrite (proj2 (Z.leb_le _ _)), (proj2 (Z.ltb_lt _ _)); [done|lia|]. pose proof (Z.pow_nonneg 2 (bits - 1)). lia.
Qed.

Lemma decimal_ge x s : forall_bytes digit_byte s = true → 0 ≤ x → x ≤ decimal x s.
Proof.
  revert x. induction s as [|a s IH]; intros x Hs Hx; simpl in *; [lia|]. apply andb_prop in Hs as [Ha Hs].
  rewrite digit_byte_range in Ha. specialize (IH (x * 10 + digit_value a) Hs). unfold digit_value in *. lia.
Qed.

Lemma leadingInt_run x d a t :
  forall_bytes digit_byte d = true → digit_byte a = false → 0 ≤ x → decimal x d ≤ 2 ^ 63 →
  leadingInt x (d +:+ String a t) = Some (decimal x d, String a t).
Proof.
  intros Hd Ha. revert x. induction d as [|b d IH]; intros x Hx Hle.
  { rewrite app_nil_l_str. cbn [leadingInt decimal]. by rewrite Ha. }
  simpl in Hd. apply andb_prop in Hd as [Hb Hd]. rewrite app_cons. cbn [leadingInt decimal] in *. rewrite Hb. simpl negb. cbv zeta.
  pose proof Hb as Hr. rewrite digit_byte_range in Hr. unfold digit_value in *.
  pose proof (decimal_ge (x * 10 + (bz b - 48)) d Hd ltac:(lia)).
  rewrite (proj2 (Z.ltb_ge _ _)) by (apply Z.div_le_lower_bound; lia).
  rewrite (proj2 (Z.ltb_ge _ _)) by lia. apply IH; [done|lia|lia].
Qed.

Lemma ParseDuration_uint z : 0 ≤ z ≤ max_int64 → ParseDuration (json_uint z +:+ "ns") = Some z.
Proof.
  unfold max_int64. intros Hz. unfold ParseDuration. rewrite split_sign_uint by lia.
  assert (∃ b w, json_uint z +:+ "ns" = String b w ∧ digit_byte b = true ∧ (2 ≤ String.length w)%nat) as (b & w & Ew & Hb & Hl).
  { destruct (json_uint_head z) as (b & d & E & Hb & _); [lia|]. rewrite E. exists b, (d +:+ "ns"). split_and!; [done..|].
    rewrite string_app_length. simpl. lia. }
  assert (w ≠ "") as Hw by (by intros ->; simpl in Hl; lia).
  rewrite (proj2 (String.eqb_neq _ "0")) by (rewrite Ew; intros [= _ ?]; done).
  rewrite (proj2 (String.eqb_neq _ "")) by (by rewrite Ew).
  assert (duration_term (json_uint z +:+ "ns") = Some (z, "")) as Ht.
  { unfold duration_term. rewrite Ew. rewrite Hb, orb_true_r. simpl negb. rewrite <-Ew.
    rewrite leadingInt_run by (done || apply json_uint_digits || rewrite decimal_json by lia; lia).
    rewrite decimal_json by lia. cbn [mbind option_bind fraction_part]. cbv zeta.
    change (bz "n" =? 46) with false. cbv iota.
    rewrite (proj2 (Nat.eqb_neq _ _)) by (simpl; lia).
    cbn [negb andb]. change (span_unit "ns") with ("ns", ""). cbv iota beta.
    change (unitMap "ns") with (Some 1). cbn [mbind option_bind]. change (0 <? 0) with false. cbv iota.
    rewrite Z.div_1_r, Z.mul_1_r.
    by rewrite !(proj2 (Z.ltb_ge _ _)) by lia. }
  revert Ht. rewrite Ew. cbn [String.length duration_terms]. intros ->. cbn [mbind option_bind]. cbv zeta.
  rewrite Z.add_0_l, u64_small by lia. rewrite (proj2 (Z.ltb_ge _ z)) by lia.
  destruct (String.length w); cbn [duration_terms mbind option_bind]; by rewrite (proj2 (Z.ltb_ge _ _)) by lia.
Qed.
