(* ===== verification/Config.v ===== *)
(** * Configuration of the two processes (src/app/config.go, src/auditsink/config.go)

    [App] is the secrets service and [Sink] the audit sink.  [LoadConfig] takes
    the environment as a lookup function ([None] is a nil function), checks each
    variable in turn and then the whole with [validateConfig].  The sink reads
    its required variables in the order of a map iteration. *)

From Stdlib Require Import Ascii.
From S2P Require Import Prelude GoStrings Json GoTime TimeParse JsonValue GoParse Crypto Envelope Credential Identity AuditEvent Spool AuditSink Delivery Server.

Definition i32 (z : Z) : Z := (z + 2 ^ 31) `mod` 2 ^ 32 - 2 ^ 31.

Inductive ProcessError : Type := ErrConfiguration | ErrStartup | ErrServe.
#[export] Instance ProcessError_eq_dec : EqDecision ProcessError.
Proof. solve_decision. Defined.

Abbreviation environment := (string → option string) (only parsing).

(** The closure [required]: the trimmed value, which must not be empty. *)
Definition required (lookup : environment) (name : string) : result ProcessError string :=
  value ← of_option ErrConfiguration (lookup name);
  _ ← guard_err (String.eqb (TrimSpace value) "") ErrConfiguration;
  Ok (TrimSpace value).

(** The shape of every optional variable: [parse], then the range; the
    default when the variable is absent or empty. *)
Definition optional (lookup : environment) (name : string) (parse : string → option Z) (lo hi d : Z)
  : result ProcessError Z :=
  match lookup name with
  | None => Ok d
  | Some value =>
      if String.eqb value "" then Ok d
      else
        parsed ← of_option ErrConfiguration (parse value);
        _ ← guard_err ((parsed <? lo) || (hi <? parsed)) ErrConfiguration;
        Ok parsed
  end.

(** [validTrustDomain]: the labels are walked rune by rune. *)
Definition label_rune (character : Z) : bool :=
  in_range 97 122 character || in_range 48 57 character || (character =? 45).
Definition validTrustDomain (value : string) : bool :=
  if String.eqb value "" || (253 <? len value) || negb (String.eqb (ascii_lower value) value) ||
     ContainsAny value separators then false
  else forallb (λ label,
    negb (String.eqb label "" || HasPrefix label "-" || HasSuffix label "-") &&
    forallb label_rune (runes label)) (split_on "." value).

(** The listen addresses: both split, and distinct unless the port is chosen
    by the kernel. *)
Definition addresses_split (listen health : string) : bool :=
  forallb (λ address, bool_decide (is_Some (SplitHostPort address))) [listen; health].
Definition same_listener (listen health : string) : bool :=
  String.eqb listen health && negb (String.eqb (default ("", "") (SplitHostPort listen)).2 "0").

Module App.

Record Config : Type := mkConfig {
  ListenAddress : string; HealthListenAddress : string; TrustDomain : string;
  DatabaseURLFile : string; MasterKeyFile : string; AuditKeyFile : string; PreviousKeyFile : string;
  TLSCertificateFile : string; TLSPrivateKeyFile : string; ClientCAFile : string;
  AuditSinkURL : string; AuditSinkCAFile : string; AuditSinkCertificateFile : string; AuditSinkPrivateKeyFile : string;
  ShutdownTimeout : duration; MaxDatabaseConns : Z; MaxNetworkConns : Z; MaxPendingAuditEvents : Z;
  AuditDeliveryBatchSize : Z; AuditDeliveryPollInterval : duration; AuditDeliveryRequestTimeout : duration
}.

Definition validateConfig (c : Config) : result ProcessError unit :=
  _ ← guard_err (String.eqb (DatabaseURLFile c) "" || String.eqb (MasterKeyFile c) "" || String.eqb (AuditKeyFile c) "" ||
        String.eqb (TLSCertificateFile c) "" || String.eqb (AuditSinkURL c) "" || String.eqb (AuditSinkCAFile c) "" ||
        String.eqb (AuditSinkCertificateFile c) "" || String.eqb (AuditSinkPrivateKeyFile c) "" ||
        String.eqb (TLSPrivateKeyFile c) "" || String.eqb (ClientCAFile c) "" || (ShutdownTimeout c <=? 0) ||
        (MaxDatabaseConns c <=? 0) || (MaxNetworkConns c <=? 0) || (MaxPendingAuditEvents c <=? 0) ||
        (AuditDeliveryBatchSize c <=? 0) || (AuditDeliveryPollInterval c <=? 0) || (AuditDeliveryRequestTimeout c <=? 0)) ErrConfiguration;
  _ ← guard_err (negb (addresses_split (ListenAddress c) (HealthListenAddress c))) ErrConfiguration;
  guard_err (same_listener (ListenAddress c) (HealthListenAddress c) || negb (validTrustDomain (TrustDomain c))) ErrConfiguration.

Definition LoadConfig (lookup : option environment) : result ProcessError Config :=
  lookup ← of_option ErrConfiguration lookup;
  listen ← required lookup "PRAETOR_SECRETS_LISTEN_ADDRESS";
  health ← required lookup "PRAETOR_SECRETS_HEALTH_LISTEN_ADDRESS";
  trust_domain ← required lookup "PRAETOR_SECRETS_TRUST_DOMAIN";
  database_url ← required lookup "PRAETOR_SECRETS_DATABASE_URL_FILE";
  master_key ← required lookup "PRAETOR_SECRETS_MASTER_KEY_FILE";
  audit_key ← required lookup "PRAETOR_SECRETS_AUDIT_KEY_FILE";
  let previous_key := default "" (lookup "PRAETOR_SECRETS_PREVIOUS_KEY_FILE") in
  certificate ← required lookup "PRAETOR_SECRETS_TLS_CERTIFICATE_FILE";
  private_key ← required lookup "PRAETOR_SECRETS_TLS_PRIVATE_KEY_FILE";
  client_ca ← required lookup "PRAETOR_SECRETS_CLIENT_CA_FILE";
  sink_url ← required lookup "PRAETOR_SECRETS_AUDIT_SINK_URL";
  sink_ca ← required lookup "PRAETOR_SECRETS_AUDIT_SINK_CA_FILE";
  sink_certificate ← required lookup "PRAETOR_SECRETS_AUDIT_SINK_CERTIFICATE_FILE";
  sink_private_key ← required lookup "PRAETOR_SECRETS_AUDIT_SINK_PRIVATE_KEY_FILE";
  shutdown ← optional lookup "PRAETOR_SECRETS_SHUTDOWN_TIMEOUT" ParseDuration Second (5 * Minute) (20 * Second);
  database_conns ← optional lookup "PRAETOR_SECRETS_MAX_DATABASE_CONNECTIONS" (ParseInt 32) 1 100 10;
  network_conns ← optional lookup "PRAETOR_SECRETS_MAX_NETWORK_CONNECTIONS" Atoi 1 10000 100;
  pending ← optional lookup "PRAETOR_SECRETS_MAX_PENDING_AUDIT_EVENTS" (ParseInt 64) 1 10000000 100000;
  batch ← optional lookup "PRAETOR_SECRETS_AUDIT_DELIVERY_BATCH_SIZE" Atoi 1 1000 100;
  poll ← optional lookup "PRAETOR_SECRETS_AUDIT_DELIVERY_POLL_INTERVAL" ParseDuration (100 * Millisecond) Minute Second;
  request ← optional lookup "PRAETOR_SECRETS_AUDIT_DELIVERY_REQUEST_TIMEOUT" ParseDuration Second Minute (5 * Second);
  let config := mkConfig listen health trust_domain database_url master_key audit_key previous_key certificate private_key
    client_ca sink_url sink_ca sink_certificate sink_private_key shutdown (i32 database_conns) network_conns pending batch
    poll request in
  _ ← validateConfig config;
  Ok config.
End App.

Module Sink.

Record Config : Type := mkConfig {
  ListenAddress : string; HealthListenAddress : string; TrustDomain : string; DatabaseURLFile : string;
  TLSCertificateFile : string; TLSPrivateKeyFile : string; ClientCAFile : string;
  ShutdownTimeout : duration; MaxDatabaseConns : Z; MaxNetworkConns : Z
}.

(** The fields the map of targets points to, and the assignment through such
    a pointer. *)
Inductive target : Type :=
| TListenAddress | THealthListenAddress | TTrustDomain | TDatabaseURLFile
| TTLSCertificateFile | TTLSPrivateKeyFile | TClientCAFile.
#[global] Instance target_eq_dec : EqDecision target.
Proof. solve_decision. Defined.

Definition assign (t : target) (v : string) (c : Config) : Config :=
  let '(mkConfig listen health trust database certificate private ca shutdown dbs conns) := c in
  match t with
  | TListenAddress => mkConfig v health trust database certificate private ca shutdown dbs conns
  | THealthListenAddress => mkConfig listen v trust database certificate private ca shutdown dbs conns
  | TTrustDomain => mkConfig listen health v database certificate private ca shutdown dbs conns
  | TDatabaseURLFile => mkConfig listen health trust v certificate private ca shutdown dbs conns
  | TTLSCertificateFile => mkConfig listen health trust database v private ca shutdown dbs conns
  | TTLSPrivateKeyFile => mkConfig listen health trust database certificate v ca shutdown dbs conns
  | TClientCAFile => mkConfig listen health trust database certificate private v shutdown dbs conns
  end.

Definition target_list : list (string * target) := [
  ("PRAETOR_AUDIT_SINK_LISTEN_ADDRESS", TListenAddress);
  ("PRAETOR_AUDIT_SINK_HEALTH_LISTEN_ADDRESS", THealthListenAddress);
  ("PRAETOR_AUDIT_SINK_TRUST_DOMAIN", TTrustDomain);
  ("PRAETOR_AUDIT_SINK_DATABASE_URL_FILE", TDatabaseURLFile);
  ("PRAETOR_AUDIT_SINK_TLS_CERTIFICATE_FILE", TTLSCertificateFile);
  ("PRAETOR_AUDIT_SINK_TLS_PRIVATE_KEY_FILE", TTLSPrivateKeyFile);
  ("PRAETOR_AUDIT_SINK_CLIENT_CA_FILE", TClientCAFile)].
Definition targets : gmap string target := list_to_map target_list.

Fixpoint load_required (lookup : environment) (l : list (string * target)) (c : Config) : result ProcessError Config :=
  match l with
  | [] => Ok c
  | (name, t) :: l' => value ← required lookup name; load_required lookup l' (assign t value c)
  end.

Definition validateConfig (c : Config) : result ProcessError unit :=
  _ ← guard_err (String.eqb (DatabaseURLFile c) "" || String.eqb (TLSCertificateFile c) "" || String.eqb (TLSPrivateKeyFile c) "" ||
        String.eqb (ClientCAFile c) "" || (ShutdownTimeout c <=? 0) || (MaxDatabaseConns c <=? 0) ||
        (MaxNetworkConns c <=? 0) || negb (validSinkTrustDomain (TrustDomain c))) ErrConfiguration;
  _ ← guard_err (negb (addresses_split (ListenAddress c) (HealthListenAddress c))) ErrConfiguration;
  guard_err (same_listener (ListenAddress c) (HealthListenAddress c)) ErrConfiguration.

Definition zero_config : Config := mkConfig "" "" "" "" "" "" "" 0 0 0.

Definition LoadConfig `{MapOrder} (lookup : option environment) : result ProcessError Config :=
  lookup ← of_option ErrConfiguration lookup;
  c ← load_required lookup (iterate targets) zero_config;
  shutdown ← optional lookup "PRAETOR_AUDIT_SINK_SHUTDOWN_TIMEOUT" ParseDuration Second (5 * Minute) (20 * Second);
  database_conns ← optional lookup "PRAETOR_AUDIT_SINK_MAX_DATABASE_CONNECTIONS" (ParseInt 32) 1 100 10;
  network_conns ← optional lookup "PRAETOR_AUDIT_SINK_MAX_NETWORK_CONNECTIONS" Atoi 1 10000 100;
  let config := mkConfig (ListenAddress c) (HealthListenAddress c) (TrustDomain c) (DatabaseURLFile c)
    (TLSCertificateFile c) (TLSPrivateKeyFile c) (ClientCAFile c) shutdown (i32 database_conns) network_conns in
  _ ← validateConfig config;
  Ok config.

(** [NewHandler], over a store. *)
Definition NewHandler (trustDomain : string) : result StoreError string :=
  _ ← guard_err (negb (validSinkTrustDomain trustDomain)) ErrInvalid; Ok trustDomain.
End Sink.

(** ** The variables *)

(** A value some environment text trims to. *)
Definition trimmed (v : string) : Prop := v ≠ "" ∧ ∃ raw, TrimSpace raw = v.

Lemma required_Ok lookup name v :
  required lookup name = Ok v ↔ v ≠ "" ∧ ∃ raw, lookup name = Some raw ∧ TrimSpace raw = v.
Proof.
  unfold required. rewrite of_option_bind. setoid_rewrite guard_bind. split.
  - intros (raw & Hl & Hne & [= <-]). bool_prop. eauto.
  - intros (Hne & raw & Hl & <-). exists raw. bool_prop. auto.
Qed.
Lemma required_trimmed lookup name v : required lookup name = Ok v → trimmed v.
Proof. intros (Hne & raw & _ & Hr)%required_Ok. split; eauto. Qed.
Lemma required_found lookup name raw v :
  lookup name = Some raw → TrimSpace raw = v → v ≠ "" → required lookup name = Ok v.
Proof. intros. apply required_Ok. eauto. Qed.
Lemma required_error lookup name e : required lookup name = Err e → e = ErrConfiguration.
Proof. unfold required. destruct (lookup name); simpl; [|congruence]. by destruct (String.eqb _ _); intros [= <-]. Qed.

Lemma optional_range lookup name parse lo hi d z :
  lo ≤ d ≤ hi → optional lookup name parse lo hi d = Ok z → lo ≤ z ≤ hi.
Proof.
  unfold optional. intros Hd. destruct (lookup name) as [value|]; [|by intros [= <-]].
  case_match; [by intros [= <-]|]. rewrite of_option_bind. setoid_rewrite guard_bind.
  intros (p & _ & Hb & [= <-]). bool_facts. lia.
Qed.
Lemma optional_found lookup name parse lo hi d value z :
  lookup name = Some value → value ≠ "" → parse value = Some z → lo ≤ z ≤ hi →
  optional lookup name parse lo hi d = Ok z.
Proof.
  unfold optional. intros -> Hne Hp Hz. rewrite (proj2 (String.eqb_neq _ _) Hne), Hp. cbn [of_option mbind result_bind].
  by rewrite !(proj2 (Z.ltb_ge _ _)) by lia.
Qed.
Lemma optional_error lookup name parse lo hi d e : optional lookup name parse lo hi d = Err e → e = ErrConfiguration.
Proof.
  unfold optional. destruct (lookup name); [|done]. case_match; [done|]. destruct (parse _); simpl; [|congruence].
  by destruct (_ || _); intros [= <-].
Qed.

Lemma i32_small z : - 2 ^ 31 ≤ z < 2 ^ 31 → i32 z = z.
Proof. intros. unfold i32. rewrite Z.mod_small; lia. Qed.

(** The service and the sink accept the same trust domains: a rune outside
    ASCII is refused by both loops. *)
Lemma label_runes label : forallb label_rune (runes label) = forall_bytes host_char label.
Proof.
  change (λ a, host_char a) with (λ a, label_rune (bz a)). rewrite <-(rune_loop_bytes label_rune 0).
  - unfold runes, range_string. induction (range_from 0 0 label) as [|[i r] l IH]; [done|]. simpl. f_equal. exact IH.
  - intros r Hr. unfold label_rune, in_range. bool_prop. rewrite !andb_false_iff, !Z.leb_gt. split_and!; try lia; right; lia.
Qed.
Lemma same_trust_domains value : validTrustDomain value = validSinkTrustDomain value.
Proof.
  unfold validTrustDomain, validSinkTrustDomain. rewrite (String.eqb_sym (ascii_lower value)). case_match; [done|].
  induction (split_on "." value) as [|label l IH]; [done|]. simpl. rewrite label_runes, IH. unfold host_label.
  by rewrite !negb_orb.
Qed.

(** The listeners. *)
Definition listeners_ok (listen health : string) : Prop :=
  (∃ host port, SplitHostPort listen = Some (host, port) ∧ (listen = health → port = "0")) ∧
  is_Some (SplitHostPort health).

Lemma listeners_spec listen health :
  addresses_split listen health = true ∧ same_listener listen health = false ↔ listeners_ok listen health.
Proof.
  unfold addresses_split, same_listener, listeners_ok. cbn [forallb]. rewrite andb_true_r, andb_true_iff, !bool_decide_eq_true.
  rewrite andb_false_iff, negb_false_iff, String.eqb_neq, String.eqb_eq. split.
  - intros [[[[host port] Hl] Hh] Hd]. rewrite Hl in Hd. split; [|done]. exists host, port. naive_solver.
  - intros [(host & port & Hl & Hd) Hh]. rewrite Hl. split; [eauto|]. cbn.
    destruct (decide (listen = health)); naive_solver.
Qed.

(** ** The service *)

(** What a configuration of the service must satisfy. *)
Record app_acceptable (c : App.Config) : Prop := {
  app_texts : Forall trimmed [App.ListenAddress c; App.HealthListenAddress c; App.TrustDomain c; App.DatabaseURLFile c;
    App.MasterKeyFile c; App.AuditKeyFile c; App.TLSCertificateFile c; App.TLSPrivateKeyFile c; App.ClientCAFile c;
    App.AuditSinkURL c; App.AuditSinkCAFile c; App.AuditSinkCertificateFile c; App.AuditSinkPrivateKeyFile c];
  app_listeners : listeners_ok (App.ListenAddress c) (App.HealthListenAddress c);
  app_trust : validSinkTrustDomain (App.TrustDomain c) = true;
  app_shutdown : Second ≤ App.ShutdownTimeout c ≤ 5 * Minute;
  app_database : 1 ≤ App.MaxDatabaseConns c ≤ 100;
  app_network : 1 ≤ App.MaxNetworkConns c ≤ 10000;
  app_pending : 1 ≤ App.MaxPendingAuditEvents c ≤ 10000000;
  app_delivery : valid_delivery_config (mkDeliveryConfig (App.AuditDeliveryBatchSize c) (App.AuditDeliveryPollInterval c)
    (App.AuditDeliveryRequestTimeout c)) = true
}.

Lemma valid_delivery_bounds c : valid_delivery_config c = true ↔
  1 ≤ BatchSize c ≤ 1000 ∧ 100 * Millisecond ≤ PollInterval c ≤ Minute ∧ Second ≤ RequestTimeout c ≤ Minute.
Proof. unfold valid_delivery_config. bool_prop. lia. Qed.

Lemma trimmed_nonempty v : trimmed v → String.eqb v "" = false.
Proof. intros [Hv _]. by apply String.eqb_neq. Qed.

Lemma app_validate c : app_acceptable c → App.validateConfig c = Ok ().
Proof.
  intros [Ht Hl Htr Hs Hd Hn Hp Hdel]. unfold App.validateConfig. rewrite valid_delivery_bounds in Hdel. cbn [BatchSize PollInterval RequestTimeout] in Hdel.
  rewrite !Forall_cons in Ht. destruct_and! Ht. unfold Minute, Second, Millisecond in *.
  rewrite !trimmed_nonempty by done. rewrite !(proj2 (Z.leb_gt _ _)) by lia. cbn [orb guard_err mbind result_bind].
  apply listeners_spec in Hl as [-> ->]. by rewrite same_trust_domains, Htr.
Qed.

Lemma app_load_acceptable lookup c : App.LoadConfig (Some lookup) = Ok c → app_acceptable c.
Proof.
  unfold App.LoadConfig. cbn [of_option mbind result_bind]. intros H.
  do 13 (apply bind_Ok in H as (? & ?%required_trimmed & H)).
  do 7 (apply bind_Ok in H as (? & Hopt & H); apply optional_range in Hopt; [|by vm_compute]; let r := fresh in rename Hopt into r).
  apply bind_Ok in H as ([] & Hv & [= <-]).
  unfold App.validateConfig in Hv. apply guard_bind in Hv as [_ Hv]. apply guard_bind in Hv as [Hs Hv].
  apply guard_err_Ok in Hv. cbn [App.ListenAddress App.HealthListenAddress App.TrustDomain] in *. bool_facts.
  rewrite same_trust_domains in *. rewrite i32_small by lia.
  split; cbn; rewrite ?valid_delivery_bounds; cbn; try (done || lia).
  - rewrite !Forall_cons. by split_and!.
  - by apply listeners_spec.
Qed.

(** An environment of the given variables. *)
Definition variables (l : list (string * string)) : environment :=
  λ name, snd <$> find (λ x, String.eqb name x.1) l.

Definition optional_text (z : Z) : string := json_uint z.
Definition duration_text (d : duration) : string := json_uint d +:+ "ns".

Lemma optional_uint lookup name bits lo hi d z :
  lookup name = Some (optional_text z) → 0 ≤ lo → hi < 2 ^ (bits - 1) → lo ≤ z ≤ hi →
  optional lookup name (ParseInt bits) lo hi d = Ok z.
Proof.
  intros Hl Hlo Hhi Hz. eapply optional_found; [exact Hl| |apply ParseInt_uint; lia|done].
  destruct (json_uint_head z) as (a & s & E & _); [lia|]. unfold optional_text. by rewrite E.
Qed.
Lemma optional_duration lookup name lo hi d z :
  lookup name = Some (duration_text z) → 0 ≤ lo → hi ≤ max_int64 → lo ≤ z ≤ hi →
  optional lookup name ParseDuration lo hi d = Ok z.
Proof.
  intros Hl Hlo Hhi Hz. eapply optional_found; [exact Hl| |apply ParseDuration_uint; lia|done].
  destruct (json_uint_head z) as (a & s & E & _); [lia|]. unfold duration_text. by rewrite E.
Qed.

(** Every acceptable configuration is some environment's. *)
Lemma app_acceptable_loads c : app_acceptable c → ∃ lookup, App.LoadConfig (Some lookup) = Ok c.
Proof.
  intros Hok. pose proof (app_validate c Hok) as Hv. destruct Hok as [Ht _ _ Hs Hd Hn Hp Hdel].
  apply valid_delivery_bounds in Hdel as (Hb & Hpo & Hr). cbn [BatchSize PollInterval RequestTimeout] in *.
  destruct c as [listen health trust url master akey prev cert pkey ca surl sca scert spkey shutdown dbs net pend batch poll req].
  cbn -[Z.le] in *. rewrite !Forall_cons in Ht.
  repeat match goal with
  | H : trimmed _ ∧ _ |- _ => destruct H as [[? [? ?]] H]
  end. match goal with H : Forall _ [] |- _ => clear H end.
  match goal with
  | H1 : TrimSpace ?r1 = listen, H2 : TrimSpace ?r2 = health, H3 : TrimSpace ?r3 = trust, H4 : TrimSpace ?r4 = url,
    H5 : TrimSpace ?r5 = master, H6 : TrimSpace ?r6 = akey, H7 : TrimSpace ?r7 = cert, H8 : TrimSpace ?r8 = pkey,
    H9 : TrimSpace ?r9 = ca, H10 : TrimSpace ?r10 = surl, H11 : TrimSpace ?r11 = sca, H12 : TrimSpace ?r12 = scert,
    H13 : TrimSpace ?r13 = spkey |- _ =>
    exists (variables [
      ("PRAETOR_SECRETS_LISTEN_ADDRESS", r1); ("PRAETOR_SECRETS_HEALTH_LISTEN_ADDRESS", r2);
      ("PRAETOR_SECRETS_TRUST_DOMAIN", r3); ("PRAETOR_SECRETS_DATABASE_URL_FILE", r4);
      ("PRAETOR_SECRETS_MASTER_KEY_FILE", r5); ("PRAETOR_SECRETS_AUDIT_KEY_FILE", r6);
      ("PRAETOR_SECRETS_PREVIOUS_KEY_FILE", prev); ("PRAETOR_SECRETS_TLS_CERTIFICATE_FILE", r7);
      ("PRAETOR_SECRETS_TLS_PRIVATE_KEY_FILE", r8); ("PRAETOR_SECRETS_CLIENT_CA_FILE", r9);
      ("PRAETOR_SECRETS_AUDIT_SINK_URL", r10); ("PRAETOR_SECRETS_AUDIT_SINK_CA_FILE", r11);
      ("PRAETOR_SECRETS_AUDIT_SINK_CERTIFICATE_FILE", r12); ("PRAETOR_SECRETS_AUDIT_SINK_PRIVATE_KEY_FILE", r13);
      ("PRAETOR_SECRETS_SHUTDOWN_TIMEOUT", duration_text shutdown);
      ("PRAETOR_SECRETS_MAX_DATABASE_CONNECTIONS", optional_text dbs);
      ("PRAETOR_SECRETS_MAX_NETWORK_CONNECTIONS", optional_text net);
      ("PRAETOR_SECRETS_MAX_PENDING_AUDIT_EVENTS", optional_text pend);
      ("PRAETOR_SECRETS_AUDIT_DELIVERY_BATCH_SIZE", optional_text batch);
      ("PRAETOR_SECRETS_AUDIT_DELIVERY_POLL_INTERVAL", duration_text poll);
      ("PRAETOR_SECRETS_AUDIT_DELIVERY_REQUEST_TIMEOUT", duration_text req)])
  end.
  unfold App.LoadConfig, Atoi. cbn [of_option mbind result_bind].
  do 13 (erewrite required_found; [|reflexivity|eassumption|assumption]; cbn [mbind result_bind]).
  repeat (first [ erewrite optional_duration; [|reflexivity|by vm_compute|by vm_compute|eassumption]
               | erewrite optional_uint; [|reflexivity|by vm_compute|by vm_compute|eassumption] ]; cbn [mbind result_bind]).
  rewrite i32_small by lia. change (default "" _) with prev. by rewrite Hv.
Qed.

(** C23: the service's configuration is validated completely: [LoadConfig] can
    return exactly the configurations whose files and addresses are named,
    whose listeners are two different ones (or on ports the kernel picks),
    whose trust domain is a lower-case DNS name, and whose timeouts, pools,
    backlog and delivery parameters lie within their documented bounds. *)
Theorem app_config_exact (c : App.Config) :
  (∃ lookup, App.LoadConfig (Some lookup) = Ok c) ↔ app_acceptable c.
Proof.
  split; [|apply app_acceptable_loads]. intros [lookup H]. by eapply app_load_acceptable.
Qed.

(** ** The sink *)

Lemma assign_comm t u v w c : t ≠ u → Sink.assign t v (Sink.assign u w c) = Sink.assign u w (Sink.assign t v c).
Proof. destruct c, t, u; done. Qed.

(** The order of the required variables does not matter. *)
Lemma load_required_perm lookup l l' c :
  l ≡ₚ l' → NoDup l.*2 → Sink.load_required lookup l c = Sink.load_required lookup l' c.
Proof.
  intros Hp. revert c. induction Hp as [|[n t] l l' Hp IH|[n t] [m u] l|l l' l'' Hp IH Hp' IH']; intros c Hd; [done|..].
  - cbn in *. destruct (required lookup n) as [v|e]; cbn [mbind result_bind]; [|done]. apply IH. by inversion Hd.
  - cbn in *. apply NoDup_cons in Hd as [Hn _].
    destruct (required lookup m) as [v|e] eqn:Em; destruct (required lookup n) as [w|e'] eqn:En; cbn [mbind result_bind];
      rewrite ?Em, ?En; cbn [mbind result_bind]; [|by apply required_error in En as ->|by apply required_error in Em as ->|].
    + rewrite assign_comm; [done|]. set_solver.
    + apply required_error in En as ->. by apply required_error in Em as ->.
  - rewrite IH by done. apply IH'. by rewrite <-Hp.
Qed.

Lemma targets_order `{MapOrder} lookup c :
  Sink.load_required lookup (iterate Sink.targets) c = Sink.load_required lookup Sink.target_list c.
Proof.
  apply load_required_perm.
  - rewrite iterate_perm. apply map_to_list_to_map. apply (bool_decide_unpack _). by vm_compute.
  - unfold Sink.targets. rewrite iterate_perm, map_to_list_to_map; apply (bool_decide_unpack _); by vm_compute.
Qed.

Record sink_acceptable (c : Sink.Config) : Prop := {
  sink_texts : Forall trimmed [Sink.ListenAddress c; Sink.HealthListenAddress c; Sink.TrustDomain c; Sink.DatabaseURLFile c;
    Sink.TLSCertificateFile c; Sink.TLSPrivateKeyFile c; Sink.ClientCAFile c];
  sink_listeners : listeners_ok (Sink.ListenAddress c) (Sink.HealthListenAddress c);
  sink_trust : validSinkTrustDomain (Sink.TrustDomain c) = true;
  sink_shutdown : Second ≤ Sink.ShutdownTimeout c ≤ 5 * Minute;
  sink_database : 1 ≤ Sink.MaxDatabaseConns c ≤ 100;
  sink_network : 1 ≤ Sink.MaxNetworkConns c ≤ 10000
}.

Lemma sink_validate_ok c : sink_acceptable c → Sink.validateConfig c = Ok ().
Proof.
  intros [Ht Hl Htr Hs Hd Hn]. unfold Sink.validateConfig.
  rewrite !Forall_cons in Ht. destruct_and! Ht. unfold Minute, Second, Millisecond in *.
  rewrite !trimmed_nonempty by done. rewrite !(proj2 (Z.leb_gt _ _)) by lia. rewrite Htr. cbn [orb negb guard_err mbind result_bind].
  by apply listeners_spec in Hl as [-> ->].
Qed.

Lemma sink_load_acceptable `{MapOrder} lookup c : Sink.LoadConfig (Some lookup) = Ok c → sink_acceptable c.
Proof.
  unfold Sink.LoadConfig. cbn [of_option mbind result_bind]. rewrite targets_order. intros H0.
  apply bind_Ok in H0 as (base & Hbase & H0). cbn [Sink.load_required Sink.target_list] in Hbase.
  do 7 (apply bind_Ok in Hbase as (? & ?%required_trimmed & Hbase)). simplify_eq/=.
  do 3 (apply bind_Ok in H0 as (? & Hopt & H0); apply optional_range in Hopt; [|by vm_compute]; let r := fresh in rename Hopt into r).
  apply bind_Ok in H0 as ([] & Hv & [= <-]).
  unfold Sink.validateConfig in Hv. apply guard_bind in Hv as [Ht Hv]. apply guard_bind in Hv as [Hs Hv].
  apply guard_err_Ok in Hv. cbn [Sink.ListenAddress Sink.HealthListenAddress Sink.TrustDomain] in *. bool_facts.
  rewrite i32_small by lia.
  split; cbn; try (done || lia).
  - rewrite !Forall_cons. by split_and!.
  - by apply listeners_spec.
Qed.

Lemma sink_acceptable_loads `{MapOrder} c : sink_acceptable c → ∃ lookup, Sink.LoadConfig (Some lookup) = Ok c.
Proof.
  intros Hok. pose proof (sink_validate_ok c Hok) as Hv. destruct Hok as [Ht _ _ Hs Hd Hn].
  destruct c as [listen health trust url cert pkey ca shutdown dbs net].
  cbn -[Z.le] in *. rewrite !Forall_cons in Ht.
  repeat match goal with
  | H : trimmed _ ∧ _ |- _ => destruct H as [[? [? ?]] H]
  end. match goal with H : Forall _ [] |- _ => clear H end.
  match goal with
  | H1 : TrimSpace ?r1 = listen, H2 : TrimSpace ?r2 = health, H3 : TrimSpace ?r3 = trust, H4 : TrimSpace ?r4 = url,
    H5 : TrimSpace ?r5 = cert, H6 : TrimSpace ?r6 = pkey, H7 : TrimSpace ?r7 = ca |- _ =>
    exists (variables [
      ("PRAETOR_AUDIT_SINK_LISTEN_ADDRESS", r1); ("PRAETOR_AUDIT_SINK_HEALTH_LISTEN_ADDRESS", r2);
      ("PRAETOR_AUDIT_SINK_TRUST_DOMAIN", r3); ("PRAETOR_AUDIT_SINK_DATABASE_URL_FILE", r4);
      ("PRAETOR_AUDIT_SINK_TLS_CERTIFICATE_FILE", r5); ("PRAETOR_AUDIT_SINK_TLS_PRIVATE_KEY_FILE", r6);
      ("PRAETOR_AUDIT_SINK_CLIENT_CA_FILE", r7);
      ("PRAETOR_AUDIT_SINK_SHUTDOWN_TIMEOUT", duration_text shutdown);
      ("PRAETOR_AUDIT_SINK_MAX_DATABASE_CONNECTIONS", optional_text dbs);
      ("PRAETOR_AUDIT_SINK_MAX_NETWORK_CONNECTIONS", optional_text net)])
  end.
  unfold Sink.LoadConfig, Atoi. cbn [of_option mbind result_bind]. rewrite targets_order.
  cbn [Sink.load_required Sink.target_list].
  do 7 (erewrite required_found; [|reflexivity|eassumption|assumption]; cbn [mbind result_bind Sink.assign Sink.zero_config]).
  repeat (first [ erewrite optional_duration; [|reflexivity|by vm_compute|by vm_compute|eassumption]
                | erewrite optional_uint; [|reflexivity|by vm_compute|by vm_compute|eassumption] ]; cbn [mbind result_bind]).
  rewrite i32_small by lia. cbn [Sink.ListenAddress Sink.HealthListenAddress Sink.TrustDomain Sink.DatabaseURLFile
    Sink.TLSCertificateFile Sink.TLSPrivateKeyFile Sink.ClientCAFile]. by rewrite Hv.
Qed.

(** C40: the sink reads its required variables in the random order of a map
    iteration, and still answers the same in every order; what it can return is
    exactly the configurations within its bounds, whose trust domain its handler
    accepts. *)
Theorem sink_config_exact (MO MO' : MapOrder) :
  (∀ lookup, Sink.LoadConfig (H:=MO) lookup = Sink.LoadConfig (H:=MO') lookup) ∧
  (∀ c, (∃ lookup, Sink.LoadConfig (H:=MO) (Some lookup) = Ok c) ↔ sink_acceptable c) ∧
  (∀ lookup c, Sink.LoadConfig (H:=MO) lookup = Ok c → Sink.NewHandler (Sink.TrustDomain c) = Ok (Sink.TrustDomain c)).
Proof.
  assert (∀ lookup c, Sink.LoadConfig (H:=MO) lookup = Ok c → sink_acceptable c) as Hacc.
  { intros [lookup|] c Hc; [exact (sink_load_acceptable lookup c Hc)|discriminate Hc]. }
  split_and!.
  - intros [lookup|]; [|done]. unfold Sink.LoadConfig. cbn [of_option mbind result_bind]. by rewrite !targets_order.
  - intros c. split; [|apply sink_acceptable_loads]. intros [lookup Hc]. by eapply Hacc.
  - intros lookup c Hc%Hacc. unfold Sink.NewHandler. by rewrite (sink_trust c Hc).
Qed.

Module ConfigExample.
Definition sink_environment : environment := variables [
  ("PRAETOR_AUDIT_SINK_LISTEN_ADDRESS", " 0.0.0.0:9443 "); ("PRAETOR_AUDIT_SINK_HEALTH_LISTEN_ADDRESS", "127.0.0.1:9081");
  ("PRAETOR_AUDIT_SINK_TRUST_DOMAIN", "praetor.example"); ("PRAETOR_AUDIT_SINK_DATABASE_URL_FILE", "/run/db");
  ("PRAETOR_AUDIT_SINK_TLS_CERTIFICATE_FILE", "/run/crt"); ("PRAETOR_AUDIT_SINK_TLS_PRIVATE_KEY_FILE", "/run/key");
  ("PRAETOR_AUDIT_SINK_CLIENT_CA_FILE", "/run/ca"); ("PRAETOR_AUDIT_SINK_SHUTDOWN_TIMEOUT", "1m30s")].
Definition sink_config : Sink.Config := Sink.mkConfig "0.0.0.0:9443" "127.0.0.1:9081" "praetor.example" "/run/db"
  "/run/crt" "/run/key" "/run/ca" (90 * Second) 10 100.

Definition app_environment : environment := variables [
  ("PRAETOR_SECRETS_LISTEN_ADDRESS", ":8443"); ("PRAETOR_SECRETS_HEALTH_LISTEN_ADDRESS", ":8081");
  ("PRAETOR_SECRETS_TRUST_DOMAIN", "praetor.example"); ("PRAETOR_SECRETS_DATABASE_URL_FILE", "/run/db");
  ("PRAETOR_SECRETS_MASTER_KEY_FILE", "/run/master"); ("PRAETOR_SECRETS_AUDIT_KEY_FILE", "/run/audit");
  ("PRAETOR_SECRETS_TLS_CERTIFICATE_FILE", "/run/crt"); ("PRAETOR_SECRETS_TLS_PRIVATE_KEY_FILE", "/run/key");
  ("PRAETOR_SECRETS_CLIENT_CA_FILE", "/run/ca"); ("PRAETOR_SECRETS_AUDIT_SINK_URL", "https://sink");
  ("PRAETOR_SECRETS_AUDIT_SINK_CA_FILE", "/run/sca"); ("PRAETOR_SECRETS_AUDIT_SINK_CERTIFICATE_FILE", "/run/scrt");
  ("PRAETOR_SECRETS_AUDIT_SINK_PRIVATE_KEY_FILE", "/run/skey"); ("PRAETOR_SECRETS_MAX_DATABASE_CONNECTIONS", "+7")].
Definition app_config : App.Config := App.mkConfig ":8443" ":8081" "praetor.example" "/run/db" "/run/master" "/run/audit" ""
  "/run/crt" "/run/key" "/run/ca" "https://sink" "/run/sca" "/run/scrt" "/run/skey" (20 * Second) 7 100 100000 100 Second (5 * Second).

Example app_loads : App.LoadConfig (Some app_environment) = Ok app_config.
Proof. by vm_compute. Qed.
Example app_bad_domain : validTrustDomain "Praetor.example" = false ∧ validTrustDomain "a..b" = false ∧
  validTrustDomain "-a.b" = false ∧ validTrustDomain "a-b.c1" = true.
Proof. by vm_compute. Qed.
End ConfigExample.

Lemma sink_config_loads : Sink.LoadConfig (H:=reverse_order) (Some ConfigExample.sink_environment) = Ok ConfigExample.sink_config.
Proof. by vm_compute. Qed.

Lemma sink_config_exact_witness :
  Sink.LoadConfig (H:=canonical_order) (Some ConfigExample.sink_environment) = Ok ConfigExample.sink_config ∧
  Sink.NewHandler "praetor.example" = Ok "praetor.example".
Proof.
  destruct (sink_config_exact reverse_order canonical_order) as (Hsame & _ & Haccepted). split.
  - rewrite <-Hsame. exact sink_config_loads.
  - exact (Haccepted _ _ sink_config_loads).
Defined.
