(* ===== verification/Responses.v ===== *)
(** * The bodies of answers (writeJSON and writeProblem of src/transport/server.go)

    What [Server] decides to answer as bytes: [json.NewEncoder] writes one
    document and a newline, or nothing when a value cannot be encoded, which
    happens only to instants outside the years 0 to 9999.  Instants are in UTC.
    Map keys are in byte order. *)

From Stdlib Require Import Ascii.
From S2P Require Import Prelude GoStrings Json GoTime TimeParse JsonValue Crypto Envelope Credential AuditEvent Spool Wire Storage Identity Delivery Server.

(** ** Values *)

(** [time.Time], when it can be written. *)
Definition time_value (t : time) : option json :=
  _ ← json_time t 0; Some (json_text (Format_RFC3339Nano t 0)).

Definition entry_le {A} (x y : string * A) : Prop := String.le x.1 y.1.
#[export] Instance entry_le_dec {A} : RelDecision (entry_le (A:=A)) := λ x y, String.le_dec x.1 y.1.
(** [map[string]T], by key. *)
Definition map_value {A} (value : A → json) (m : gmap string A) : json :=
  JObj (prod_map id value <$> merge_sort entry_le (map_to_list m)).

(** A member with [omitempty] whose value may be empty. *)
Definition unless (empty : bool) (name : string) (v : json) : list (string * json) :=
  if empty then [] else [(name, v)].

Definition binding_state_string (st : BindingState) : string :=
  match st with
  | BindingPending => "pending" | BindingActive => "active" | BindingCanceled => "canceled"
  | BindingExpired => "expired" | BindingExhausted => "exhausted"
  end.
Definition rotation_state_string (st : RotationState) : string :=
  match st with
  | RotationPending => "pending" | RotationRunning => "running" | RotationReady => "ready" | RotationFinalized => "finalized"
  end.

Definition metadata_value (m : Metadata) : option json :=
  _ ← time_value (mCreatedAt m); _ ← time_value (mUpdatedAt m); Some (JObj (metadata_members m)).

Definition binding_value (b : Binding) : option json :=
  notBefore ← time_value (bdNotBefore b); expires ← time_value (bdExpiresAt b);
  created ← time_value (bdCreatedAt b); updated ← time_value (bdUpdatedAt b);
  Some (JObj ([("run_id", json_text (bdRunID b)); ("dispatch_id", json_text (bdDispatchID b));
    ("organization_id", json_text (bdOrganizationID b)); ("credential_id", json_text (bdCredentialID b));
    ("credential_version", json_number (bdCredentialVersion b)); ("executor_identity", json_text (bdExecutorIdentity b));
    ("state", json_text (binding_state_string (bdState b))); ("not_before", notBefore); ("expires_at", expires);
    ("max_resolutions", json_number (bdMaxResolutions b)); ("resolution_count", json_number (bdResolutionCount b));
    ("created_at", created); ("updated_at", updated)] ++
    unless (String.eqb (bdCancelReason b) "") "cancel_reason" (json_text (bdCancelReason b)))).

Definition file_value (f : ResolvedFile) : json :=
  JObj [("name", json_text (rfName f)); ("mode", json_text (rfMode f)); ("content", json_text (rfContent f))].
Definition resolved_value (c : ResolvedCredential) : option json :=
  expires ← time_value (rcExpiresAt c);
  Some (JObj ([("run_id", json_text (rcRunID c)); ("attempt_id", json_text (rcAttemptID c)); ("expires_at", expires)] ++
    unless (bool_decide (rcEnvironment c = ∅)) "environment" (map_value json_text (rcEnvironment c)) ++
    unless (bool_decide (rcFiles c = [])) "files" (JArr (file_value <$> rcFiles c)))).

(** [omitempty] does not leave out a structure such as an instant. *)
Definition rotation_value (r : Rotation) : option json :=
  created ← time_value (roCreatedAt r); updated ← time_value (roUpdatedAt r); finalized ← time_value (roFinalizedAt r);
  Some (JObj [("id", json_text (roID r)); ("source_key_id", json_text (roSourceKeyID r));
    ("target_key_id", json_text (roTargetKeyID r)); ("state", json_text (rotation_state_string (roState r)));
    ("total_records", json_number (roTotalRecords r)); ("processed_records", json_number (roProcessedRecords r));
    ("created_at", created); ("updated_at", updated); ("finalized_at", finalized)]).

Definition key_status_value (k : KeyStatus) : option json :=
  active ← match ksActiveRotation k with None => Some [] | Some r => v ← rotation_value r; Some [("active_rotation", v)] end;
  Some (JObj ([("current_key_id", json_text (ksCurrentKeyID k))] ++
    unless (String.eqb (ksPreviousKeyID k) "") "previous_key_id" (json_text (ksPreviousKeyID k)) ++
    [("record_counts", map_value json_number (ksRecordCounts k))] ++ active ++
    [("database_references_cleared", JBool (ksDatabaseReferencesCleared k));
     ("retained_backup_references", map_value json_number (ksRetainedBackupReferences k));
     ("backup_references_cleared", JBool (ksBackupReferencesCleared k))])).

Definition recovery_value (v : RecoveryValidation) : option json :=
  completed ← time_value (rvCompletedAt v);
  Some (JObj [("validated_records", json_number (rvValidatedRecords v)); ("total_records", json_number (rvTotalRecords v));
    ("key_counts", map_value json_number (rvKeyCounts v)); ("metadata_sha256", json_text (rvMetadataSHA256 v));
    ("completed_at", completed)]).

Definition backup_value (b : BackupSet) : option json :=
  created ← time_value (buCreatedAt b); retain ← time_value (buRetainUntil b); expired ← time_value (buExpiredAt b);
  Some (JObj [("id", json_text (buID b)); ("artifact_sha256", json_text (buArtifactSHA256 b));
    ("key_ids", strings_value (buKeyIDs b)); ("created_at", created); ("retain_until", retain); ("expired_at", expired)]).

Definition status_value (s : SecurityStatus) : option json :=
  delivered ← time_value (LastAuditDelivery s);
  Some (JObj [("audit_integrity_healthy", JBool (AuditIntegrityHealthy s));
    ("audit_delivery_degraded", JBool (AuditDeliveryDegraded s)); ("pending_audit_events", json_number (PendingAuditEvents s));
    ("maximum_pending_audit_events", json_number (MaximumPendingAuditEvents s)); ("last_audit_delivery", delivered)]).

Definition problem_value (requestID : string) (status : Z) (code : string) : json :=
  JObj [("code", json_text code); ("status", json_number status); ("request_id", json_text requestID)].

(** The document of an answer; [None] for a value that cannot be encoded. *)
Definition payload_value (requestID : string) (x : response) : option json :=
  match rpPayload x with
  | PProblem code => Some (problem_value requestID (rpStatus x) code)
  | PMetadata m => metadata_value m
  | PBinding b => binding_value b
  | PResolved c => resolved_value c
  | PRotation r => rotation_value r
  | PKeyStatus k => key_status_value k
  | PRecovery v => recovery_value v
  | PBackup b => backup_value b
  | PSecurityStatus s => status_value s
  | PNone => None
  end.
Definition response_body (requestID : string) (x : response) : string :=
  match payload_value requestID x with Some v => render v +:+ newline | None => "" end.

(** ** Encodable answers *)

Lemma time_value_printable t : printable_time t → time_value t = Some (json_text (Format_RFC3339Nano t 0)).
Proof. intros Ht. unfold time_value. by rewrite json_time_utc. Qed.

Lemma time_text_printable t : printable (json_text (Format_RFC3339Nano t 0)).
Proof. split; [apply format_utf8|done]. Qed.
Lemma text_printable s : valid_utf8 s = true → printable (json_text s).
Proof. by split. Qed.

Lemma sorted_entries_eq m : merge_sort entry_le (map_to_list m) = sorted_entries m.
Proof. done. Qed.

Lemma add_members_texts m l : add_members m (prod_map id json_text <$> l) = Some (insert_all m l).
Proof. revert m. induction l as [|[k v] l IH]; intros m; [done|]. apply IH. Qed.
Lemma as_string_map_value m : as_string_map (map_value json_text m) ∅ = Some m.
Proof. cbn [as_string_map map_value]. rewrite sorted_entries_eq, add_members_texts. by rewrite insert_all_entries. Qed.
