(* ===== verification/Files.v ===== *)
(** * Files at startup (src/app/runtime.go, src/audit/spool.go)

    How the processes read what they are configured with, over the file system
    of [MasterKey]: texts and keys from private regular files, certificates from
    files of bounded size.  Certificates themselves belong to the x509 library. *)

From Stdlib Require Import Ascii.
From S2P Require Import Prelude GoStrings GoTime TimeParse JsonValue Crypto Envelope MasterKey AuditEvent Spool.

(** ** crypto/x509 and crypto/tls

    Whether a PEM bundle holds a certificate; the certificates of a chain and
    its key, when they match; the validity of a certificate, when it parses. *)
Class X509 : Type := {
  AppendCertsFromPEM : string → bool;
  X509KeyPair : string → string → option (list string);
  ParseCertificate : string → option (time * time)
}.

Section Files.
Implicit Types (fs : gmap string file) (path : string).

(** [os.ReadFile]. *)
Definition ReadFile fs path : option string :=
  f ← fs !! path; if fFault f then None else Some (fContent f).
Definition LoadX509KeyPair `{X509} fs (certificate key : string) : option (list string) :=
  c ← ReadFile fs certificate; k ← ReadFile fs key; X509KeyPair c k.

(** [None] is [ErrStartup].  A reader limited to one byte more than the
    maximum never reaches a fault beyond it. *)
Definition readBounded fs path (maximum : Z) : option string :=
  f ← fs !! path;
  if maximum <? len (fContent f) then None
  else if fFault f then None else Some (fContent f).

Definition requireRestrictedFile fs path : bool :=
  match fs !! path with
  | None => false
  | Some f => match fInfo f with None => false | Some (regular, perm) => regular && (Z.land perm 0x3F =? 0) end
  end.

Definition readRestrictedText fs path (maximum : Z) : option string :=
  if negb (requireRestrictedFile fs path) then None
  else
    value ← readBounded fs path maximum;
    let text := TrimSpace value in
    if String.eqb text "" || contains_byte (zb 0) text then None else Some text.

(** [audit.LoadKey]. *)
Definition LoadKey fs path : result AuditError string :=
  f ← of_option ErrAudit (fs !! path);
  info ← of_option ErrAudit (fInfo f);
  _ ← guard_err (negb info.1 || negb (Z.land info.2 0x3F =? 0)) ErrAudit;
  match ReadFull f 33 with
  | (_, Some EOF) | (_, Some ErrIO) => Err ErrAudit
  | (count, _) =>
      _ ← guard_err (negb (count =? 32)%nat) ErrAudit;
      _ ← guard_err (negb (match fAgain f with ReadEOF => true | _ => false end)) ErrAudit;
      Ok (take_str 32 (fContent f))
  end.
End Files.

(** ** What is accepted *)

(** A private regular file with the given content, read without a fault. *)
Definition private_file (fs : gmap string file) (path content : string) : Prop :=
  ∃ f perm, fs !! path = Some f ∧ fInfo f = Some (true, perm) ∧ Z.land perm 0x3F = 0 ∧ fContent f = content ∧ fFault f = false.

Lemma requireRestrictedFile_true fs path :
  requireRestrictedFile fs path = true ↔ ∃ f perm, fs !! path = Some f ∧ fInfo f = Some (true, perm) ∧ Z.land perm 0x3F = 0.
Proof.
  unfold requireRestrictedFile. split.
  - destruct (fs !! path) as [f|]; [|done]. destruct (fInfo f) as [[[] perm]|] eqn:E; [|done..]. intros H. bool_facts. eauto.
  - intros (f & perm & -> & -> & ->). done.
Qed.

Lemma readBounded_Some fs path maximum s :
  readBounded fs path maximum = Some s ↔
  ∃ f, fs !! path = Some f ∧ fContent f = s ∧ fFault f = false ∧ len s ≤ maximum.
Proof.
  unfold readBounded. split.
  - destruct (fs !! path) as [f|]; [|done]. cbn [mbind option_bind]. case_match eqn:Hl; [done|]. case_match; [done|].
    intros [= <-]. bool_facts. eauto.
  - intros (f & -> & <- & Hf & Hl). cbn [mbind option_bind]. by rewrite (proj2 (Z.ltb_ge _ _)), Hf.
Qed.

Lemma readRestrictedText_Some fs path maximum text :
  readRestrictedText fs path maximum = Some text ↔
  ∃ content, private_file fs path content ∧ len content ≤ maximum ∧
    TrimSpace content = text ∧ text ≠ "" ∧ contains_byte (zb 0) text = false.
Proof.
  unfold readRestrictedText. split.
  - destruct (requireRestrictedFile fs path) eqn:Hr; [|done]. apply requireRestrictedFile_true in Hr as (f & perm & Hf & Hi & Hp).
    cbn [negb]. destruct (readBounded _ _ _) as [s|] eqn:Hb; [|done]. apply readBounded_Some in Hb as (f' & Hf' & Hc & Hn & Hl).
    cbn [mbind option_bind]. cbv zeta. case_match eqn:He; [done|]. intros [= <-]. bool_facts. simplify_eq.
    exists (fContent f). split_and!; [|done..]. exists f, perm. done.
  - intros (content & (f & perm & Hf & Hi & Hp & Hc & Hn) & Hl & <- & Hne & Hz).
    rewrite (proj2 (requireRestrictedFile_true fs path)) by eauto. cbn [negb].
    rewrite (proj2 (readBounded_Some fs path maximum content)) by eauto. cbn [mbind option_bind]. cbv zeta.
    by rewrite Hz, (proj2 (String.eqb_neq _ _) Hne).
Qed.

Lemma LoadKey_Ok fs path key :
  LoadKey fs path = Ok key ↔ len key = 32 ∧ private_file fs path key ∧ ∃ f, fs !! path = Some f ∧ fAgain f = ReadEOF.
Proof.
  assert (∀ f, String.length (fContent f) = 32%nat → take_str 32 (fContent f) = fContent f) as Hraw.
  { intros f Hl. rewrite <-Hl. pose proof (take_str_app (fContent f) "") as Ht. by rewrite app_nil_r_str in Ht. }
  unfold LoadKey. rewrite of_option_bind. setoid_rewrite of_option_bind. repeat setoid_rewrite guard_bind. split.
  - intros (f & Hf & [reg perm] & Hi & Hg & Hr). cbn [fst snd] in Hg. bool_prop. destruct Hg as [Hreg Hperm]. subst reg.
    unfold ReadFull in Hr. destruct (33 <=? _)%nat eqn:Hle; [by destruct f|]. destruct (fFault f) eqn:Hfault; [done|].
    destruct (String.length (fContent f) =? 0)%nat eqn:H0; [done|].
    apply guard_bind in Hr as [Hlen Hr]. apply guard_bind in Hr as [Hag Hr].
    assert (key = take_str 32 (fContent f)) as -> by congruence. clear Hr. bool_prop. apply Nat.eqb_eq in Hlen.
    rewrite Hraw by done. split; [unfold len; lia|]. split; [exists f, perm; done|]. exists f. split; [done|]. by destruct (fAgain f).
  - intros (Hl & (f & perm & Hf & Hi & Hp & Hc & Hn) & (f' & Hf' & Ha)). simplify_eq. exists f. split; [done|].
    exists (true, perm). split; [done|]. cbn [fst snd]. rewrite Hp. split; [done|].
    assert (String.length (fContent f) = 32%nat) as Hlen by (unfold len in Hl; lia).
    unfold ReadFull. rewrite Hlen, Hn, Ha.
    cbn [Nat.leb Nat.eqb guard_err negb mbind result_bind]. by rewrite Hraw.
Qed.
