(* ===== verification/Client.v ===== *)
(** * The client library (src/client/client.go)

    The workloads' client: what each operation sends, and what it makes of the
    reply.  [send] is the HTTP client underneath: it takes a request to a reply,
    or to none, and changes the world.  A parsed base URL is given by its parts;
    [bodies] are [json.Marshal] of the request structures.  The methods return a
    partly assigned result beside an error; the model drops it. *)

From Stdlib Require Import Ascii.
From S2P Require Import Prelude GoStrings Json GoTime TimeParse JsonValue Crypto Envelope MasterKey Credential AuditEvent Spool Wire Storage Identity Delivery Server Responses Files.

Definition maxResponseBytes : Z := 1048576.

Inductive ClientError : Type :=
| ErrConfiguration
| ErrUnavailable
| Problem (status : Z) (code : string).
#[export] Instance ClientError_eq_dec : EqDecision ClientError.
Proof. solve_decision. Defined.

(** ** New *)

(** [url.Parse] of the base URL, and the prefix [String] makes of it once the
    path is cleared: [ForceQuery] is an URL that ends in a question mark. *)
Record base_url : Type := mkBase {
  buScheme : string; buHost : string; buUser : bool; buPath : string; buRawQuery : string; buFragment : string;
  buForceQuery : bool
}.
Definition base_string (u : base_url) : string :=
  buScheme u +:+ "://" +:+ buHost u +:+ (if buForceQuery u then "?" else "").

Record Config : Type := mkConfig {
  BaseURL : option base_url; CAFile : string; CertificateFile : string; PrivateKeyFile : string; Timeout : duration
}.
Record Client : Type := mkClient { base : string; certificates : list string; timeout : duration }.

Definition New `{X509} (fs : gmap string file) (config : Config) : result ClientError Client :=
  u ← of_option ErrConfiguration (BaseURL config);
  _ ← guard_err (negb (String.eqb (buScheme u) "https") || String.eqb (buHost u) "" || buUser u ||
        negb (String.eqb (buRawQuery u) "") || negb (String.eqb (buFragment u) "") ||
        (negb (String.eqb (buPath u) "") && negb (String.eqb (buPath u) "/")) || String.eqb (CAFile config) "" ||
        String.eqb (CertificateFile config) "" || String.eqb (PrivateKeyFile config) "" ||
        (Timeout config <? Second) || (Minute <? Timeout config)) ErrConfiguration;
  caPEM ← of_option ErrConfiguration (ReadFile fs (CAFile config));
  _ ← guard_err (negb (AppendCertsFromPEM caPEM)) ErrConfiguration;
  certificate ← of_option ErrConfiguration (LoadX509KeyPair fs (CertificateFile config) (PrivateKeyFile config));
  Ok (mkClient (base_string u) certificate (Timeout config)).

(** ** Requests and replies *)

(** [url.PathEscape]. *)
Definition path_safe (a : ascii) : bool :=
  in_range 97 122 (bz a) || in_range 65 90 (bz a) || in_range 48 57 (bz a) || contains_byte a "-_.~$&+=:@".
Definition upper_hex (z : Z) : ascii := if z <? 10 then zb (48 + z) else zb (55 + z).
Fixpoint PathEscape (s : string) : string :=
  match s with
  | "" => ""
  | String a s' =>
      if path_safe a then String a (PathEscape s')
      else String "%" (String (upper_hex (bz a / 16)) (String (upper_hex (bz a `mod` 16)) (PathEscape s')))
  end.

Record outgoing : Type := mkOutgoing { oMethod : string; oURL : string; oHeaders : gmap string string; oBody : string }.
(** No reply, or a status and a body, which may fail to be read. *)
Inductive reply : Type := NoReply | Reply (status : Z) (body : option string).

(** The loop over the extra headers. *)
Fixpoint set_headers (extra : list (string * string)) (h : gmap string string) : option (gmap string string) :=
  match extra with
  | [] => Some h
  | (name, value) :: extra' =>
      if ContainsAny value (String (zb 13) (String (zb 10) "")) then None else set_headers extra' (<[name := value]> h)
  end.

(** [json.Unmarshal] into a variable, which allows unknown and repeated members. *)
Definition Unmarshal {A} (read : reader_of A) (zero : A) (body : string) : option A :=
  v ← parse_document body; read v zero.

Definition problem_code (body : string) : string :=
  match Unmarshal (as_struct (λ l old, field as_string "code" old l)) "" body with
  | None => "request_failed"
  | Some code => if String.eqb code "" || (128 <? len code) then "request_failed" else code
  end.

(** The part of [do] after the request. *)
Definition receive {A} (read : reader_of A) (zero : A) (expectedStatus : Z) (r : reply) : result ClientError A :=
  match r with
  | NoReply => Err ErrUnavailable
  | Reply status body =>
      match body with
      | None => Err (Problem status "invalid_response")
      | Some text =>
          if maxResponseBytes <? len text then Err (Problem status "invalid_response")
          else if negb (status =? expectedStatus) then Err (Problem status (problem_code text))
          else of_option (Problem status "invalid_response") (Unmarshal read zero text)
      end
  end.

Section Do.
Context `{MO : MapOrder} {W : Type} (send : outgoing → W → reply * W).

(** From the headers on: the request, the reply. *)
Definition transmit {A} (client : Client) (method path encoded : string) (fixed headers : gmap string string)
    (read : reader_of A) (zero : A) (expectedStatus : Z) (w : W) : result ClientError A * W :=
  match set_headers (iterate headers) fixed with
  | None => (Err ErrConfiguration, w)
  | Some h =>
      let '(r, w') := send (mkOutgoing method (base client +:+ path) h encoded) w in
      (receive read zero expectedStatus r, w')
  end.

(** [http.NewRequest] does not fail here: the methods are tokens, and the URL is
    the string of a parsed one with an escaped path.
    [body] is [None] for a nil body, and holds [None] when [json.Marshal] fails. *)
Definition do {A} (client : Client) (method path : string) (body : option (option json)) (headers : gmap string string)
    (read : reader_of A) (zero : A) (expectedStatus : Z) (w : W) : result ClientError A * W :=
  let fixed := <["Accept" := "application/json"]> ∅ in
  match body with
  | None => transmit client method path "" fixed headers read zero expectedStatus w
  | Some None => (Err ErrConfiguration, w)
  | Some (Some v) =>
      transmit client method path (render v) (<["Content-Type" := "application/json"]> fixed) headers read zero expectedStatus w
  end.
End Do.

(** ** What is read *)

(** The states are strings to the client. *)
Record MetadataView : Type := mkMetadataView {
  mvID : string; mvOrganizationID : string; mvName : string; mvCredentialType : string; mvSchemaVersion : Z;
  mvVersion : Z; mvState : string; mvSecretFields : list string; mvCreatedAt : time; mvUpdatedAt : time
}.
Record BindingView : Type := mkBindingView {
  bvRunID : string; bvDispatchID : string; bvOrganizationID : string; bvCredentialID : string; bvCredentialVersion : Z;
  bvExecutorIdentity : string; bvState : string; bvNotBefore : time; bvExpiresAt : time; bvMaxResolutions : Z;
  bvResolutionCount : Z; bvCreatedAt : time; bvUpdatedAt : time; bvCancelReason : string
}.

Definition read_metadata_view : reader_of MetadataView := as_struct (λ l old,
  id ← field as_string "id" (mvID old) l;
  organization ← field as_string "organization_id" (mvOrganizationID old) l;
  name ← field as_string "name" (mvName old) l;
  type ← field as_string "credential_type" (mvCredentialType old) l;
  schema ← field (as_uint 32) "schema_version" (mvSchemaVersion old) l;
  version ← field (as_uint 64) "version" (mvVersion old) l;
  state ← field as_string "state" (mvState old) l;
  fields ← field as_strings "secret_fields" (mvSecretFields old) l;
  created ← field as_time "created_at" (mvCreatedAt old) l;
  updated ← field as_time "updated_at" (mvUpdatedAt old) l;
  Some (mkMetadataView id organization name type schema version state fields created updated)).
Definition no_metadata : MetadataView := mkMetadataView "" "" "" "" 0 0 "" [] zero_time zero_time.

Definition read_binding_view : reader_of BindingView := as_struct (λ l old,
  run ← field as_string "run_id" (bvRunID old) l;
  dispatch ← field as_string "dispatch_id" (bvDispatchID old) l;
  organization ← field as_string "organization_id" (bvOrganizationID old) l;
  credential ← field as_string "credential_id" (bvCredentialID old) l;
  version ← field (as_uint 64) "credential_version" (bvCredentialVersion old) l;
  executor ← field as_string "executor_identity" (bvExecutorIdentity old) l;
  state ← field as_string "state" (bvState old) l;
  notBefore ← field as_time "not_before" (bvNotBefore old) l;
  expires ← field as_time "expires_at" (bvExpiresAt old) l;
  maximum ← field (as_uint 32) "max_resolutions" (bvMaxResolutions old) l;
  count ← field (as_uint 32) "resolution_count" (bvResolutionCount old) l;
  created ← field as_time "created_at" (bvCreatedAt old) l;
  updated ← field as_time "updated_at" (bvUpdatedAt old) l;
  reason ← field as_string "cancel_reason" (bvCancelReason old) l;
  Some (mkBindingView run dispatch organization credential version executor state notBefore expires maximum count created
          updated reason)).
Definition no_binding_view : BindingView := mkBindingView "" "" "" "" 0 "" "" zero_time zero_time 0 0 zero_time zero_time "".

Definition read_file : reader_of ResolvedFile := as_struct (λ l old,
  name ← field as_string "name" (rfName old) l;
  mode ← field as_string "mode" (rfMode old) l;
  content ← field as_string "content" (rfContent old) l;
  Some (mkFileOut name mode content)).
Definition read_files : reader_of (list ResolvedFile) := λ v old,
  match v with JNull => Some [] | JArr l => elements read_file (mkFileOut "" "" "") old l | _ => None end.
Definition read_resolved : reader_of ResolvedCredential := as_struct (λ l old,
  run ← field as_string "run_id" (rcRunID old) l;
  attempt ← field as_string "attempt_id" (rcAttemptID old) l;
  expires ← field as_time "expires_at" (rcExpiresAt old) l;
  environment ← field as_string_map "environment" (rcEnvironment old) l;
  files ← field read_files "files" (rcFiles old) l;
  Some (mkResolved run attempt expires environment files)).
Definition no_resolved : ResolvedCredential := mkResolved "" "" zero_time ∅ [].

(** ** The operations *)

Record Actor : Type := mkClientActor { UserID : string; Username : string; AuthorizationDecisionID : string }.
Definition actor_value (a : Actor) : json :=
  JObj ([("user_id", json_text (UserID a))] ++
    unless (String.eqb (Username a) "") "username" (json_text (Username a)) ++
    unless (String.eqb (AuthorizationDecisionID a) "") "authorization_decision_id" (json_text (AuthorizationDecisionID a))).

(** An instant in its zone. *)
Definition zoned_value (t : time) (z : Z) : option json :=
  _ ← json_time t z; Some (json_text (Format_RFC3339Nano t z)).

Definition create_body (q : CreateRequest) (a : Actor) : json :=
  JObj [("organization_id", json_text (crOrganizationID q)); ("name", json_text (crName q));
    ("credential_type", json_text (crCredentialType q)); ("schema_version", json_number (crSchemaVersion q));
    ("inputs", map_value json_text (crInputs q)); ("actor", actor_value a)].
Definition replace_body (q : ReplaceInputsRequest) (a : Actor) : json :=
  JObj [("expected_version", json_number (riExpectedVersion q)); ("inputs", map_value json_text (riInputs q));
    ("actor", actor_value a)].
Definition update_body (q : UpdateMetadataRequest) (a : Actor) : json :=
  JObj [("expected_version", json_number (umExpectedVersion q)); ("name", json_text (umName q)); ("actor", actor_value a)].
Definition retire_body (q : RetireRequest) (a : Actor) : json :=
  JObj [("expected_version", json_number (rtExpectedVersion q)); ("actor", actor_value a)].
Definition register_body (q : RegisterBindingRequest) : option json :=
  notBefore ← zoned_value (rbNotBefore q) (rbNotBeforeZone q);
  expires ← zoned_value (rbExpiresAt q) (rbExpiresAtZone q);
  Some (JObj [("run_id", json_text (rbRunID q)); ("dispatch_id", json_text (rbDispatchID q));
    ("organization_id", json_text (rbOrganizationID q)); ("credential_id", json_text (rbCredentialID q));
    ("executor_identity", json_text (rbExecutorIdentity q)); ("not_before", notBefore); ("expires_at", expires);
    ("max_resolutions", json_number (rbMaxResolutions q))]).
Definition cancel_body (q : CancelBindingRequest) : json :=
  JObj [("dispatch_id", json_text (cbDispatchID q)); ("reason", json_text (cbReason q))].
Definition resolve_body (q : ResolveRequest) : option json :=
  requested ← time_value (rsRequestedAt q);
  Some (JObj [("attempt_id", json_text (rsAttemptID q)); ("requested_at", requested)]).

Definition organization_header (organization : string) : gmap string string :=
  {[ "X-Praetor-Organization-ID" := organization ]}.
Definition idempotency_header (key : string) : gmap string string := {[ "Idempotency-Key" := key ]}.

Section Operations.
Context `{MO : MapOrder} {W : Type} (send : outgoing → W → reply * W) (client : Client).

(** The request structures of the client are those of the service and the actor. *)
Definition CreateCredential (q : CreateRequest) (a : Actor) : W → result ClientError MetadataView * W :=
  do send client "POST" "/internal/v1/credentials" (Some (Some (create_body q a))) (idempotency_header (crIdempotencyKey q))
    read_metadata_view no_metadata 201.
Definition GetCredential (organizationID credentialID : string) : W → result ClientError MetadataView * W :=
  do send client "GET" ("/internal/v1/credentials/" +:+ PathEscape credentialID) None (organization_header organizationID)
    read_metadata_view no_metadata 200.
Definition ReplaceInputs (q : ReplaceInputsRequest) (a : Actor) : W → result ClientError MetadataView * W :=
  do send client "PUT" ("/internal/v1/credentials/" +:+ PathEscape (riCredentialID q) +:+ "/inputs")
    (Some (Some (replace_body q a))) (organization_header (riOrganizationID q)) read_metadata_view no_metadata 200.
Definition UpdateMetadata (q : UpdateMetadataRequest) (a : Actor) : W → result ClientError MetadataView * W :=
  do send client "PATCH" ("/internal/v1/credentials/" +:+ PathEscape (umCredentialID q))
    (Some (Some (update_body q a))) (organization_header (umOrganizationID q)) read_metadata_view no_metadata 200.
Definition RetireCredential (q : RetireRequest) (a : Actor) : W → result ClientError MetadataView * W :=
  do send client "POST" ("/internal/v1/credentials/" +:+ PathEscape (rtCredentialID q) +:+ "/retire")
    (Some (Some (retire_body q a))) (organization_header (rtOrganizationID q)) read_metadata_view no_metadata 200.
Definition RegisterBinding (q : RegisterBindingRequest) : W → result ClientError BindingView * W :=
  do send client "POST" "/internal/v1/run-bindings" (Some (register_body q)) (idempotency_header (rbIdempotencyKey q))
    read_binding_view no_binding_view 201.
Definition CancelBinding (q : CancelBindingRequest) : W → result ClientError BindingView * W :=
  do send client "POST" ("/internal/v1/run-bindings/" +:+ PathEscape (cbRunID q) +:+ "/cancel")
    (Some (Some (cancel_body q))) ∅ read_binding_view no_binding_view 200.
Definition Resolve (q : ResolveRequest) : W → result ClientError ResolvedCredential * W :=
  do send client "POST" ("/internal/v1/runs/" +:+ PathEscape (rsRunID q) +:+ "/credential:resolve")
    (Some (resolve_body q)) ∅ read_resolved no_resolved 200.
End Operations.

(** ** Errors *)

Lemma problem_code_bounded body : 0 < len (problem_code body) ≤ 128.
Proof.
  unfold problem_code. destruct (Unmarshal _ _ _) as [code|]; [|vm_compute; split; congruence].
  case_match eqn:E; [vm_compute; split; congruence|]. bool_facts. pose proof (len_zero code). pose proof (len_nonneg code).
  split; [|lia]. destruct (decide (len code = 0)); [tauto|lia].
Qed.

Lemma receive_Ok {A} (read : reader_of A) zero expected r a :
  receive read zero expected r = Ok a ↔
  ∃ body, r = Reply expected (Some body) ∧ len body ≤ maxResponseBytes ∧ Unmarshal read zero body = Some a.
Proof.
  split.
  - destruct r as [|status [body|]]; cbn [receive]; [done| |done]. case_match eqn:Hl; [done|]. case_match eqn:Hs; [done|].
    bool_facts. subst. intros Hu. apply of_option_Ok in Hu. eauto.
  - intros (body & -> & Hl & Hu). cbn [receive]. rewrite (proj2 (Z.ltb_ge _ _)), Z.eqb_refl, Hu by done. done.
Qed.

Lemma set_headers_None l h :
  set_headers l h = None → ∃ n v, (n, v) ∈ l ∧ ContainsAny v (String (zb 13) (String (zb 10) "")) = true.
Proof.
  revert h. induction l as [|[n v] l IH]; intros h; [done|]. cbn [set_headers]. case_match eqn:Hv.
  - intros _. exists n, v. split; [apply list_elem_of_here|done].
  - intros (n' & v' & Hin & Hb)%IH. exists n', v'. split; [by apply list_elem_of_further|done].
Qed.
Lemma set_headers_Some l h h' :
  NoDup l.*1 → set_headers l h = Some h' → ∀ n, h' !! n = match (list_to_map l : gmap string string) !! n with Some v => Some v | None => h !! n end.
Proof.
  revert h. induction l as [|[n v] l IH]; intros h Hd; cbn [set_headers]; [by intros [= <-] n|].
  case_match; [done|]. apply NoDup_cons in Hd as [Hn Hd]. cbn [fst] in Hn. intros Hs k. rewrite (IH _ Hd Hs). cbn [list_to_map foldr fst snd].
  change (foldr _ _ l) with (list_to_map l : gmap string string).
  destruct (decide (n = k)) as [<-|Hne].
  - rewrite lookup_insert_eq. apply not_elem_of_list_to_map_1 in Hn. change (fst <$> l) with (l.*1) in Hn. rewrite Hn. by rewrite lookup_insert_eq.
  - by rewrite !lookup_insert_ne.
Qed.

(** What a call makes of a reply [r]: its answer on exactly the replies that
    are expected, short and decode, and on every other reply the one error. *)
Definition reply_outcome {A} (read : reader_of A) (zero : A) (expected : Z) (r : reply) (result : result ClientError A) : Prop :=
  (∀ a, result = Ok a ↔
    ∃ text, r = Reply expected (Some text) ∧ len text ≤ maxResponseBytes ∧ Unmarshal read zero text = Some a) ∧
  (result = Err ErrUnavailable ↔ r = NoReply) ∧ result ≠ Err ErrConfiguration ∧
  (∀ status code, result = Err (Problem status code) → 0 < len code ≤ 128) ∧
  ∀ status code, result = Err (Problem status code) ↔
    ∃ body, r = Reply status body ∧
      ((code = "invalid_response" ∧ ∀ text, body = Some text → maxResponseBytes < len text) ∨
       ∃ text, body = Some text ∧ len text ≤ maxResponseBytes ∧
         (status ≠ expected ∧ code = problem_code text ∨
          status = expected ∧ Unmarshal read zero text = None ∧ code = "invalid_response")).

Lemma receive_bounded {A} (read : reader_of A) zero expected r status code :
  receive read zero expected r = Err (Problem status code) → 0 < len code ≤ 128.
Proof.
  assert (0 < len "invalid_response" ≤ 128) as Hl by (vm_compute; split; congruence).
  destruct r as [|st [body|]]; cbn [receive]; [done| |by intros [= <- <-]]. case_match; [by intros [= <- <-]|].
  case_match; [intros [= <- <-]; apply problem_code_bounded|].
  destruct (Unmarshal read zero body); [done|]. by intros [= <- <-].
Qed.

Lemma receive_exact {A} (read : reader_of A) zero expected r : reply_outcome read zero expected r (receive read zero expected r).
Proof.
  split; [intros a; apply receive_Ok|]. split; [|split; [|split; [apply receive_bounded|]]].
  - split; [|by intros ->]. destruct r as [|st [body|]]; cbn [receive]; [done| |done].
    repeat case_match; try done. by destruct (Unmarshal read zero body).
  - destruct r as [|st [body|]]; cbn [receive]; try done. repeat case_match; try done. by destruct (Unmarshal read zero body).
  - intros status code. destruct r as [|st [body|]]; cbn [receive].
    + split; [done|]. by intros (? & ? & _).
    + split.
      * intros Hr. exists (Some body). case_match eqn:Hl; [|case_match eqn:Hs]; bool_facts.
        -- injection Hr as <- <-. split; [done|]. left. split; [done|]. by intros ? [= <-].
        -- injection Hr as <- <-. split; [done|]. right. exists body. split_and!; [done..|]. by left.
        -- destruct (Unmarshal read zero body) eqn:Hu; [done|]. injection Hr as <- <-.
           split; [done|]. right. exists body. split_and!; [done..|]. by right.
      * intros (b & [= <- <-] & [[-> Hl]|(text & [= <-] & Hl & Hb)]).
        -- by rewrite (proj2 (Z.ltb_lt _ _)) by auto.
        -- rewrite (proj2 (Z.ltb_ge _ _)) by done. destruct Hb as [[Hs ->]|(-> & Hu & ->)].
           ++ by rewrite (proj2 (Z.eqb_neq _ _)).
           ++ by rewrite Z.eqb_refl, Hu.
    + split.
      * intros [= <- <-]. exists None. split; [done|]. by left.
      * by intros (b & [= <- <-] & [[-> _]|(text & [=] & _)]).
Qed.

(** The header loop lets no value through that would break a line. *)
Lemma set_headers_clean l h h' :
  set_headers l h = Some h' → ∀ n v, (n, v) ∈ l → ContainsAny v (String (zb 13) (String (zb 10) "")) = false.
Proof.
  revert h. induction l as [|[n v] l IH]; intros h; cbn [set_headers]; [by intros _ ? ? ?%elem_of_nil|].
  case_match eqn:Hv; [done|]. intros Hs n' v' [[= -> ->]|Hin]%elem_of_cons; eauto.
Qed.

Lemma transmit_exact `{MO : MapOrder} {W A} (send : outgoing → W → reply * W) client method path encoded fixed headers
    (read : reader_of A) zero expected (w : W) :
  let '(result, w') := transmit send client method path encoded fixed headers read zero expected w in
  (result = Err ErrConfiguration ∧ w' = w ∧
    ∃ n v, headers !! n = Some v ∧ ContainsAny v (String (zb 13) (String (zb 10) "")) = true) ∨
  ((∀ n v, headers !! n = Some v → ContainsAny v (String (zb 13) (String (zb 10) "")) = false) ∧
    ∃ out r, send out w = (r, w') ∧ oMethod out = method ∧ oURL out = base client +:+ path ∧ oBody out = encoded ∧
      (∀ n, oHeaders out !! n = match headers !! n with Some v => Some v | None => fixed !! n end) ∧
      reply_outcome read zero expected r result).
Proof.
  unfold transmit. destruct (set_headers (iterate headers) fixed) as [h|] eqn:Hset.
  - destruct (send _ w) as [r w'] eqn:Hs. right. split.
    { intros n v Hn. apply (set_headers_clean _ _ _ Hset n). by apply elem_of_iterate. }
    exists (mkOutgoing method (base client +:+ path) h encoded), r.
    split_and!; try done; [|apply receive_exact]. intros n. cbn [oHeaders].
    rewrite (set_headers_Some _ _ _ (NoDup_iterate_keys headers) Hset).
    assert (list_to_map (iterate headers) = headers) as ->; [|done].
    symmetry. apply list_to_map_flip. symmetry. apply iterate_perm.
  - left. split; [done|]. split; [done|]. apply set_headers_None in Hset as (n & v & Hin & Hb).
    exists n, v. split; [by apply elem_of_iterate|done].
Qed.

