(* ===== verification/Exchange.v ===== *)
(** * The client and the server together

    What the client library sends, the server's handler receives, decides and
    answers, and the client reads the answer: over a network that delivers, a
    call of the client is the call of the credential service it stands for. *)

From Stdlib Require Import Ascii.
From S2P Require Import Prelude GoStrings Json GoTime TimeParse JsonValue Crypto Envelope MasterKey Credential AuditEvent Spool Wire WireSize Storage Identity Delivery Server Routing Responses Files Client.

(** ** What the client reads of an answer *)

Definition view_metadata (m : Metadata) : MetadataView :=
  mkMetadataView (mID m) (mOrganizationID m) (mName m) (mCredentialType m) (mSchemaVersion m) (mVersion m)
    (state_string (mState m)) (mSecretFields m) (mCreatedAt m) (mUpdatedAt m).
Definition view_binding (b : Binding) : BindingView :=
  mkBindingView (bdRunID b) (bdDispatchID b) (bdOrganizationID b) (bdCredentialID b) (bdCredentialVersion b)
    (bdExecutorIdentity b) (binding_state_string (bdState b)) (bdNotBefore b) (bdExpiresAt b) (bdMaxResolutions b)
    (bdResolutionCount b) (bdCreatedAt b) (bdUpdatedAt b) (bdCancelReason b).

(** Answers that JSON can carry. *)
Definition utf8_texts (l : list string) : Prop := Forall (λ s, valid_utf8 s = true) l.

Definition presentable_binding (b : Binding) : Prop :=
  utf8_texts [bdRunID b; bdDispatchID b; bdOrganizationID b; bdCredentialID b; bdExecutorIdentity b; bdCancelReason b] ∧
  0 ≤ bdCredentialVersion b < 2 ^ 64 ∧ 0 ≤ bdMaxResolutions b < 2 ^ 32 ∧ 0 ≤ bdResolutionCount b < 2 ^ 32 ∧
  printable_time (bdNotBefore b) ∧ printable_time (bdExpiresAt b) ∧ printable_time (bdCreatedAt b) ∧ printable_time (bdUpdatedAt b).
Definition presentable_file (f : ResolvedFile) : Prop := utf8_texts [rfName f; rfMode f; rfContent f].
Definition presentable_resolved (c : ResolvedCredential) : Prop :=
  utf8_texts [rcRunID c; rcAttemptID c] ∧ printable_time (rcExpiresAt c) ∧ valid_inputs (rcEnvironment c) ∧
  Forall presentable_file (rcFiles c).

Lemma map_entry {A} (m : gmap string A) k v : (k, v) ∈ merge_sort entry_le (map_to_list m) → m !! k = Some v.
Proof. rewrite merge_sort_Permutation. apply elem_of_map_to_list. Qed.

Lemma map_value_printable m : valid_inputs m → printable (map_value json_text m).
Proof.
  intros Hm. apply printable_members. apply Forall_fmap, Forall_forall. intros [k v] Hin.
  apply map_entry in Hin. by destruct (Hm k v Hin).
Qed.

Lemma height_flat (l : list (string * string)) : foldr (λ x h, Z.max (height x.2) h) 0 (prod_map id json_text <$> l) = 0.
Proof. induction l as [|x l IH]; [done|]. cbn [fmap list_fmap foldr] in *. by rewrite IH. Qed.
Lemma height_map m : height (map_value json_text m) = 1.
Proof. unfold map_value. cbn [height]. by rewrite height_flat. Qed.

Lemma files_printable l : Forall presentable_file l → printable (JArr (file_value <$> l)).
Proof.
  induction 1 as [|f l Hf _ IH]; [done|]. cbn [fmap list_fmap printable foldr] in *. split; [|done].
  unfold presentable_file, utf8_texts in Hf. rewrite !Forall_cons in Hf. apply printable_members. rewrite !Forall_cons.
  cbn. split_and!; try done; tauto.
Qed.
Lemma height_files l : height (JArr (file_value <$> l)) ≤ 2.
Proof.
  assert (foldr (λ x h, Z.max (height x) h) 0 (file_value <$> l) ≤ 1) as H; [|cbn [height]; lia].
  induction l as [|f l IH]; [done|]. cbn [fmap list_fmap foldr] in *. change (height (file_value f)) with 1. lia.
Qed.

(** ** Reading members *)

Lemma view_metadata_read m :
  storable_metadata m → read_metadata_view (JObj (metadata_members m)) no_metadata = Some (view_metadata m).
Proof.
  intros (_ & H1 & H2 & H3 & H4). pose proof (metadata_names m) as Hn. unfold read_metadata_view. cbn [as_struct]. unfold no_metadata.
  cbn [mvID mvOrganizationID mvName mvCredentialType mvSchemaVersion mvVersion mvState mvSecretFields mvCreatedAt mvUpdatedAt].
  erewrite !(field_member as_string) by (done || member_of || reflexivity). cbn [mbind option_bind].
  erewrite (field_member (as_uint 32)) by (done || member_of || by apply as_uint_number). cbn [mbind option_bind].
  erewrite (field_member (as_uint 64)) by (done || member_of || by apply as_uint_number). cbn [mbind option_bind].
  erewrite (field_member as_strings) by (done || member_of || apply as_strings_value). cbn [mbind option_bind].
  by erewrite !(field_member as_time) by (done || member_of || by apply as_time_text).
Qed.

(** The members of a binding when every instant can be written. *)
Definition binding_members (b : Binding) (reason : bool) : list (string * json) :=
  [("run_id", json_text (bdRunID b)); ("dispatch_id", json_text (bdDispatchID b));
   ("organization_id", json_text (bdOrganizationID b)); ("credential_id", json_text (bdCredentialID b));
   ("credential_version", json_number (bdCredentialVersion b)); ("executor_identity", json_text (bdExecutorIdentity b));
   ("state", json_text (binding_state_string (bdState b))); ("not_before", json_text (Format_RFC3339Nano (bdNotBefore b) 0));
   ("expires_at", json_text (Format_RFC3339Nano (bdExpiresAt b) 0)); ("max_resolutions", json_number (bdMaxResolutions b));
   ("resolution_count", json_number (bdResolutionCount b)); ("created_at", json_text (Format_RFC3339Nano (bdCreatedAt b) 0));
   ("updated_at", json_text (Format_RFC3339Nano (bdUpdatedAt b) 0))] ++
  unless reason "cancel_reason" (json_text (bdCancelReason b)).

Lemma binding_value_members b : presentable_binding b →
  binding_value b = Some (JObj (binding_members b (String.eqb (bdCancelReason b) ""))).
Proof.
  intros (_ & _ & _ & _ & H1 & H2 & H3 & H4). unfold binding_value.
  by rewrite !time_value_printable by done.
Qed.
Lemma binding_names b reason : NoDup (fold_name <$> (binding_members b reason).*1).
Proof.
  change ((binding_members b reason).*1) with (["run_id"; "dispatch_id"; "organization_id"; "credential_id"; "credential_version";
    "executor_identity"; "state"; "not_before"; "expires_at"; "max_resolutions"; "resolution_count"; "created_at"; "updated_at"] ++
    (unless reason "cancel_reason" (json_text (bdCancelReason b))).*1).
  destruct reason; cbn [unless fmap list_fmap fst app]; distinct_names.
Qed.

Lemma view_binding_read b :
  presentable_binding b →
  read_binding_view (JObj (binding_members b (String.eqb (bdCancelReason b) ""))) no_binding_view = Some (view_binding b).
Proof.
  intros (_ & H1 & H2 & H3 & H4 & H5 & H6 & H7). set (reason := String.eqb (bdCancelReason b) "").
  pose proof (binding_names b reason) as Hn.
  assert (field as_string "cancel_reason" "" (binding_members b reason) = Some (bdCancelReason b)) as Hreason.
  { subst reason. destruct (String.eqb (bdCancelReason b) "") eqn:E.
    - apply String.eqb_eq in E as ->. apply field_absent. change (fold_name <$> _) with (fold_name <$> ["run_id"; "dispatch_id"; "organization_id"; "credential_id"; "credential_version";
        "executor_identity"; "state"; "not_before"; "expires_at"; "max_resolutions"; "resolution_count"; "created_at"; "updated_at"]).
      apply (bool_decide_unpack _). vm_compute. exact I.
    - eapply field_member; [done|member_of|done]. }
  unfold read_binding_view. cbn [as_struct]. unfold no_binding_view.
  cbn [bvRunID bvDispatchID bvOrganizationID bvCredentialID bvCredentialVersion bvExecutorIdentity bvState bvNotBefore bvExpiresAt
       bvMaxResolutions bvResolutionCount bvCreatedAt bvUpdatedAt bvCancelReason]. rewrite Hreason. clear Hreason.
  erewrite !(field_member as_string) by (done || (cbn [binding_members app]; member_of) || reflexivity). cbn [mbind option_bind].
  erewrite (field_member (as_uint 64)) by (done || (cbn [binding_members app]; member_of) || by apply as_uint_number). cbn [mbind option_bind].
  erewrite !(field_member (as_uint 32)) by (done || (cbn [binding_members app]; member_of) || by apply as_uint_number). cbn [mbind option_bind].
  erewrite !(field_member as_time) by (done || (cbn [binding_members app]; member_of) || by apply as_time_text). done.
Qed.

Definition resolved_members (c : ResolvedCredential) (noEnvironment noFiles : bool) : list (string * json) :=
  [("run_id", json_text (rcRunID c)); ("attempt_id", json_text (rcAttemptID c));
   ("expires_at", json_text (Format_RFC3339Nano (rcExpiresAt c) 0))] ++
  unless noEnvironment "environment" (map_value json_text (rcEnvironment c)) ++
  unless noFiles "files" (JArr (file_value <$> rcFiles c)).
Abbreviation resolved_json c := (JObj (resolved_members c (bool_decide (rcEnvironment c = ∅)) (bool_decide (rcFiles c = [])))) (only parsing).

Lemma resolved_value_members c : printable_time (rcExpiresAt c) → resolved_value c = Some (resolved_json c).
Proof. intros Ht. unfold resolved_value. by rewrite time_value_printable. Qed.
Lemma resolved_names c e f : NoDup (fold_name <$> (resolved_members c e f).*1).
Proof. destruct e, f; cbn [resolved_members unless fmap list_fmap fst app]; distinct_names. Qed.

Lemma read_file_value f old : read_file (file_value f) old = Some f.
Proof.
  assert (NoDup (fold_name <$> ["name"; "mode"; "content"])) as Hn by distinct_names.
  unfold read_file, file_value. cbn [as_struct].
  assert (∀ k v acc, (k, json_text v) ∈ [("name", json_text (rfName f)); ("mode", json_text (rfMode f)); ("content", json_text (rfContent f))] →
    field as_string k acc [("name", json_text (rfName f)); ("mode", json_text (rfMode f)); ("content", json_text (rfContent f))] = Some v) as Hf
    by (intros k v acc Hin; eapply field_member; [exact Hn|exact Hin|done]).
  erewrite !Hf by member_of. by destruct f.
Qed.
Lemma read_files_value l : read_files (JArr (file_value <$> l)) [] = Some l.
Proof.
  cbn [read_files]. generalize (@nil ResolvedFile). induction l as [|f l IH]; intros old; [done|].
  cbn [fmap list_fmap elements]. rewrite read_file_value. cbn [mbind option_bind]. by rewrite IH.
Qed.

Ltac absent_of := apply field_absent; cbn [resolved_members unless fmap list_fmap fst app]; apply (bool_decide_unpack _); vm_compute; exact I.

Lemma read_resolved_members c : printable_time (rcExpiresAt c) → read_resolved (resolved_json c) no_resolved = Some c.
Proof.
  intros Ht. set (e := bool_decide (rcEnvironment c = ∅)). set (f := bool_decide (rcFiles c = [])).
  pose proof (resolved_names c e f) as Hn.
  assert (field as_string_map "environment" ∅ (resolved_members c e f) = Some (rcEnvironment c)) as He.
  { subst e. case_bool_decide as E.
    - rewrite E. destruct f; absent_of.
    - eapply field_member; [done|destruct f; cbn [resolved_members unless app]; member_of|apply as_string_map_value]. }
  assert (field read_files "files" [] (resolved_members c e f) = Some (rcFiles c)) as Hf.
  { subst f. case_bool_decide as E.
    - rewrite E. destruct e; absent_of.
    - eapply field_member; [done|destruct e; cbn [resolved_members unless app]; member_of|apply read_files_value]. }
  unfold read_resolved. cbn [as_struct]. unfold no_resolved. cbn [rcRunID rcAttemptID rcExpiresAt rcEnvironment rcFiles].
  rewrite He, Hf. clear He Hf.
  erewrite !(field_member as_string) by (done || (cbn [resolved_members app]; member_of) || reflexivity). cbn [mbind option_bind].
  erewrite !(field_member as_time) by (done || (cbn [resolved_members app]; member_of) || by apply as_time_text). by destruct c.
Qed.

(** ** Receiving *)

(** A document the client can read and parse. *)
Definition document_ok (v : json) : Prop :=
  printable v ∧ height v ≤ max_depth ∧ len (render v +:+ newline) ≤ maxResponseBytes.

Lemma receive_document {A} (read : reader_of A) zero status v a :
  document_ok v → read v zero = Some a → receive read zero status (Reply status (Some (render v +:+ newline))) = Ok a.
Proof.
  intros (Hp & Hh & Hl) Hr. unfold receive. rewrite (proj2 (Z.ltb_ge _ _)) by done. rewrite Z.eqb_refl. cbn [negb].
  unfold Unmarshal. rewrite parse_document_line by done. cbn [mbind option_bind]. by rewrite Hr.
Qed.

Lemma token_utf8 s : token s = true → valid_utf8 s = true ∧ s ≠ "" ∧ len s ≤ 64.
Proof.
  unfold token. case_match eqn:Hb; [done|]. intros Ht. bool_facts. split_and!; [|done|done].
  unfold range_string in Ht. rewrite (rune_loop_bytes token_rune) in Ht.
  - apply valid_utf8_ascii. eapply forall_bytes_impl, Ht. intros a. unfold token_rune, in_range. bool_prop. lia.
  - intros r Hr. unfold token_rune, in_range. bool_prop. rewrite !andb_false_iff, !Z.leb_gt. split_and!; try lia; right; lia.
Qed.

Lemma problem_small requestID status code :
  len requestID ≤ 64 → len code ≤ 64 → 0 ≤ status < 2 ^ 64 →
  len (render (problem_value requestID status code) +:+ newline) ≤ maxResponseBytes.
Proof.
  intros Hi Hc Hs. change (render (problem_value requestID status code)) with
    (json_struct [("code", json_string code); ("status", json_uint status); ("request_id", json_string requestID)]).
  unfold json_struct. cbn [json_members]. repeat rewrite ?len_app, ?len_cons.
  change (len (json_string "code")) with 6. change (len (json_string "status")) with 8.
  change (len (json_string "request_id")) with 12. change (len "") with 0. change (len newline) with 1.
  pose proof (len_json_string requestID). pose proof (len_json_string code). pose proof (len_json_uint status Hs).
  unfold maxResponseBytes. lia.
Qed.

(** A problem of the server reaches the caller with its status and code. *)
Lemma receive_problem {A} (read : reader_of A) zero expected requestID status code :
  valid_utf8 requestID = true → len requestID ≤ 64 → token code = true → 0 ≤ status < 600 → status ≠ expected →
  receive read zero expected (Reply status (Some (response_body requestID (problem status code)))) = Err (Problem status code).
Proof.
  intros Hi Hil Hc Hs Hne. apply token_utf8 in Hc as (Hu & Hcne & Hcl).
  unfold response_body. cbn [payload_value problem rpPayload rpStatus]. unfold receive.
  rewrite (proj2 (Z.ltb_ge _ _)) by (apply problem_small; lia). rewrite (proj2 (Z.eqb_neq _ _)) by done. cbn [negb].
  unfold problem_code, Unmarshal. rewrite parse_document_line.
  - cbn [mbind option_bind problem_value as_struct].
    erewrite (field_member as_string); [| |member_of|reflexivity].
    2: { cbn [fmap list_fmap fst]. distinct_names. }
    by rewrite (proj2 (String.eqb_neq _ _) Hcne), (proj2 (Z.ltb_ge _ _)) by lia.
  - apply printable_members. rewrite !Forall_cons. cbn [fst snd]. split_and!; try done. apply number_printable. lia.
  - vm_compute. discriminate.
Qed.

(** The answers of the service the client reads. *)
Definition presentable (x : response) : Prop :=
  len (response_body "" x) ≤ maxResponseBytes ∧
  match rpPayload x with
  | PMetadata m => storable_metadata m
  | PBinding b => presentable_binding b
  | PResolved c => presentable_resolved c
  | _ => True
  end.

Lemma metadata_ok m : storable_metadata m →
  printable (JObj (metadata_members m)) ∧ height (JObj (metadata_members m)) ≤ max_depth.
Proof.
  intros (Ht & H1 & H2 & H3 & H4). unfold metadata_texts in Ht. apply Forall_app in Ht as [Ht Hf]. rewrite !Forall_cons in Ht.
  split.
  - apply printable_members. unfold metadata_members. rewrite !Forall_cons. cbn [fst snd].
    split_and!; try done; try apply time_text_printable; try (apply number_printable; lia); try (apply text_printable; tauto);
      [by destruct (mState m)|by apply strings_printable].
  - cbn [height metadata_members foldr fst snd json_number json_text]. pose proof (height_strings (mSecretFields m)). unfold max_depth. lia.
Qed.

Lemma binding_ok b reason : presentable_binding b →
  printable (JObj (binding_members b reason)) ∧ height (JObj (binding_members b reason)) ≤ max_depth.
Proof.
  intros (Ht & H1 & H2 & H3 & _). unfold utf8_texts in Ht. rewrite !Forall_cons in Ht. split.
  - apply printable_members. unfold binding_members. apply Forall_app. rewrite !Forall_cons. cbn [fst snd].
    split; [split_and!; try done; try apply time_text_printable; try (apply number_printable; lia); try (apply text_printable; tauto);
      by destruct (bdState b)|]. destruct reason; [done|]. apply Forall_singleton. split; [done|]. apply text_printable. tauto.
  - destruct reason; vm_compute; discriminate.
Qed.

Lemma resolved_ok c : presentable_resolved c →
  printable (resolved_json c) ∧ height (resolved_json c) ≤ max_depth.
Proof.
  intros (Ht & H1 & He & Hf). unfold utf8_texts in Ht. rewrite !Forall_cons in Ht. pose proof (height_files (rcFiles c)) as Hh. split.
  - apply printable_members. unfold resolved_members. rewrite !Forall_app, !Forall_cons. cbn [fst snd].
    split; [split_and!; try done; try apply time_text_printable; apply text_printable; tauto|]. split.
    + case_bool_decide; [done|]. apply Forall_singleton. split; [done|]. by apply map_value_printable.
    + case_bool_decide; [done|]. apply Forall_singleton. split; [done|]. by apply files_printable.
  - unfold resolved_members. destruct (bool_decide (rcEnvironment c = ∅)), (bool_decide (rcFiles c = []));
      cbn [unless app]; change (height (JObj ?l)) with (1 + foldr (λ x h, Z.max (height x.2) h) 0 l); cbn [foldr fst snd];
      rewrite ?height_map; change (height (json_text ?s)) with 0; unfold max_depth; lia.
Qed.

Section Receive.
Variables (requestID : string) (location : option string) (status : Z).

Lemma receive_metadata m :
  presentable (mkResponse status location (PMetadata m)) →
  receive read_metadata_view no_metadata status
    (Reply status (Some (response_body requestID (mkResponse status location (PMetadata m))))) = Ok (view_metadata m).
Proof.
  intros [Hl Hm]. cbn [rpPayload] in Hm. destruct (metadata_ok m Hm) as [Hp Hh]. pose proof Hm as (_ & _ & _ & H1 & H2).
  unfold response_body in *. cbn [payload_value rpPayload] in *. unfold metadata_value in *. rewrite !time_value_printable in * by done.
  cbn [mbind option_bind] in *. apply receive_document; [done|]. by apply view_metadata_read.
Qed.

Lemma receive_binding b :
  presentable (mkResponse status location (PBinding b)) →
  receive read_binding_view no_binding_view status
    (Reply status (Some (response_body requestID (mkResponse status location (PBinding b))))) = Ok (view_binding b).
Proof.
  intros [Hl Hb]. cbn [rpPayload] in Hb. destruct (binding_ok b (String.eqb (bdCancelReason b) "") Hb) as [Hp Hh].
  unfold response_body in *. cbn [payload_value rpPayload] in *. rewrite binding_value_members in * by done.
  apply receive_document; [done|]. by apply view_binding_read.
Qed.

Lemma receive_resolved c :
  presentable (mkResponse status location (PResolved c)) →
  receive read_resolved no_resolved status
    (Reply status (Some (response_body requestID (mkResponse status location (PResolved c))))) = Ok c.
Proof.
  intros [Hl Hc]. cbn [rpPayload] in Hc. destruct (resolved_ok c Hc) as [Hp Hh]. pose proof Hc as (_ & Ht & _).
  unfold response_body in *. cbn [payload_value rpPayload] in *. rewrite resolved_value_members in * by done.
  apply receive_document; [done|]. by apply read_resolved_members.
Qed.
End Receive.

(** ** The network

    What the HTTP library does to a request on its way: header values that are
    not allowed in a header are refused, surrounding blanks are dropped, and the
    request line carries the path and query of the URL as they are written. *)

Definition ValidHeaderFieldValue : string → bool :=
  forall_bytes (λ a, (bz a =? 9) || negb ((bz a <? 32) || (bz a =? 127))).

Definition ascii_space (a : ascii) : bool := (bz a =? 32) || (bz a =? 9) || (bz a =? 10) || (bz a =? 13).
Fixpoint trim_head (s : string) : string :=
  match s with String a s' => if ascii_space a then trim_head s' else s | "" => "" end.
Fixpoint trim_tail (s : string) : string :=
  match s with
  | "" => ""
  | String a s' => match trim_tail s' with "" => if ascii_space a then "" else String a "" | t => String a t end
  end.
Definition header_value (v : string) : string := trim_tail (trim_head v).

(** The text from the first byte that satisfies [p], and the text before it. *)
Fixpoint from_first (p : ascii → bool) (s : string) : string :=
  match s with String a s' => if p a then s else from_first p s' | "" => "" end.
Fixpoint before_first (p : ascii → bool) (s : string) : string :=
  match s with String a s' => if p a then "" else String a (before_first p s') | "" => "" end.
Definition slash_or_query (a : ascii) : bool := (bz a =? 47) || (bz a =? 63).
Definition request_path (url : string) : string :=
  let path := before_first (λ a, bz a =? 63) (from_first slash_or_query (TrimPrefix url "https://")) in
  if String.eqb path "" then "/" else path.

Definition arrive (tls : option tls_state) (out : outgoing) : Server.request :=
  mkHttp (oMethod out) (request_path (oURL out)) tls (oHeaders out !! "Content-Type") (Some (oBody out))
    (match oHeaders out !! "Idempotency-Key" with Some v => [header_value v] | None => [] end)
    (match oHeaders out !! "X-Praetor-Organization-ID" with Some v => header_value v | None => "" end).

Definition deliver {St Au} `{CredentialService St, AuditRecorder Au} (tls : option tls_state) (server : Server)
    (random : option string) (started finished : time) (out : outgoing) (w : St * Au) : reply * (St * Au) :=
  if bool_decide (map_Forall (λ _ v, ValidHeaderFieldValue v = true) (oHeaders out)) then
    let '(x, w') := ServeHTTP server random started finished (arrive tls out) w in
    (Reply (rpStatus x) (Some (response_body (newRequestID random) x)), w')
  else (NoReply, w).

(** ** What the server decodes *)

Lemma decode_sent {A} (read : reader_of A) zero r v a :
  rqMediaType r = Some "application/json" → rqBody r = Some (render v) → printable v → height v ≤ max_depth →
  len (render v) ≤ maxRequestBody → distinct_keys v = true → read v zero = Some a → decodeJSON read zero r = Ok a.
Proof.
  intros Hm Hb Hp Hh Hl Hd Hr. unfold decodeJSON. rewrite bool_decide_eq_true_2 by done. rewrite Hb.
  cbn [negb guard_err mbind result_bind of_option].
  rewrite (proj2 (Z.eqb_neq _ _)).
  2: { rewrite len_zero. intros He. destruct (render_head v "" Hp) as (c & s & Hc & _). rewrite app_nil_r_str in Hc. congruence. }
  rewrite (proj2 (Z.ltb_ge _ _)) by done. cbn [guard_err mbind result_bind]. rewrite parse_document_render by done.
  cbn [of_option mbind result_bind]. rewrite Hd. cbn [negb guard_err mbind result_bind]. by rewrite Hr.
Qed.

Lemma map_value_distinct m : distinct_keys (map_value json_text m) = true.
Proof.
  unfold map_value. cbn [distinct_keys]. apply andb_true_iff. split.
  - apply bool_decide_eq_true. rewrite <-list_fmap_compose. change (fst ∘ prod_map id json_text) with (fst (A:=string) (B:=string)).
    rewrite merge_sort_Permutation. apply NoDup_fst_map_to_list.
  - induction (merge_sort entry_le (map_to_list m)) as [|x l IH]; [done|]. cbn [fmap list_fmap forallb]. exact IH.
Qed.

Definition actor_ok (a : Actor) : Prop := utf8_texts [UserID a; Username a; AuthorizationDecisionID a].
Definition actor_members (a : Actor) (noName noDecision : bool) : list (string * json) :=
  [("user_id", json_text (UserID a))] ++ unless noName "username" (json_text (Username a)) ++
  unless noDecision "authorization_decision_id" (json_text (AuthorizationDecisionID a)).

Lemma actor_document a : actor_ok a →
  printable (actor_value a) ∧ height (actor_value a) = 1 ∧ distinct_keys (actor_value a) = true.
Proof.
  intros Ha. unfold actor_ok, utf8_texts in Ha. rewrite !Forall_cons in Ha.
  change (actor_value a) with (JObj (actor_members a (String.eqb (Username a) "") (String.eqb (AuthorizationDecisionID a) ""))).
  destruct (String.eqb (Username a) ""), (String.eqb (AuthorizationDecisionID a) "");
    (split; [apply printable_members; cbn [actor_members unless app]; rewrite !Forall_cons; cbn [fst snd];
             split_and!; try done; apply text_printable; tauto|split; vm_compute; reflexivity]).
Qed.

Definition actor_body (a : Actor) : actorBody := mkActor (UserID a) (Username a) (AuthorizationDecisionID a).
Lemma read_actor_value a : read_actor (actor_value a) no_actor = Some (actor_body a).
Proof.
  set (n := String.eqb (Username a) ""). set (d := String.eqb (AuthorizationDecisionID a) "").
  change (actor_value a) with (JObj (actor_members a n d)).
  assert (NoDup (fold_name <$> (actor_members a n d).*1)) as Hnd
    by (destruct n, d; cbn [actor_members unless fmap list_fmap fst app]; distinct_names).
  assert (no_unknown ["user_id"; "username"; "authorization_decision_id"] (actor_members a n d) = true) as Hno
    by (destruct n, d; vm_compute; reflexivity).
  assert (field as_string "username" "" (actor_members a n d) = Some (Username a)) as Hn.
  { subst n. destruct (String.eqb (Username a) "") eqn:E.
    - apply String.eqb_eq in E as ->. destruct d; apply field_absent; cbn [actor_members unless fmap list_fmap fst app];
        apply (bool_decide_unpack _); vm_compute; exact I.
    - eapply field_member; [done|destruct d; cbn [actor_members unless app]; member_of|done]. }
  assert (field as_string "authorization_decision_id" "" (actor_members a n d) = Some (AuthorizationDecisionID a)) as Hd.
  { subst d. destruct (String.eqb (AuthorizationDecisionID a) "") eqn:E.
    - apply String.eqb_eq in E as ->. destruct n; apply field_absent; cbn [actor_members unless fmap list_fmap fst app];
        apply (bool_decide_unpack _); vm_compute; exact I.
    - eapply field_member; [done|destruct n; cbn [actor_members unless app]; member_of|done]. }
  unfold read_actor. cbn [as_struct]. unfold no_actor. cbn [acUserID acUsername acDecision]. rewrite Hno, Hn, Hd.
  erewrite (field_member as_string "user_id") by (done || (cbn [actor_members app]; member_of) || reflexivity). done.
Qed.

(** The next member the reader asks for, found or missing. *)
Ltac read_value :=
  first [reflexivity | by apply as_uint_number | apply as_string_map_value | apply read_actor_value | by apply as_time_text].
Ltac read_member :=
  match goal with |- context [field ?r ?k ?acc ?l] =>
    let H := fresh in
    eassert (field r k acc l = Some _) as H by
      first [ eapply field_member; [cbn [fmap list_fmap fst]; distinct_names|member_of|read_value]
            | apply field_absent; cbn [fmap list_fmap fst]; apply (bool_decide_unpack _); vm_compute; exact I ];
    rewrite H; clear H; cbn [mbind option_bind]
  end.
Ltac known_members :=
  match goal with |- context [no_unknown ?n ?l] => replace (no_unknown n l) with true by (vm_compute; reflexivity) end.

Definition create_ok (q : CreateRequest) (a : Actor) : Prop :=
  utf8_texts [crOrganizationID q; crName q; crCredentialType q] ∧ 0 ≤ crSchemaVersion q < 2 ^ 32 ∧ valid_inputs (crInputs q) ∧ actor_ok a.
Lemma create_body_read q a : create_ok q a →
  createCredentialBody (create_body q a) no_body =
    Some (mkCredBody (crOrganizationID q) (crName q) (crCredentialType q) (crSchemaVersion q) 0 (crInputs q) (actor_body a)).
Proof.
  intros (_ & Hs & _). unfold createCredentialBody, read_body, create_body. cbn [as_struct]. known_members.
  unfold no_body. cbn [cbOrganizationID cbName cbCredentialType cbSchemaVersion cbExpectedVersion cbInputs cbActor].
  repeat read_member. done.
Qed.

Definition replace_ok (q : ReplaceInputsRequest) (a : Actor) : Prop :=
  0 ≤ riExpectedVersion q < 2 ^ 64 ∧ valid_inputs (riInputs q) ∧ actor_ok a.
Lemma replace_body_read q a : replace_ok q a →
  replaceCredentialBody (replace_body q a) no_body = Some (mkCredBody "" "" "" 0 (riExpectedVersion q) (riInputs q) (actor_body a)).
Proof.
  intros (Hs & _). unfold replaceCredentialBody, read_body, replace_body. cbn [as_struct]. known_members.
  unfold no_body. cbn [cbOrganizationID cbName cbCredentialType cbSchemaVersion cbExpectedVersion cbInputs cbActor].
  repeat read_member. done.
Qed.

Definition update_ok (q : UpdateMetadataRequest) (a : Actor) : Prop :=
  0 ≤ umExpectedVersion q < 2 ^ 64 ∧ utf8_texts [umName q] ∧ actor_ok a.
Lemma update_body_read q a : update_ok q a →
  updateCredentialBody (update_body q a) no_body = Some (mkCredBody "" (umName q) "" 0 (umExpectedVersion q) ∅ (actor_body a)).
Proof.
  intros (Hs & _). unfold updateCredentialBody, read_body, update_body. cbn [as_struct]. known_members.
  unfold no_body. cbn [cbOrganizationID cbName cbCredentialType cbSchemaVersion cbExpectedVersion cbInputs cbActor].
  repeat read_member. done.
Qed.

Definition retire_ok (q : RetireRequest) (a : Actor) : Prop := 0 ≤ rtExpectedVersion q < 2 ^ 64 ∧ actor_ok a.
Lemma retire_body_read q a : retire_ok q a →
  retireCredentialBody (retire_body q a) no_body = Some (mkCredBody "" "" "" 0 (rtExpectedVersion q) ∅ (actor_body a)).
Proof.
  intros (Hs & _). unfold retireCredentialBody, read_body, retire_body. cbn [as_struct]. known_members.
  unfold no_body. cbn [cbOrganizationID cbName cbCredentialType cbSchemaVersion cbExpectedVersion cbInputs cbActor].
  repeat read_member. done.
Qed.

(** The scheduler's instants are in UTC. *)
Definition register_ok (q : RegisterBindingRequest) : Prop :=
  utf8_texts [rbRunID q; rbDispatchID q; rbOrganizationID q; rbCredentialID q; rbExecutorIdentity q] ∧
  rbNotBeforeZone q = 0 ∧ rbExpiresAtZone q = 0 ∧ printable_time (rbNotBefore q) ∧ printable_time (rbExpiresAt q) ∧
  0 ≤ rbMaxResolutions q < 2 ^ 32.
Definition register_members (q : RegisterBindingRequest) : list (string * json) :=
  [("run_id", json_text (rbRunID q)); ("dispatch_id", json_text (rbDispatchID q));
    ("organization_id", json_text (rbOrganizationID q)); ("credential_id", json_text (rbCredentialID q));
    ("executor_identity", json_text (rbExecutorIdentity q));
    ("not_before", json_text (Format_RFC3339Nano (rbNotBefore q) 0)); ("expires_at", json_text (Format_RFC3339Nano (rbExpiresAt q) 0));
    ("max_resolutions", json_number (rbMaxResolutions q))].
Lemma register_body_members q : register_ok q → register_body q = Some (JObj (register_members q)).
Proof.
  intros (_ & H1 & H2 & H3 & H4 & _). unfold register_body, zoned_value. rewrite H1, H2. by rewrite !json_time_utc by done.
Qed.
Lemma as_zoned_text t old : printable_time t → as_zoned (json_text (Format_RFC3339Nano t 0)) old = Some (t, 0).
Proof. intros Ht. cbn. rewrite escape_safe by apply format_safe. by apply parse_zoned_format. Qed.
Lemma register_body_read q : register_ok q →
  read_binding (JObj (register_members q)) no_binding = Some (mkBindingBody (rbRunID q) (rbDispatchID q) (rbOrganizationID q)
    (rbCredentialID q) (rbExecutorIdentity q) (rbNotBefore q, 0) (rbExpiresAt q, 0) (rbMaxResolutions q)).
Proof.
  intros (_ & _ & _ & H3 & H4 & Hm). unfold read_binding, register_members. cbn [as_struct]. known_members.
  unfold no_binding. cbn [gbRunID gbDispatchID gbOrganizationID gbCredentialID gbExecutorIdentity gbNotBefore gbExpiresAt gbMaxResolutions].
  do 5 read_member.
  erewrite !(field_member as_zoned); [|cbn [fmap list_fmap fst]; distinct_names|member_of|by apply as_zoned_text
    |cbn [fmap list_fmap fst]; distinct_names|member_of|by apply as_zoned_text]. cbn [mbind option_bind].
  read_member. done.
Qed.

Definition cancel_ok (q : CancelBindingRequest) : Prop := utf8_texts [cbDispatchID q; cbReason q].
Lemma cancel_body_read q : read_cancel (cancel_body q) (mkCancelBody "" "") = Some (mkCancelBody (cbDispatchID q) (cbReason q)).
Proof.
  unfold read_cancel, cancel_body. cbn [as_struct]. known_members. cbn [ccDispatchID ccReason]. repeat read_member. done.
Qed.

Definition resolve_ok (q : ResolveRequest) : Prop := utf8_texts [rsAttemptID q] ∧ printable_time (rsRequestedAt q).
Definition resolve_members (q : ResolveRequest) : list (string * json) :=
  [("attempt_id", json_text (rsAttemptID q)); ("requested_at", json_text (Format_RFC3339Nano (rsRequestedAt q) 0))].
Lemma resolve_body_members q : resolve_ok q → resolve_body q = Some (JObj (resolve_members q)).
Proof. intros (_ & Ht). unfold resolve_body. by rewrite time_value_printable. Qed.
Lemma resolve_body_read q : resolve_ok q →
  read_resolve (JObj (resolve_members q)) (mkResolveBody "" zero_time) = Some (mkResolveBody (rsAttemptID q) (rsRequestedAt q)).
Proof.
  intros (_ & Ht). unfold read_resolve, resolve_members. cbn [as_struct]. known_members. cbn [rvAttemptID rvRequestedAt].
  repeat read_member. done.
Qed.

(** Documents a server accepts. *)
Definition sendable (v : json) : Prop := printable v ∧ height v ≤ max_depth ∧ distinct_keys v = true.

Ltac send :=
  unfold create_body, replace_body, update_body, retire_body, register_members, cancel_body, resolve_members;
  split_and!;
  [ apply printable_members; rewrite !Forall_cons; cbn [fst snd]; split_and!; try done;
    try apply time_text_printable; try (apply number_printable; lia); try (apply text_printable; tauto);
    try (by apply map_value_printable); tauto
  | change (height (JObj ?l)) with (1 + foldr (λ x h, Z.max (height x.2) h) 0 l); cbn [foldr fst snd];
    rewrite ?height_map; repeat match goal with H : height _ = 1 |- _ => rewrite H; clear H end;
    change (height (json_text ?s)) with 0; change (height (json_number ?s)) with 0; unfold max_depth; lia
  | change (distinct_keys (JObj ?l)) with (bool_decide (NoDup l.*1) && forallb (λ x, distinct_keys x.2) l);
    cbn [fmap list_fmap fst snd forallb]; rewrite ?map_value_distinct;
    repeat match goal with H : distinct_keys _ = true |- _ => rewrite H; clear H end; vm_compute; reflexivity ].

Lemma create_sendable q a : create_ok q a → sendable (create_body q a).
Proof.
  intros (Ht & Hs & Hi & Ha). unfold utf8_texts in Ht. rewrite !Forall_cons in Ht. destruct (actor_document a Ha) as (H1 & H2 & H3). send.
Qed.
Lemma replace_sendable q a : replace_ok q a → sendable (replace_body q a).
Proof. intros (Hs & Hi & Ha). destruct (actor_document a Ha) as (H1 & H2 & H3). send. Qed.
Lemma update_sendable q a : update_ok q a → sendable (update_body q a).
Proof.
  intros (Hs & Ht & Ha). unfold utf8_texts in Ht. rewrite !Forall_cons in Ht. destruct (actor_document a Ha) as (H1 & H2 & H3). send.
Qed.
Lemma retire_sendable q a : retire_ok q a → sendable (retire_body q a).
Proof. intros (Hs & Ha). destruct (actor_document a Ha) as (H1 & H2 & H3). send. Qed.
Lemma register_sendable q : register_ok q → sendable (JObj (register_members q)).
Proof. intros (Ht & _ & _ & _ & _ & Hs). unfold utf8_texts in Ht. rewrite !Forall_cons in Ht. send. Qed.
Lemma cancel_sendable q : cancel_ok q → sendable (cancel_body q).
Proof. unfold cancel_ok, utf8_texts. intros Ht. rewrite !Forall_cons in Ht. send. Qed.
Lemma resolve_sendable q : resolve_ok q → sendable (JObj (resolve_members q)).
Proof. intros (Ht & _). unfold utf8_texts in Ht. rewrite !Forall_cons in Ht. send. Qed.
