(* ===== verification/EndToEnd.v ===== *)
(** * A call of the client is a call of the service

    For every operation of the client library: the request it sends reaches the
    route it is meant for, the handler decodes the values it was given and calls
    the service with them, and the client returns what the service answered. *)

From Stdlib Require Import Ascii.
From S2P Require Import Prelude GoStrings Json GoTime TimeParse JsonValue Crypto Envelope MasterKey Credential AuditEvent Spool Wire Storage Identity Delivery Server Routing Responses Files Client Exchange Builtin Backend MemoryBackend Manager Vault Bindings Service.

(** ** Paths *)

Definition plain_char (a : ascii) : bool := negb (bz a =? 47) && negb (bz a =? 63).

Lemma upper_hex_plain z : 0 ≤ z < 16 → plain_char (upper_hex z) = true.
Proof. intros Hz. unfold plain_char, upper_hex. case_match; bool_facts; rewrite !bz_zb by lia; bool_prop; lia. Qed.

Lemma PathEscape_plain s : forall_bytes plain_char (PathEscape s) = true.
Proof.
  induction s as [|a s IH]; [done|]. cbn [PathEscape]. destruct (path_safe a) eqn:Ha; cbn [forall_bytes].
  - rewrite IH, andb_true_r. revert Ha. clear. destruct a as [[] [] [] [] [] [] [] []]; vm_compute; done.
  - destruct (nibbles a). rewrite !upper_hex_plain, IH by done. done.
Qed.

Lemma PathEscape_safe s : forall_bytes path_safe s = true → PathEscape s = s.
Proof. induction s as [|a s IH]; [done|]. cbn [forall_bytes PathEscape]. intros [-> Hs]%andb_prop. by rewrite IH. Qed.

Lemma uuid_bytes_safe i s :
  forallb (λ x, dash_index x.1 || in_range 48 57 x.2 || in_range 97 102 x.2) (byte_range i s) = true →
  (∀ j, (j < String.length s)%nat → dash_index (i + j) = true → byte_at s j = 45) →
  forall_bytes path_safe s = true.
Proof.
  revert i. induction s as [|a s IH]; intros i Hf Hd; [done|]. cbn [byte_range forallb forall_bytes fst snd] in *.
  apply andb_prop in Hf as [Ha Hf]. apply andb_true_iff. split.
  - unfold path_safe. destruct (dash_index i) eqn:Hi.
    + specialize (Hd 0%nat ltac:(simpl; lia)). rewrite Nat.add_0_r in Hd. specialize (Hd Hi). cbn in Hd.
      assert (a = "-"%char) as -> by (apply bz_inj; by rewrite Hd). done.
    + cbn [orb] in Ha. apply orb_true_iff in Ha as [H|H]; rewrite in_range_true in H.
      * rewrite (proj2 (in_range_true 48 57 _)) by done. by rewrite !orb_true_r.
      * rewrite (proj2 (in_range_true 97 122 _)) by lia. done.
  - apply (IH (S i) Hf). intros j Hj Hk. apply (Hd (S j)); [simpl; lia|]. by rewrite Nat.add_succ_r.
Qed.
(** An identifier the service knows needs no escaping. *)
Lemma PathEscape_uuid s : validUUID s = true → PathEscape s = s.
Proof.
  intros Hv. apply PathEscape_safe. pose proof (validUUID_ascii s Hv) as Ha. revert Hv.
  unfold validUUID. destruct (_ || _) eqn:Hg; [done|]. bool_prop. unfold range_string. rewrite range_ascii by done. intros Hf.
  apply (uuid_bytes_safe 0 s Hf). intros j _ Hj. cbn [Nat.add] in Hj. unfold dash_index in Hj.
  rewrite !orb_true_iff, !Nat.eqb_eq in Hj. naive_solver.
Qed.

Lemma no_slash_suffix s q : forall_bytes plain_char s = true → HasSuffix s (String "/" q) = false.
Proof.
  intros Hs. destruct (HasSuffix s (String "/" q)) eqn:E; [|done]. apply HasSuffix_true in E as [t ->].
  rewrite forall_bytes_app in Hs. apply andb_prop in Hs as [_ Hs]. done.
Qed.
Lemma no_slash_contains s : forall_bytes plain_char s = true → Contains s "/" = false.
Proof.
  induction s as [|a s IH]; [done|]. cbn [forall_bytes Contains HasPrefix]. intros [Ha Hs]%andb_prop. rewrite IH by done.
  unfold plain_char in Ha. bool_facts. change (bz "/") with 47. rewrite (proj2 (Z.eqb_neq 47 _)) by done. done.
Qed.

Lemma from_first_none p s t : forall_bytes (λ a, negb (p a)) s = true → from_first p (s +:+ t) = from_first p t.
Proof.
  induction s as [|a s IH]; [done|]. cbn [forall_bytes]. intros [Ha Hs]%andb_prop. rewrite app_cons. cbn [from_first].
  apply negb_true_iff in Ha as ->. by apply IH.
Qed.
Lemma before_first_none p s : forall_bytes (λ a, negb (p a)) s = true → before_first p s = s.
Proof.
  induction s as [|a s IH]; [done|]. cbn [forall_bytes before_first]. intros [Ha Hs]%andb_prop.
  apply negb_true_iff in Ha as ->. by rewrite IH.
Qed.

(** The host of a base URL that [New] took, without a trailing question mark. *)
Definition plain_base (b : string) : Prop := ∃ host, b = "https://" +:+ host ∧ forall_bytes plain_char host = true.

Lemma request_path_plain b path :
  plain_base b → forall_bytes (λ a, negb (bz a =? 63)) path = true → HasPrefix path "/" = true →
  request_path (b +:+ path) = path.
Proof.
  intros (host & -> & Hh) Hp Hs.
  assert (from_first slash_or_query (TrimPrefix (("https://" +:+ host) +:+ path) "https://") = path) as Hf.
  { rewrite <-app_assoc_str. unfold TrimPrefix. rewrite HasPrefix_app, drop_str_app' by done. rewrite from_first_none.
    - destruct path as [|c path]; [done|]. cbn [HasPrefix] in Hs. apply andb_prop in Hs as [Hs _]. apply Z.eqb_eq in Hs.
      cbn [from_first]. unfold slash_or_query. by rewrite <-Hs.
    - eapply forall_bytes_impl; [|exact Hh]. intros a. unfold plain_char, slash_or_query. bool_prop. lia. }
  unfold request_path. rewrite Hf, before_first_none by exact Hp. by destruct path.
Qed.

Lemma plain_query s : forall_bytes plain_char s = true → forall_bytes (λ a, negb (bz a =? 63)) s = true.
Proof. apply forall_bytes_impl. intros a. unfold plain_char. bool_prop. lia. Qed.

(** ** Operations *)

Inductive operation : Type → Type :=
| OpCreate (q : CreateRequest) (a : Actor) : operation MetadataView
| OpGet (organization id : string) : operation MetadataView
| OpReplace (q : ReplaceInputsRequest) (a : Actor) : operation MetadataView
| OpUpdate (q : UpdateMetadataRequest) (a : Actor) : operation MetadataView
| OpRetire (q : RetireRequest) (a : Actor) : operation MetadataView
| OpRegister (q : RegisterBindingRequest) : operation BindingView
| OpCancel (q : CancelBindingRequest) : operation BindingView
| OpResolve (q : ResolveRequest) : operation ResolvedCredential.

(** The method of the client. *)
Definition client_call `{MO : MapOrder} {W A} (send : outgoing → W → reply * W) (client : Client) (op : operation A) :
    W → result ClientError A * W :=
  match op with
  | OpCreate q a => CreateCredential send client q a
  | OpGet organization id => GetCredential send client organization id
  | OpReplace q a => ReplaceInputs send client q a
  | OpUpdate q a => UpdateMetadata send client q a
  | OpRetire q a => RetireCredential send client q a
  | OpRegister q => Client.RegisterBinding send client q
  | OpCancel q => Client.CancelBinding send client q
  | OpResolve q => Client.Resolve send client q
  end.

(** The call of the service it stands for; an identifier in the path stays as
    it was escaped. *)
Definition intended {A} (ctx : Request.t) (identity : Credential.WorkloadIdentity) (op : operation A) : call :=
  match op with
  | OpCreate q a => CallCreate (actorContext ctx (actor_body a)) q
  | OpGet organization id => CallGet ctx organization (PathEscape id)
  | OpReplace q a => CallReplaceInputs (actorContext ctx (actor_body a))
      (mkReplace (PathEscape (riCredentialID q)) (riOrganizationID q) (riExpectedVersion q) (riInputs q))
  | OpUpdate q a => CallUpdateMetadata (actorContext ctx (actor_body a))
      (mkUpdate (PathEscape (umCredentialID q)) (umOrganizationID q) (umExpectedVersion q) (umName q))
  | OpRetire q a => CallRetire (actorContext ctx (actor_body a))
      (mkRetire (PathEscape (rtCredentialID q)) (rtOrganizationID q) (rtExpectedVersion q))
  | OpRegister q => CallRegisterBinding ctx identity q
  | OpCancel q => CallCancelBinding ctx identity (mkCancel (PathEscape (cbRunID q)) (cbDispatchID q) (cbReason q))
  | OpResolve q => CallResolve ctx identity (mkResolve (PathEscape (rsRunID q)) (rsAttemptID q) (rsRequestedAt q))
  end.

Definition role_of {A} (op : operation A) : WorkloadRole :=
  match op with
  | OpCreate _ _ | OpGet _ _ | OpReplace _ _ | OpUpdate _ _ | OpRetire _ _ => RoleAPI
  | OpRegister _ | OpCancel _ => RoleScheduler
  | OpResolve _ => RoleExecutor
  end.

(** The request line, the body and the header of an operation. *)
Definition method_path {A} (op : operation A) : string * string :=
  match op with
  | OpCreate _ _ => ("POST", "/internal/v1/credentials")
  | OpGet _ id => ("GET", "/internal/v1/credentials/" +:+ PathEscape id)
  | OpReplace q _ => ("PUT", "/internal/v1/credentials/" +:+ PathEscape (riCredentialID q) +:+ "/inputs")
  | OpUpdate q _ => ("PATCH", "/internal/v1/credentials/" +:+ PathEscape (umCredentialID q))
  | OpRetire q _ => ("POST", "/internal/v1/credentials/" +:+ PathEscape (rtCredentialID q) +:+ "/retire")
  | OpRegister _ => ("POST", "/internal/v1/run-bindings")
  | OpCancel q => ("POST", "/internal/v1/run-bindings/" +:+ PathEscape (cbRunID q) +:+ "/cancel")
  | OpResolve q => ("POST", "/internal/v1/runs/" +:+ PathEscape (rsRunID q) +:+ "/credential:resolve")
  end.
Definition body_of {A} (op : operation A) : option json :=
  match op with
  | OpCreate q a => Some (create_body q a)
  | OpGet _ _ => None
  | OpReplace q a => Some (replace_body q a)
  | OpUpdate q a => Some (update_body q a)
  | OpRetire q a => Some (retire_body q a)
  | OpRegister q => Some (JObj (register_members q))
  | OpCancel q => Some (cancel_body q)
  | OpResolve q => Some (JObj (resolve_members q))
  end.
Definition header_of {A} (op : operation A) : option (string * string) :=
  match op with
  | OpCreate q _ => Some ("Idempotency-Key", crIdempotencyKey q)
  | OpRegister q => Some ("Idempotency-Key", rbIdempotencyKey q)
  | OpGet organization _ => Some ("X-Praetor-Organization-ID", organization)
  | OpReplace q _ => Some ("X-Praetor-Organization-ID", riOrganizationID q)
  | OpUpdate q _ => Some ("X-Praetor-Organization-ID", umOrganizationID q)
  | OpRetire q _ => Some ("X-Praetor-Organization-ID", rtOrganizationID q)
  | OpCancel _ | OpResolve _ => None
  end.

Definition read_of {A} (op : operation A) : reader_of A :=
  match op with
  | OpCreate _ _ | OpGet _ _ | OpReplace _ _ | OpUpdate _ _ | OpRetire _ _ => read_metadata_view
  | OpRegister _ | OpCancel _ => read_binding_view
  | OpResolve _ => read_resolved
  end.
Definition zero_of {A} (op : operation A) : A :=
  match op with
  | OpCreate _ _ | OpGet _ _ | OpReplace _ _ | OpUpdate _ _ | OpRetire _ _ => no_metadata
  | OpRegister _ | OpCancel _ => no_binding_view
  | OpResolve _ => no_resolved
  end.
Definition success_status {A} (op : operation A) : Z :=
  match op with OpCreate _ _ | OpRegister _ => 201 | _ => 200 end.

Definition fixed_headers {A} (op : operation A) : gmap string string :=
  match body_of op with
  | None => <["Accept" := "application/json"]> ∅
  | Some _ => <["Content-Type" := "application/json"]> (<["Accept" := "application/json"]> ∅)
  end.
Definition all_headers {A} (op : operation A) : gmap string string :=
  match header_of op with Some (n, v) => <[n := v]> (fixed_headers op) | None => fixed_headers op end.
Definition sent {A} (client : Client) (op : operation A) : outgoing :=
  mkOutgoing (method_path op).1 (base client +:+ (method_path op).2) (all_headers op)
    (match body_of op with Some v => render v | None => "" end).

(** What the caller may pass: texts that are UTF-8, integers in range, an actor
    the server takes, and one header value without blanks around it. *)
Definition header_ok (v : string) : Prop := v ≠ "" ∧ ValidHeaderFieldValue v = true ∧ header_value v = v.
Definition organization_ok (v : string) : Prop := header_ok v ∧ TrimSpace v = v ∧ len v ≤ 255.
Definition valid_operation {A} (op : operation A) : Prop :=
  match op with
  | OpCreate q a => create_ok q a ∧ validActor (actor_body a) = true ∧ header_ok (crIdempotencyKey q)
  | OpGet organization id => id ≠ "" ∧ organization_ok organization
  | OpReplace q a => replace_ok q a ∧ validActor (actor_body a) = true ∧ riCredentialID q ≠ "" ∧ organization_ok (riOrganizationID q)
  | OpUpdate q a => update_ok q a ∧ validActor (actor_body a) = true ∧ umCredentialID q ≠ "" ∧ organization_ok (umOrganizationID q)
  | OpRetire q a => retire_ok q a ∧ validActor (actor_body a) = true ∧ rtCredentialID q ≠ "" ∧ organization_ok (rtOrganizationID q)
  | OpRegister q => register_ok q ∧ header_ok (rbIdempotencyKey q)
  | OpCancel q => cancel_ok q ∧ cbRunID q ≠ ""
  | OpResolve q => resolve_ok q ∧ rsRunID q ≠ ""
  end ∧ match body_of op with Some v => len (render v) ≤ maxRequestBody | None => True end.

Lemma header_of_ok {A} (op : operation A) n v : valid_operation op → header_of op = Some (n, v) → header_ok v.
Proof. intros [Hop _]. destruct op; intros [= <- <-]; unfold organization_ok in Hop; tauto. Qed.

Lemma no_line_break v : ValidHeaderFieldValue v = true → ContainsAny v (String (zb 13) (String (zb 10) "")) = false.
Proof.
  intros Hv. unfold ContainsAny. apply negb_false_iff. eapply forall_bytes_impl, Hv.
  intros a. destruct a as [[] [] [] [] [] [] [] []]; vm_compute; done.
Qed.

Lemma iterate_one {MO : MapOrder} (k v : string) : iterate (K:=string) {[ k := v ]} = [(k, v)].
Proof.
  apply Permutation_singleton_r. etrans; [apply iterate_perm|]. by rewrite map_to_list_singleton.
Qed.
Lemma iterate_none {MO : MapOrder} : iterate (K:=string) (V:=string) ∅ = [].
Proof. apply Permutation_nil_r. etrans; [apply iterate_perm|]. by rewrite map_to_list_empty. Qed.

(** One request is sent, and what comes back is received. *)
Lemma client_call_sends {MO : MapOrder} {W A} (send : outgoing → W → reply * W) client (op : operation A) w :
  valid_operation op →
  client_call send client op w =
    let '(r, w') := send (sent client op) w in (receive (read_of op) (zero_of op) (success_status op) r, w').
Proof.
  intros Hop. pose proof (header_of_ok op) as Hh. unfold sent, all_headers.
  destruct op as [q a|organization id|q a|q a|q a|q|q|q]; cbn [header_of] in *;
    try (specialize (Hh _ _ Hop eq_refl) as (_ & Hh%no_line_break & _)); destruct Hop as [Hop _];
    cbn [client_call]; unfold CreateCredential, GetCredential, ReplaceInputs, UpdateMetadata, RetireCredential,
      Client.RegisterBinding, Client.CancelBinding, Client.Resolve, do, organization_header, Client.idempotency_header;
    rewrite ?register_body_members, ?resolve_body_members by apply Hop;
    cbv beta iota zeta; unfold transmit; rewrite ?iterate_one, ?iterate_none; cbn [set_headers]; rewrite ?Hh; reflexivity.
Qed.

(** ** What arrives *)

Section Arrival.
Context (tls : option tls_state) (client : Client) (Hbase : plain_base (base client)).

Definition arrived {A} (op : operation A) : Server.request := arrive tls (sent client op).

Lemma method_path_ok {A} (op : operation A) :
  forall_bytes (λ a, negb (bz a =? 63)) (method_path op).2 = true ∧ HasPrefix (method_path op).2 "/" = true.
Proof.
  destruct op; cbn [method_path snd]; (split; [|reflexivity]); rewrite ?forall_bytes_app, ?(plain_query (PathEscape _)) by apply PathEscape_plain;
    rewrite ?andb_true_r; reflexivity.
Qed.

Lemma arrived_line {A} (op : operation A) :
  rqMethod (arrived op) = (method_path op).1 ∧ rqPath (arrived op) = (method_path op).2 ∧ rqTLS (arrived op) = tls.
Proof.
  destruct (method_path_ok op). split_and!; [done| |done]. cbn [rqPath arrived arrive sent oURL]. by apply request_path_plain.
Qed.

Lemma arrived_body {A} (op : operation A) v :
  body_of op = Some v → rqMediaType (arrived op) = Some "application/json" ∧ rqBody (arrived op) = Some (render v).
Proof.
  intros Hv. cbn [rqMediaType rqBody arrived arrive sent oHeaders oBody]. rewrite Hv. split; [|done].
  unfold all_headers, fixed_headers. destruct op; cbn [header_of body_of] in *; try discriminate Hv; reflexivity.
Qed.

Lemma arrived_key {A} (op : operation A) v :
  valid_operation op → header_of op = Some ("Idempotency-Key", v) → Server.idempotency_header (arrived op) = Some v.
Proof.
  intros Hop Hh. pose proof (header_of_ok op _ _ Hop Hh) as (Hne & _ & Hv). unfold Server.idempotency_header.
  cbn [rqIdempotencyKeys arrived arrive sent oHeaders]. unfold all_headers. rewrite Hh, lookup_insert_eq, Hv.
  by rewrite (proj2 (String.eqb_neq _ _) Hne).
Qed.

Lemma arrived_organization {A} (op : operation A) v :
  valid_operation op → header_of op = Some ("X-Praetor-Organization-ID", v) → rqOrganization (arrived op) = v.
Proof.
  intros Hop Hh. pose proof (header_of_ok op _ _ Hop Hh) as (_ & _ & Hv).
  cbn [rqOrganization arrived arrive sent oHeaders]. unfold all_headers. by rewrite Hh, lookup_insert_eq, Hv.
Qed.
End Arrival.

(** ** Where it is routed *)

Section Routing.
Context {St Au : Type} {CS : CredentialService St} {AR : AuditRecorder Au}.
Implicit Types (r : Server.request) (w : St * Au).

Lemma dispatch_credential server ctx identity r w :
  HasPrefix (rqPath r) "/internal/v1/credentials/" = true →
  dispatch server ctx identity r w = (let '(x, s) := credentialRoute ctx identity r w.1 in (x, (s, w.2))).
Proof.
  intros Hp. unfold dispatch. cbv zeta. rewrite (prefix_differs _ _ "/internal/v1/security-status" Hp eq_refl), andb_false_r.
  rewrite (prefix_excludes _ _ "/internal/v1/operations/" Hp eq_refl).
  by rewrite (prefix_differs _ _ "/internal/v1/credentials" Hp eq_refl), andb_false_r, Hp.
Qed.

(** The parts the credential routes cut a path into. *)
Lemma relative_path p e q : TrimPrefix (p +:+ e +:+ q) p = e +:+ q.
Proof. unfold TrimPrefix. by rewrite HasPrefix_app, drop_str_app. Qed.

Lemma credential_parts e suffix :
  forall_bytes plain_char e = true → suffix = "" ∨ suffix = "/inputs" ∨ suffix = "/retire" →
  HasSuffix (e +:+ suffix) "/inputs" = String.eqb suffix "/inputs" ∧
  HasSuffix (e +:+ suffix) "/retire" = String.eqb suffix "/retire" ∧
  TrimSuffix (TrimSuffix (e +:+ suffix) "/inputs") "/retire" = e.
Proof.
  intros He Hs. pose proof (λ q, no_slash_suffix e q He) as Hn.
  destruct Hs as [->|[->| ->]]; rewrite ?app_nil_r_str.
  - rewrite !Hn. split_and!; [done..|]. by rewrite !TrimSuffix_none by (rewrite ?TrimSuffix_none; apply Hn).
  - rewrite HasSuffix_app, TrimSuffix_app. rewrite (TrimSuffix_none e) by apply Hn. split_and!; [done| |done].
    apply (suffix_excludes _ "/inputs"); [apply HasSuffix_app|reflexivity].
  - assert (HasSuffix (e +:+ "/retire") "/inputs" = false) as Hi by (apply (suffix_excludes _ "/retire"); [apply HasSuffix_app|reflexivity]).
    rewrite Hi, HasSuffix_app, (TrimSuffix_none _ "/inputs" Hi), TrimSuffix_app. done.
Qed.

Lemma escaped_nonempty id : id ≠ "" → String.eqb (PathEscape id) "" = false.
Proof. intros Hid. apply String.eqb_neq. destruct id as [|a id]; [done|]. cbn [PathEscape]. by destruct (path_safe a). Qed.

Context (tls : option tls_state) (client : Client) (Hbase : plain_base (base client)).
Local Abbreviation arrived := (arrived tls client) (only parsing).

Lemma on_service (p : response * St) (b : Au) : (let '(x, s) := p in (x, (s, b))) = (p.1, (p.2, b)).
Proof. by destruct p. Qed.

(** What the handler of an operation with a body decodes. *)
Lemma arrived_decoded {A B} (op : operation A) v (read : reader_of B) zero b :
  valid_operation op → body_of op = Some v → sendable v → read v zero = Some b → decodeJSON read zero (arrived op) = Ok b.
Proof.
  intros [_ Hlen] Hv (Hp & Hh & Hd) Hr. destruct (arrived_body tls client op v Hv). rewrite Hv in Hlen. by eapply decode_sent.
Qed.

Lemma has_role_eq identity role : Role identity = role → has_role identity role = true.
Proof. intros. by apply bool_decide_eq_true. Qed.

Lemma dispatch_create server ctx identity q a w :
  valid_operation (OpCreate q a) → Role identity = RoleAPI →
  dispatch server ctx identity (arrived (OpCreate q a)) w = perform (CallCreate (actorContext ctx (actor_body a)) q) w.
Proof.
  intros Hop Hr. destruct (arrived_line tls client Hbase (OpCreate q a)) as (Hm & Hp & _). pose proof Hop as [(Hc & Ha & _) _].
  unfold dispatch. cbv zeta. unfold is_method. rewrite Hm, Hp. cbn [method_path fst snd].
  change (String.eqb "POST" "GET") with false. cbn [andb]. change (HasPrefix "/internal/v1/credentials" "/internal/v1/operations/") with false.
  cbv iota. rewrite !String.eqb_refl. cbn [andb]. unfold createCredential. rewrite has_role_eq by done. cbn [negb].
  erewrite arrived_decoded; [|done|reflexivity|by apply create_sendable|by apply create_body_read]. cbn [cbActor]. rewrite Ha. cbn [negb].
  rewrite (arrived_key tls client _ _ Hop eq_refl). cbn [cbOrganizationID cbName cbCredentialType cbSchemaVersion cbInputs].
  rewrite on_service. by destruct q.
Qed.

Lemma dispatch_register server ctx identity q w :
  valid_operation (OpRegister q) → Role identity = RoleScheduler →
  dispatch server ctx identity (arrived (OpRegister q)) w = perform (CallRegisterBinding ctx identity q) w.
Proof.
  intros Hop Hr. destruct (arrived_line tls client Hbase (OpRegister q)) as (Hm & Hp & _). pose proof Hop as [(Hc & _) _].
  unfold dispatch. cbv zeta. unfold is_method. rewrite Hm, Hp. cbn [method_path fst snd].
  change (String.eqb "POST" "GET") with false. cbn [andb]. change (HasPrefix "/internal/v1/run-bindings" "/internal/v1/operations/") with false.
  change (HasPrefix "/internal/v1/run-bindings" "/internal/v1/credentials/") with false.
  change (String.eqb "/internal/v1/run-bindings" "/internal/v1/credentials") with false. rewrite andb_false_r. cbv iota.
  rewrite !String.eqb_refl. cbn [andb]. unfold registerBinding. rewrite has_role_eq by done. cbn [negb].
  erewrite arrived_decoded; [|done|reflexivity|by apply register_sendable|by apply register_body_read].
  rewrite (arrived_key tls client _ _ Hop eq_refl).
  cbn [gbRunID gbDispatchID gbOrganizationID gbCredentialID gbExecutorIdentity gbNotBefore gbExpiresAt gbMaxResolutions fst snd].
  destruct Hc as (_ & H1 & H2 & _). rewrite on_service. destruct q. simpl in H1, H2. by subst.
Qed.

(** The credential routes: the organization of the header and the parts of the path. *)
Lemma credentialRoute_arrived {A} (op : operation A) id suffix organization ctx identity s :
  valid_operation op → Role identity = RoleAPI → id ≠ "" → organization_ok organization →
  header_of op = Some ("X-Praetor-Organization-ID", organization) →
  (method_path op).2 = "/internal/v1/credentials/" +:+ PathEscape id +:+ suffix →
  suffix = "" ∨ suffix = "/inputs" ∨ suffix = "/retire" →
  credentialRoute ctx identity (arrived op) s =
    (let m := (method_path op).1 in let e := PathEscape id in
     let inputs := String.eqb suffix "/inputs" in let retire := String.eqb suffix "/retire" in
     if String.eqb m "GET" && negb inputs && negb retire then respond (λ m, answer 200 (PMetadata m)) (cs_Get ctx organization e s)
     else if String.eqb m "PUT" && inputs then
       match decodeJSON replaceCredentialBody no_body (arrived op) with
       | Err _ => (bad_request, s)
       | Ok body => if negb (validActor (cbActor body)) then (bad_request, s)
           else respond (λ m, answer 200 (PMetadata m)) (cs_ReplaceInputs (actorContext ctx (cbActor body))
                  (mkReplace e organization (cbExpectedVersion body) (cbInputs body)) s)
       end
     else if String.eqb m "PATCH" && negb inputs && negb retire then
       match decodeJSON updateCredentialBody no_body (arrived op) with
       | Err _ => (bad_request, s)
       | Ok body => if negb (validActor (cbActor body)) then (bad_request, s)
           else respond (λ m, answer 200 (PMetadata m)) (cs_UpdateMetadata (actorContext ctx (cbActor body))
                  (mkUpdate e organization (cbExpectedVersion body) (cbName body)) s)
       end
     else if String.eqb m "POST" && retire then
       match decodeJSON retireCredentialBody no_body (arrived op) with
       | Err _ => (bad_request, s)
       | Ok body => if negb (validActor (cbActor body)) then (bad_request, s)
           else respond (λ m, answer 200 (PMetadata m)) (cs_Retire (actorContext ctx (cbActor body))
                  (mkRetire e organization (cbExpectedVersion body)) s)
       end
     else (not_found, s)).
Proof.
  intros Hop Hr Hid ((Hone & _) & Ht & Hol) Hh Hpath Hs. destruct (arrived_line tls client Hbase op) as (Hm & Hp & _).
  destruct (credential_parts (PathEscape id) suffix (PathEscape_plain id) Hs) as (H1 & H2 & H3).
  unfold credentialRoute. rewrite has_role_eq by done. cbn [negb]. unfold is_method.
  rewrite Hm, Hp, Hpath, relative_path, H1, H2, H3, (arrived_organization tls client op _ Hop Hh), Ht. cbv zeta.
  rewrite (escaped_nonempty id Hid), no_slash_contains by apply PathEscape_plain. cbn [orb].
  rewrite (proj2 (String.eqb_neq _ _) Hone), (proj2 (Z.ltb_ge _ _)) by done. reflexivity.
Qed.

Lemma arrived_credential_path {A} (op : operation A) rest :
  (method_path op).2 = "/internal/v1/credentials/" +:+ rest → HasPrefix (rqPath (arrived op)) "/internal/v1/credentials/" = true.
Proof. intros Hp. destruct (arrived_line tls client Hbase op) as (_ & -> & _). rewrite Hp. apply HasPrefix_app. Qed.

Lemma dispatch_get server ctx identity organization id w :
  valid_operation (OpGet organization id) → Role identity = RoleAPI →
  dispatch server ctx identity (arrived (OpGet organization id)) w = perform (CallGet ctx organization (PathEscape id)) w.
Proof.
  intros Hop Hr. pose proof Hop as [(Hid & Ho) _].
  assert ((method_path (OpGet organization id)).2 = "/internal/v1/credentials/" +:+ PathEscape id +:+ "") as Hp by (by rewrite app_nil_r_str).
  rewrite (dispatch_credential _ _ _ _ _ (arrived_credential_path _ _ Hp)).
  rewrite (credentialRoute_arrived (OpGet organization id) id "" organization) by (done || auto). apply on_service.
Qed.

Lemma dispatch_replace server ctx identity q a w :
  valid_operation (OpReplace q a) → Role identity = RoleAPI →
  dispatch server ctx identity (arrived (OpReplace q a)) w = perform (intended ctx identity (OpReplace q a)) w.
Proof.
  intros Hop Hr. pose proof Hop as [(Hc & Ha & Hid & Ho) _].
  assert ((method_path (OpReplace q a)).2 = "/internal/v1/credentials/" +:+ PathEscape (riCredentialID q) +:+ "/inputs") as Hp by done.
  rewrite (dispatch_credential _ _ _ _ _ (arrived_credential_path _ _ Hp)).
  rewrite (credentialRoute_arrived (OpReplace q a) (riCredentialID q) "/inputs" (riOrganizationID q)) by (done || auto).
  erewrite arrived_decoded; [|done|reflexivity|by apply replace_sendable|by apply replace_body_read].
  cbn [method_path fst cbActor cbExpectedVersion cbInputs]. rewrite Ha. apply on_service.
Qed.

Lemma dispatch_update server ctx identity q a w :
  valid_operation (OpUpdate q a) → Role identity = RoleAPI →
  dispatch server ctx identity (arrived (OpUpdate q a)) w = perform (intended ctx identity (OpUpdate q a)) w.
Proof.
  intros Hop Hr. pose proof Hop as [(Hc & Ha & Hid & Ho) _].
  assert ((method_path (OpUpdate q a)).2 = "/internal/v1/credentials/" +:+ PathEscape (umCredentialID q) +:+ "") as Hp by (by rewrite app_nil_r_str).
  rewrite (dispatch_credential _ _ _ _ _ (arrived_credential_path _ _ Hp)).
  rewrite (credentialRoute_arrived (OpUpdate q a) (umCredentialID q) "" (umOrganizationID q)) by (done || auto).
  erewrite (arrived_decoded (OpUpdate q a) _ updateCredentialBody); [|done|reflexivity|by apply update_sendable|by apply update_body_read].
  cbn [method_path fst cbActor cbExpectedVersion cbName]. rewrite Ha. apply on_service.
Qed.

Lemma dispatch_retire server ctx identity q a w :
  valid_operation (OpRetire q a) → Role identity = RoleAPI →
  dispatch server ctx identity (arrived (OpRetire q a)) w = perform (intended ctx identity (OpRetire q a)) w.
Proof.
  intros Hop Hr. pose proof Hop as [(Hc & Ha & Hid & Ho) _].
  assert ((method_path (OpRetire q a)).2 = "/internal/v1/credentials/" +:+ PathEscape (rtCredentialID q) +:+ "/retire") as Hp by done.
  rewrite (dispatch_credential _ _ _ _ _ (arrived_credential_path _ _ Hp)).
  rewrite (credentialRoute_arrived (OpRetire q a) (rtCredentialID q) "/retire" (rtOrganizationID q)) by (done || auto).
  erewrite (arrived_decoded (OpRetire q a) _ retireCredentialBody); [|done|reflexivity|by apply retire_sendable|by apply retire_body_read].
  cbn [method_path fst cbActor cbExpectedVersion]. rewrite Ha. apply on_service.
Qed.

(** The routes below a run. *)
Lemma run_parts p e q :
  forall_bytes plain_char e = true → TrimSuffix (TrimPrefix (p +:+ e +:+ String "/" q) p) (String "/" q) = e.
Proof. intros He. rewrite relative_path. apply TrimSuffix_app. Qed.

Lemma dispatch_cancel server ctx identity q w :
  valid_operation (OpCancel q) → Role identity = RoleScheduler →
  dispatch server ctx identity (arrived (OpCancel q)) w = perform (intended ctx identity (OpCancel q)) w.
Proof.
  intros Hop Hr. pose proof Hop as [(Hc & Hid) _]. destruct (arrived_line tls client Hbase (OpCancel q)) as (Hm & Hp & _).
  cbn [method_path fst snd] in Hm, Hp. set (path := rqPath _) in *.
  assert (HasPrefix path "/internal/v1/run-bindings/" = true) as Hpre by (rewrite Hp; apply HasPrefix_app).
  assert (HasSuffix path "/cancel" = true) as Hsuf by (rewrite Hp, app_assoc_str; apply HasSuffix_app).
  unfold dispatch. cbv zeta. unfold is_method. fold path. rewrite Hm. change (String.eqb "POST" "GET") with false. cbn [andb].
  rewrite (prefix_excludes _ _ "/internal/v1/operations/" Hpre eq_refl), (prefix_differs _ _ "/internal/v1/credentials" Hpre eq_refl),
    (prefix_excludes _ _ "/internal/v1/credentials/" Hpre eq_refl), (prefix_differs _ _ "/internal/v1/run-bindings" Hpre eq_refl), andb_false_r.
  rewrite Hpre, Hsuf. change (String.eqb "POST" "POST") with true. cbn [andb]. cbv iota.
  rewrite Hp, run_parts by apply PathEscape_plain. rewrite no_slash_contains, escaped_nonempty by (apply PathEscape_plain || done). cbn [orb].
  unfold cancelBinding. rewrite has_role_eq by done. cbn [negb].
  erewrite arrived_decoded; [|done|reflexivity|by apply cancel_sendable|apply cancel_body_read]. apply on_service.
Qed.

Lemma dispatch_resolve server ctx identity q w :
  valid_operation (OpResolve q) → Role identity = RoleExecutor →
  dispatch server ctx identity (arrived (OpResolve q)) w = perform (intended ctx identity (OpResolve q)) w.
Proof.
  intros Hop Hr. pose proof Hop as [(Hc & Hid) _]. destruct (arrived_line tls client Hbase (OpResolve q)) as (Hm & Hp & _).
  cbn [method_path fst snd] in Hm, Hp. set (path := rqPath _) in *.
  assert (HasPrefix path "/internal/v1/runs/" = true) as Hpre by (rewrite Hp; apply HasPrefix_app).
  assert (HasSuffix path "/credential:resolve" = true) as Hsuf by (rewrite Hp, app_assoc_str; apply HasSuffix_app).
  unfold dispatch. cbv zeta. unfold is_method. fold path. rewrite Hm. change (String.eqb "POST" "GET") with false. cbn [andb].
  rewrite (prefix_excludes _ _ "/internal/v1/operations/" Hpre eq_refl), (prefix_differs _ _ "/internal/v1/credentials" Hpre eq_refl),
    (prefix_excludes _ _ "/internal/v1/credentials/" Hpre eq_refl), (prefix_differs _ _ "/internal/v1/run-bindings" Hpre eq_refl), andb_false_r.
  rewrite (prefix_excludes _ _ "/internal/v1/run-bindings/" Hpre eq_refl), andb_false_r. cbn [andb].
  rewrite Hpre, Hsuf. change (String.eqb "POST" "POST") with true. cbn [andb]. cbv iota.
  rewrite Hp, run_parts by apply PathEscape_plain. rewrite no_slash_contains, escaped_nonempty by (apply PathEscape_plain || done). cbn [orb].
  unfold resolve. rewrite has_role_eq by done. cbn [negb].
  erewrite arrived_decoded; [|done|reflexivity|by apply resolve_sendable|by apply resolve_body_read]. apply on_service.
Qed.

(** The operation a request is recorded under. *)
Lemma arrived_operation {A} (op : operation A) ctx identity :
  requestOperation (rqMethod (arrived op)) (rqPath (arrived op)) = operation_of (intended ctx identity op).
Proof.
  destruct (arrived_line tls client Hbase op) as (Hm & Hp & _). symmetry.
  destruct op; cbn [method_path fst snd intended operation_of] in *.
  - by rewrite Hm, Hp.
  - assert (HasPrefix (rqPath (arrived (OpGet organization id))) "/internal/v1/credentials/" = true) as Hpre by (rewrite Hp; apply HasPrefix_app).
    clear Hp. routed.
  - assert (HasPrefix (rqPath (arrived (OpReplace q a))) "/internal/v1/credentials/" = true) as Hpre by (rewrite Hp; apply HasPrefix_app).
    assert (HasSuffix (rqPath (arrived (OpReplace q a))) "/inputs" = true) as Hsuf by (rewrite Hp, app_assoc_str; apply HasSuffix_app).
    clear Hp. routed.
  - assert (HasPrefix (rqPath (arrived (OpUpdate q a))) "/internal/v1/credentials/" = true) as Hpre by (rewrite Hp; apply HasPrefix_app).
    clear Hp. routed.
  - assert (HasPrefix (rqPath (arrived (OpRetire q a))) "/internal/v1/credentials/" = true) as Hpre by (rewrite Hp; apply HasPrefix_app).
    assert (HasSuffix (rqPath (arrived (OpRetire q a))) "/retire" = true) as Hsuf by (rewrite Hp, app_assoc_str; apply HasSuffix_app).
    clear Hp. routed.
  - by rewrite Hm, Hp.
  - assert (HasPrefix (rqPath (arrived (OpCancel q))) "/internal/v1/run-bindings/" = true) as Hpre by (rewrite Hp; apply HasPrefix_app).
    assert (HasSuffix (rqPath (arrived (OpCancel q))) "/cancel" = true) as Hsuf by (rewrite Hp, app_assoc_str; apply HasSuffix_app).
    clear Hp. routed.
  - assert (HasPrefix (rqPath (arrived (OpResolve q))) "/internal/v1/runs/" = true) as Hpre by (rewrite Hp; apply HasPrefix_app).
    assert (HasSuffix (rqPath (arrived (OpResolve q))) "/credential:resolve" = true) as Hsuf by (rewrite Hp, app_assoc_str; apply HasSuffix_app).
    clear Hp. routed.
Qed.

(** Every operation is routed to its call. *)
Lemma dispatch_intended {A} (op : operation A) server ctx identity w :
  valid_operation op → Role identity = role_of op →
  dispatch server ctx identity (arrived op) w = perform (intended ctx identity op) w.
Proof.
  destruct op; cbn [role_of].
  - apply dispatch_create.
  - apply dispatch_get.
  - apply dispatch_replace.
  - apply dispatch_update.
  - apply dispatch_retire.
  - apply dispatch_register.
  - apply dispatch_cancel.
  - apply dispatch_resolve.
Qed.
End Routing.

(** ** What the caller gets *)

Definition view_of {A} (op : operation A) : payload → option A :=
  match op with
  | OpCreate _ _ | OpGet _ _ | OpReplace _ _ | OpUpdate _ _ | OpRetire _ _ =>
      λ p, match p with PMetadata m => Some (view_metadata m) | _ => None end
  | OpRegister _ | OpCancel _ => λ p, match p with PBinding b => Some (view_binding b) | _ => None end
  | OpResolve _ => λ p, match p with PResolved c => Some c | _ => None end
  end.
(** The answer of the service as a result of the client. *)
Definition outcome {A} (op : operation A) (x : response) : result ClientError A :=
  match rpPayload x with
  | PProblem code => Err (Problem (rpStatus x) code)
  | p => of_option (Problem (rpStatus x) "invalid_response") (view_of op p)
  end.

Lemma receive_service_error {A} (op : operation A) requestID e :
  valid_utf8 requestID = true → len requestID ≤ 64 →
  receive (read_of op) (zero_of op) (success_status op)
    (Reply (rpStatus (writeServiceProblem e)) (Some (response_body requestID (writeServiceProblem e))))
  = outcome op (writeServiceProblem e).
Proof.
  intros Hu Hl. unfold writeServiceProblem, outcome. cbn [problem rpPayload rpStatus]. apply receive_problem; [done|done|..].
  - by destruct e; vm_compute.
  - destruct e; cbn; lia.
  - destruct op, e; cbn; lia.
Qed.

Lemma receive_outcome {A St Au} {CS : CredentialService St} {AR : AuditRecorder Au} (op : operation A) ctx identity (w : St * Au) requestID :
  valid_utf8 requestID = true → len requestID ≤ 64 → presentable (perform (intended ctx identity op) w).1 →
  let x := (perform (intended ctx identity op) w).1 in
  receive (read_of op) (zero_of op) (success_status op) (Reply (rpStatus x) (Some (response_body requestID x))) = outcome op x.
Proof.
  intros Hu Hl. destruct op; cbn [intended perform fst];
    match goal with |- context [respond ?f ?y] => destruct y as [[v|e] s] end; cbn [respond fst snd]; intros Hx;
    first [by apply (receive_service_error (OpCreate q a)) | by apply (receive_service_error (OpGet organization id))
          | by apply (receive_service_error (OpReplace q a)) | by apply (receive_service_error (OpUpdate q a)) | by apply (receive_service_error (OpRetire q a))
          | by apply (receive_service_error (OpRegister q)) | by apply (receive_service_error (OpCancel q)) | by apply (receive_service_error (OpResolve q))
          | exact (receive_metadata requestID _ _ v Hx) | exact (receive_binding requestID _ _ v Hx)
          | exact (receive_resolved requestID _ _ v Hx)].
Qed.

(** The identifier the server gives a request. *)
Lemma request_id_text random :
  (∀ v, random = Some v → String.length v = 16%nat) → valid_utf8 (newRequestID random) = true ∧ len (newRequestID random) ≤ 64.
Proof.
  intros Hr. destruct random as [v|]; [|by vm_compute]. specialize (Hr v eq_refl). unfold newRequestID. split.
  - apply valid_utf8_ascii, lower_hex_ascii, EncodeToString_lower.
  - rewrite len_EncodeToString. unfold len. lia.
Qed.

Lemma headers_allowed {A} (op : operation A) :
  valid_operation op → map_Forall (λ _ v, ValidHeaderFieldValue v = true) (all_headers op).
Proof.
  intros Hop. assert (map_Forall (λ _ v, ValidHeaderFieldValue v = true) (fixed_headers op)) as Hf.
  { unfold fixed_headers. destruct (body_of op); repeat apply map_Forall_insert_2; try done; apply map_Forall_empty. }
  unfold all_headers. destruct (header_of op) as [[n v]|] eqn:Hh; [|done].
  apply map_Forall_insert_2; [|done]. by apply (header_of_ok op n v Hop).
Qed.

Section EndToEnd.
Context {St Au : Type} {CS : CredentialService St} {AR : AuditRecorder Au} {MO : MapOrder}.

(** C5: the client library is the service at a distance: over a network that
    delivers, for every operation with arguments that can be written down
    ([valid_operation]) on a plain base URL, for a caller whose certificate has
    the role of the operation, the service is called once, with the very
    arguments the caller gave (an identifier in a path as it was escaped, which
    leaves UUIDs alone), and its state changes as that one call changes it.  If
    the answer is [presentable], which every error is, and a value whose texts
    are UTF-8, whose numbers have the width of their Go types, whose instants lie
    in the years 0 to 9999 and whose document has at most 1 MiB, the caller gets back exactly what the credential service
    answered: its value, or a problem with the status and code of its error.  A
    longer document is never read: the caller gets the invalid response, and no
    part of the value. *)
Theorem client_faithful {A} (op : operation A) client server tls identity random started finished (w : St * Au) :
  plain_base (base client) → valid_operation op → requestIdentity (mapper server) tls = Some identity →
  Role identity = role_of op → (∀ v, random = Some v → String.length v = 16%nat) →
  let ctx := request_context server (newRequestID random) started (arrived tls client op) in
  let x := (perform (intended ctx identity op) w).1 in
  let '(result, w') := client_call (deliver tls server random started finished) client op w in
  w'.1 = (perform (intended ctx identity op) w).2.1 ∧
  Request.Operation ctx = operation_of (intended ctx identity op) ∧
  (presentable x → result = outcome op x) ∧
  (maxResponseBytes < len (response_body (newRequestID random) x) →
     result = Err (Problem (rpStatus x) "invalid_response")).
Proof.
  intros Hbase Hop Hid Hrole Hrandom ctx x. destruct (request_id_text random Hrandom) as [Hu Hl].
  rewrite client_call_sends by done. unfold deliver. rewrite bool_decide_eq_true_2 by (by apply headers_allowed).
  fold (arrived tls client op). unfold ServeHTTP. fold ctx.
  destruct (arrived_line tls client Hbase op) as (_ & _ & Htls). rewrite Htls, Hid.
  rewrite dispatch_intended by done.
  pose proof (receive_outcome op ctx identity w (newRequestID random) Hu Hl) as Hr. fold x in Hr. cbv zeta in Hr.
  assert (maxResponseBytes < len (response_body (newRequestID random) x) →
    receive (read_of op) (zero_of op) (success_status op) (Reply (rpStatus x) (Some (response_body (newRequestID random) x))) =
      Err (Problem (rpStatus x) "invalid_response")) as Hlong.
  { intros Hlen. unfold receive. by rewrite (proj2 (Z.ltb_lt _ _)). }
  destruct (perform (intended ctx identity op) w) as [y w1] eqn:Ep. cbn [fst snd] in *. subst x.
  assert (Request.Operation ctx = operation_of (intended ctx identity op)) as Hctx.
  { by apply arrived_operation. }
  destruct (has_auditor server); [destruct (completion _ _ _ _)|]; split_and!; done.
Qed.
End EndToEnd.

(** ** An answer the client cannot read

    The service bounds the bytes of names and contents by 1 MiB, the client
    bounds the encoded document by the same number. *)

Fixpoint filler (n : nat) : string := match n with O => "" | S n' => String "x" (filler n') end.
Lemma filler_safe n : forall_bytes html_safe (filler n) = true.
Proof. induction n as [|n IH]; [done|exact IH]. Qed.
Lemma len_filler n : len (filler n) = Z.of_nat n.
Proof. induction n as [|n IH]; [done|]. cbn [filler]. rewrite len_cons. lia. Qed.

Definition large_result (content : string) : InjectorResult := mkInjector ∅ [mkFileOut "ANSIBLE_PASSWORD_FILE" "0600" content].
Definition large_answer (content : string) : ResolvedCredential :=
  mkResolved "00000000-0000-4000-8000-000000000001" "00000000-0000-4000-8000-000000000003" 0
    (irEnvironment (large_result content)) (irFiles (large_result content)).

Lemma large_answer_len content id :
  forall_bytes html_safe content = true →
  len content + 200 ≤ len (response_body id (answer 200 (PResolved (large_answer content)))).
Proof.
  intros Hs. unfold response_body. cbn [payload_value answer rpPayload].
  rewrite resolved_value_members by (vm_compute; split; discriminate).
  change (resolved_members (large_answer content) _ _) with
    [("run_id", json_text "00000000-0000-4000-8000-000000000001"); ("attempt_id", json_text "00000000-0000-4000-8000-000000000003");
     ("expires_at", json_text "0001-01-01T00:00:00Z");
     ("files", JArr [JObj [("name", json_text "ANSIBLE_PASSWORD_FILE"); ("mode", json_text "0600"); ("content", json_text content)]])].
  cbn [render map json_elements fst snd json_text]. rewrite (escape_safe content) by done. unfold json_struct. cbn [json_members].
  repeat rewrite ?len_app, ?len_cons. rewrite !escape_safe by reflexivity.
  repeat match goal with |- context [len ?s] =>
    lazymatch s with content => fail | _ => let v := eval vm_compute in (len s) in change (len s) with v end end.
  lia.
Qed.

(** The manager accepts to render it; the client does not accept to read it. *)
Lemma large_result_valid {MO : MapOrder} content limit :
  len content + 100 ≤ limit → validInjectorResult (large_result content) limit = true.
Proof.
  intros Hlen. apply validInjectorResult_spec. cbn [large_result irEnvironment irFiles]. split_and!.
  - intros n v. by rewrite lookup_empty.
  - constructor; [by vm_compute|constructor].
  - apply NoDup_singleton.
  - unfold injector_size. cbn [irEnvironment irFiles large_result]. rewrite map_to_list_empty.
    change (len content + 100 ≤ limit) in Hlen. unfold sum_by, file_size. cbn [map foldr rfName rfContent].
    change (len "ANSIBLE_PASSWORD_FILE") with 21. lia.
Qed.
Lemma large_answer_unreadable {MO : MapOrder} content :
  forall_bytes html_safe content = true → maxResponseBytes - 200 < len content → len content + 100 ≤ MaxResponseBytes DefaultResolutionPolicy →
  validInjectorResult (large_result content) (MaxResponseBytes DefaultResolutionPolicy) = true ∧
  receive read_resolved no_resolved 200 (Reply 200 (Some (response_body "" (answer 200 (PResolved (large_answer content)))))) =
  Err (Problem 200 "invalid_response").
Proof.
  intros Hs Hlow Hhigh. split; [by apply large_result_valid|]. unfold receive.
  pose proof (large_answer_len content "" Hs). rewrite (proj2 (Z.ltb_lt _ _)); [done|]. lia.
Qed.
Lemma large_content : ∃ content,
  forall_bytes html_safe content = true ∧ maxResponseBytes - 200 < len content ∧ len content + 100 ≤ MaxResponseBytes DefaultResolutionPolicy.
Proof.
  exists (filler (Z.to_nat 1048450)). rewrite len_filler, Z2Nat.id by lia. split; [apply filler_safe|]. by vm_compute.
Qed.

(** ** An executor resolves through the client *)

Module ClientExample.
Import VaultExample BindingExample ServiceExample.
#[local] Existing Instances toy_crypto toy_crypto_laws canonical_order ascii_tables ServiceExample.auditor.

Definition client : Client := mkClient "https://secrets.example:8443" [] Second.
Definition tls : option tls_state := spiffe "/workload/praetor-executor/worker-1".
Definition worker : Credential.WorkloadIdentity := mkIdentity RoleExecutor "praetor-executor:worker-1".
Definition ask : operation ResolvedCredential := OpResolve (mkResolve run_id attempt_id start).
Definition service : CredentialService memoryBackend := memory_service manager at_resolution.
Definition send : outgoing → memoryBackend * list Event → reply * (memoryBackend * list Event) :=
  deliver (H:=service) tls server (Some (stream 16 7)) (start + Second) (start + Second).
Definition ctx : Request.t := request_context server (newRequestID (Some (stream 16 7))) (start + Second) (arrived tls client ask).
Definition answered : response := (perform (H:=service) (intended ctx worker ask) state2).1.

Lemma base_plain : plain_base (base client).
Proof. exists "secrets.example:8443". by vm_compute. Qed.
Lemma ask_valid : valid_operation ask.
Proof.
  split; [split; [split; [repeat constructor|vm_compute; split; discriminate]|done]|vm_compute; discriminate].
Qed.
Lemma worker_known : requestIdentity (mapper server) tls = Some worker.
Proof. by vm_compute. Qed.
Lemma answer_payload : rpPayload answered = PResolved the_answer ∧ rpStatus answered = 200.
Proof. by vm_compute. Qed.
Lemma answer_presentable : presentable answered.
Proof.
  split; [vm_compute; discriminate|]. rewrite (proj1 answer_payload). split_and!.
  - repeat constructor.
  - vm_compute. split; discriminate.
  - apply (bool_decide_unpack _). by vm_compute.
  - repeat constructor.
Qed.
Lemma entropy_length v : Some (stream 16 7) = Some v → String.length v = 16%nat.
Proof. intros [= <-]. by vm_compute. Qed.
End ClientExample.

Lemma client_faithful_witness :
  (client_call (MO:=canonical_order) ClientExample.send ClientExample.client ClientExample.ask ServiceExample.state2).1 =
    Ok BindingExample.the_answer.
Proof.
  pose proof (client_faithful (CS:=ClientExample.service) (AR:=ServiceExample.auditor) (MO:=canonical_order)
    ClientExample.ask ClientExample.client ServiceExample.server ClientExample.tls ClientExample.worker (Some (stream 16 7))
    (BindingExample.start + Second) (BindingExample.start + Second) ServiceExample.state2 ClientExample.base_plain
    ClientExample.ask_valid ClientExample.worker_known eq_refl ClientExample.entropy_length) as H.
  unfold ClientExample.send. rewrite (surjective_pairing (client_call _ _ _ _)) in H. destruct H as (_ & _ & H & _).
  rewrite (H ClientExample.answer_presentable). unfold outcome. fold ClientExample.ctx. fold ClientExample.answered. rewrite (proj1 ClientExample.answer_payload). reflexivity.
Defined.
