(* ===== verification/Postgres.v ===== *)
(** * The production backend: tables, transactions, credentials
    (src/credential/postgres.go, migrations/001_credentials.sql)

    The database as its tables, a transaction as a computation over them that
    either leaves early, which rolls back, or asks for a commit, and the
    credential operations statement by statement.  A statement sees the tables
    as the transaction has left them; transactions are run one after the other,
    which is what the row and advisory locks of the code are for.

    What the server and the driver do with values is [PgTypes]: how a uuid is
    read, which texts a column takes, and the instant a [timestamptz] keeps.
    What the connection does is [world]: which round trips fail, after how many
    rows a result breaks off, how the commit ends, and which rows other
    transactions have locked. *)

From Stdlib Require Import Ascii.
From S2P Require Import Prelude GoStrings Json GoTime TimeParse JsonValue Crypto Envelope AuditEvent Spool Wire Credential Backend MemoryBackend Storage.

Class PgTypes : Type := {
  uuid_in : string → option string;
  text_in : string → bool;
  timestamptz : time → option time
}.

(** ** Tables *)

Record version_row : Type := mkVersionRow { vrEnvelope : string; vrMasterKeyID : string; vrCreatedAt : time }.
Record idempotency_row : Type := mkIdempotencyRow {
  irDigest : string; irResponse : string; irCredentialID : string; irCreatedAt : time
}.
Record attempt_row : Type := mkAttemptRow { atAttempt : memoryAttempt; atCreatedAt : time }.
Record backup_row : Type := mkBackupRow {
  bwArtifactSHA256 : string; bwKeyIDs : list string; bwCreatedAt : time; bwRetainUntil : time; bwExpiredAt : option time
}.

(** A row of [run_bindings] is a [memoryBinding]: [cancel_reason] is NULL
    exactly in the states other than canceled, where [COALESCE] reads it as
    the empty text.  In a row of [master_key_rotations] [finalized_at] is NULL
    exactly before the last state. *)
Record database : Type := mkDatabase {
  dbCredentials : gmap string Metadata;
  dbVersions : gmap (string * Z) version_row;
  dbIdempotency : gmap (string * string) idempotency_row;
  dbBindings : gmap string memoryBinding;
  dbAttempts : gmap string attempt_row;
  dbRotations : gmap string Rotation;
  dbBackups : gmap string backup_row;
  dbAudit : chain
}.
(** The tables after the migrations. *)
Definition empty_database : database := mkDatabase ∅ ∅ ∅ ∅ ∅ ∅ ∅ empty_chain.

Definition set_db_credentials x (d : database) : database :=
  mkDatabase x (dbVersions d) (dbIdempotency d) (dbBindings d) (dbAttempts d) (dbRotations d) (dbBackups d) (dbAudit d).
Definition set_db_versions x (d : database) : database :=
  mkDatabase (dbCredentials d) x (dbIdempotency d) (dbBindings d) (dbAttempts d) (dbRotations d) (dbBackups d) (dbAudit d).
Definition set_db_idempotency x (d : database) : database :=
  mkDatabase (dbCredentials d) (dbVersions d) x (dbBindings d) (dbAttempts d) (dbRotations d) (dbBackups d) (dbAudit d).
Definition set_db_bindings x (d : database) : database :=
  mkDatabase (dbCredentials d) (dbVersions d) (dbIdempotency d) x (dbAttempts d) (dbRotations d) (dbBackups d) (dbAudit d).
Definition set_db_attempts x (d : database) : database :=
  mkDatabase (dbCredentials d) (dbVersions d) (dbIdempotency d) (dbBindings d) x (dbRotations d) (dbBackups d) (dbAudit d).
Definition set_db_rotations x (d : database) : database :=
  mkDatabase (dbCredentials d) (dbVersions d) (dbIdempotency d) (dbBindings d) (dbAttempts d) x (dbBackups d) (dbAudit d).
Definition set_db_backups x (d : database) : database :=
  mkDatabase (dbCredentials d) (dbVersions d) (dbIdempotency d) (dbBindings d) (dbAttempts d) (dbRotations d) x (dbAudit d).
Definition set_db_audit x (d : database) : database :=
  mkDatabase (dbCredentials d) (dbVersions d) (dbIdempotency d) (dbBindings d) (dbAttempts d) (dbRotations d) (dbBackups d) x.

(** ** Transactions *)

Record world : Type := mkWorld {
  wNet : nat → bool;
  wCut : nat → option nat;
  wCommit : commit;
  wLocked : string * Z → bool
}.
(** Nothing fails, nothing is locked. *)
Definition calm : world := mkWorld (λ _, true) (λ _, None) Committed (λ _, false).

(** The tables and the number of round trips so far; an error ends the
    transaction. *)
Definition Tx (A : Type) : Type := database → nat → result CredError (A * (database * nat)).
#[export] Instance tx_ret : MRet Tx := λ A a d n, Ok (a, (d, n)).
#[export] Instance tx_bind : MBind Tx := λ A B f t d n, match t d n with Ok (a, (d', n')) => f a d' n' | Err e => Err e end.

Definition leave {A} (e : CredError) : Tx A := λ _ _, Err e.
Definition leave_if (b : bool) (e : CredError) : Tx unit := if b then leave e else mret ().
Definition lift {A} (r : result CredError A) : Tx A := λ d n, (λ a, (a, (d, n))) <$> r.
Definition known_or {A} (e : CredError) (o : option A) : Tx A := match o with Some a => mret a | None => leave e end.

(** What a transaction function ends with: a result without a commit, or a
    commit and then a result. *)
Inductive ending (A : Type) : Type := Leave (a : A) | Commit (r : result CredError A).
Arguments Leave {A} _.
Arguments Commit {A} _.

(** The effect of an INSERT: a unique violation is told apart. *)
Inductive insertion : Type := Inserted (d : database) | Duplicate | Rejected.

Section Transactions.
Context (o : world).

Definition statement {A} (e : CredError) (f : database → option (A * database)) : Tx A := λ d n,
  if wNet o n then match f d with Some (a, d') => Ok (a, (d', S n)) | None => Err e end else Err e.
Definition query {A} (f : database → option A) : Tx A := statement ErrStorage (λ d, (λ a, (a, d)) <$> f d).
Definition exec (f : database → option database) : Tx unit := statement ErrStorage (λ d, (λ d', ((), d')) <$> f d).
Definition insert_or (duplicate : CredError) (f : database → insertion) : Tx unit := λ d n,
  if wNet o n then match f d with Inserted d' => Ok ((), (d', S n)) | Duplicate => Err duplicate | Rejected => Err ErrStorage end
  else Err ErrStorage.
(** A result set as far as it comes, and whether it broke off. *)
Definition result_set {A} (f : database → option (list A)) : Tx (list A * bool) := λ d n,
  '(l, dn) ← query f d n;
  Ok (match wCut o n with Some k => (take k l, true) | None => (l, false) end, dn).
(** One that is asked for its error at the end, and one that is not. *)
Definition query_rows {A} (f : database → option (list A)) : Tx (list A) :=
  '(l, broken) ← result_set f; _ ← leave_if broken ErrStorage; mret l.
Definition query_rows_unchecked {A} (f : database → option (list A)) : Tx (list A) := '(l, _) ← result_set f; mret l.

Definition in_tx {A} (body : Tx (ending A)) (d : database) : result CredError A * database :=
  if negb (wNet o 0) then (Err ErrStorage, d)
  else match body d 1%nat with
       | Err e => (Err e, d)
       | Ok (Leave a, _) => (Ok a, d)
       | Ok (Commit r, (d', _)) =>
           match wCommit o with
           | Committed => (r, d')
           | Refused => (Err ErrStorage, d)
           | Unacknowledged => (Err ErrStorage, d')
           end
       end.
(** A query outside a transaction. *)
Definition one_query {A} (f : Tx A) (d : database) : result CredError A := fst <$> f d 0%nat.
End Transactions.

(** ** Audit events *)

Section Audit.
Context `{CR : Crypto} `{JB : Jsonb} (o : world) (spool : option Spool) (ctx : option Request.t).

Definition trip_of (st : Spool.statement) : nat :=
  match st with CountPending => 1 | InsertRow => 2 | UpdateHead => 3 | _ => 0 end.

Definition appendAudit (event : Event) : Tx unit := λ d n,
  match spool with
  | None => Err ErrStorage
  | Some sp => match AppendTx sp (λ st, wNet o (n + trip_of st)) (dbAudit d) event with
               | Ok c => Ok ((), (set_db_audit c d, (n + 4)%nat))
               | Err _ => Err ErrStorage
               end
  end.

Definition completion_of (request : Request.t) (event : Event) : Event :=
  let c := Completion ctx ResultSuccess ReasonCompleted (Timestamp event) in
  mkEvent (SchemaVersion c) (Timestamp c) (EventType c) (Operation c) (AuditEvent.Result c) (ReasonCode c)
    (AuditEvent.WorkloadIdentity c) (HumanActor c) (OrganizationID event) (CredentialID event) (RunID event)
    (RotationID event) (ExecutorIdentity event) (CredentialVersion event) (CredentialSchema event) (KeyVersion event)
    (Request.ID request) (LatencyClass c).
Definition appendCompletion (event : Event) : Tx unit :=
  match ctx with None => mret () | Some request => appendAudit (completion_of request event) end.

Definition attributed (request : Request.t) (event : Event) : Event :=
  mkEvent (SchemaVersion event) (Timestamp event) (EventType event) (Operation event) (AuditEvent.Result event)
    (ReasonCode event) (Request.WorkloadIdentity request) (Request.HumanActor request) (OrganizationID event)
    (CredentialID event) (RunID event) (RotationID event) (ExecutorIdentity event) (CredentialVersion event)
    (CredentialSchema event) (KeyVersion event) (Request.ID request) (LatencyClass event).
Definition appendSuccessfulTransition (event : Event) : Tx unit :=
  let event := match ctx with Some request => attributed request event | None => event end in
  _ ← appendAudit event; appendCompletion event.
End Audit.

(** An event of a state transition; the fields a caller leaves out are zero. *)
Definition transition (operation reason workload organization credential run rotation executor : string)
    (version schema : Z) (key : string) (timestamp : time) : Event :=
  mkEvent AuditSchemaVersion (UTC timestamp) EventTypeStateTransition operation ResultSuccess reason workload ""
    organization credential run rotation executor version schema key "" "".
Definition credentialAudit (operation : string) (m : Metadata) : Event :=
  transition operation ReasonCompleted "" (mOrganizationID m) (mID m) "" "" "" (mVersion m) (mSchemaVersion m) "" (mUpdatedAt m).

Fixpoint split_at_nul (s : string) : option (string * string) :=
  match s with
  | "" => None
  | String a s' => if bz a =? 0 then Some ("", s') else '(x, y) ← split_at_nul s'; Some (String a x, y)
  end.
Definition splitIdempotencyID (value : string) : option (string * string) :=
  '(x, y) ← split_at_nul value; if String.eqb x "" || String.eqb y "" then None else Some (x, y).

(** ** Credentials *)

Section Credentials.
Context `{CR : Crypto} `{JB : Jsonb} `{PT : PgTypes} (o : world) (spool : option Spool) (ctx : option Request.t).

Definition encodeStorage (m : Metadata) (r : EnvRecord) : option (string * string) :=
  metadataJSON ← marshal_metadata m; Some (metadataJSON, marshal_envelope r).

(** Columns: NOT NULL CHECK (x <> ''), positive integers of 32 and 64 bits. *)
Definition nonempty_text (s : string) : option string := if text_in s && negb (String.eqb s "") then Some s else None.
Definition positive (bits z : Z) : option Z := if (0 <? z) && (z <? 2 ^ bits) then Some z else None.
Definition bigint (z : Z) : option Z := if z <? 2 ^ 63 then Some z else None.
(** The driver sends an empty slice, which the manager always makes a nil one, as NULL. *)
Definition text_array (l : list string) : option (list string) :=
  match l with [] => None | _ => if forallb text_in l then Some l else None end.
Definition instants (created updated : time) : option (time * time) :=
  c ← timestamptz created; u ← timestamptz updated; if u <? c then None else Some (c, u).

Definition credential_row (m : Metadata) : option Metadata :=
  id ← uuid_in (mID m);
  organization ← nonempty_text (mOrganizationID m); name ← nonempty_text (mName m); type ← nonempty_text (mCredentialType m);
  schema ← positive 31 (mSchemaVersion m); version ← positive 63 (mVersion m);
  fields ← text_array (mSecretFields m);
  '(created, updated) ← instants (mCreatedAt m) (mUpdatedAt m);
  Some (mkMetadata id organization name type schema version (mState m) fields created updated).

Definition insert_credential (m : Metadata) (d : database) : option database :=
  row ← credential_row m;
  match dbCredentials d !! mID row with
  | Some _ => None
  | None => Some (set_db_credentials (<[mID row := row]> (dbCredentials d)) d)
  end.

Definition insert_version (credentialID : string) (version : Z) (document key : string) (created : time) (d : database)
  : option database :=
  id ← uuid_in credentialID;
  version ← positive 63 version;
  envelope ← jsonb document;
  key ← nonempty_text key;
  created ← timestamptz created;
  match dbCredentials d !! id, dbVersions d !! (id, version) with
  | Some _, None => Some (set_db_versions (<[(id, version) := mkVersionRow envelope key created]> (dbVersions d)) d)
  | _, _ => None
  end.

Definition insert_idempotency (organization key digest document credentialID : string) (created : time) (d : database)
  : option database :=
  organization ← nonempty_text organization;
  key ← nonempty_text key;
  response ← jsonb document;
  id ← uuid_in credentialID;
  created ← timestamptz created;
  if negb (len digest =? 32) then None
  else match dbCredentials d !! id, dbIdempotency d !! (organization, key) with
       | Some _, None =>
           Some (set_db_idempotency (<[(organization, key) := mkIdempotencyRow digest response id created]> (dbIdempotency d)) d)
       | _, _ => None
       end.

Definition texts_in (l : list string) : option unit := if forallb text_in l then Some () else None.

Definition Create (idempotencyID digest : string) (metadata : Metadata) (record : EnvRecord) (d : database)
  : result CredError Metadata * database :=
  match splitIdempotencyID idempotencyID with
  | None => (Err ErrInvalidInput, d)
  | Some (organizationID, idempotencyKey) =>
      match encodeStorage metadata record with
      | None => (Err ErrStorage, d)
      | Some (metadataJSON, recordJSON) =>
          in_tx o
            (_ ← query o (λ _, texts_in [organizationID; idempotencyKey]);
             existing ← query o (λ d, _ ← texts_in [organizationID; idempotencyKey];
                                      Some (dbIdempotency d !! (organizationID, idempotencyKey)));
             match existing with
             | Some row =>
                 _ ← leave_if (negb (String.eqb (irDigest row) digest)) ErrIdempotencyConflict;
                 response ← known_or ErrStorage (unmarshal_metadata (irResponse row));
                 mret (Commit (Ok response))
             | None =>
                 _ ← exec o (insert_credential metadata);
                 _ ← exec o (insert_version (mID metadata) (mVersion metadata) recordJSON (recMasterKeyID record) (mUpdatedAt metadata));
                 _ ← exec o (insert_idempotency organizationID idempotencyKey digest metadataJSON (mID metadata) (mCreatedAt metadata));
                 _ ← appendSuccessfulTransition o spool ctx (credentialAudit OperationCredentialCreated metadata);
                 mret (Commit (Ok metadata))
             end) d
      end
  end.

(** The columns of a credential joined with those of one of its versions. *)
Definition find_credential (organizationID id : string) (d : database) : option Metadata :=
  row ← dbCredentials d !! id; if String.eqb (mOrganizationID row) organizationID then Some row else None.

Definition Get (organizationID credentialID : string) (d : database) : result CredError (Metadata * EnvRecord) :=
  found ← one_query (query o (λ d,
    _ ← texts_in [organizationID]; id ← uuid_in credentialID;
    Some (row ← find_credential organizationID id d; version ← dbVersions d !! (id, mVersion row); Some (row, version)))) d;
  '(metadata, version) ← of_option ErrNotFound found;
  record ← of_option ErrStorage (unmarshal_envelope (vrEnvelope version));
  Ok (metadata, record).

(** UPDATE credentials: the rows it affects. *)
Definition update_credential (organizationID credentialID : string) (expectedVersion : Z) (m : Metadata) (d : database)
  : option (nat * database) :=
  _ ← texts_in (mName m :: organizationID :: mSecretFields m);
  version ← bigint (mVersion m);
  expected ← bigint expectedVersion;
  updated ← timestamptz (mUpdatedAt m);
  id ← uuid_in credentialID;
  match find_credential organizationID id d with
  | Some row =>
      if negb (mVersion row =? expected) then Some (0%nat, d)
      else if String.eqb (mName m) "" || (version <=? 0) || bool_decide (mSecretFields m = []) || (updated <? mCreatedAt row)
      then None
      else let row := mkMetadata id (mOrganizationID row) (mName m) (mCredentialType row) (mSchemaVersion row) version
                        (mState m) (mSecretFields m) (mCreatedAt row) updated in
           Some (1%nat, set_db_credentials (<[id := row]> (dbCredentials d)) d)
  | None => Some (0%nat, d)
  end.

Definition Update (organizationID credentialID : string) (expectedVersion : Z) (metadata : Metadata) (record : EnvRecord)
    (operation : string) (d : database) : result CredError Metadata * database :=
  match encodeStorage metadata record with
  | None => (Err ErrStorage, d)
  | Some (_, recordJSON) =>
      in_tx o
        (affected ← statement o ErrStorage (update_credential organizationID credentialID expectedVersion metadata);
         if (affected =? 0)%nat then
           current ← query o (λ d, id ← uuid_in credentialID; Some (find_credential organizationID id d));
           match current with None => leave ErrNotFound | Some _ => leave ErrVersionConflict end
         else
           _ ← exec o (insert_version credentialID (mVersion metadata) recordJSON (recMasterKeyID record) (mUpdatedAt metadata));
           _ ← appendSuccessfulTransition o spool ctx (credentialAudit operation metadata);
           mret (Commit (Ok metadata))) d
  end.
End Credentials.
