(* ===== verification/PostgresBindings.v ===== *)
(** * Bindings and resolution in the database
    (src/credential/postgres_resolution.go, migrations/002_run_bindings.sql) *)

From Stdlib Require Import Ascii.
From S2P Require Import Prelude GoStrings Json GoTime TimeParse JsonValue Crypto Envelope AuditEvent Spool Wire Credential Backend MemoryBackend Storage Postgres.

Definition bindingAudit (operation : string) (b : Binding) (workload reason : string) (timestamp : time) : Event :=
  transition operation reason workload (bdOrganizationID b) (bdCredentialID b) (bdRunID b) "" (bdExecutorIdentity b)
    (bdCredentialVersion b) 0 "" timestamp.

(** The trigger [run_bindings_identity_immutable]: what an UPDATE may change. *)
Definition binding_update_allowed (old new : Binding) : bool :=
  String.eqb (bdRunID new) (bdRunID old) && String.eqb (bdDispatchID new) (bdDispatchID old) &&
  String.eqb (bdOrganizationID new) (bdOrganizationID old) && String.eqb (bdCredentialID new) (bdCredentialID old) &&
  (bdCredentialVersion new =? bdCredentialVersion old) &&
  String.eqb (bdExecutorIdentity new) (bdExecutorIdentity old) &&
  (bdNotBefore new =? bdNotBefore old) && (bdExpiresAt new =? bdExpiresAt old) &&
  (bdMaxResolutions new =? bdMaxResolutions old) && (bdCreatedAt new =? bdCreatedAt old) &&
  (bdResolutionCount old <=? bdResolutionCount new) &&
  (negb (terminal (bdState old)) || bool_decide (bdState new = bdState old)).

(** The CHECK constraints of [run_bindings] that involve more than one value. *)
Definition binding_constraints (b : Binding) : bool :=
  HasPrefix (bdExecutorIdentity b) "praetor-executor:" && (0 <? bdMaxResolutions b) &&
  (0 <=? bdResolutionCount b) && (bdResolutionCount b <=? bdMaxResolutions b) &&
  (bdNotBefore b <? bdExpiresAt b) && (bdCreatedAt b <=? bdUpdatedAt b).

Definition same_key (organization key : string) (x : string * memoryBinding) : bool :=
  String.eqb (bdOrganizationID (mbBinding x.2)) organization && String.eqb (mbIdempotencyKey x.2) key.

Section Bindings.
Context `{CR : Crypto} `{JB : Jsonb} `{PT : PgTypes} (o : world) (spool : option Spool) (ctx : option Request.t).

Abbreviation appendAudit := (appendAudit o spool).
Abbreviation appendCompletion := (appendCompletion o spool ctx).
Abbreviation appendSuccessfulTransition := (appendSuccessfulTransition o spool ctx).

(** The row with the idempotency key, of which there is at most one. *)
Definition find_by_key (organization key : string) (d : database) : option memoryBinding :=
  snd <$> List.find (same_key organization key) (map_to_list (dbBindings d)).

Definition insert_binding (b : Binding) (key digest : string) (d : database) : insertion :=
  match
    run ← uuid_in (bdRunID b); dispatch ← uuid_in (bdDispatchID b); organization ← nonempty_text (bdOrganizationID b);
    credential ← uuid_in (bdCredentialID b); version ← positive 63 (bdCredentialVersion b);
    executor ← nonempty_text (bdExecutorIdentity b); notBefore ← timestamptz (bdNotBefore b);
    expiresAt ← timestamptz (bdExpiresAt b); maximum ← positive 31 (bdMaxResolutions b);
    key ← nonempty_text key; created ← timestamptz (bdCreatedAt b);
    let row := mkBinding run dispatch organization credential version executor (bdState b) notBefore expiresAt maximum 0
                 created created "" in
    if negb (len digest =? 32) || negb (binding_constraints row) then None else Some (mkMemBinding row key digest)
  with
  | None => Rejected
  | Some row =>
      let b := mbBinding row in
      if bool_decide (is_Some (dbBindings d !! bdRunID b)) ||
         existsb (λ x, String.eqb (bdDispatchID (mbBinding x.2)) (bdDispatchID b)) (map_to_list (dbBindings d)) ||
         bool_decide (is_Some (find_by_key (bdOrganizationID b) (mbIdempotencyKey row) d)) then Duplicate
      else match dbVersions d !! (bdCredentialID b, bdCredentialVersion b) with
           | Some _ => Inserted (set_db_bindings (<[bdRunID b := row]> (dbBindings d)) d)
           | None => Rejected
           end
  end.

Definition select_binding (runID : string) : Tx (option memoryBinding) :=
  query o (λ d, run ← uuid_in runID; Some (dbBindings d !! run)).

(** UPDATE run_bindings SET ... WHERE run_id = $n, with the new values of the
    columns it sets. *)
Definition update_binding (runID : string) (st : BindingState) (now : time) (count : option Z) (reason : option string)
    (d : database) : option database :=
  run ← uuid_in runID;
  now ← timestamptz now;
  _ ← texts_in (match reason with Some r => [r] | None => [] end);
  match dbBindings d !! run with
  | None => Some d
  | Some row =>
      let b := with_state st now (mbBinding row) in
      let b := match count with Some c => with_count c b | None => b end in
      let b := match reason with Some r => with_reason r b | None => b end in
      if binding_constraints b && binding_update_allowed (mbBinding row) b
      then Some (set_db_bindings (<[run := with_binding b row]> (dbBindings d)) d) else None
  end.

Definition RegisterBinding (registration : bindingRegistration) (d : database) : result CredError Binding * database :=
  let request := brRequest registration in
  let organization := rbOrganizationID request in
  let key := rbIdempotencyKey request in
  in_tx o
    (_ ← query o (λ _, texts_in [organization; key]);
     existing ← query o (λ d, _ ← texts_in [organization; key]; Some (find_by_key organization key d));
     match existing with
     | Some row =>
         _ ← leave_if (negb (String.eqb (mbDigest row) (brDigest registration))) ErrBindingConflict;
         _ ← appendCompletion (bindingAudit OperationRunBindingRegistered (mbBinding row) "praetor-scheduler"
                                 ReasonCompleted (brNow registration));
         mret (Commit (Ok (mbBinding row)))
     | None =>
         found ← query o (λ d,
           id ← uuid_in (rbCredentialID request); _ ← texts_in [organization];
           Some (row ← find_credential organization id d;
                 if bool_decide (mState row = StateActive) && bool_decide (is_Some (dbVersions d !! (id, mVersion row)))
                 then Some (mVersion row) else None));
         credentialVersion ← known_or ErrNotFound found;
         let binding := new_binding registration credentialVersion in
         _ ← insert_or o ErrBindingConflict (insert_binding binding key (brDigest registration));
         _ ← appendSuccessfulTransition (bindingAudit OperationRunBindingRegistered binding "praetor-scheduler"
                                           ReasonCompleted (brNow registration));
         mret (Commit (Ok binding))
     end) d.

Definition GetBinding (runID : string) (d : database) : result CredError Binding :=
  found ← one_query (select_binding runID) d;
  mbBinding <$> of_option ErrBindingNotFound found.

Definition CancelBinding (runID dispatchID reason : string) (now : time) (d : database)
  : result CredError Binding * database :=
  in_tx o
    (found ← select_binding runID;
     row ← known_or ErrBindingNotFound found;
     let binding := mbBinding row in
     _ ← leave_if (negb (String.eqb (bdDispatchID binding) dispatchID)) ErrBindingConflict;
     if negb (terminal (bdState binding)) then
       let binding := with_reason reason (with_state BindingCanceled now binding) in
       _ ← exec o (update_binding runID BindingCanceled now None (Some reason));
       _ ← appendSuccessfulTransition (bindingAudit OperationRunBindingCanceled binding "praetor-scheduler" reason now);
       mret (Commit (Ok binding))
     else
       _ ← appendCompletion (bindingAudit OperationRunBindingCanceled binding "praetor-scheduler" ReasonCompleted now);
       mret (Commit (Ok binding))) d.

Definition postgresBoundVersion (b : Binding) : Tx boundRecord :=
  found ← statement o ErrResolution (λ d,
    row ← (id ← uuid_in (bdCredentialID b);
           _ ← texts_in [bdOrganizationID b];
           _ ← bigint (bdCredentialVersion b);
           m ← find_credential (bdOrganizationID b) id d;
           v ← dbVersions d !! (id, bdCredentialVersion b);
           Some (vrEnvelope v, mCredentialType m, mSchemaVersion m));
    Some (row, d));
  let '(recordJSON, credentialType, schemaVersion) := found in
  record ← known_or ErrResolution (unmarshal_envelope recordJSON);
  mret (mkBound record credentialType schemaVersion).

Definition insert_attempt (claim : resolutionClaim) (expiry : time) (d : database) : insertion :=
  match
    id ← uuid_in (clAttemptID claim); run ← uuid_in (clRunID claim); executor ← nonempty_text (clExecutorIdentity claim);
    created ← timestamptz (clNow claim); expires ← timestamptz expiry;
    if negb (HasPrefix executor "praetor-executor:") || negb (len (clDigest claim) =? 32) || (expires <=? created) then None
    else Some (id, mkAttemptRow (mkAttempt run executor (clDigest claim) expires) created)
  with
  | None => Rejected
  | Some (id, row) =>
      match dbAttempts d !! id with
      | Some _ => Duplicate
      | None => match dbBindings d !! maRunID (atAttempt row) with
                | Some _ => Inserted (set_db_attempts (<[id := row]> (dbAttempts d)) d)
                | None => Rejected
                end
      end
  end.

Definition ClaimResolution (A : Type) (claim : resolutionClaim) (validate : Binding → boundRecord → result CredError A)
    (d : database) : result CredError (Binding * time * A) * database :=
  let runID := clRunID claim in
  let now := clNow claim in
  let executor := clExecutorIdentity claim in
  in_tx o
    (found ← select_binding runID;
     row ← known_or ErrBindingNotFound found;
     let binding := mbBinding row in
     _ ← leave_if (negb (String.eqb (bdExecutorIdentity binding) executor)) ErrUnauthorized;
     _ ← leave_if (bool_decide (bdState binding = BindingCanceled)) ErrBindingNotActive;
     _ ← leave_if (bool_decide (bdState binding = BindingExpired)) ErrBindingExpired;
     if negb (Before now (bdExpiresAt binding)) then
       _ ← (if negb (bool_decide (bdState binding = BindingExhausted)) then
              _ ← exec o (update_binding runID BindingExpired now None None);
              appendAudit (bindingAudit OperationRunBindingExpired (with_state BindingExpired (bdUpdatedAt binding) binding)
                             executor "binding_expired" now)
            else mret ());
       mret (Commit (Err ErrBindingExpired))
     else
     _ ← leave_if (Before now (bdNotBefore binding)) ErrBindingNotActive;
     version ← postgresBoundVersion binding;
     rendered ← lift (validate binding version);
     found ← query o (λ d, id ← uuid_in (clAttemptID claim); Some (dbAttempts d !! id));
     match found with
     | Some attempt =>
         let a := atAttempt attempt in
         _ ← leave_if (negb (String.eqb (maRunID a) runID) || negb (String.eqb (maExecutorIdentity a) executor) ||
                       negb (String.eqb (maDigest a) (clDigest claim)) || negb (Before now (maExpiresAt a)))
               ErrAttemptConflict;
         _ ← appendCompletion (bindingAudit OperationCredentialResolved binding executor ReasonCompleted now);
         mret (Commit (Ok (binding, maExpiresAt a, rendered)))
     | None =>
         if (bdMaxResolutions binding <=? bdResolutionCount binding) || bool_decide (bdState binding = BindingExhausted) then
           _ ← (if negb (bool_decide (bdState binding = BindingExhausted)) then
                  _ ← exec o (update_binding runID BindingExhausted now None None);
                  appendAudit (bindingAudit OperationRunBindingExhausted
                                 (with_state BindingExhausted (bdUpdatedAt binding) binding) executor "resolution_limit" now)
                else mret ());
           mret (Commit (Err ErrBindingExhausted))
         else
           let expiry := Add now (clRetryWindow claim) in
           let expiry := if After expiry (bdExpiresAt binding) then bdExpiresAt binding else expiry in
           _ ← insert_or o ErrAttemptConflict (insert_attempt claim expiry);
           let count := u32 (bdResolutionCount binding + 1) in
           let st := if count =? bdMaxResolutions binding then BindingExhausted else BindingActive in
           let binding := with_state st now (with_count count binding) in
           _ ← exec o (update_binding (bdRunID binding) st now (Some count) None);
           _ ← appendSuccessfulTransition (bindingAudit OperationCredentialResolved binding executor ReasonCompleted now);
           mret (Commit (Ok (binding, expiry, rendered)))
     end) d.
End Bindings.
