(* ===== verification/PostgresRotation.v ===== *)
(** * Rotation, recovery and backups in the database
    (src/credential/postgres_rotation.go, postgres_recovery.go,
    migrations/003_rotations.sql, 004_recovery.sql) *)

From Stdlib Require Import Ascii.
From S2P Require Import Prelude GoStrings Json GoTime TimeParse JsonValue Crypto Envelope AuditEvent Spool Wire Credential Backend MemoryBackend Storage Postgres.

Definition rotationAudit (operation : string) (r : Rotation) (timestamp : time) : Event :=
  transition operation ReasonCompleted "" "" "" "" (roID r) "" 0 0 (roTargetKeyID r) timestamp.

(** A joined row of [credential_versions] and [credentials]. *)
Record joined : Type := mkJoined { joVersion : Z; joRow : version_row; joMetadata : Metadata }.
Definition joined_le (x y : joined) : Prop :=
  if String.eqb (mID (joMetadata x)) (mID (joMetadata y)) then joVersion x ≤ joVersion y
  else String.le (mID (joMetadata x)) (mID (joMetadata y)).
#[export] Instance joined_le_dec : RelDecision joined_le.
Proof. intros x y. unfold joined_le. case_match; apply _. Defined.

(** The join, ordered by credential and version. *)
Definition joined_rows (d : database) : list joined :=
  merge_sort joined_le
    (omap (λ x : string * Z * version_row, m ← dbCredentials d !! x.1.1; Some (mkJoined x.1.2 x.2 m)) (map_to_list (dbVersions d))).
Definition under (key : string) (x : joined) : bool := String.eqb (vrMasterKeyID (joRow x)) key.

(** SELECT count( * ) FROM credential_versions WHERE master_key_id = key. *)
Definition version_keys (d : database) : list string := (λ x : string * Z * version_row, vrMasterKeyID x.2) <$> map_to_list (dbVersions d).
Definition count_under (key : string) (d : database) : Z := count_by (String.eqb key) (version_keys d).

Definition scan_item (x : joined) : option rotationRecord :=
  record ← unmarshal_envelope (vrEnvelope (joRow x)); Some (mkRotationRecord (joMetadata x) (joVersion x) record).

(** [counts\[k\] = n] for each row that comes. *)
Definition collect_counts (l : list (string * Z)) : gmap string Z := foldl (λ m x, <[x.1 := x.2]> m) ∅ l.

Definition active_rows (d : database) : list Rotation := filter (λ r, active_rotation r = true) (map_to_list (dbRotations d)).*2.
Definition created_le (x y : Rotation) : Prop := roCreatedAt x ≤ roCreatedAt y.
#[export] Instance created_le_dec : RelDecision created_le.
Proof. intros x y. unfold created_le. apply _. Defined.

Section Rotation.
Context `{CR : Crypto} `{MO : MapOrder} `{JB : Jsonb} `{PT : PgTypes} (o : world) (spool : option Spool) (ctx : option Request.t).

Abbreviation appendAudit := (appendAudit o spool).
Abbreviation appendSuccessfulTransition := (appendSuccessfulTransition o spool ctx).

(** GROUP BY: one row for each value, in an order nobody asked for. *)
Definition group_rows (l : list string) : list (string * Z) := iterate (tally l ∅).

Definition select_rotation (id : string) : Tx (option Rotation) :=
  query o (λ d, id ← uuid_in id; Some (dbRotations d !! id)).

Definition select_count (key : string) : Tx Z := query o (λ d, _ ← texts_in [key]; Some (count_under key d)).

Definition insert_rotation (r : Rotation) (d : database) : insertion :=
  match
    id ← uuid_in (roID r); source ← nonempty_text (roSourceKeyID r); target ← nonempty_text (roTargetKeyID r);
    created ← timestamptz (roCreatedAt r); total ← bigint (roTotalRecords r);
    if String.eqb source target || (total <? 0) then None
    else Some (mkRotation id source target (roState r) total 0 created created zero_time)
  with
  | None => Rejected
  | Some row =>
      if bool_decide (is_Some (dbRotations d !! roID row)) || (active_rotation row && negb (bool_decide (active_rows d = [])))
      then Duplicate else Inserted (set_db_rotations (<[roID row := row]> (dbRotations d)) d)
  end.

(** UPDATE master_key_rotations SET ... WHERE id = $n. *)
Definition update_rotation (id : string) (f : time → Rotation → Rotation) (now : time) (d : database) : option database :=
  id ← uuid_in id;
  now ← timestamptz now;
  match dbRotations d !! id with
  | None => Some d
  | Some row =>
      let r := f now row in
      if (0 <=? roProcessedRecords r) && (roProcessedRecords r <=? roTotalRecords r) && (roCreatedAt r <=? roUpdatedAt r)
      then Some (set_db_rotations (<[id := r]> (dbRotations d)) d) else None
  end.

Definition StartRotation (rotation : Rotation) (d : database) : result CredError Rotation * database :=
  in_tx o
    (total ← select_count (roSourceKeyID rotation);
     let rotation := with_total (if total =? 0 then RotationReady else roState rotation) total rotation in
     _ ← insert_or o ErrRotationConflict (insert_rotation rotation);
     _ ← appendSuccessfulTransition (rotationAudit OperationMasterKeyRotationStarted rotation (roCreatedAt rotation));
     mret (Commit (Ok rotation))) d.

Definition GetRotation (id : string) (d : database) : result CredError Rotation :=
  found ← one_query (select_rotation id) d; of_option ErrNotFound found.

(** Three queries without a transaction, each seeing what is committed then. *)
Definition KeyStatus (current previous : string) (d1 d2 d3 : database) : result CredError KeyStatus :=
  '(counts, (_, n)) ← query_rows o (λ d, Some (group_rows (version_keys d))) d1 0%nat;
  '(active, (_, n)) ← query o (λ d, Some (head (merge_sort created_le (active_rows d)))) d2 n;
  '(retained, _) ← query_rows_unchecked o (λ d,
      Some (group_rows (mjoin ((λ x : string * backup_row,
        match bwExpiredAt x.2 with None => bwKeyIDs x.2 | Some _ => [] end) <$> map_to_list (dbBackups d))))) d3 n;
  let counts := collect_counts counts in
  let retained := collect_counts retained in
  Ok (mkKeyStatus current previous counts active
        (negb (String.eqb previous "") && (default 0 (counts !! previous) =? 0) &&
         match active with None => true | Some _ => false end)
        retained
        (negb (String.eqb previous "") && (default 0 (retained !! previous) =? 0))).

(** UPDATE credential_versions SET envelope, master_key_id: the rows affected. *)
Definition update_version (id : string) (version : Z) (only : option string) (document key : string) (d : database)
  : option (nat * database) :=
  id ← uuid_in id; _ ← bigint version; envelope ← jsonb document; _ ← texts_in (key :: match only with Some k => [k] | None => [] end);
  match dbVersions d !! (id, version) with
  | None => Some (0%nat, d)
  | Some row =>
      if match only with Some k => negb (String.eqb (vrMasterKeyID row) k) | None => false end then Some (0%nat, d)
      else if String.eqb key "" then None
      else Some (1%nat, set_db_versions (<[(id, version) := mkVersionRow envelope key (vrCreatedAt row)]> (dbVersions d)) d)
  end.

Definition batch_event (rotation : Rotation) (x : rotationRecord) (now : time) : Event :=
  let event := transition OperationCredentialKeyRotated ReasonCompleted "" (mOrganizationID (rrMetadata x)) (mID (rrMetadata x)) ""
    (roID rotation) "" (rrVersion x) (mSchemaVersion (rrMetadata x)) (roTargetKeyID rotation) now in
  match ctx with Some request => attributed request event | None => event end.

(** The loop over the selected records. *)
Fixpoint rotate_items (transform : rotationRecord → result CredError EnvRecord) (rotation : Rotation) (now : time)
    (l : list rotationRecord) : Tx unit :=
  match l with
  | [] => mret ()
  | x :: l' =>
      rotated ← lift (transform x);
      affected ← statement o ErrStorage
        (update_version (mID (rrMetadata x)) (rrVersion x) (Some (roSourceKeyID rotation)) (marshal_envelope rotated) (recMasterKeyID rotated));
      _ ← leave_if (negb (affected =? 1)%nat) ErrStorage;
      _ ← appendAudit (batch_event rotation x now);
      rotate_items transform rotation now l'
  end.

(** [FOR UPDATE OF v SKIP LOCKED LIMIT n]. *)
Definition select_batch (source : string) (limit : Z) (d : database) : option (list joined) :=
  _ ← texts_in [source];
  Some (take (Z.to_nat limit)
    (filter (λ x, under source x = true ∧ wLocked o (mID (joMetadata x), joVersion x) = false) (joined_rows d))).

Definition RotateBatch (id : string) (limit : Z) (transform : rotationRecord → result CredError EnvRecord) (wall : time)
    (d : database) : result CredError Rotation * database :=
  in_tx o
    (found ← select_rotation id;
     rotation ← known_or ErrNotFound found;
     if negb (active_rotation rotation) then mret (Leave rotation)
     else
       rows ← query_rows o (select_batch (roSourceKeyID rotation) limit);
       records ← known_or ErrStorage (mapM scan_item rows);
       _ ← rotate_items transform rotation wall records;
       let processed := i64 (roProcessedRecords rotation + Z.of_nat (length records)) in
       remaining ← select_count (roSourceKeyID rotation);
       let rotation := if remaining =? 0 then with_progress RotationReady (roTotalRecords rotation) wall rotation
                       else with_progress RotationRunning processed wall rotation in
       _ ← exec o (update_rotation (roID rotation) (λ now, with_progress (roState rotation) (roProcessedRecords rotation) now) wall);
       _ ← appendSuccessfulTransition (rotationAudit OperationMasterKeyRotationResumed rotation wall);
       mret (Commit (Ok rotation))) d.

Definition FinalizeRotation (id : string) (now : time) (d : database) : result CredError Rotation * database :=
  in_tx o
    (found ← select_rotation id;
     rotation ← known_or ErrNotFound found;
     if negb (active_rotation rotation) then mret (Leave rotation)
     else
       remaining ← select_count (roSourceKeyID rotation);
       _ ← leave_if (negb (remaining =? 0) || negb (bool_decide (roState rotation = RotationReady))) ErrRotationNotReady;
       let rotation := finalized_at now rotation in
       _ ← exec o (update_rotation id finalized_at now);
       _ ← appendSuccessfulTransition (rotationAudit OperationMasterKeyRotationFinalized rotation now);
       mret (Commit (Ok rotation))) d.

Definition RotateCredential (request : CredentialRotationRequest) (transform : rotationRecord → result CredError EnvRecord)
    (now : time) (d : database) : result CredError unit * database :=
  let id := coCredentialID request in
  let version := coVersion request in
  in_tx o
    (found ← query o (λ d,
       id ← uuid_in id; _ ← bigint version; _ ← texts_in [coOrganizationID request];
       Some (m ← find_credential (coOrganizationID request) id d; row ← dbVersions d !! (id, version); Some (mkJoined version row m)));
     row ← known_or ErrNotFound found;
     item ← known_or ErrStorage (scan_item row);
     rotated ← lift (transform item);
     _ ← statement o ErrStorage (update_version id version None (marshal_envelope rotated) (recMasterKeyID rotated));
     _ ← appendSuccessfulTransition
           (transition OperationCredentialKeyRotated ReasonCompleted "" (coOrganizationID request) id "" "" "" version
              (mSchemaVersion (rrMetadata item)) (recMasterKeyID rotated) now);
     mret (Commit (Ok ()))) d.

(** ** Recovery *)

Definition recovery_event (operation : string) (now : time) : Event := transition operation ReasonCompleted "" "" "" "" "" "" 0 0 "" now.

(** The loop over the sample, which decodes, validates and hashes each row. *)
Fixpoint validate_rows (validate : rotationRecord → result CredError unit) (hashed : string) (n : Z) (l : list joined)
  : result CredError (string * Z) :=
  match l with
  | [] => Ok (hashed, n)
  | x :: l' =>
      item ← of_option ErrStorage (scan_item x);
      _ ← validate item;
      validate_rows validate (hashed +:+ item_line item) (i64 (n + 1)) l'
  end.

Definition ValidateRecovery (limit : Z) (validate : rotationRecord → result CredError unit) (wall : time) (d : database)
  : result CredError RecoveryValidation * database :=
  in_tx o
    (_ ← appendSuccessfulTransition (recovery_event OperationRecoveryValidationStarted wall);
     total ← query o (λ d, Some (Z.of_nat (size (dbVersions d))));
     counts ← query_rows_unchecked o (λ d, Some (group_rows (version_keys d)));
     '(rows, broken) ← result_set o (λ d, Some (take (Z.to_nat limit) (joined_rows d)));
     '(hashed, n) ← lift (validate_rows validate "" 0 rows);
     _ ← leave_if broken ErrStorage;
     _ ← appendSuccessfulTransition (recovery_event OperationRecoveryValidationFinished wall);
     mret (Commit (Ok (mkRecovery n total (collect_counts counts) (EncodeToString (sha256 hashed)) wall)))) d.

(** ** Backups *)

Definition scan_backup (id : string) (row : backup_row) : BackupSet :=
  mkBackup id (bwArtifactSHA256 row) (bwKeyIDs row) (bwCreatedAt row) (bwRetainUntil row) (default zero_time (bwExpiredAt row)).

Definition insert_backup (b : BackupSet) (d : database) : option database :=
  id ← nonempty_text (buID b);
  keys ← text_array (buKeyIDs b);
  '(created, retain) ← instants (buCreatedAt b) (buRetainUntil b);
  if negb (len (buArtifactSHA256 b) =? 64) || negb (forall_bytes lower_hex (buArtifactSHA256 b)) ||
     bool_decide (is_Some (dbBackups d !! id)) then None
  else Some (set_db_backups (<[id := mkBackupRow (buArtifactSHA256 b) keys created retain None]> (dbBackups d)) d).

Definition RegisterBackup (backup : BackupSet) (now : time) (d : database) : result CredError BackupSet * database :=
  in_tx o
    (found ← query o (λ d, _ ← texts_in [buID backup]; Some (dbBackups d !! buID backup));
     match found with
     | Some row =>
         _ ← leave_if (negb (String.eqb (bwArtifactSHA256 row) (buArtifactSHA256 backup))) ErrBackupConflict;
         mret (Leave (scan_backup (buID backup) row))
     | None =>
         _ ← exec o (insert_backup backup);
         _ ← appendSuccessfulTransition (transition OperationBackupRegistered ReasonCompleted "" "" "" "" "" "" 0 0
                                           (hd "" (buKeyIDs backup)) now);
         mret (Commit (Ok backup))
     end) d.

(** UPDATE backup_sets SET expired_at = COALESCE(expired_at, now) ... RETURNING. *)
Definition expire_row (id : string) (now : time) (d : database) : option (option BackupSet * database) :=
  _ ← texts_in [id];
  now ← timestamptz now;
  match dbBackups d !! id with
  | None => Some (None, d)
  | Some row =>
      let expired := default now (bwExpiredAt row) in
      let row := mkBackupRow (bwArtifactSHA256 row) (bwKeyIDs row) (bwCreatedAt row) (bwRetainUntil row) (Some expired) in
      if expired <? bwCreatedAt row then None
      else Some (Some (scan_backup id row), set_db_backups (<[id := row]> (dbBackups d)) d)
  end.

Definition ExpireBackup (id : string) (now : time) (d : database) : result CredError BackupSet * database :=
  in_tx o
    (found ← statement o ErrStorage (expire_row id now);
     backup ← known_or ErrNotFound found;
     _ ← appendSuccessfulTransition (transition OperationBackupExpired ReasonCompleted "" "" "" "" "" "" 0 0 "" now);
     mret (Commit (Ok backup))) d.
End Rotation.
