(* ===== verification/Audited.v ===== *)
(** * No change without its audit events

    The PostgreSQL backend as a [Backend], and what its transactions leave in
    the audit spool of the same database: nothing is committed but together
    with the events that tell of it. *)

From Stdlib Require Import Ascii.
From S2P Require Import Prelude GoStrings Json GoTime TimeParse JsonValue Crypto Envelope MasterKey AuditEvent Spool Wire Credential Builtin Backend MemoryBackend Manager Vault Storage Postgres PostgresBindings PostgresRotation.

(** ** The backend *)

Section Instance.
Context `{CR : Crypto} `{MO : MapOrder} `{JB : Jsonb} `{PT : PgTypes}.

(** [postgresBackend] in the audit context of one request. *)
Definition postgres_backend (o : world) (spool : option Spool) (ctx : option Request.t) : Backend database := {|
  be_Create := Postgres.Create o spool ctx;
  be_Get := Postgres.Get o;
  be_Update := Postgres.Update o spool ctx;
  be_RegisterBinding := PostgresBindings.RegisterBinding o spool ctx;
  be_GetBinding := PostgresBindings.GetBinding o;
  be_CancelBinding := PostgresBindings.CancelBinding o spool ctx;
  be_ClaimResolution := PostgresBindings.ClaimResolution o spool ctx;
  be_StartRotation := PostgresRotation.StartRotation o spool ctx;
  be_GetRotation := PostgresRotation.GetRotation o;
  be_RotateBatch := PostgresRotation.RotateBatch o spool ctx;
  be_FinalizeRotation := PostgresRotation.FinalizeRotation o spool ctx;
  be_RotateCredential := PostgresRotation.RotateCredential o spool ctx;
  be_KeyStatus current previous d := PostgresRotation.KeyStatus o current previous d d d;
  be_ValidateRecovery := PostgresRotation.ValidateRecovery o spool ctx;
  be_RegisterBackup := PostgresRotation.RegisterBackup o spool ctx;
  be_ExpireBackup := PostgresRotation.ExpireBackup o spool ctx
|}.

(** The operations of a backend that may write. *)
Inductive mutation : Type → Type :=
  | MCreate (key digest : string) (m : Metadata) (r : EnvRecord) : mutation Metadata
  | MUpdate (organization id : string) (expected : Z) (m : Metadata) (r : EnvRecord) (operation : string) : mutation Metadata
  | MRegisterBinding (r : bindingRegistration) : mutation Binding
  | MCancelBinding (run dispatch reason : string) (now : time) : mutation Binding
  | MClaimResolution (A : Type) (c : resolutionClaim) (f : Binding → boundRecord → result CredError A) : mutation (Binding * time * A)
  | MStartRotation (r : Rotation) : mutation Rotation
  | MRotateBatch (id : string) (n : Z) (f : rotationRecord → result CredError EnvRecord) (wall : time) : mutation Rotation
  | MFinalizeRotation (id : string) (now : time) : mutation Rotation
  | MRotateCredential (q : CredentialRotationRequest) (f : rotationRecord → result CredError EnvRecord) (now : time) : mutation unit
  | MValidateRecovery (n : Z) (f : rotationRecord → result CredError unit) (wall : time) : mutation RecoveryValidation
  | MRegisterBackup (b : BackupSet) (now : time) : mutation BackupSet
  | MExpireBackup (id : string) (now : time) : mutation BackupSet.

Definition mutate {St A} (BE : Backend St) (m : mutation A) : St → result CredError A * St :=
  match m in mutation A return St → result CredError A * St with
  | MCreate key digest md r => be_Create key digest md r
  | MUpdate organization id expected md r op => be_Update organization id expected md r op
  | MRegisterBinding r => be_RegisterBinding r
  | MCancelBinding run dispatch reason now => be_CancelBinding run dispatch reason now
  | MClaimResolution A c f => be_ClaimResolution A c f
  | MStartRotation r => be_StartRotation r
  | MRotateBatch id n f wall => be_RotateBatch id n f wall
  | MFinalizeRotation id now => be_FinalizeRotation id now
  | MRotateCredential q f now => be_RotateCredential q f now
  | MValidateRecovery n f wall => be_ValidateRecovery n f wall
  | MRegisterBackup b now => be_RegisterBackup b now
  | MExpireBackup id now => be_ExpireBackup id now
  end.
End Instance.

(** ** Events of a transaction *)

Section Emits.
Context `{CR : Crypto} `{JB : Jsonb} (o : world).
Implicit Types (d : database) (es : list Event).

Inductive spooled (sp : Spool) : chain → list Event → chain → Prop :=
  | spooled_nil c : spooled sp c [] c
  | spooled_cons c e c1 es c2 : AppendTx sp all_up c e = Ok c1 → spooled sp c1 es c2 → spooled sp c (e :: es) c2.

Lemma spooled_app sp c1 es c2 es' c3 : spooled sp c1 es c2 → spooled sp c2 es' c3 → spooled sp c1 (es ++ es') c3.
Proof. induction 1 as [|c e c1 es c2 Ha _ IH]; [done|]. intros H. econstructor; [done|auto]. Qed.

(** An event that was appended is appended whatever the connection does. *)
Lemma AppendTx_up sp up c e c' : AppendTx sp up c e = Ok c' → AppendTx sp all_up c e = Ok c'.
Proof.
  unfold AppendTx, all_up. intros H. apply guard_bind in H as [-> H]. apply guard_bind in H as [_ H].
  apply guard_bind in H as [[_ ->]%orb_false_iff H]. cbn [negb orb guard_err mbind result_bind].
  apply of_option_bind in H as (s & -> & H). cbn [of_option mbind result_bind].
  apply of_option_bind in H as (x & -> & H). cbn [of_option mbind result_bind].
  apply guard_bind in H as [[_ ->]%orb_false_iff H]. cbn [negb orb guard_err mbind result_bind].
  apply of_option_bind in H as (t & -> & H). cbn [of_option mbind result_bind].
  by apply guard_bind in H as [_ H].
Qed.

Context (spool : Spool) (ctx : option Request.t).

Definition reads {A} (t : Tx A) : Prop := ∀ d n a d' n', t d n = Ok (a, (d', n')) → d' = d.
Definition silent {A} (t : Tx A) : Prop := ∀ d n a d' n', t d n = Ok (a, (d', n')) → dbAudit d' = dbAudit d.
Definition emits {A} (t : Tx A) (Q : A → list Event → Prop) : Prop :=
  ∀ d n a d' n', t d n = Ok (a, (d', n')) → ∃ es, spooled spool (dbAudit d) es (dbAudit d') ∧ Q a es.
Lemma bind_run {A B} (t : Tx A) (f : A → Tx B) d n b d' n' :
  (t ≫= f) d n = Ok (b, (d', n')) → ∃ a d1 n1, t d n = Ok (a, (d1, n1)) ∧ f a d1 n1 = Ok (b, (d', n')).
Proof. unfold mbind, tx_bind. destruct (t d n) as [[a [d1 n1]]|]; [eauto|done]. Qed.

Lemma reads_silent {A} (t : Tx A) : reads t → silent t.
Proof. intros Ht d n a d' n' ->%Ht. done. Qed.
Lemma reads_ret {A} (a : A) : reads (mret a).
Proof. intros d n a' d' n' [= _ <- _]. done. Qed.
Lemma reads_leave {A} e : reads (@leave A e).
Proof. intros ??????. done. Qed.
Lemma reads_leave_if b e : reads (leave_if b e).
Proof. destruct b; [apply reads_leave|apply reads_ret]. Qed.
Lemma reads_known_or {A} e (x : option A) : reads (known_or e x).
Proof. destruct x; [apply reads_ret|apply reads_leave]. Qed.
Lemma reads_lift {A} (r : result CredError A) : reads (lift r).
Proof. intros d n a d' n' H. unfold lift in H. destruct r; [|done]. by injection H as _ <- _. Qed.
Lemma reads_query {A} (f : database → option A) : reads (query o f).
Proof.
  intros d n a d' n' H. unfold query, statement in H. destruct (wNet o n); [|done]. destruct (f d); [|done].
  cbn [fmap option_fmap option_map] in H. congruence.
Qed.
Lemma reads_statement {A} e (f : database → option (A * database)) :
  (∀ d a d', f d = Some (a, d') → d' = d) → reads (statement o e f).
Proof.
  intros Hf d n a d' n' H. unfold statement in H. destruct (wNet o n); [|done].
  destruct (f d) as [[a1 d1]|] eqn:E; [|done]. apply Hf in E. congruence.
Qed.
Lemma reads_result_set {A} (f : database → option (list A)) : reads (result_set o f).
Proof.
  intros d n a d' n' H. unfold result_set in H. destruct (query o f d n) as [[l [d1 n1]]|] eqn:E; [|done].
  apply reads_query in E as ->. cbn [mbind result_bind] in H. congruence.
Qed.
Lemma reads_bind {A B} (t : Tx A) (f : A → Tx B) : reads t → (∀ a, reads (f a)) → reads (t ≫= f).
Proof. intros Ht Hf d n b d' n' (a & d1 & n1 & ->%Ht & H)%bind_run. by apply Hf in H. Qed.

Lemma silent_statement {A} e (f : database → option (A * database)) :
  (∀ d a d', f d = Some (a, d') → dbAudit d' = dbAudit d) → silent (statement o e f).
Proof.
  intros Hf d n a d' n' H. unfold statement in H. destruct (wNet o n); [|done].
  destruct (f d) as [[a1 d1]|] eqn:E; [|done]. apply Hf in E. congruence.
Qed.
Lemma silent_exec (f : database → option database) : (∀ d d', f d = Some d' → dbAudit d' = dbAudit d) → silent (exec o f).
Proof.
  intros Hf. apply silent_statement. intros d a d' H. destruct (f d) as [d1|] eqn:E; [|done]. apply Hf in E.
  cbn [fmap option_fmap option_map] in H. congruence.
Qed.
Lemma silent_insert e (f : database → insertion) : (∀ d d', f d = Inserted d' → dbAudit d' = dbAudit d) → silent (insert_or o e f).
Proof.
  intros Hf d n a d' n' H. unfold insert_or in H. destruct (wNet o n); [|done].
  destruct (f d) as [d1| |] eqn:E; [|done|done]. apply Hf in E. congruence.
Qed.

Lemma emits_silent {A} (t : Tx A) : silent t → emits t (λ _ es, es = []).
Proof. intros Ht d n a d' n' H%Ht. exists []. split; [rewrite H; constructor|done]. Qed.
Lemma emits_after {A B} (t : Tx A) (f : A → Tx B) Q : silent t → (∀ a, emits (f a) Q) → emits (t ≫= f) Q.
Proof. intros Ht Hf d n b d' n' (a & d1 & n1 & H1%Ht & H2)%bind_run. apply Hf in H2. by rewrite <-H1. Qed.
Lemma emits_bind {A B} (t : Tx A) (f : A → Tx B) P Q :
  emits t P → (∀ a es, P a es → emits (f a) (λ b es', Q b (es ++ es'))) → emits (t ≫= f) Q.
Proof.
  intros Ht Hf d n b d' n' (a & d1 & n1 & (es & Hes & HP)%Ht & H)%bind_run.
  destruct (Hf a es HP _ _ _ _ _ H) as (es' & Hes' & HQ). exists (es ++ es'). split; [by eapply spooled_app|done].
Qed.
Lemma emits_ret {A} (a : A) Q : Q a [] → emits (mret a) Q.
Proof. intros HQ d n a' d' n' H. injection H as <- <- _. exists []. split; [constructor|done]. Qed.
Lemma emits_leave {A} e Q : emits (@leave A e) Q.
Proof. intros ??????. done. Qed.
Lemma emits_weaken {A} (t : Tx A) (P Q : A → list Event → Prop) : emits t P → (∀ a es, P a es → Q a es) → emits t Q.
Proof. intros Ht HPQ d n a d' n' (es & Hes & HP)%Ht. eauto. Qed.

Lemma emits_audit e : emits (appendAudit o (Some spool) e) (λ _ es, es = [e]).
Proof.
  intros d n a d' n' H. unfold appendAudit in H. destruct (AppendTx _ _ _ _) as [c|] eqn:E; [|done].
  apply AppendTx_up in E. injection H as <- <- _. exists [e]. split; [|done].
  eapply spooled_cons; [exact E|constructor].
Qed.

Definition completions (e : Event) : list Event := match ctx with Some request => [completion_of ctx request e] | None => [] end.
Definition told (e : Event) : Event := match ctx with Some request => attributed request e | None => e end.

Lemma emits_completion e : emits (appendCompletion o (Some spool) ctx e) (λ _ es, es = completions e).
Proof. unfold appendCompletion, completions. destruct ctx; [apply emits_audit|by apply emits_ret]. Qed.
Lemma emits_transition e : emits (appendSuccessfulTransition o (Some spool) ctx e) (λ _ es, es = told e :: completions (told e)).
Proof.
  unfold appendSuccessfulTransition. change (match ctx with Some _ => _ | None => e end) with (told e).
  eapply emits_bind; [apply emits_audit|]. intros [] es ->. eapply emits_weaken; [apply emits_completion|]. by intros [] es ->.
Qed.


(** *** Whole transactions *)

Definition completed (e : Event) : Prop := EventType e = EventTypeRequestCompleted.
Definition moved (ops : list string) (e : Event) : Prop := EventType e = EventTypeStateTransition ∧ Operation e ∈ ops.

(** The errors that come with a mark on the binding. *)
Definition marking (err : CredError) : Prop := err = ErrBindingExpired ∨ err = ErrBindingExhausted.

(** What the events of a transaction say: every one is a completion or one of
    the transitions [ops]; a success has [n] times the completion of the
    request, an error that is committed none. *)
Definition accounted {A} (request : Request.t) (n : nat) (ops : list string) (x : ending A) (es : list Event) : Prop :=
  Forall (λ e, completed e ∨ moved ops e) es ∧ es ≠ [] ∧
  match x with
  | Leave _ => False
  | Commit (Ok _) => ∃ t, filter completed es = replicate n (completion_of ctx request t)
  | Commit (Err err) => filter completed es = [] ∧ marking err
  end.

(** Nothing is written; or the events tell, of a transition unless they are all
    that is written. *)
Definition audits {A} (t : Tx A) (Q : A → list Event → Prop) : Prop :=
  ∀ d n a d' n', t d n = Ok (a, (d', n')) →
    d' = d ∨ ∃ es, spooled spool (dbAudit d) es (dbAudit d') ∧ Q a es ∧
      (d' = set_db_audit (dbAudit d') d ∨ ∃ e, e ∈ es ∧ EventType e = EventTypeStateTransition).

Lemma audits_reads {A B} (t : Tx A) (f : A → Tx B) Q : reads t → (∀ a, audits (f a) Q) → audits (t ≫= f) Q.
Proof. intros Ht Hf d n b d' n' (a & d1 & n1 & ->%Ht & H2)%bind_run. by apply Hf in H2. Qed.
Lemma audits_ret {A} (a : A) Q : audits (mret a) Q.
Proof. intros d n a' d' n' H. injection H as _ <- _. by left. Qed.
Lemma audits_leave {A} e Q : audits (@leave A e) Q.
Proof. intros ??????. done. Qed.
Lemma audits_emits {A} (t : Tx A) (Q : A → list Event → Prop) :
  emits t (λ a es, Q a es ∧ ∃ e, e ∈ es ∧ EventType e = EventTypeStateTransition) → audits t Q.
Proof. intros Ht d n a d' n' (es & Hes & HQ & Hm)%Ht. right. eauto. Qed.

(** A transaction that only notes the completion. *)
Lemma audits_completion {A} request (r : A) e ops :
  ctx = Some request →
  audits (_ ← appendCompletion o (Some spool) ctx e; mret (Commit (Ok r))) (accounted request 1 ops).
Proof.
  intros Hc d n x d' n' (a & d1 & n1 & H1 & H2)%bind_run. injection H2 as <- <- <-.
  destruct (emits_completion _ _ _ _ _ _ H1) as (es & Hes & ->). right. exists (completions e).
  unfold completions in *. rewrite Hc in *. split; [done|]. split.
  - split; [by repeat constructor; left|]. split; [done|]. exists e. rewrite Hc. reflexivity.
  - left. unfold appendCompletion, appendAudit in H1. destruct (AppendTx _ _ _ _) as [c|]; [|done].
    injection H1 as _ <- _. by destruct d.
Qed.

Lemma told_type e : EventType (told e) = EventType e ∧ Operation (told e) = Operation e.
Proof. unfold told. by destruct ctx. Qed.

(** A transaction that has written and ends with a transition and the commit. *)
Lemma emits_end {A} request (r : A) e ops :
  ctx = Some request → EventType e = EventTypeStateTransition → Operation e ∈ ops →
  emits (_ ← appendSuccessfulTransition o (Some spool) ctx e; mret (Commit (Ok r)))
    (λ x es, accounted request 1 ops x es ∧ ∃ e, e ∈ es ∧ EventType e = EventTypeStateTransition).
Proof.
  intros Hc He Ho. destruct (told_type e) as [Ht1 Ht2]. eapply emits_bind; [apply emits_transition|]. intros [] es ->. apply emits_ret.
  rewrite app_nil_r. unfold completions. rewrite Hc. split; [split_and!|].
  - apply Forall_cons. split; [right; split; congruence|]. apply Forall_singleton. by left.
  - done.
  - exists (told e). rewrite filter_cons_False by (unfold completed; rewrite Ht1, He; discriminate).
    rewrite filter_cons_True by done. by rewrite Hc.
  - exists (told e). split; [apply list_elem_of_here|congruence].
Qed.

(** One that marks a binding and commits an error. *)
Lemma emits_mark {A} request err e ops :
  marking err → EventType e = EventTypeStateTransition → Operation e ∈ ops →
  emits (_ ← appendAudit o (Some spool) e; mret (Commit (@Err CredError A err)))
    (λ x es, accounted request 1 ops x es ∧ ∃ e, e ∈ es ∧ EventType e = EventTypeStateTransition).
Proof.
  intros Hm He Ho. eapply emits_bind; [apply emits_audit|]. intros [] es ->. apply emits_ret. rewrite app_nil_r. split; [split_and!|].
  - apply Forall_singleton. by right.
  - done.
  - rewrite filter_cons_False by (unfold completed; rewrite He; discriminate). done.
  - done.
  - exists e. split; [apply list_elem_of_here|done].
Qed.
End Emits.

(** ** Statements do not touch the spool *)

Section Statements.
Context `{CR : Crypto} `{MO : MapOrder} `{JB : Jsonb} `{PT : PgTypes}.

Ltac peel H :=
  repeat match type of H with
  | (_ ≫= _) = Some _ => let x := fresh in let Hx := fresh in apply bind_Some in H as (x & Hx & H)
  | match ?x with _ => _ end = Some _ => destruct x; try discriminate H
  | (if ?x then _ else _) = Some _ => destruct x; try discriminate H
  end; try discriminate H.
Ltac untouched H := peel H; injection H; intros; subst; reflexivity.

Lemma insert_credential_audit m d d' : insert_credential m d = Some d' → dbAudit d' = dbAudit d.
Proof. unfold insert_credential. intros H. untouched H. Qed.
Lemma insert_version_audit id v doc key t d d' : insert_version id v doc key t d = Some d' → dbAudit d' = dbAudit d.
Proof. unfold insert_version. intros H. untouched H. Qed.
Lemma insert_idempotency_audit org key digest doc id t d d' :
  insert_idempotency org key digest doc id t d = Some d' → dbAudit d' = dbAudit d.
Proof. unfold insert_idempotency. intros H. untouched H. Qed.
Lemma update_credential_audit org id v m d n d' : update_credential org id v m d = Some (n, d') → dbAudit d' = dbAudit d.
Proof. unfold update_credential. intros H. untouched H. Qed.
Lemma update_binding_audit run st now c r d d' : update_binding run st now c r d = Some d' → dbAudit d' = dbAudit d.
Proof. unfold update_binding. intros H. untouched H. Qed.
Lemma update_rotation_audit id f now d d' : update_rotation id f now d = Some d' → dbAudit d' = dbAudit d.
Proof. unfold update_rotation. intros H. untouched H. Qed.
Lemma update_version_audit id v only doc key d n d' : update_version id v only doc key d = Some (n, d') → dbAudit d' = dbAudit d.
Proof. unfold update_version. intros H. untouched H. Qed.
Lemma insert_backup_audit b d d' : insert_backup b d = Some d' → dbAudit d' = dbAudit d.
Proof. unfold insert_backup. intros H. untouched H. Qed.
Lemma expire_row_audit id now d r d' : expire_row id now d = Some (r, d') → dbAudit d' = dbAudit d.
Proof. unfold expire_row. intros H. untouched H. Qed.

Lemma insert_binding_audit b key digest d d' : insert_binding b key digest d = Inserted d' → dbAudit d' = dbAudit d.
Proof. unfold insert_binding. repeat (case_match; try done). by intros [= <-]. Qed.
Lemma insert_attempt_audit c t d d' : insert_attempt c t d = Inserted d' → dbAudit d' = dbAudit d.
Proof. unfold insert_attempt. repeat (case_match; try done). by intros [= <-]. Qed.
Lemma insert_rotation_audit r d d' : insert_rotation r d = Inserted d' → dbAudit d' = dbAudit d.
Proof. unfold insert_rotation. repeat (case_match; try done). by intros [= <-]. Qed.
End Statements.

Create HintDb transaction discriminated.
#[export] Hint Resolve reads_ret reads_leave reads_leave_if reads_known_or reads_lift reads_query reads_result_set
  reads_silent silent_exec silent_insert silent_statement : transaction.
#[export] Hint Resolve insert_credential_audit insert_version_audit insert_idempotency_audit update_credential_audit
  update_binding_audit update_rotation_audit update_version_audit insert_backup_audit expire_row_audit
  insert_binding_audit insert_attempt_audit insert_rotation_audit : transaction.

(** ** Every mutation *)

Section Mutations.
Context `{CR : Crypto} `{MO : MapOrder} `{JB : Jsonb} `{PT : PgTypes} (o : world) (spool : Spool) (request : Request.t).
Implicit Types (d : database) (es : list Event).

Abbreviation audits := (audits spool).
Abbreviation emits := (emits spool).
Abbreviation accounted := (accounted (Some request) request).

(** What a mutation reports, and how often it reports the request. *)
Definition operations_of {A} (m : mutation A) : list string :=
  match m with
  | MCreate _ _ _ _ => [OperationCredentialCreated]
  | MUpdate _ _ _ _ _ op => [op]
  | MRegisterBinding _ => [OperationRunBindingRegistered]
  | MCancelBinding _ _ _ _ => [OperationRunBindingCanceled]
  | MClaimResolution _ _ _ => [OperationCredentialResolved; OperationRunBindingExpired; OperationRunBindingExhausted]
  | MStartRotation _ => [OperationMasterKeyRotationStarted]
  | MRotateBatch _ _ _ _ => [OperationMasterKeyRotationResumed; OperationCredentialKeyRotated]
  | MFinalizeRotation _ _ => [OperationMasterKeyRotationFinalized]
  | MRotateCredential _ _ _ => [OperationCredentialKeyRotated]
  | MValidateRecovery _ _ _ => [OperationRecoveryValidationStarted; OperationRecoveryValidationFinished]
  | MRegisterBackup _ _ => [OperationBackupRegistered]
  | MExpireBackup _ _ => [OperationBackupExpired]
  end.
Definition completions_of {A} (m : mutation A) : nat := match m with MValidateRecovery _ _ _ => 2 | _ => 1 end.

(** The outcome of a transaction whose body is accounted for. *)
Definition accounts {A} (n : nat) (ops : list string) (d : database) (x : result CredError A * database) : Prop :=
  x.2 = d ∨ ∃ es, spooled spool (dbAudit d) es (dbAudit x.2) ∧ es ≠ [] ∧
    Forall (λ e, completed e ∨ moved ops e) es ∧
    (x.2 = set_db_audit (dbAudit x.2) d ∨ ∃ e, e ∈ es ∧ EventType e = EventTypeStateTransition) ∧
    ((∃ t, filter completed es = replicate n (completion_of (Some request) request t)) ∧ (is_ok x.1 = true ∨ x.1 = Err ErrStorage ∧ wCommit o = Unacknowledged) ∨
     filter completed es = [] ∧ (∃ err, x.1 = Err err ∧ (marking err ∨ err = ErrStorage ∧ wCommit o = Unacknowledged))).

Lemma in_tx_accounts {A} n ops (body : Tx (ending A)) d :
  audits body (accounted n ops) → accounts n ops d (in_tx o body d).
Proof.
  intros Hb. unfold in_tx. destruct (wNet o 0); [|by left]. cbn [negb]. destruct (body d 1%nat) as [[x [d' n']]|] eqn:E; [|by left].
  destruct (Hb _ _ _ _ _ E) as [->|(es & Hes & (Hall & Hne & Hx) & Hd)].
  { left. destruct x as [a|r]; [done|]. by destruct (wCommit o). }
  destruct x as [a|r]; [done|]. destruct (wCommit o) eqn:Hc; [|by left|].
  - right. exists es. split_and!; try done. destruct r as [a|e]; [left; split; [done|by left]|].
    right. destruct Hx as [Hx He]. split; [done|]. exists e. by split; [|left].
  - right. exists es. split_and!; try done. destruct r as [a|e]; [left; split; [done|by right]|].
    right. destruct Hx as [Hx He]. split; [done|]. exists ErrStorage. by split; [|right].
Qed.

Ltac branch := match goal with
  | |- _ (if ?b then _ else _) _ => destruct b eqn:?
  | |- _ (match ?x with _ => _ end) _ => destruct x eqn:?
  end.
Ltac quiet := solve [eauto 3 with transaction].
Ltac listed := solve [reflexivity | cbn; set_solver].
Ltac emitting := first
  [ apply emits_leave
  | apply emits_end; [reflexivity|reflexivity|listed]
  | apply emits_mark; [first [by left|by right]|reflexivity|listed]
  | apply emits_after; [quiet|intros ?; emitting]
  | branch; emitting ].
Ltac auditing := cbv zeta; first
  [ apply audits_ret | apply audits_leave
  | apply audits_completion; reflexivity
  | apply audits_reads; [quiet|intros ?; auditing]
  | branch; auditing
  | apply audits_emits; emitting ].

(** A binding that is marked, once, before its error is committed. *)
Lemma audits_mark {A} err ops (w : Tx unit) e (b : bool) :
  marking err → silent w → EventType e = EventTypeStateTransition → Operation e ∈ ops →
  audits (_ ← (if b then _ ← w; appendAudit o (Some spool) e else mret ()); mret (Commit (@Err CredError A err))) (accounted 1 ops).
Proof.
  intros Hm Hw He Ho. destruct b.
  - apply audits_emits. intros d n x d' n' (a & d1 & n1 & H1 & H2)%bind_run.
    apply bind_run in H1 as (a2 & d2 & n2 & H3%Hw & H4). rewrite <-H3.
    eapply (emits_mark o spool (Some request) request err e ops Hm He Ho d2 n2). unfold mbind, tx_bind. rewrite H4. exact H2.
  - apply audits_reads; [quiet|intros ?]. apply audits_ret.
Qed.

Lemma Create_accounts key digest m r d :
  accounts 1 [OperationCredentialCreated] d (Postgres.Create o (Some spool) (Some request) key digest m r d).
Proof.
  unfold Postgres.Create. destruct (splitIdempotencyID _) as [[? ?]|]; [|by left]. destruct (encodeStorage _ _) as [[? ?]|]; [|by left].
  apply in_tx_accounts. auditing.
Qed.
Lemma Update_accounts org id v m r op d :
  accounts 1 [op] d (Postgres.Update o (Some spool) (Some request) org id v m r op d).
Proof.
  unfold Postgres.Update. destruct (encodeStorage _ _) as [[? ?]|]; [|by left].
  apply in_tx_accounts. auditing.
Qed.
Lemma RegisterBinding_accounts r d :
  accounts 1 [OperationRunBindingRegistered] d (PostgresBindings.RegisterBinding o (Some spool) (Some request) r d).
Proof. apply in_tx_accounts. auditing. Qed.
Lemma CancelBinding_accounts run dispatch reason now d :
  accounts 1 [OperationRunBindingCanceled] d (PostgresBindings.CancelBinding o (Some spool) (Some request) run dispatch reason now d).
Proof. apply in_tx_accounts. auditing. Qed.
Lemma StartRotation_accounts r d :
  accounts 1 [OperationMasterKeyRotationStarted] d (PostgresRotation.StartRotation o (Some spool) (Some request) r d).
Proof. apply in_tx_accounts. auditing. Qed.
Lemma FinalizeRotation_accounts id now d :
  accounts 1 [OperationMasterKeyRotationFinalized] d (PostgresRotation.FinalizeRotation o (Some spool) (Some request) id now d).
Proof. apply in_tx_accounts. auditing. Qed.
Lemma RotateCredential_accounts q f now d :
  accounts 1 [OperationCredentialKeyRotated] d (PostgresRotation.RotateCredential o (Some spool) (Some request) q f now d).
Proof. apply in_tx_accounts. auditing. Qed.
Lemma RegisterBackup_accounts b now d :
  accounts 1 [OperationBackupRegistered] d (PostgresRotation.RegisterBackup o (Some spool) (Some request) b now d).
Proof. apply in_tx_accounts. auditing. Qed.
Lemma ExpireBackup_accounts id now d :
  accounts 1 [OperationBackupExpired] d (PostgresRotation.ExpireBackup o (Some spool) (Some request) id now d).
Proof. apply in_tx_accounts. auditing. Qed.
Lemma postgresBoundVersion_reads b : reads (postgresBoundVersion o b).
Proof.
  unfold postgresBoundVersion. apply reads_bind.
  - apply reads_statement. intros d [[x y] z] d' H. apply bind_Some in H as (v & _ & [= -> <-]). done.
  - intros [[x y] z]. apply reads_bind; [quiet|]. intros v. quiet.
Qed.
Lemma ClaimResolution_accounts A c (f : Binding → boundRecord → result CredError A) d :
  accounts 1 [OperationCredentialResolved; OperationRunBindingExpired; OperationRunBindingExhausted] d
    (PostgresBindings.ClaimResolution o (Some spool) (Some request) A c f d).
Proof.
  pose proof postgresBoundVersion_reads as Hv. apply in_tx_accounts. cbv zeta.
  do 5 (apply audits_reads; [quiet|intros ?]). branch; [apply audits_mark; [first [by left|by right]|quiet|reflexivity|listed]|].
  do 4 (apply audits_reads; [first [apply Hv|quiet]|intros ?]). branch; [auditing|].
  branch; [apply audits_mark; [first [by left|by right]|quiet|reflexivity|listed]|]. auditing.
Qed.

(** Several records in one transaction. *)
Lemma rotate_items_emits f rotation now l :
  emits (rotate_items o (Some spool) (Some request) f rotation now l) (λ _ es, Forall (moved [OperationCredentialKeyRotated]) es).
Proof.
  induction l as [|x l IH]; [by apply emits_ret|]. cbn [rotate_items].
  do 3 (apply emits_after; [quiet|intros ?]). eapply emits_bind; [apply emits_audit|]. intros [] es ->.
  eapply emits_weaken; [exact IH|]. intros [] es Hes. constructor; [|exact Hes]. split; [done|listed].
Qed.
Lemma RotateBatch_accounts id n f wall d :
  accounts 1 [OperationMasterKeyRotationResumed; OperationCredentialKeyRotated] d
    (PostgresRotation.RotateBatch o (Some spool) (Some request) id n f wall d).
Proof.
  apply in_tx_accounts. cbv zeta. do 2 (apply audits_reads; [quiet|intros ?]). branch; [apply audits_ret|].
  do 2 (apply audits_reads; [first [quiet|unfold query_rows; apply reads_bind; [quiet|intros [? ?]; apply reads_bind; intros; quiet]]|intros ?]).
  apply audits_emits. eapply emits_bind; [apply rotate_items_emits|]. intros [] ts Hts.
  do 2 (apply emits_after; [quiet|intros ?]). eapply emits_weaken.
  - apply (emits_end o spool (Some request) request _ _ [OperationMasterKeyRotationResumed]); [reflexivity|reflexivity|listed].
  - intros x es [(Hall & Hne & Hx) (e & He & Ht)]. split; [split_and!|].
    + apply Forall_app. split; (eapply Forall_impl; [eassumption|]).
      * intros e' [H1 H2]. right. split; [done|set_solver].
      * intros e' [H|[H1 H2]]; [by left|right]. split; [done|set_solver].
    + destruct ts; [done|]. discriminate.
    + assert (filter completed (ts ++ es) = filter completed es) as ->; [|done].
      rewrite filter_app. replace (filter completed ts) with (@nil Event); [done|]. symmetry.
      induction Hts as [|y ts [Hy _] _ IH]; [done|]. rewrite filter_cons_False by (unfold completed; rewrite Hy; discriminate). done.
    + exists e. split; [set_solver|done].
Qed.
Lemma ValidateRecovery_accounts n f wall d :
  accounts 2 [OperationRecoveryValidationStarted; OperationRecoveryValidationFinished] d
    (PostgresRotation.ValidateRecovery o (Some spool) (Some request) n f wall d).
Proof.
  apply in_tx_accounts. cbv zeta. apply audits_emits. eapply emits_bind; [apply emits_transition|]. intros [] es ->.
  apply emits_after; [quiet|intros ?].
  apply emits_after; [apply reads_silent; apply reads_bind; [quiet|intros [? ?]; quiet]|intros ?].
  apply emits_after; [quiet|intros [rows broken]]. apply emits_after; [quiet|intros [hashed k]].
  apply emits_after; [quiet|intros ?]. eapply emits_bind; [apply emits_transition|]. intros [] es' ->. apply emits_ret.
  cbn [told completions app]. split; [split_and!|].
  - repeat (apply Forall_cons; split; [first [by left|right; split; [reflexivity|listed]]|]). constructor.
  - done.
  - exists (told (Some request) (recovery_event OperationRecoveryValidationStarted wall)). reflexivity.
  - eexists. split; [apply list_elem_of_here|reflexivity].
Qed.

Lemma mutate_accounts {A} (m : mutation A) d :
  accounts (completions_of m) (operations_of m) d (mutate (postgres_backend o (Some spool) (Some request)) m d).
Proof.
  destruct m; cbn [mutate completions_of operations_of].
  - apply Create_accounts.
  - apply Update_accounts.
  - apply RegisterBinding_accounts.
  - apply CancelBinding_accounts.
  - apply ClaimResolution_accounts.
  - apply StartRotation_accounts.
  - apply RotateBatch_accounts.
  - apply FinalizeRotation_accounts.
  - apply RotateCredential_accounts.
  - apply ValidateRecovery_accounts.
  - apply RegisterBackup_accounts.
  - apply ExpireBackup_accounts.
Qed.
End Mutations.

(** ** Without a spool *)

Section FailClosed.
Context `{CR : Crypto} `{MO : MapOrder} `{JB : Jsonb} `{PT : PgTypes} (o : world) (ctx : option Request.t).
Implicit Types (d : database).

Definition never {A} (t : Tx A) : Prop := ∀ d n, is_ok (t d n) = false.

Lemma never_bind_left {A B} (t : Tx A) (f : A → Tx B) : never t → never (t ≫= f).
Proof. intros Ht d n. specialize (Ht d n). unfold mbind, tx_bind. by destruct (t d n). Qed.
Lemma never_bind_right {A B} (t : Tx A) (f : A → Tx B) : (∀ a, never (f a)) → never (t ≫= f).
Proof. intros Hf d n. unfold mbind, tx_bind. destruct (t d n) as [[a [d1 n1]]|]; [apply Hf|done]. Qed.
Lemma never_leave {A} e : never (@leave A e).
Proof. done. Qed.
Lemma never_transition e : never (appendSuccessfulTransition o None ctx e).
Proof. by apply never_bind_left. Qed.
Lemma reads_never {A} (t : Tx A) : never t → reads t.
Proof. intros Ht d n a d' n' H. specialize (Ht d n). by rewrite H in Ht. Qed.
Lemma reads_completion e : reads (appendCompletion o None ctx e).
Proof. unfold appendCompletion. destruct ctx; [by apply reads_never|apply reads_ret]. Qed.

Lemma in_tx_reads {A} (body : Tx (ending A)) d : reads body → (in_tx o body d).2 = d.
Proof.
  intros Hb. unfold in_tx. destruct (wNet o 0); [|done]. cbn [negb]. destruct (body d 1%nat) as [[x [d' n']]|] eqn:E; [|done].
  apply Hb in E as ->. destruct x; [done|]. by destruct (wCommit o).
Qed.

Ltac branch := match goal with
  | |- _ (if ?b then _ else _) => destruct b eqn:?
  | |- _ (match ?x with _ => _ end) => destruct x eqn:?
  end.
Ltac quiet := solve [eauto 3 using reads_completion, postgresBoundVersion_reads with transaction].
Ltac nevering := first
  [ apply never_leave | apply never_bind_left; first [apply never_transition|apply never_leave|reflexivity]
  | apply never_bind_right; intros ?; nevering | branch; nevering ].
Ltac reading := cbv zeta; first
  [ apply reads_ret | apply reads_leave
  | apply reads_bind; [quiet|intros ?; reading]
  | branch; reading
  | apply reads_never; nevering ].

(** A mark whose event cannot be appended. *)
Lemma reads_mark {A} (w : Tx unit) e (b : bool) (x : ending A) :
  reads (_ ← (if b then _ ← w; appendAudit o None e else mret ()); mret x).
Proof.
  destruct b; [|reading]. apply reads_never, never_bind_left, never_bind_right. done.
Qed.

Lemma rotate_items_reads f rotation now l : reads (rotate_items o None ctx f rotation now l).
Proof. destruct l as [|x l]; [apply reads_ret|]. cbn [rotate_items]. reading. Qed.

Lemma mutate_fail_closed {A} (m : mutation A) d : (mutate (postgres_backend o None ctx) m d).2 = d.
Proof.
  destruct m; cbn [mutate be_Create be_Update be_RegisterBinding be_CancelBinding be_ClaimResolution be_StartRotation
    be_RotateBatch be_FinalizeRotation be_RotateCredential be_ValidateRecovery be_RegisterBackup be_ExpireBackup postgres_backend].
  - unfold Postgres.Create. destruct (splitIdempotencyID _) as [[? ?]|]; [|done]. destruct (encodeStorage _ _) as [[? ?]|]; [|done].
    apply in_tx_reads. reading.
  - unfold Postgres.Update. destruct (encodeStorage _ _) as [[? ?]|]; [|done]. apply in_tx_reads. reading.
  - apply in_tx_reads. reading.
  - apply in_tx_reads. reading.
  - apply in_tx_reads. cbv zeta. do 5 (apply reads_bind; [quiet|intros ?]). branch; [apply reads_mark|].
    do 4 (apply reads_bind; [quiet|intros ?]). branch; [reading|]. branch; [apply reads_mark|]. reading.
  - apply in_tx_reads. reading.
  - apply in_tx_reads. cbv zeta. do 2 (apply reads_bind; [quiet|intros ?]). branch; [apply reads_ret|]. apply reads_never.
    do 5 (apply never_bind_right; intros ?). nevering.
  - apply in_tx_reads. reading.
  - apply in_tx_reads. reading.
  - apply in_tx_reads. reading.
  - apply in_tx_reads. reading.
  - apply in_tx_reads. reading.
Qed.
End FailClosed.

(** ** What the spool holds afterwards *)

Section Spooled.
Context `{CL : CryptoLaws} `{JL : JsonbLaws}.

Lemma length_insert_row r l l' : insert_row r l = Some l' → length l' = S (length l).
Proof.
  revert l'. induction l as [|x l IH]; intros l' Ha; simpl in Ha; [by simplify_eq|].
  destruct (rSequence r <? rSequence x); [by simplify_eq|]. destruct (rSequence r =? rSequence x); [done|].
  destruct (insert_row r l) as [k|]; [|done]. simpl in Ha. simplify_eq. simpl. by rewrite (IH k).
Qed.

Lemma AppendTx_inv sp c e c' :
  AppendTx sp all_up c e = Ok c' →
  validate e = true ∧ pending_count c < maximumPending sp ∧ length (rows c') = S (length (rows c)).
Proof.
  unfold AppendTx, all_up. intros Ha. apply guard_bind in Ha as [H1 Ha]. apply guard_bind in Ha as [_ Ha]. apply guard_bind in Ha as [H2 Ha].
  apply of_option_bind in Ha as (s & _ & Ha). apply of_option_bind in Ha as (x & _ & Ha). apply guard_bind in Ha as [_ Ha].
  apply of_option_bind in Ha as (t & Ht & Ha). apply guard_bind in Ha as [_ [= <-]]. apply length_insert_row in Ht.
  apply negb_false_iff in H1. cbn [orb negb] in H2. apply Z.leb_gt in H2. done.
Qed.

Lemma spooled_grows sp c es c' : spooled sp c es c' → (length (rows c) ≤ length (rows c'))%nat.
Proof. induction 1 as [|c e c1 es c2 Ha _ IH]; [lia|]. apply AppendTx_inv in Ha as (_ & _ & Ha). lia. Qed.

Lemma spooled_length sp c es c' : spooled sp c es c' → length (rows c') = (length (rows c) + length es)%nat.
Proof. induction 1 as [|c e c1 es c2 Ha _ IH]; [simpl; lia|]. apply AppendTx_inv in Ha as (_ & _ & Ha). simpl. lia. Qed.

Lemma spooled_exact sp c es c' :
  spooled sp c es c' → verified sp c → room c' → Forall encodable es →
  verified sp c' ∧ events c' = events c ++ es.
Proof.
  intros Hs. induction Hs as [c|c e c1 es c2 Ha Hs IH]; intros Hv Hroom He; [by rewrite app_nil_r|].
  apply Forall_cons in He as [He Hes]. destruct (AppendTx_inv _ _ _ _ Ha) as (Hval & Hpend & Hlen).
  pose proof (spooled_grows _ _ _ _ Hs) as Hg. unfold room in Hroom.
  destruct (AppendTx_compute sp c e Hv) as (x & s & Hm & Hu & Hc); [unfold room; lia|done..|].
  rewrite Ha in Hc. injection Hc as ->. destruct IH as [Hv' Hev]; [|done|done|].
  - apply appended_verified with e; try done. lia.
  - split; [done|]. rewrite Hev. unfold events. cbn [rows]. rewrite omap_app, <-app_assoc. cbn [omap list_omap rEvent Spool.appended].
    by rewrite Hu.
Qed.
End Spooled.

Section AuditedTheorems.
Context `{CL : CryptoLaws} `{MO : MapOrder} `{JL : JsonbLaws} `{PT : PgTypes}.

(** C4: the database never changes behind the audit's back.  Whatever a
    mutation of the PostgreSQL backend does, whichever statements the
    connection loses and however the commit ends, either the tables are as
    they were, or the same commit extended the spool of the database by a list
    of events, appended one after the other ([spooled]: its spool is what these
    calls of [AppendTx] make of the one before), and each of them a completion
    of the request or a transition of that mutation: at least one transition if anything but the
    spool changed, and for a success exactly one completion carrying the
    request's operation and identifiers (two for a recovery validation, which
    reports its start as a success of its own); an error comes with a change
    only where a binding is marked expired or exhausted, without a
    completion, or where the acknowledgement of the commit was lost.  A spool
    that verified still does and, when JSON can carry the events, they are what
    it holds on top.  Without a spool nothing is ever written. *)
Theorem postgres_audited o spool request A (m : mutation A) d :
  Verify spool all_up (dbAudit d) (dbAudit d) = Ok () → room (dbAudit d) →
  (let '(r, d') := mutate (postgres_backend o (Some spool) (Some request)) m d in
  d' = d ∨ ∃ es, spooled spool (dbAudit d) es (dbAudit d') ∧
     length (rows (dbAudit d')) = (length (rows (dbAudit d)) + length es)%nat ∧
     es ≠ [] ∧ Forall (λ e, completed e ∨ moved (operations_of m) e) es ∧
     (d' = set_db_audit (dbAudit d') d ∨ ∃ e, e ∈ es ∧ EventType e = EventTypeStateTransition) ∧
     ((∃ e, filter completed es = replicate (completions_of m) e ∧ Operation e = Request.Operation request ∧
         RequestID e = Request.ID request ∧ AuditEvent.WorkloadIdentity e = Request.WorkloadIdentity request ∧
         HumanActor e = Request.HumanActor request ∧ AuditEvent.Result e = ResultSuccess) ∧
       (is_ok r = true ∨ r = Err ErrStorage ∧ wCommit o = Unacknowledged) ∨
      filter completed es = [] ∧ ∃ err, r = Err err ∧ (marking err ∨ err = ErrStorage ∧ wCommit o = Unacknowledged)) ∧
     (room (dbAudit d') → Forall encodable es →
       Verify spool all_up (dbAudit d') (dbAudit d') = Ok () ∧ events (dbAudit d') = events (dbAudit d) ++ es)) ∧
  (mutate (postgres_backend o None (Some request)) m d).2 = d.
Proof.
  intros Hv Hroom. pose proof (mutate_accounts o spool request m d) as Ha. pose proof (mutate_fail_closed o (Some request) m d) as Hc.
  split; [|exact Hc]. destruct (mutate _ m d) as [r d']. destruct Ha as [Ha|(es & Hs & Hne & Hall & Hmove & Hr)]; [by left|right].
  cbn [fst snd] in *. exists es. split; [done|]. split; [by eapply spooled_length|]. split; [done|]. split; [done|]. split; [done|]. split.
  - destruct Hr as [[[t Ht] Hr]|Hr]; [left|by right]. split; [|done]. eexists. split; [exact Ht|]. done.
  - intros Hroom' He. apply Verify_verified in Hv; [|done]. destruct (spooled_exact _ _ _ _ Hs Hv Hroom' He) as [Hv' Hev].
    split; [by apply Verify_verified|done].
Qed.
End AuditedTheorems.

(** ** Execution *)

Module AuditedExample.
Import VaultExample.
#[local] Existing Instances toy_crypto toy_crypto_laws canonical_order text_column text_column_laws.
(** A server that takes every text and keeps every instant. *)
#[local] Instance generous : PgTypes := {|
  uuid_in := λ s, if validUUID s then Some s else None; text_in := λ _, true; timestamptz := Some
|}.
Definition start : time := 738945 * 86400 * Second.
Definition spool : Spool := mkSpool (stream 32 5) 100.
Definition request (operation : string) : Request.t :=
  Request.mk "018f47a6-7b1c-7f00-8000-0000000000ee" "spiffe://prod.example/workload/praetor-api" operation "alice" start.
Definition backend (operation : string) : Backend database := postgres_backend calm (Some spool) (Some (request operation)).

(** A credential, created by the manager. *)
Definition created : database :=
  (manager_exec (BE:=backend OperationCredentialCreated) manager create (stream 72 1) start empty_database).2.
Definition rotation : mutation Rotation :=
  MStartRotation (mkRotation "018f47a6-7b1c-7f00-8000-0000000000aa" "key-a" "key-b" RotationRunning 0 0 start start zero_time).
Definition rotating : database := (mutate (backend OperationMasterKeyRotationStarted) rotation created).2.

Lemma created_verifies : Verify spool all_up (dbAudit created) (dbAudit created) = Ok ().
Proof. vm_compute. reflexivity. Qed.
Lemma created_room : room (dbAudit created).
Proof. vm_compute. reflexivity. Qed.
Lemma rotating_differs : rotating ≠ created.
Proof. intros E%(f_equal (λ d, pending_count (dbAudit d))). vm_compute in E. discriminate. Qed.
End AuditedExample.

(** A rotation started over the one credential: two more events. *)
Example rotating_events : (λ e, (Operation e, EventType e)) <$> events (dbAudit AuditedExample.rotating) =
  [(OperationCredentialCreated, EventTypeStateTransition); (OperationCredentialCreated, EventTypeRequestCompleted);
   (OperationMasterKeyRotationStarted, EventTypeStateTransition); (OperationMasterKeyRotationStarted, EventTypeRequestCompleted)].
Proof. vm_compute. reflexivity. Qed.

Section AuditedWitness.
Import AuditedExample.
#[local] Existing Instances toy_crypto toy_crypto_laws canonical_order text_column text_column_laws generous.

Lemma postgres_audited_witness :
  ∃ es, spooled spool (dbAudit created) es (dbAudit rotating) ∧ filter completed es ≠ [] ∧
    ∃ e, e ∈ es ∧ EventType e = EventTypeStateTransition.
Proof.
  destruct (postgres_audited calm spool (request OperationMasterKeyRotationStarted) Rotation rotation created
    created_verifies created_room) as [H _].
  rewrite (surjective_pairing (mutate _ _ _)) in H. destruct H as [H|(es & Hsp & _ & _ & _ & Hmove & Hr & _)]; [by destruct rotating_differs|].
  exists es. split; [done|]. split.
  - destruct Hr as [[(e & He & _) _]|[_ (err & Hr & _)]]; [by rewrite He|]. vm_compute in Hr. discriminate.
  - destruct Hmove as [H|H]; [|done]. apply (f_equal dbRotations) in H. vm_compute in H. discriminate.
Defined.
End AuditedWitness.
