(* ===== verification/Mirror.v ===== *)
(** * The two backends agree

    What backend_differential_test.go samples, for every state and request:
    the tables of the PostgreSQL backend mirror the maps of the in-memory one,
    and an operation either gives the answer of the in-memory backend and
    leaves the mirrored state, or reports that storage is unavailable. *)

From Stdlib Require Import Ascii.
From S2P Require Import Prelude GoStrings Json GoTime TimeParse JsonValue Crypto Envelope MasterKey AuditEvent Spool Wire Credential Builtin Backend MemoryBackend Manager Vault Bindings Rotations Storage Postgres PostgresBindings PostgresRotation Audited.

(** ** Transactions step by step *)

Section Steps.
Context (o : world) (down : CredError → Prop) (storage_down : down ErrStorage).

(** From [d] the transaction reaches only values and tables in [Q] and leaves
    only with errors in [E], unless something is down. *)
Definition yields {A} (t : Tx A) (d : database) (Q : A → database → Prop) (E : CredError → Prop) : Prop :=
  ∀ n, match t d n with Ok (a, (d', _)) => Q a d' | Err e => down e ∨ E e end.

Lemma yields_bind {A B} (t : Tx A) (f : A → Tx B) d Q E :
  yields t d (λ a d', yields (f a) d' Q E) E → yields (t ≫= f) d Q E.
Proof.
  intros Ht n. unfold mbind, tx_bind. specialize (Ht n). destruct (t d n) as [[a [d' n']]|e]; [apply Ht|done].
Qed.
Lemma yields_ret {A} (a : A) d (Q : A → database → Prop) E : Q a d → yields (mret a) d Q E.
Proof. intros HQ n. exact HQ. Qed.
Lemma yields_leave {A} e d (Q : A → database → Prop) (E : CredError → Prop) : E e → yields (leave e) d Q E.
Proof. intros He n. by right. Qed.
Lemma yields_leave_if c e d (Q : () → database → Prop) (E : CredError → Prop) :
  (c = true → E e) → (c = false → Q () d) → yields (leave_if c e) d Q E.
Proof. intros H1 H2. destruct c; [by apply yields_leave, H1|by apply yields_ret, H2]. Qed.
Lemma yields_known_or {A} e (x : option A) d (Q : A → database → Prop) (E : CredError → Prop) :
  (x = None → down e ∨ E e) → (∀ a, x = Some a → Q a d) → yields (known_or e x) d Q E.
Proof. intros H1 H2 n. destruct x as [a|]; [by apply (H2 a)|by apply H1]. Qed.
Lemma yields_lift {A} (r : result CredError A) d (Q : A → database → Prop) (E : CredError → Prop) :
  match r with Ok a => Q a d | Err e => E e end → yields (lift r) d Q E.
Proof. intros H n. unfold lift. destruct r; [exact H|by right]. Qed.
Lemma yields_statement {A} e (f : database → option (A * database)) d (Q : A → database → Prop) E :
  down e → (∀ a d', f d = Some (a, d') → Q a d') → yields (statement o e f) d Q E.
Proof.
  intros He HQ n. unfold statement. destruct (wNet o n); [|by left]. destruct (f d) as [[a d']|] eqn:Hf; [by apply HQ|by left].
Qed.
Lemma yields_query {A} (f : database → option A) d (Q : A → database → Prop) E :
  (∀ a, f d = Some a → Q a d) → yields (query o f) d Q E.
Proof.
  intros HQ. apply yields_statement; [done|]. intros a d' H. destruct (f d) eqn:Hf; [|done]. injection H as <- <-. by apply HQ.
Qed.
Lemma yields_exec (f : database → option database) d (Q : () → database → Prop) E :
  (∀ d', f d = Some d' → Q () d') → yields (exec o f) d Q E.
Proof.
  intros HQ. apply yields_statement; [done|]. intros a d' H. destruct (f d) eqn:Hf; [|done]. injection H as <- <-. by apply HQ.
Qed.
Lemma yields_insert_or e (f : database → insertion) d (Q : () → database → Prop) (E : CredError → Prop) :
  (f d = Duplicate → E e) → (∀ d', f d = Inserted d' → Q () d') → yields (insert_or o e f) d Q E.
Proof.
  intros HE HQ n. unfold insert_or. destruct (wNet o n); [|by left].
  destruct (f d) eqn:Hf; [by apply HQ|right; by apply HE|by left].
Qed.

(** The outcome of a whole transaction. *)
Lemma in_tx_yields {A} (body : Tx (ending A)) d (R : result CredError A → database → Prop) :
  yields body d (λ x d', match x with Leave a => R (Ok a) d | Commit r => R r d' end) (λ e, R (Err e) d) →
  (∃ e, down e ∧ (in_tx o body d).1 = Err e ∧ ((in_tx o body d).2 = d ∨ ∃ r, R r (in_tx o body d).2)) ∨
  R (in_tx o body d).1 (in_tx o body d).2.
Proof.
  intros H. unfold in_tx. destruct (wNet o 0); cbn [negb]; [|left; eauto]. specialize (H 1%nat).
  destruct (body d 1%nat) as [[[a|r] [d' n]]|e]; cbn [fst snd].
  - by right.
  - destruct (wCommit o); cbn [fst snd]; [by right|left; eauto|left; exists ErrStorage; eauto].
  - destruct H as [H|H]; [left; eauto|by right].
Qed.

Context `{CR : Crypto} `{JB : Jsonb} (spool : option Spool) (ctx : option Request.t).

Definition same_tables (d d' : database) : Prop := ∃ c, d' = set_db_audit c d.
Lemma same_tables_refl d : same_tables d d.
Proof. exists (dbAudit d). by destruct d. Qed.
Lemma same_tables_trans d1 d2 d3 : same_tables d1 d2 → same_tables d2 d3 → same_tables d1 d3.
Proof. intros [c ->] [c' ->]. by exists c'. Qed.

Lemma yields_appendAudit e d (Q : () → database → Prop) E :
  (∀ d', same_tables d d' → Q () d') → yields (appendAudit o spool e) d Q E.
Proof.
  intros HQ n. unfold appendAudit. destruct spool as [sp|]; [|by left].
  destruct (AppendTx _ _ _ _) as [c|]; [|by left]. apply HQ. by exists c.
Qed.
Lemma yields_appendCompletion e d (Q : () → database → Prop) E :
  (∀ d', same_tables d d' → Q () d') → yields (appendCompletion o spool ctx e) d Q E.
Proof.
  intros HQ. unfold appendCompletion. destruct ctx; [by apply yields_appendAudit|]. apply yields_ret, HQ, same_tables_refl.
Qed.
Lemma yields_appendSuccessfulTransition e d (Q : () → database → Prop) E :
  (∀ d', same_tables d d' → Q () d') → yields (appendSuccessfulTransition o spool ctx e) d Q E.
Proof.
  intros HQ. unfold appendSuccessfulTransition. apply yields_bind, yields_appendAudit. intros d1 H1.
  apply yields_appendCompletion. intros d2 H2. apply HQ. by eapply same_tables_trans.
Qed.
End Steps.

(** ** The mirror *)

Section Mirror.
Context `{PT : PgTypes}.

(** Values the server keeps as they are, if it takes them: an identifier in
    its canonical form, an instant in whole microseconds. *)
Definition canonical (s : string) : Prop := ∀ s', uuid_in s = Some s' → s' = s.
Definition kept (t : time) : Prop := ∀ t', timestamptz t = Some t' → t' = t.

(** The in-memory backend stamps a binding each time it finds it exhausted,
    the table only when it becomes so; [updated_at] of an exhausted binding is
    all they may differ in. *)
Definition unstamped (x : Binding) : Binding := with_state (bdState x) zero_time x.
Definition alike (p m : Binding) : Prop := unstamped p = unstamped m ∧ (bdState m ≠ BindingExhausted → p = m).
Definition alike_row (p m : memoryBinding) : Prop :=
  alike (mbBinding p) (mbBinding m) ∧ mbIdempotencyKey p = mbIdempotencyKey m ∧ mbDigest p = mbDigest m.

Definition represents (row : version_row) (r : EnvRecord) : Prop :=
  unmarshal_envelope (vrEnvelope row) = Some r ∧ vrMasterKeyID row = recMasterKeyID r.
Definition remembers (row : idempotency_row) (x : remembered) : Prop :=
  irDigest row = reDigest x ∧ unmarshal_metadata (irResponse row) = Some (reResponse x).
Definition backs (id : string) (row : backup_row) (x : BackupSet) : Prop :=
  scan_backup id row = x ∧ bwExpiredAt row ≠ Some zero_time.
Definition record_of (b : memoryBackend) (id : string) (v : Z) : option EnvRecord :=
  c ← credentials b !! id; stRecords c !! v.

Record mirrors (d : database) (b : memoryBackend) : Prop := {
  mir_credentials id : dbCredentials d !! id = stMetadata <$> credentials b !! id;
  mir_versions id v : option_Forall2 represents (dbVersions d !! (id, v)) (record_of b id v);
  mir_idempotency key org k : splitIdempotencyID key = Some (org, k) →
    option_Forall2 remembers (dbIdempotency d !! (org, k)) (idempotency b !! key);
  mir_bindings run : option_Forall2 alike_row (dbBindings d !! run) (bindings b !! run);
  mir_attempts id : atAttempt <$> dbAttempts d !! id = attempts b !! id;
  mir_rotations id : dbRotations d !! id = rotations b !! id;
  mir_backups id : option_Forall2 (backs id) (dbBackups d !! id) (backups b !! id);
  mir_stored id c : credentials b !! id = Some c → storable_metadata (stMetadata c);
  mir_values run s : bindings b !! run = Some s → kept (bdExpiresAt (mbBinding s)) ∧ canonical (bdCredentialID (mbBinding s))
}.

Lemma alike_refl x : alike x x.
Proof. by split. Qed.
Lemma alike_state p m : alike p m → bdState p = bdState m.
Proof. intros [H _]. by apply (f_equal bdState) in H. Qed.

Lemma mirrors_audit d b d' : mirrors d b → same_tables d d' → mirrors d' b.
Proof. intros [] [c ->]. by constructor. Qed.

Lemma mirrors_empty : mirrors empty_database newMemoryBackend.
Proof. constructor; intros; cbn in *; rewrite ?lookup_empty in *; solve [constructor|done]. Qed.
End Mirror.

(** What a [jsonb] column promises about the documents this program stores:
    whatever it does to the text, the document reads back the same. *)
Class JsonbDocuments `{Jsonb} : Prop := {
  jsonb_envelope r s : storable_record r → jsonb (marshal_envelope r) = Some s → unmarshal_envelope s = Some r;
  jsonb_metadata m s s' : storable_metadata m → marshal_metadata m = Some s → jsonb s = Some s' → unmarshal_metadata s' = Some m
}.

(** One statement of a transaction. *)
Ltac tx_step :=
  match goal with
  | |- yields _ (_ ≫= _) _ _ _ => apply yields_bind
  | |- yields _ (mret _) _ _ _ => apply yields_ret
  | |- yields _ (leave _) _ _ _ => apply yields_leave
  | |- yields _ (leave_if _ _) _ _ _ => apply yields_leave_if; intros ?
  | |- yields _ (known_or _ _) _ _ _ => apply yields_known_or; [intros ?|intros ??]
  | |- yields _ (lift _) _ _ _ => apply yields_lift
  | |- yields _ (query _ _) _ _ _ => apply yields_query; [first [done|by left]|]; intros ??
  | |- yields _ (exec _ _) _ _ _ => apply yields_exec; [first [done|by left]|]; intros ??
  | |- yields _ (insert_or _ _ _) _ _ _ => apply yields_insert_or; [first [done|by left]|intros ?|intros ??]
  | |- yields _ (appendAudit _ _ _) _ _ _ => apply yields_appendAudit; [first [done|by left]|]; intros ??
  | |- yields _ (appendCompletion _ _ _ _) _ _ _ => apply yields_appendCompletion; [first [done|by left]|]; intros ??
  | |- yields _ (appendSuccessfulTransition _ _ _ _) _ _ _ => apply yields_appendSuccessfulTransition; [first [done|by left]|]; intros ??
  end.
Ltac tx_steps := repeat (tx_step; cbv beta).

(** An early return that both sides take or neither. *)
Ltac leave_here :=
  match goal with |- yields _ (leave_if ?c _ ≫= _) _ _ _ =>
    apply yields_bind; destruct c eqn:?; [apply yields_leave; done|apply yields_ret]
  end.

Section Agreement.
Context `{CR : Crypto} `{MO : MapOrder} `{JB : Jsonb} {JD : JsonbDocuments} `{PT : PgTypes} (o : world) (spool : option Spool) (ctx : option Request.t).
Implicit Types (d : database) (b : memoryBackend).

Definition agrees {A} (down : CredError → Prop) (same : result CredError A → result CredError A → Prop)
    (x : result CredError A * database) d (y : result CredError A * memoryBackend) : Prop :=
  (∃ e, down e ∧ x.1 = Err e ∧ (x.2 = d ∨ mirrors x.2 y.2)) ∨ same x.1 y.1 ∧ mirrors x.2 y.2.

Lemma agrees_tx {A} (down : CredError → Prop) same (body : Tx (ending A)) d y :
  down ErrStorage →
  yields down body d
    (λ x d', match x with Leave a => same (Ok a) y.1 ∧ mirrors d y.2 | Commit r => same r y.1 ∧ mirrors d' y.2 end)
    (λ e, same (Err e) y.1 ∧ mirrors d y.2) →
  agrees down same (in_tx o body d) d y.
Proof.
  intros Hdown H. apply (in_tx_yields o down Hdown body d (λ r d', same r y.1 ∧ mirrors d' y.2)) in H.
  destruct H as [(e & He & Hr & [Hd|(r & _ & Hm)])|H]; [left; eauto..|by right].
Qed.

Lemma agrees_down {A} (down : CredError → Prop) same e d (y : result CredError A * memoryBackend) :
  down e → agrees down same (Err e, d) d y.
Proof. intros He. left. exists e. auto. Qed.

Definition unavailable (e : CredError) : Prop := e = ErrStorage.

Lemma mirrors_bigint z x : bigint z = Some x → x = z.
Proof. unfold bigint. case_match; congruence. Qed.
Lemma positive_Some bits z x : positive bits z = Some x → x = z.
Proof. unfold positive. case_match; congruence. Qed.
Lemma nonempty_text_Some s x : nonempty_text s = Some x → x = s.
Proof. unfold nonempty_text. case_match; congruence. Qed.
Lemma instants_Some c u x y : instants c u = Some (x, y) → timestamptz c = Some x ∧ timestamptz u = Some y.
Proof.
  unfold instants. destruct (timestamptz c); [|done]. destruct (timestamptz u); [|done]. cbn.
  case_match; [done|]. by intros [= -> ->].
Qed.

Lemma credential_row_Some m row :
  canonical (mID m) → kept (mCreatedAt m) → kept (mUpdatedAt m) → credential_row m = Some row → row = m.
Proof.
  intros Hid Hc Hu H. unfold credential_row in H.
  apply bind_Some in H as (id & Hi & H). apply bind_Some in H as (org & Ho%nonempty_text_Some & H).
  apply bind_Some in H as (nm & Hn%nonempty_text_Some & H). apply bind_Some in H as (ty & Ht%nonempty_text_Some & H).
  apply bind_Some in H as (sc & Hs%positive_Some & H). apply bind_Some in H as (ve & Hv%positive_Some & H).
  apply bind_Some in H as (fs & Hf & H). apply bind_Some in H as ([x y] & [Hx Hy]%instants_Some & H).
  apply Hid in Hi. apply Hc in Hx. apply Hu in Hy.
  assert (fs = mSecretFields m) as -> by (unfold text_array in Hf; repeat case_match; congruence).
  destruct m; cbn in *. congruence.
Qed.

Lemma split_at_nul_Some s x y : split_at_nul s = Some (x, y) → s = x +:+ String (zb 0) y.
Proof.
  revert x. induction s as [|a s IH]; intros x H; [done|]. cbn [split_at_nul] in H. case_match eqn:Ha.
  - apply Z.eqb_eq in Ha. injection H as <- <-. change ("" +:+ String (zb 0) s) with (String (zb 0) s). by rewrite <-(zb_bz a), Ha.
  - apply bind_Some in H as ([x' y'] & H & [= <- <-]). rewrite (IH x' H). done.
Qed.
Lemma splitIdempotencyID_Some s x y : splitIdempotencyID s = Some (x, y) → s = x +:+ String (zb 0) y.
Proof.
  unfold splitIdempotencyID. intros ([x' y'] & H & H2)%bind_Some. case_match; [done|]. injection H2 as -> ->. by apply split_at_nul_Some.
Qed.

(** *** What the statements do *)

Lemma insert_credential_Some m d d' :
  canonical (mID m) → kept (mCreatedAt m) → kept (mUpdatedAt m) → insert_credential m d = Some d' →
  dbCredentials d !! mID m = None ∧ d' = set_db_credentials (<[mID m := m]> (dbCredentials d)) d.
Proof.
  intros Hid Hc Hu H. unfold insert_credential in H. apply bind_Some in H as (row & ->%credential_row_Some & H); [|done..].
  destruct (dbCredentials d !! mID m); [done|]. split; [done|congruence].
Qed.
Lemma insert_version_Some id v document key created d d' :
  canonical id → insert_version id v document key created d = Some d' →
  ∃ row, jsonb document = Some (vrEnvelope row) ∧ vrMasterKeyID row = key ∧ dbVersions d !! (id, v) = None ∧
    d' = set_db_versions (<[(id, v) := row]> (dbVersions d)) d.
Proof.
  intros Hid H. unfold insert_version in H.
  apply bind_Some in H as (id' & ->%Hid & H). apply bind_Some in H as (v' & ->%positive_Some & H).
  apply bind_Some in H as (e & He & H). apply bind_Some in H as (k & ->%nonempty_text_Some & H).
  apply bind_Some in H as (t & _ & H). destruct (dbCredentials d !! id); [|done]. destruct (dbVersions d !! (id, v)) eqn:Hv; [done|].
  injection H as <-. by exists (mkVersionRow e key t).
Qed.
Lemma insert_idempotency_Some org key digest document id created d d' :
  insert_idempotency org key digest document id created d = Some d' →
  ∃ row, jsonb document = Some (irResponse row) ∧ irDigest row = digest ∧
    d' = set_db_idempotency (<[(org, key) := row]> (dbIdempotency d)) d.
Proof.
  intros H. unfold insert_idempotency in H.
  apply bind_Some in H as (org' & ->%nonempty_text_Some & H). apply bind_Some in H as (key' & ->%nonempty_text_Some & H).
  apply bind_Some in H as (e & He & H). apply bind_Some in H as (id' & _ & H). apply bind_Some in H as (t & _ & H).
  case_match; [done|]. destruct (dbCredentials d !! id'); [|done]. destruct (dbIdempotency d !! (org, key)); [done|].
  injection H as <-. by exists (mkIdempotencyRow digest e id' t).
Qed.

(** *** What the statements mean *)

Lemma record_of_put id c v r m b x v' :
  credentials b !! id = Some c →
  record_of (set_credentials (<[id := mkStored m (<[v := r]> (stRecords c))]> (credentials b)) b) x v' =
  if decide ((id, v) = (x, v')) then Some r else record_of b x v'.
Proof.
  intros Hc. unfold record_of. cbn [credentials set_credentials]. destruct (decide (id = x)) as [->|Hx].
  - rewrite lookup_insert_eq, Hc. cbn. destruct (decide (v = v')) as [->|Hv].
    + by rewrite lookup_insert_eq, decide_True.
    + rewrite lookup_insert_ne, decide_False by (done || congruence). done.
  - rewrite lookup_insert_ne by done. rewrite decide_False by congruence. done.
Qed.

Lemma mirrors_put id c v row r m d b :
  mirrors d b → credentials b !! id = Some c → represents row r → storable_metadata m →
  mirrors (set_db_versions (<[(id, v) := row]> (dbVersions d)) (set_db_credentials (<[id := m]> (dbCredentials d)) d))
    (set_credentials (<[id := mkStored m (<[v := r]> (stRecords c))]> (credentials b)) b).
Proof.
  intros [] Hc Hr Hst. constructor; try done.
  - intros x. cbn. destruct (decide (id = x)) as [->|Hx]; [by rewrite !lookup_insert_eq|by rewrite !lookup_insert_ne].
  - intros x v'. rewrite record_of_put by done. cbn [dbVersions set_db_versions set_db_credentials].
    case_decide as Hx; [rewrite Hx, lookup_insert_eq; by constructor|by rewrite lookup_insert_ne].
  - intros x c'. cbn. intros [[_ <-]|[_ Hx]]%lookup_insert_Some; [done|eauto].
Qed.

Lemma mirrors_rewrite id c v row r d b :
  mirrors d b → credentials b !! id = Some c → represents row r →
  mirrors (set_db_versions (<[(id, v) := row]> (dbVersions d)) d)
    (set_credentials (replace_record (id, v, r) (credentials b)) b).
Proof.
  intros Hm Hc Hr. pose proof (mirrors_put id c v row r (stMetadata c) d b Hm Hc Hr (mir_stored _ _ Hm _ _ Hc)) as H.
  rewrite (insert_id (dbCredentials d)) in H by (by rewrite (mir_credentials _ _ Hm), Hc).
  unfold replace_record. rewrite (alter_Some _ _ _ _ Hc). by destruct d.
Qed.

Lemma mirrors_create m row r key org k irow digest d b :
  mirrors d b → dbCredentials d !! mID m = None → represents row r →
  splitIdempotencyID key = Some (org, k) → remembers irow (mkRemembered digest m) → storable_metadata m →
  mirrors (set_db_idempotency (<[(org, k) := irow]> (dbIdempotency d))
            (set_db_versions (<[(mID m, mVersion m) := row]> (dbVersions d))
              (set_db_credentials (<[mID m := m]> (dbCredentials d)) d)))
    (set_idempotency (<[key := mkRemembered digest m]> (idempotency b))
      (set_credentials (<[mID m := mkStored m {[mVersion m := r]}]> (credentials b)) b)).
Proof.
  intros Hm Hn Hr Hkey Hi Hst. destruct Hm as [Hcr Hve Hid]. constructor; try done.
  - intros x. cbn. destruct (decide (mID m = x)) as [<-|Hx]; [by rewrite !lookup_insert_eq|by rewrite !lookup_insert_ne].
  - intros x v'. cbn. unfold record_of. cbn [credentials set_credentials set_idempotency].
    destruct (decide (mID m = x)) as [<-|Hx].
    + rewrite lookup_insert_eq. cbn. destruct (decide (mVersion m = v')) as [<-|Hv].
      * rewrite lookup_insert_eq, lookup_singleton_eq. by constructor.
      * rewrite lookup_insert_ne, lookup_singleton_ne by congruence.
        specialize (Hve (mID m) v'). specialize (Hcr (mID m)). unfold record_of in Hve. rewrite Hn in Hcr.
        destruct (credentials b !! mID m); [done|]. exact Hve.
    + rewrite !lookup_insert_ne by congruence. apply Hve.
  - intros key' org' k' Hkey'. cbn. destruct (decide (key = key')) as [<-|Hne].
    + rewrite Hkey in Hkey'. injection Hkey' as <- <-. rewrite !lookup_insert_eq. by constructor.
    + rewrite !lookup_insert_ne; [by apply Hid|done|]. intros [= <- <-]. apply Hne.
      by rewrite (splitIdempotencyID_Some _ _ _ Hkey), (splitIdempotencyID_Some _ _ _ Hkey').
  - intros x c'. cbn. intros [[_ <-]|[_ Hx]]%lookup_insert_Some; [done|eauto].
Qed.

(** *** Credentials *)

Lemma create_agrees key org k digest m r d b :
  mirrors d b → splitIdempotencyID key = Some (org, k) → storable_metadata m → storable_record r →
  canonical (mID m) → kept (mCreatedAt m) → kept (mUpdatedAt m) →
  agrees unavailable eq (Postgres.Create o spool ctx key digest m r d) d (MemoryBackend.Create key digest m r b).
Proof.
  intros Hm Hkey Hsm Hsr Hid Hc Hu. unfold Postgres.Create. rewrite Hkey. unfold encodeStorage.
  destruct (marshal_metadata m) as [s|] eqn:Hs; cbn [mbind option_bind]; [|by apply agrees_down].
  pose proof (mir_idempotency _ _ Hm _ _ _ Hkey) as Hi. apply agrees_tx; [done|].
  tx_step; tx_step; tx_step; tx_step. match goal with H : _ = Some _ |- _ => apply bind_Some in H as (? & _ & [= <-]) end.
  unfold MemoryBackend.Create. destruct Hi as [row y [Hd Hx]|].
  - rewrite Hd. tx_steps.
    + destruct (negb _); [done|congruence].
    + match goal with H : negb _ = false |- _ => rewrite H end. left. rewrite Hx in *. congruence.
    + match goal with H : negb _ = false |- _ => rewrite H end. rewrite Hx in *. by simplify_eq.
  - tx_steps.
    match goal with H : insert_credential _ _ = _ |- _ => apply insert_credential_Some in H as [Hn ->]; [|done..] end.
    match goal with H : insert_version _ _ _ _ _ _ = _ |- _ => apply insert_version_Some in H as (row & He & Hk & _ & ->); [|done] end.
    match goal with H : insert_idempotency _ _ _ _ _ _ _ = _ |- _ => apply insert_idempotency_Some in H as (irow & Hr & Hdg & ->) end.
    split; [done|]. eapply mirrors_audit; [|done]. refine (mirrors_create m row r key org k irow digest d b Hm Hn _ Hkey _ Hsm).
    + split; [|done]. by apply jsonb_envelope.
    + split; [done|]. by eapply jsonb_metadata.
Qed.

Lemma find_credential_mirror org id d b :
  mirrors d b → find_credential org id d = stMetadata <$> owned_by (credentials b) org id.
Proof.
  intros Hm. unfold find_credential, owned_by. rewrite (mir_credentials _ _ Hm).
  destruct (credentials b !! id); [|done]. cbn. by case_match.
Qed.

Lemma get_agrees org id d b :
  mirrors d b → map_Forall entry_current (credentials b) → canonical id →
  Postgres.Get o org id d = Err ErrStorage ∨ Postgres.Get o org id d = MemoryBackend.Get org id b.
Proof.
  intros Hm Hcur Hid. unfold Postgres.Get, one_query, query, Postgres.statement. destruct (wNet o 0); [|by left].
  destruct (texts_in [org]); [|by left]. cbn [mbind option_bind]. destruct (uuid_in id) as [id'|] eqn:Hi; [|by left].
  apply Hid in Hi as ->. cbn [mbind option_bind]. rewrite (find_credential_mirror _ _ _ _ Hm). unfold MemoryBackend.Get, owned_by.
  destruct (credentials b !! id) as [c|] eqn:Hc; [|by right]. destruct (String.eqb _ org); cbn [negb fmap option_fmap option_map mbind option_bind]; [|by right].
  destruct (Hcur _ _ Hc) as [_ [r Hr]]. pose proof (mir_versions _ _ Hm id (mVersion (stMetadata c))) as Hv. unfold record_of in Hv.
  rewrite Hc in Hv. cbn [mbind option_bind] in Hv. rewrite Hr in Hv |- *. inversion Hv as [row x [Hx _] E1 E2|]; subst x.
  cbn [mbind option_bind of_option result_bind]. cbn [fmap result_fmap mbind result_bind fst of_option]. rewrite Hx. by right.
Qed.

(** The metadata of an update belongs to the credential it replaces. *)
Definition same_identity (org id : string) (m : Metadata) (c : stored) : Prop :=
  mID m = id ∧ mOrganizationID m = mOrganizationID (stMetadata c) ∧ mCredentialType m = mCredentialType (stMetadata c) ∧
  mSchemaVersion m = mSchemaVersion (stMetadata c) ∧ mCreatedAt m = mCreatedAt (stMetadata c).

Lemma update_credential_Some org id expected m d b n d' :
  mirrors d b → canonical id → kept (mUpdatedAt m) → (∀ c, owned_by (credentials b) org id = Some c → same_identity org id m c) →
  update_credential org id expected m d = Some (n, d') →
  match owned_by (credentials b) org id with
  | None => n = 0%nat ∧ d' = d
  | Some c => if mVersion (stMetadata c) =? expected
              then n = 1%nat ∧ d' = set_db_credentials (<[id := m]> (dbCredentials d)) d else n = 0%nat ∧ d' = d
  end.
Proof.
  intros Hm Hid Hu Hsame H. unfold update_credential in H.
  apply bind_Some in H as (? & _ & H). apply bind_Some in H as (ve & ->%mirrors_bigint & H).
  apply bind_Some in H as (ex & ->%mirrors_bigint & H). apply bind_Some in H as (up & ->%Hu & H).
  apply bind_Some in H as (id' & ->%Hid & H). rewrite (find_credential_mirror _ _ _ _ Hm) in H.
  destruct (owned_by _ org id) as [c|]; cbn [fmap option_fmap option_map] in H; [|by injection H as <- <-].
  destruct (Hsame c eq_refl) as (E1 & E2 & E3 & E4 & E5).
  destruct (_ =? expected); cbn [negb] in H; [|by injection H as <- <-]. case_match; [done|]. injection H as <- <-. split; [done|].
  rewrite <-E1 at 2. rewrite <-E2, <-E3, <-E4, <-E5. by destruct m.
Qed.

Lemma update_agrees org id expected m r op d b :
  mirrors d b → storable_metadata m → storable_record r → canonical id → kept (mUpdatedAt m) →
  (∀ c, owned_by (credentials b) org id = Some c → same_identity org id m c) →
  agrees unavailable eq (Postgres.Update o spool ctx org id expected m r op d) d (MemoryBackend.Update org id expected m r op b).
Proof.
  intros Hm Hst Hr Hid Hu Hsame. unfold Postgres.Update. destruct (encodeStorage m r) as [[mj rj]|] eqn:He; [|by apply agrees_down].
  assert (rj = marshal_envelope r) as -> by (unfold encodeStorage in He; destruct (marshal_metadata m); [by injection He|done]).
  apply agrees_tx; [done|]. apply yields_bind, yields_statement; [done|]. intros n d' H. eapply update_credential_Some in H; [|done..].
  unfold MemoryBackend.Update. destruct (owned_by (credentials b) org id) as [c|] eqn:Hown.
  - pose proof Hown as [Hc <-]%owned_by_Some. rewrite Hc, String.eqb_refl. cbn [negb].
    destruct (_ =? expected); cbn [negb].
    + destruct H as [-> ->]. cbn [Nat.eqb]. tx_steps.
      match goal with H : insert_version _ _ _ _ _ _ = _ |- _ => apply insert_version_Some in H as (row & Hj & Hk & _ & ->); [|done] end.
      split; [done|]. eapply mirrors_audit; [|done]. refine (mirrors_put id c (mVersion m) row r m d b Hm Hc _ Hst).
      split; [by apply jsonb_envelope|done].
    + destruct H as [-> ->]. cbn [Nat.eqb]. tx_step; tx_step.
      match goal with H : _ = Some _ |- _ => apply bind_Some in H as (id' & ->%Hid & [= <-]) end.
      rewrite (find_credential_mirror _ _ _ _ Hm), Hown. by apply yields_leave.
  - destruct H as [-> ->]. cbn [Nat.eqb]. tx_step; tx_step.
    match goal with H : _ = Some _ |- _ => apply bind_Some in H as (id' & ->%Hid & [= <-]) end.
    rewrite (find_credential_mirror _ _ _ _ Hm), Hown. apply yields_leave.
    unfold owned_by in Hown. destruct (credentials b !! id); [|done]. by destruct (String.eqb _ org).
Qed.

(** *** Bindings *)


Definition alike_result {A} (R : A → A → Prop) (p m : result CredError A) : Prop :=
  match p, m with Ok x, Ok y => R x y | Err e, Err e' => e = e' | _, _ => False end.

Lemma alike_form p m : alike p m → p = with_state (bdState m) (bdUpdatedAt p) m.
Proof. intros [H _]. destruct p, m. unfold unstamped, with_state in *. cbn in *. congruence. Qed.
Lemma alike_fields p m : alike p m →
  bdRunID p = bdRunID m ∧ bdDispatchID p = bdDispatchID m ∧ bdOrganizationID p = bdOrganizationID m ∧
  bdCredentialID p = bdCredentialID m ∧ bdCredentialVersion p = bdCredentialVersion m ∧
  bdExecutorIdentity p = bdExecutorIdentity m ∧ bdNotBefore p = bdNotBefore m ∧ bdExpiresAt p = bdExpiresAt m ∧
  bdMaxResolutions p = bdMaxResolutions m ∧ bdResolutionCount p = bdResolutionCount m.
Proof. intros ->%alike_form. done. Qed.
Lemma alike_touched st t t' m : st = BindingExhausted → alike (with_state st t m) (with_state st t' m).
Proof. intros ->. by split. Qed.

Lemma mirrors_binding run p m d b :
  mirrors d b → alike_row p m → kept (bdExpiresAt (mbBinding m)) ∧ canonical (bdCredentialID (mbBinding m)) →
  mirrors (set_db_bindings (<[run := p]> (dbBindings d)) d) (set_bindings (<[run := m]> (bindings b)) b).
Proof.
  intros [] Ha Hk. constructor; try done.
  - intros x. cbn. destruct (decide (run = x)) as [<-|Hx]; [rewrite !lookup_insert_eq; by constructor|by rewrite !lookup_insert_ne].
  - intros x s. cbn. intros [[_ <-]|[_ Hs]]%lookup_insert_Some; [done|eauto].
Qed.
Lemma mirrors_touch run p s m d b :
  mirrors d b → dbBindings d !! run = Some p → bindings b !! run = Some s → alike_row p m → bdExpiresAt (mbBinding m) = bdExpiresAt (mbBinding s) → bdCredentialID (mbBinding m) = bdCredentialID (mbBinding s) →
  mirrors d (set_bindings (<[run := m]> (bindings b)) b).
Proof.
  intros Hm Hp Hs Ha He Hc. pose proof (mirrors_binding run p m d b Hm Ha) as H. rewrite (insert_id (dbBindings d)) in H by done.
  rewrite He, Hc in H. destruct d. apply H. by eapply mir_values.
Qed.

Lemma update_binding_Some run st now count reason row d d' :
  canonical run → kept now → dbBindings d !! run = Some row → update_binding run st now count reason d = Some d' →
  let x := with_state st now (mbBinding row) in
  let x := match count with Some c => with_count c x | None => x end in
  let x := match reason with Some r => with_reason r x | None => x end in
  d' = set_db_bindings (<[run := with_binding x row]> (dbBindings d)) d.
Proof.
  intros Hr Hn Hrow H. unfold update_binding in H. apply bind_Some in H as (run' & ->%Hr & H).
  apply bind_Some in H as (now' & ->%Hn & H). apply bind_Some in H as (? & _ & H). rewrite Hrow in H.
  case_match; [|done]. by injection H as <-.
Qed.

Ltac binding_updated :=
  match goal with H : update_binding _ _ _ _ _ _ = _ |- _ => eapply update_binding_Some in H; [|done..]; cbv zeta in H; subst end.

Lemma select_binding_yields (down : CredError → Prop) run d b (Q : option memoryBinding → database → Prop) E :
  down ErrStorage → mirrors d b → canonical run →
  (∀ p, option_Forall2 alike_row p (bindings b !! run) → dbBindings d !! run = p → Q p d) →
  yields down (select_binding o run) d Q E.
Proof.
  intros Hd Hm Hr HQ. apply yields_query; [done|]. intros p H. apply bind_Some in H as (run' & ->%Hr & [= <-]).
  apply HQ; [apply (mir_bindings _ _ Hm)|done].
Qed.

Lemma get_binding_agrees run d b :
  mirrors d b → canonical run →
  PostgresBindings.GetBinding o run d = Err ErrStorage ∨
  alike_result alike (PostgresBindings.GetBinding o run d) (MemoryBackend.GetBinding run b).
Proof.
  intros Hm Hr. unfold PostgresBindings.GetBinding, one_query, select_binding, query, Postgres.statement.
  destruct (wNet o 0); [|by left]. destruct (uuid_in run) as [run'|] eqn:Hi; [|by left]. apply Hr in Hi as ->. right.
  unfold MemoryBackend.GetBinding. cbn. pose proof (mir_bindings _ _ Hm run) as H.
  destruct H as [p m [H _]|]; [exact H|done].
Qed.

Lemma cancel_agrees run dispatch reason now d b :
  mirrors d b → canonical run → kept now →
  agrees unavailable (alike_result alike) (PostgresBindings.CancelBinding o spool ctx run dispatch reason now d) d
    (MemoryBackend.CancelBinding run dispatch reason now b).
Proof.
  intros Hm Hr Hn. apply agrees_tx; [done|]. apply yields_bind. eapply select_binding_yields; [done..|]. intros found Hf Hp.
  unfold MemoryBackend.CancelBinding. destruct (bindings b !! run) as [s|] eqn:Hs; inversion Hf as [p ? Ha|]; subst; tx_steps; simplify_eq; [..|by right].
  - destruct Ha as (Ha & _). destruct (alike_fields _ _ Ha) as (_ & <- & _). by case_match.
  - destruct Ha as (Ha & Hk & Hd). pose proof (alike_fields _ _ Ha) as (_ & <- & _).
    match goal with H : negb _ = false |- _ => rewrite H end. rewrite (alike_state _ _ Ha).
    destruct (terminal _) eqn:Ht; cbn [negb]; tx_steps.
    + split; [done|]. by eapply mirrors_audit.
    + binding_updated.
      destruct Ha as [_ Ha]. rewrite Ha in * by (by intros E; rewrite E in Ht). split; [by apply alike_refl|]. eapply mirrors_audit; [|done].
      apply mirrors_binding; [done| |exact (mir_values _ _ Hm run _ Hs)]. split; [apply alike_refl|done].
Qed.

Lemma bound_version_yields (down : CredError → Prop) x d b (Q : boundRecord → database → Prop) E :
  down ErrStorage → down ErrResolution → mirrors d b → canonical (bdCredentialID x) → version_stored b x →
  (∀ v, boundVersion x b = Ok v → Q v d) →
  yields down (postgresBoundVersion o x) d Q E.
Proof.
  intros Hd Hd' Hm Hid (c & Hc & [r Hr] & Horg) HQ. unfold postgresBoundVersion. apply yields_bind, yields_statement; [done|].
  intros [[doc ty] sc] d' H. apply bind_Some in H as ([[doc' ty'] sc'] & H & [= -> -> -> ->]).
  apply bind_Some in H as (id & ->%Hid & H). apply bind_Some in H as (? & _ & H). apply bind_Some in H as (? & _ & H).
  apply bind_Some in H as (m & Hf & H). apply bind_Some in H as (row & Hv & [= <- <- <-]).
  rewrite (find_credential_mirror _ _ _ _ Hm) in Hf. apply fmap_Some in Hf as (c' & [Hc' _]%owned_by_Some & ->).
  rewrite Hc in Hc'. injection Hc' as <-. pose proof (mir_versions _ _ Hm (bdCredentialID x) (bdCredentialVersion x)) as Hrow.
  unfold record_of in Hrow. rewrite Hc, Hv in Hrow. cbn [mbind option_bind] in Hrow. rewrite Hr in Hrow.
  inversion Hrow as [? ? [Hu _]|]; subst. rewrite Hu. cbn. tx_steps. apply HQ. unfold boundVersion. rewrite Hc. cbn. by rewrite Hr.
Qed.

Definition alike_claim {A} (p m : Binding * time * A) : Prop := alike p.1.1 m.1.1 ∧ p.1.2 = m.1.2 ∧ p.2 = m.2.
Definition undecided (e : CredError) : Prop := e = ErrStorage ∨ e = ErrResolution.

Lemma insert_attempt_Some claim expiry d d' :
  canonical (clAttemptID claim) → canonical (clRunID claim) → kept expiry → insert_attempt claim expiry d = Inserted d' →
  ∃ t, d' = set_db_attempts (<[clAttemptID claim :=
    mkAttemptRow (mkAttempt (clRunID claim) (clExecutorIdentity claim) (clDigest claim) expiry) t]> (dbAttempts d)) d.
Proof.
  intros Ha Hr He H. unfold insert_attempt in H. case_match eqn:E; [|done].
  apply bind_Some in E as (id & ->%Ha & E). apply bind_Some in E as (run & ->%Hr & E).
  apply bind_Some in E as (ex & ->%nonempty_text_Some & E). apply bind_Some in E as (t & _ & E).
  apply bind_Some in E as (x & ->%He & E). destruct (_ || _); [done|]. injection E as <-. cbn in H.
  destruct (dbAttempts d !! _); [done|]. case_match; [|done]. injection H as <-. by exists t.
Qed.
Lemma insert_attempt_fresh claim expiry d :
  canonical (clAttemptID claim) → dbAttempts d !! clAttemptID claim = None → insert_attempt claim expiry d ≠ Duplicate.
Proof.
  intros Ha Hn H. unfold insert_attempt in H. case_match eqn:E; [|done].
  apply bind_Some in E as (id & ->%Ha & E). repeat (apply bind_Some in E as (? & _ & E)).
  destruct (_ || _); [done|]. injection E as <-. cbn in H. rewrite Hn in H. by case_match.
Qed.

Lemma mirrors_attempt id row a d b :
  mirrors d b → atAttempt row = a →
  mirrors (set_db_attempts (<[id := row]> (dbAttempts d)) d) (set_attempts (<[id := a]> (attempts b)) b).
Proof.
  intros [] <-. constructor; try done. intros x. cbn.
  destruct (decide (id = x)) as [<-|Hx]; [by rewrite !lookup_insert_eq|by rewrite !lookup_insert_ne].
Qed.

Lemma version_stored_alike b p m : alike p m → version_stored b m → version_stored b p.
Proof. intros (_ & _ & Ho & Hc & Hv & _)%alike_fields. unfold version_stored. by rewrite Ho, Hc, Hv. Qed.
Lemma boundVersion_alike p m b : alike p m → boundVersion p b = boundVersion m b.
Proof. intros (_ & _ & _ & Hc & Hv & _)%alike_fields. unfold boundVersion. by rewrite Hc, Hv. Qed.

(** The closure handed to the backend does not look at [updated_at]. *)
Definition stampless {A} (validate : Binding → boundRecord → result CredError A) : Prop :=
  ∀ p m v, alike p m → validate p v = validate m v.

Lemma expiry_kept claim s d b :
  mirrors d b → bindings b !! clRunID claim = Some s → kept (Add (clNow claim) (clRetryWindow claim)) →
  kept (if After (Add (clNow claim) (clRetryWindow claim)) (bdExpiresAt (mbBinding s))
        then bdExpiresAt (mbBinding s) else Add (clNow claim) (clRetryWindow claim)).
Proof. intros Hm Hs Hx. case_match; [by apply (mir_values _ _ Hm _ _ Hs)|done]. Qed.

Lemma claim_agrees {A} claim (validate : Binding → boundRecord → result CredError A) d b :
  mirrors d b → binding_inv b → stampless validate → canonical (clRunID claim) → canonical (clAttemptID claim) →
  kept (clNow claim) → kept (Add (clNow claim) (clRetryWindow claim)) →
  agrees undecided (alike_result alike_claim) (PostgresBindings.ClaimResolution o spool ctx A claim validate d) d
    (MemoryBackend.ClaimResolution A claim validate b).
Proof.
  intros Hm Hinv Hval Hr Hat Hn Hx. apply agrees_tx; [by left|]. apply yields_bind.
  eapply select_binding_yields; [by left|done..|]. intros found Hf Hp.
  unfold MemoryBackend.ClaimResolution. destruct (bindings b !! clRunID claim) as [s|] eqn:Hs;
    inversion Hf as [p ? Ha E1 E2|]; subst; apply yields_bind, yields_known_or; [|intros ? [= <-]|by right|done]; [by intros ?%eq_sym|].
  destruct Ha as (Ha & Hk & Hd). pose proof (alike_state _ _ Ha) as Hst.
  pose proof (alike_fields _ _ Ha) as (Hrun & _ & _ & Hcr & Hcv & Hex & Hnb & Hea & Hmax & Hcnt).
  cbv zeta. rewrite Hex, Hst, Hnb, Hea, Hmax, Hcnt. cbn [fst snd].
  leave_here. leave_here. leave_here. destruct (negb (Before _ (bdExpiresAt _))) eqn:Hlate.
  { apply yields_bind. destruct (negb (bool_decide (bdState (mbBinding s) = BindingExhausted))) eqn:Hxh; tx_steps; [|by split].
    binding_updated.
    destruct Ha as [_ Ha]. bool_facts. rewrite Ha in * by done. split; [done|]. eapply mirrors_audit; [|done].
    apply mirrors_binding; [done|by split|exact (mir_values _ _ Hm _ _ Hs)]. }
  leave_here. apply yields_bind. eapply bound_version_yields; [by left|by right|done|..].
  { rewrite Hcr. by apply (mir_values _ _ Hm _ _ Hs). }
  { by apply (version_stored_alike _ _ _ Ha), (bok_version _ _ _ (inv_bindings _ Hinv _ _ Hs)). }
  rewrite (boundVersion_alike _ _ _ Ha). intros v ->. rewrite (Hval _ _ v Ha). apply yields_bind, yields_lift.
  destruct (validate _ v) as [rendered|e] eqn:Hv; [|done]. tx_step; tx_step.
  match goal with H : _ = Some _ |- _ => apply bind_Some in H as (? & ->%Hat & [= <-]) end.
  rewrite <-(mir_attempts _ _ Hm). destruct (dbAttempts d !! clAttemptID claim) as [attempt|] eqn:Hattempt; cbn [fmap option_fmap option_map].
  { destruct (negb (String.eqb (maRunID (atAttempt attempt)) _) || _ || _); cbn [orb leave_if]; [apply yields_bind, yields_leave; done|leave_here].
    tx_steps. split; [done|by eapply mirrors_audit]. }
  destruct (_ || _) eqn:Hfull.
  - apply yields_bind. destruct (bool_decide (bdState (mbBinding s) = BindingExhausted)) eqn:Hxh; bool_facts; cbn [negb]; tx_steps.
    + split; [done|]. refine (mirrors_touch _ p s _ d b Hm _ Hs _ _ _); [done| |done..]. split; [|done].
      rewrite (alike_form _ _ Ha), Hxh. by apply alike_touched.
    + split; [done|]. eapply mirrors_audit; [|done]. binding_updated. destruct Ha as [_ Ha]. rewrite Ha by done.
      apply mirrors_binding; [done|by split|exact (mir_values _ _ Hm _ _ Hs)].
  - bool_prop. destruct Hfull as [Hlt Hxh]. bool_facts. destruct Ha as [_ Ha]. rewrite Ha in * by done.
    pose proof (expiry_kept claim s d b Hm Hs Hx) as Hexpiry. tx_steps.
    { exfalso. by eapply insert_attempt_fresh. }
    match goal with H : insert_attempt _ _ _ = _ |- _ => apply insert_attempt_Some in H as [t ->]; [|done..] end.
    cbn [bdRunID with_state with_count] in *. rewrite (bok_run _ _ _ (inv_bindings _ Hinv _ _ Hs)) in *.
    binding_updated. split; [done|]. eapply mirrors_audit; [|done]. rewrite Ha by done.
    apply mirrors_binding; [by apply mirrors_attempt|by split|exact (mir_values _ _ Hm _ _ Hs)].
Qed.

(** *** Registration *)

Lemma find_by_key_Some org key d row :
  find_by_key org key d = Some row →
  ∃ k, dbBindings d !! k = Some row ∧ bdOrganizationID (mbBinding row) = org ∧ mbIdempotencyKey row = key.
Proof.
  unfold find_by_key. intros ([k x] & [Hin Hk]%List.find_some & ->)%fmap_Some. apply list_elem_of_In, elem_of_map_to_list in Hin.
  unfold same_key in Hk. bool_prop. naive_solver.
Qed.
Lemma find_by_key_None org key d k row :
  find_by_key org key d = None → dbBindings d !! k = Some row →
  ¬ (bdOrganizationID (mbBinding row) = org ∧ mbIdempotencyKey row = key).
Proof.
  unfold find_by_key. intros Hn Hk [Ho He]. destruct (List.find _ _) eqn:Hf; [done|].
  assert (In (k, row) (map_to_list (dbBindings d))) as Hin by (by apply list_elem_of_In, elem_of_map_to_list).
  apply (List.find_none _ _ Hf) in Hin. unfold same_key in Hin. cbn in Hin. by rewrite Ho, He, !String.eqb_refl in Hin.
Qed.

Lemma insert_binding_cases g v d :
  let x := new_binding g v in
  canonical (bdRunID x) → canonical (bdDispatchID x) → canonical (bdCredentialID x) →
  kept (bdNotBefore x) → kept (bdExpiresAt x) → kept (bdCreatedAt x) →
  match insert_binding x (rbIdempotencyKey (brRequest g)) (brDigest g) d with
  | Rejected => True
  | Duplicate => ∃ k row, dbBindings d !! k = Some row ∧
      (k = bdRunID x ∨ bdDispatchID (mbBinding row) = bdDispatchID x ∨
       bdOrganizationID (mbBinding row) = bdOrganizationID x ∧ mbIdempotencyKey row = rbIdempotencyKey (brRequest g))
  | Inserted d' =>
      d' = set_db_bindings (<[bdRunID x := mkMemBinding x (rbIdempotencyKey (brRequest g)) (brDigest g)]> (dbBindings d)) d ∧
      dbBindings d !! bdRunID x = None ∧
      ∀ k row, dbBindings d !! k = Some row → bdDispatchID (mbBinding row) ≠ bdDispatchID x
  end.
Proof.
  intros x Hr Hd Hc Hn He Hcr. unfold insert_binding. destruct (uuid_in (bdRunID x) ≫= _) as [row|] eqn:E; [|done].
  apply bind_Some in E as (run & ->%Hr & E). apply bind_Some in E as (dis & ->%Hd & E).
  apply bind_Some in E as (org & ->%nonempty_text_Some & E). apply bind_Some in E as (cred & ->%Hc & E).
  apply bind_Some in E as (ver & ->%positive_Some & E). apply bind_Some in E as (ex & ->%nonempty_text_Some & E).
  apply bind_Some in E as (nb & ->%Hn & E). apply bind_Some in E as (ea & ->%He & E). apply bind_Some in E as (mx & ->%positive_Some & E).
  apply bind_Some in E as (key & ->%nonempty_text_Some & E). apply bind_Some in E as (cr & ->%Hcr & E).
  destruct (_ || _); [done|]. injection E as <-. cbn [mbBinding mbIdempotencyKey].
  change (mkBinding (bdRunID x) _ _ _ _ _ _ _ _ _ _ _ _ _) with x.
  destruct (_ || _) eqn:Hdup.
  - apply orb_true_iff in Hdup as [[Hdup|Hdup]%orb_true_iff|Hdup].
    + apply bool_decide_eq_true in Hdup as [row Hrow]. exists (bdRunID x), row. auto.
    + apply existsb_exists in Hdup as ([k row] & Hin%list_elem_of_In%elem_of_map_to_list & Hdi%String.eqb_eq). eauto 6.
    + apply bool_decide_eq_true in Hdup as [row (k & Hrow & Ho & Hk)%find_by_key_Some]. eauto 8.
  - destruct (dbVersions d !! _); [|done]. apply orb_false_iff in Hdup as [[Hrun Hdi]%orb_false_iff _]. split; [done|].
    apply bool_decide_eq_false in Hrun. split; [by apply eq_None_not_Some|]. intros k row Hrow Heq.
    apply not_true_iff_false in Hdi. apply Hdi, existsb_exists. exists (k, row).
    split; [by apply list_elem_of_In, elem_of_map_to_list|by apply String.eqb_eq].
Qed.

(** The in-memory backend looks for a conflicting binding first, the database
    for the credential. *)
Definition alike_registration (p m : result CredError Binding) : Prop :=
  alike_result alike p m ∨ p = Err ErrNotFound ∧ m = Err ErrBindingConflict.

Lemma mirrored_binding d b k row :
  mirrors d b → dbBindings d !! k = Some row → ∃ s, bindings b !! k = Some s ∧ alike_row row s.
Proof. intros Hm Hk. pose proof (mir_bindings _ _ Hm k) as H. rewrite Hk in H. inversion H; eauto. Qed.
Lemma mirrored_row d b k s :
  mirrors d b → bindings b !! k = Some s → ∃ row, dbBindings d !! k = Some row ∧ alike_row row s.
Proof. intros Hm Hk. pose proof (mir_bindings _ _ Hm k) as H. rewrite Hk in H. inversion H; eauto. Qed.

(** The row with the request's key decides the loop of the in-memory backend. *)
Lemma found_by_key g d b row x :
  mirrors d b → binding_inv b → digest_names g b →
  find_by_key (rbOrganizationID (brRequest g)) (rbIdempotencyKey (brRequest g)) d = Some row →
  found g (λ s, ∃ k, bindings b !! k = Some s) x →
  alike_result alike (if negb (String.eqb (mbDigest row) (brDigest g)) then Err ErrBindingConflict else Ok (mbBinding row))
    (default (Err ErrNotFound) x) ∧ x ≠ None.
Proof.
  intros Hm Hinv Hdn (k & Hk & Ho & He)%find_by_key_Some Hx. destruct (mirrored_binding _ _ _ _ Hm Hk) as (s & Hs & Ha & Hkey & Hdig).
  assert (key_match g s) as Hks by (split; [by rewrite <-Ho, (proj1 (proj2 (proj2 (alike_fields _ _ Ha))))|by rewrite <-Hkey]).
  assert (∀ k' s', bindings b !! k' = Some s' → key_match g s' → s' = s) as Huniq.
  { intros k' s' Hs' [H1 H2]. destruct Hks as [H3 H4]. assert (k' = k) as ->; [|congruence].
    eapply (inv_key b Hinv); [exact Hs'|exact Hs|congruence..]. }
  rewrite Hdig. destruct Hx as [Hn|s' [k' Hs'] Hk' Hd'|s' [k' Hs'] Hk' Hd'|s' [k' Hs'] Hk' Hm'].
  - by destruct (Hn s (ex_intro _ k Hs)) as [[] _].
  - rewrite (Huniq _ _ Hs' Hk') in *. by rewrite Hd', String.eqb_refl.
  - rewrite (Huniq _ _ Hs' Hk') in *. by rewrite (proj2 (String.eqb_neq _ _) Hd').
  - destruct (String.eqb_spec (mbDigest s) (brDigest g)) as [Heq|]; [|done].
    destruct (Hdn _ _ Hs Heq) as [H1 H2]. rewrite (id_match_unique g b k s k' s') in Hk' by done. done.
Qed.

(** The version of a credential that may be bound. *)
Definition bindable (b : memoryBackend) (org id : string) : option Z :=
  c ← owned_by (credentials b) org id; if bool_decide (mState (stMetadata c) = StateActive) then Some (mVersion (stMetadata c)) else None.

Lemma bindable_mirror org id d b :
  mirrors d b → map_Forall entry_current (credentials b) →
  (row ← find_credential org id d;
   if bool_decide (mState row = StateActive) && bool_decide (is_Some (dbVersions d !! (id, mVersion row))) then Some (mVersion row) else None) =
  bindable b org id.
Proof.
  intros Hm Hcur. rewrite (find_credential_mirror _ _ _ _ Hm). unfold bindable. destruct (owned_by _ org id) as [c|] eqn:Hc; [|done].
  apply owned_by_Some in Hc as [Hc _]. cbn. destruct (Hcur _ _ Hc) as [_ [r Hr]].
  pose proof (mir_versions _ _ Hm id (mVersion (stMetadata c))) as Hv. unfold record_of in Hv. rewrite Hc in Hv. cbn in Hv. rewrite Hr in Hv.
  inversion Hv as [row ? _ E|]; subst. by rewrite (bool_decide_eq_true_2 (is_Some _)), andb_true_r.
Qed.

Lemma register_unrelated g b :
  find_binding g (iterate (bindings b)) = None →
  MemoryBackend.RegisterBinding g b =
    match bindable b (rbOrganizationID (brRequest g)) (rbCredentialID (brRequest g)) with
    | None => (Err ErrNotFound, b)
    | Some v => (Ok (new_binding g v),
        set_bindings (<[rbRunID (brRequest g) := mkMemBinding (new_binding g v) (rbIdempotencyKey (brRequest g)) (brDigest g)]> (bindings b)) b)
    end.
Proof.
  intros Hf. unfold MemoryBackend.RegisterBinding, bindable, owned_by. rewrite Hf. destruct (credentials b !! _) as [c|]; [|done].
  destruct (String.eqb _ _); [|done]. cbn [negb orb mbind option_bind]. by destruct (bool_decide _).
Qed.

(** A registration whose values the server keeps. *)
Record keepable (g : bindingRegistration) : Prop := {
  keep_run : canonical (rbRunID (brRequest g));
  keep_dispatch : canonical (rbDispatchID (brRequest g));
  keep_credential : canonical (rbCredentialID (brRequest g));
  keep_from : kept (rbNotBefore (brRequest g));
  keep_until : kept (rbExpiresAt (brRequest g));
  keep_now : kept (brNow g)
}.

Lemma inserted_unrelated g v d d' b :
  mirrors d b → binding_inv b → keepable g →
  insert_binding (new_binding g v) (rbIdempotencyKey (brRequest g)) (brDigest g) d = Inserted d' →
  d' = set_db_bindings (<[rbRunID (brRequest g) := mkMemBinding (new_binding g v) (rbIdempotencyKey (brRequest g)) (brDigest g)]>
         (dbBindings d)) d ∧
  ∀ k s, bindings b !! k = Some s → ¬ id_match g s.
Proof.
  intros Hm Hinv [] Hins. pose proof (insert_binding_cases g v d) as H. cbv zeta in H. rewrite Hins in H.
  destruct H as (-> & Hrun & Hdis); [done..|]. split; [done|]. intros k s Hs Hid.
  destruct (mirrored_row _ _ _ _ Hm Hs) as (row & Hrow & Ha & _). destruct Hid as [Hid|Hid].
  - rewrite (bok_run _ _ _ (inv_bindings _ Hinv _ _ Hs)) in Hid. subst k. cbn in Hrun. congruence.
  - apply (Hdis _ _ Hrow). by rewrite (proj1 (proj2 (alike_fields _ _ Ha))).
Qed.

Lemma duplicate_related g v d b :
  mirrors d b → binding_inv b → keepable g →
  insert_binding (new_binding g v) (rbIdempotencyKey (brRequest g)) (brDigest g) d = Duplicate →
  ∃ k s, bindings b !! k = Some s ∧ (key_match g s ∨ id_match g s).
Proof.
  intros Hm Hinv [] Hins. pose proof (insert_binding_cases g v d) as H. cbv zeta in H. rewrite Hins in H.
  destruct H as (k & row & Hrow & Hdup); [done..|]. destruct (mirrored_binding _ _ _ _ Hm Hrow) as (s & Hs & Ha & Hkk & _).
  pose proof (alike_fields _ _ Ha) as (_ & Hdd & Hoo & _). exists k, s. split; [done|]. destruct Hdup as [Hdup|[Hdup|[Hdup1 Hdup2]]].
  - right. left. by rewrite (bok_run _ _ _ (inv_bindings _ Hinv _ _ Hs)).
  - right. right. by rewrite <-Hdd.
  - left. split; [by rewrite <-Hoo|by rewrite <-Hkk].
Qed.

Lemma register_agrees g d b :
  mirrors d b → binding_inv b → digest_names g b → keepable g →
  agrees unavailable alike_registration (PostgresBindings.RegisterBinding o spool ctx g d) d (MemoryBackend.RegisterBinding g b).
Proof.
  intros Hm Hinv Hdn Hg. apply agrees_tx; [done|]. tx_step; tx_step. tx_step; tx_step.
  match goal with H : _ = Some _ |- _ => apply bind_Some in H as (? & _ & [= <-]) end.
  pose proof (find_binding_iterate g b) as Hx. destruct (find_by_key _ _ d) as [row|] eqn:Hkey.
  - destruct (found_by_key _ _ _ _ _ Hm Hinv Hdn Hkey Hx) as [Hans Hsome]. unfold MemoryBackend.RegisterBinding.
    destruct (find_binding _ _) as [r|]; [|done]. cbn [fst snd default] in *.
    apply yields_bind. destruct (negb _); cbn [leave_if]; tx_steps; (split; [by left|]); [done|by eapply mirrors_audit].
  - assert (∀ k s, bindings b !! k = Some s → ¬ key_match g s) as Hnone.
    { intros k s Hs [Ho Hk]. destruct (mirrored_row _ _ _ _ Hm Hs) as (row & Hrow & Ha & Hkk & _).
      apply (find_by_key_None _ _ _ _ _ Hkey Hrow). split; [|by rewrite Hkk]. by rewrite (proj1 (proj2 (proj2 (alike_fields _ _ Ha)))). }
    tx_step; tx_step. match goal with H : _ = Some _ |- _ =>
      apply bind_Some in H as (id & ->%(keep_credential _ Hg) & H); apply bind_Some in H as (? & _ & [= <-]) end.
    rewrite (bindable_mirror _ _ _ _ Hm (inv_current _ Hinv)). destruct (find_binding g _) as [r|] eqn:Hf.
    + assert (r = Err ErrBindingConflict ∧ ∃ k s, bindings b !! k = Some s ∧ id_match g s) as [-> (k & s & Hs & Hid)].
      { inversion Hx as [|s [k Hs] Hks|s [k Hs] Hks|s [k Hs] _ Hid]; subst; [by destruct (Hnone k s)..|eauto]. }
      unfold MemoryBackend.RegisterBinding. rewrite Hf. cbn [fst snd]. tx_steps; [by right; split; [right|]|by split; [left|]|].
      exfalso. match goal with H : _ = Inserted _ |- _ => apply (inserted_unrelated _ _ _ _ _ Hm Hinv Hg) in H as [_ Hun] end. by apply (Hun k s).
    + rewrite (register_unrelated _ _ Hf). cbn [fst snd].
      tx_steps; match goal with H : bindable _ _ _ = _ |- _ => rewrite H end.
      * right. split; [by left|done].
      * exfalso. match goal with H : _ = Duplicate |- _ => apply (duplicate_related _ _ _ _ Hm Hinv Hg) in H as (k & s & Hs & Hid) end.
        inversion Hx as [Hno| | |]. destruct (Hno s (ex_intro _ k Hs)). tauto.
      * match goal with H : _ = Inserted _ |- _ => apply (inserted_unrelated _ _ _ _ _ Hm Hinv Hg) in H as [-> _] end.
        split; [left; by apply alike_refl|]. eapply mirrors_audit; [|done]. destruct Hg.
        apply mirrors_binding; [done|by split; [apply alike_refl|]|by split].
Qed.

(** *** Rotations *)

Lemma count_under_size key d :
  count_under key d = Z.of_nat (size (dom (filter (λ x : string * Z * version_row, vrMasterKeyID x.2 = key) (dbVersions d)))).
Proof.
  rewrite size_dom. unfold count_under, version_keys. generalize (dbVersions d). intros m.
  induction m as [|p row m Hp IH] using map_ind; [done|].
  assert (∀ l, count_by (String.eqb key) ((λ x : string * Z * version_row, vrMasterKeyID x.2) <$> (p, row) :: l) =
    (if String.eqb key (vrMasterKeyID row) then 1 else 0) + count_by (String.eqb key) ((λ x, vrMasterKeyID x.2) <$> l)) as Hcons by done.
  unfold count_by at 1. rewrite (map_to_list_insert _ _ _ Hp). specialize (Hcons (map_to_list m)). unfold count_by at 1 in Hcons.
  rewrite Hcons, IH. destruct (String.eqb_spec key (vrMasterKeyID row)).
  - rewrite map_filter_insert_True by done. rewrite map_size_insert_None by (by apply map_lookup_filter_None; left). lia.
  - rewrite map_filter_insert_False by (cbn; congruence). by rewrite delete_id.
Qed.

Lemma count_mirror key d b : mirrors d b → count_under key d = count_key key b.
Proof.
  intros Hm. rewrite count_under_size, count_key_places. do 2 f_equal. apply set_eq. intros [id v].
  rewrite elem_of_places, elem_of_dom. pose proof (mir_versions _ _ Hm id v) as Hv. unfold record_of in Hv. split.
  - intros [row [Hrow Hk]%map_lookup_filter_Some]. rewrite Hrow in Hv. inversion Hv as [? r [_ Hr] E1 E2|]; subst.
    symmetry in E2. apply bind_Some in E2 as (c & Hc & Hr'). exists c, r. done.
  - intros (c & r & Hc & Hr & Hk). cbn in Hc, Hr. rewrite Hc in Hv. cbn in Hv. rewrite Hr in Hv. inversion Hv as [row ? [_ Hx] E1|]; subst.
    exists row. apply map_lookup_filter_Some. split; [done|]. cbn. congruence.
Qed.

Lemma select_rotation_yields (down : CredError → Prop) id d b (Q : option Rotation → database → Prop) E :
  down ErrStorage → mirrors d b → canonical id → Q (rotations b !! id) d → yields down (select_rotation o id) d Q E.
Proof.
  intros Hd Hm Hid HQ. apply yields_query; [done|]. intros p H. apply bind_Some in H as (id' & ->%Hid & [= <-]).
  by rewrite (mir_rotations _ _ Hm).
Qed.

Lemma get_rotation_agrees id d b :
  mirrors d b → canonical id →
  PostgresRotation.GetRotation o id d = Err ErrStorage ∨ PostgresRotation.GetRotation o id d = MemoryBackend.GetRotation id b.
Proof.
  intros Hm Hid. unfold PostgresRotation.GetRotation, one_query, select_rotation, query, Postgres.statement.
  destruct (wNet o 0); [|by left]. destruct (uuid_in id) as [id'|] eqn:Hi; [|by left]. apply Hid in Hi as ->. right.
  cbn. rewrite (mir_rotations _ _ Hm). done.
Qed.

(** A rotation as the manager makes it. *)
Record new_rotation (r : Rotation) (b : memoryBackend) : Prop := {
  nr_id : canonical (roID r);
  nr_created : kept (roCreatedAt r);
  nr_updated : roUpdatedAt r = roCreatedAt r;
  nr_finalized : roFinalizedAt r = zero_time;
  nr_state : active_rotation r = true;
  nr_total : roTotalRecords r = 0;
  nr_processed : roProcessedRecords r = 0;
  nr_fresh : rotations b !! roID r = None
}.

Lemma active_mirror d b : mirrors d b → existsb (λ x, active_rotation x.2) (iterate (rotations b)) = negb (bool_decide (active_rows d = [])).
Proof.
  intros Hm. apply eq_true_iff_eq. rewrite existsb_exists, negb_true_iff, bool_decide_eq_false. unfold active_rows. split.
  - intros ([id r] & Hin%list_elem_of_In%elem_of_iterate & Ha). rewrite <-(mir_rotations _ _ Hm) in Hin.
    assert (r ∈ filter (λ r, active_rotation r = true) (map_to_list (dbRotations d)).*2) as Hel; [|by intros E; rewrite E in Hel; apply elem_of_nil in Hel].
    apply list_elem_of_filter. split; [done|]. apply list_elem_of_fmap. exists (id, r). split; [done|by apply elem_of_map_to_list].
  - intros Hne. destruct (filter _ _) as [|r l] eqn:Hf; [done|].
    assert (r ∈ filter (λ r, active_rotation r = true) (map_to_list (dbRotations d)).*2) as Hel by (rewrite Hf; apply list_elem_of_here).
    apply list_elem_of_filter in Hel as [Ha Hel]. apply list_elem_of_fmap in Hel as ([id r'] & -> & Hin%elem_of_map_to_list).
    exists (id, r'). split; [apply list_elem_of_In, elem_of_iterate; by rewrite <-(mir_rotations _ _ Hm)|done].
Qed.

Lemma mirrors_rotation id r d b :
  mirrors d b → mirrors (set_db_rotations (<[id := r]> (dbRotations d)) d) (set_rotations (<[id := r]> (rotations b)) b).
Proof.
  intros []. constructor; try done. intros x. cbn.
  destruct (decide (id = x)) as [<-|Hx]; [by rewrite !lookup_insert_eq|by rewrite !lookup_insert_ne].
Qed.

Lemma insert_rotation_cases r d :
  canonical (roID r) → kept (roCreatedAt r) → roUpdatedAt r = roCreatedAt r → roFinalizedAt r = zero_time →
  roProcessedRecords r = 0 → 0 ≤ roTotalRecords r → active_rotation r = true →
  match insert_rotation r d with
  | Rejected => True
  | Duplicate => is_Some (dbRotations d !! roID r) ∨ active_rows d ≠ []
  | Inserted d' => active_rows d = [] ∧ roTotalRecords r < 2 ^ 63 ∧ d' = set_db_rotations (<[roID r := r]> (dbRotations d)) d
  end.
Proof.
  intros Hid Hc Hu Hf Hp Ht Ha. unfold insert_rotation. destruct (uuid_in (roID r) ≫= _) as [row|] eqn:E; [|done].
  apply bind_Some in E as (id & ->%Hid & E). apply bind_Some in E as (src & ->%nonempty_text_Some & E).
  apply bind_Some in E as (tgt & ->%nonempty_text_Some & E). apply bind_Some in E as (cr & ->%Hc & E).
  apply bind_Some in E as (total & Hb & E). pose proof (mirrors_bigint _ _ Hb) as ->. unfold bigint in Hb.
  destruct (roTotalRecords r <? 2 ^ 63) eqn:Hlt; [|done]. apply Z.ltb_lt in Hlt. destruct (_ || _); [done|].
  assert (row = r) as -> by (destruct r; cbn in *; congruence). rewrite Ha. cbn [andb].
  destruct (_ || _) eqn:Hdup.
  - apply orb_true_iff in Hdup as [Hdup|Hdup]; [left; by apply bool_decide_eq_true in Hdup|right]. by apply negb_true_iff, bool_decide_eq_false in Hdup.
  - apply orb_false_iff in Hdup as [_ Hdup]. apply negb_false_iff, bool_decide_eq_true in Hdup. done.
Qed.

Lemma start_rotation_agrees r d b :
  mirrors d b → new_rotation r b →
  agrees unavailable eq (PostgresRotation.StartRotation o spool ctx r d) d (MemoryBackend.StartRotation r b).
Proof.
  intros Hm [Hid Hc Hu Hf Ha Ht Hp Hn]. apply agrees_tx; [done|]. unfold select_count. tx_step; tx_step.
  match goal with H : _ = Some _ |- _ => apply bind_Some in H as (? & _ & [= <-]) end. rewrite (count_mirror _ _ _ Hm). cbv zeta.
  unfold MemoryBackend.StartRotation. rewrite (active_mirror _ _ Hm), Ht, Z.add_0_l.
  set (n := count_key (roSourceKeyID r) b). set (st := with_total (if n =? 0 then RotationReady else roState r) n r).
  assert (active_rotation st = true) as Hst by (unfold active_rotation, st in *; cbn [roState with_total]; by case_match).
  assert (0 ≤ n) as Hpos by (unfold n; rewrite count_key_places; lia).
  pose proof (insert_rotation_cases st d Hid Hc Hu Hf Hp Hpos Hst) as Hcase. tx_steps.
  - rewrite H in Hcase. destruct Hcase as [[x' Hx]|Hcase].
    + rewrite (mir_rotations _ _ Hm) in Hx. cbn in Hx. congruence.
    + by rewrite (bool_decide_eq_false_2 _ Hcase).
  - match goal with H : insert_rotation _ _ = _ |- _ => rewrite H in Hcase end. destruct Hcase as (-> & Hlt & ->). cbn [roTotalRecords with_total st] in Hlt.
    rewrite i64_small, bool_decide_eq_true_2 by (done || lia). split; [done|]. eapply mirrors_audit; [|done]. by apply (mirrors_rotation (roID r) st).
Qed.

Lemma update_version_Some id v document key row n d d' :
  canonical id → dbVersions d !! (id, v) = Some row → update_version id v None document key d = Some (n, d') →
  ∃ row', jsonb document = Some (vrEnvelope row') ∧ vrMasterKeyID row' = key ∧
    d' = set_db_versions (<[(id, v) := row']> (dbVersions d)) d.
Proof.
  intros Hid Hrow H. unfold update_version in H. apply bind_Some in H as (id' & ->%Hid & H). apply bind_Some in H as (? & _ & H).
  apply bind_Some in H as (e & He & H). apply bind_Some in H as (? & _ & H). rewrite Hrow in H. case_match; [done|].
  injection H as <- <-. by exists (mkVersionRow e key (vrCreatedAt row)).
Qed.
Lemma insert_backup_Some x d d' :
  kept (buCreatedAt x) → kept (buRetainUntil x) → buExpiredAt x = zero_time → insert_backup x d = Some d' →
  ∃ row, backs (buID x) row x ∧ d' = set_db_backups (<[buID x := row]> (dbBackups d)) d.
Proof.
  intros Hc Hr Hz H. unfold insert_backup in H. apply bind_Some in H as (id & ->%nonempty_text_Some & H).
  apply bind_Some in H as (keys & Hk & H). apply bind_Some in H as ([cr re] & [->%Hc ->%Hr]%instants_Some & H). case_match; [done|].
  injection H as <-. eexists. split; [|done]. split; [|done]. unfold scan_backup. cbn.
  assert (keys = buKeyIDs x) as -> by (unfold text_array in Hk; repeat case_match; congruence). destruct x; cbn in *; congruence.
Qed.
Lemma mirrors_backup id row x d b :
  mirrors d b → backs id row x →
  mirrors (set_db_backups (<[id := row]> (dbBackups d)) d) (set_backups (<[id := x]> (backups b)) b).
Proof.
  intros [] Hb. constructor; try done. intros i. cbn.
  destruct (decide (id = i)) as [<-|Hx]; [rewrite !lookup_insert_eq; by constructor|by rewrite !lookup_insert_ne].
Qed.

Lemma rotate_credential_agrees q f now d b :
  mirrors d b → canonical (coCredentialID q) →
  (∀ c r0 r, credentials b !! coCredentialID q = Some c → f (mkRotationRecord (stMetadata c) (coVersion q) r0) = Ok r → storable_record r) →
  agrees unavailable eq (PostgresRotation.RotateCredential o spool ctx q f now d) d (MemoryBackend.RotateCredential q f now b).
Proof.
  intros Hm Hid Hf. apply agrees_tx; [done|]. tx_step; tx_step.
  match goal with H : _ = Some _ |- _ => apply bind_Some in H as (id & ->%Hid & H); apply bind_Some in H as (? & _ & H); apply bind_Some in H as (? & _ & [= <-]) end.
  rewrite (find_credential_mirror _ _ _ _ Hm). unfold MemoryBackend.RotateCredential, owned_by.
  destruct (credentials b !! _) as [c|] eqn:Hc; [|by apply yields_bind, yields_known_or; [right|]]. destruct (String.eqb _ _); cbn [negb]; [|by apply yields_bind, yields_known_or; [right|]].
  cbn [fmap option_fmap option_map mbind option_bind].
  pose proof (mir_versions _ _ Hm (coCredentialID q) (coVersion q)) as Hv. unfold record_of in Hv. rewrite Hc in Hv. cbn [mbind option_bind] in Hv.
  destruct (stRecords c !! coVersion q) as [r|] eqn:Hr; inversion Hv as [row ? [Hu Hk] E|E]; subst; rewrite <-?E; [|by apply yields_bind, yields_known_or; [right|]].
  apply yields_bind, yields_known_or; [done|]. intros ? [= <-]. unfold scan_item. cbn [joRow joMetadata joVersion]. rewrite Hu.
  apply yields_bind, yields_known_or; [done|]. intros ? [= <-]. apply yields_bind, yields_lift. destruct (f _) as [r'|e] eqn:Hfr; [|done].
  apply yields_bind, yields_statement; [done|]. intros n d' Hup. apply (update_version_Some _ _ _ _ row) in Hup as (row' & He & Hk' & ->); [|done..].
  tx_steps. split; [done|]. eapply mirrors_audit; [|done]. apply (mirrors_rewrite _ c); [done..|]. split; [|done]. apply jsonb_envelope; eauto.
Qed.

(** *** Backups *)

Lemma register_backup_agrees x now d b :
  mirrors d b → kept (buCreatedAt x) → kept (buRetainUntil x) → buExpiredAt x = zero_time →
  agrees unavailable eq (PostgresRotation.RegisterBackup o spool ctx x now d) d (MemoryBackend.RegisterBackup x now b).
Proof.
  intros Hm Hc Hr Hx. apply agrees_tx; [done|]. tx_step; tx_step.
  match goal with H : _ = Some _ |- _ => apply bind_Some in H as (? & _ & [= <-]) end.
  unfold MemoryBackend.RegisterBackup. pose proof (mir_backups _ _ Hm (buID x)) as Hb.
  destruct Hb as [row y [<- Hy]|].
  - change (buArtifactSHA256 (scan_backup _ row)) with (bwArtifactSHA256 row).
    apply yields_bind. destruct (negb _); cbn [leave_if]; tx_steps; done.
  - tx_steps. match goal with H : insert_backup _ _ = _ |- _ => apply insert_backup_Some in H as (row & Hrow & -> ); [|done..] end.
    split; [done|]. eapply mirrors_audit; [|done]. by apply mirrors_backup.
Qed.

Lemma expired_backs id now row x :
  backs id row x → now ≠ zero_time →
  backs id (mkBackupRow (bwArtifactSHA256 row) (bwKeyIDs row) (bwCreatedAt row) (bwRetainUntil row) (Some (default now (bwExpiredAt row))))
    (if IsZero (buExpiredAt x) then expired_at now x else x).
Proof.
  intros [<- Hne] Hz. destruct row as [a k c r [t|]]; cbn in *.
  - assert (IsZero t = false) as -> by (apply Z.eqb_neq; intros ->; by apply Hne). done.
  - split; [done|]. intros [= E]. by apply Hz.
Qed.

Lemma expire_backup_agrees id now d b :
  mirrors d b → kept now → now ≠ zero_time →
  agrees unavailable eq (PostgresRotation.ExpireBackup o spool ctx id now d) d (MemoryBackend.ExpireBackup id now b).
Proof.
  intros Hm Hn Hz. apply agrees_tx; [done|]. apply yields_bind, yields_statement; [done|]. intros found d' H.
  unfold expire_row in H. apply bind_Some in H as (? & _ & H). apply bind_Some in H as (now' & ->%Hn & H).
  unfold MemoryBackend.ExpireBackup. pose proof (mir_backups _ _ Hm id) as Hb. inversion Hb as [row y [Hy Hy'] E1 E2|E1 E2]; rewrite <-E1 in H.
  - cbv zeta in H. case_match; [done|]. injection H as <- <-. apply yields_bind, yields_known_or; [done|]. intros ? [= <-].
    pose proof (expired_backs id now row y (conj Hy Hy') Hz) as Hb'. rewrite (proj1 Hb'). tx_steps.
    split; [done|]. eapply mirrors_audit; [|done]. by apply mirrors_backup.
  - injection H as <- <-. apply yields_bind, yields_known_or; [by right|done].
Qed.
End Agreement.
