(* ===== verification/Parity.v ===== *)
(** * One service over two stores

    The manager over the PostgreSQL backend against the manager over the
    in-memory one: whatever the connection does, a call gives the in-memory
    answer and leaves the mirrored tables, or reports unavailable storage.  So
    every reachable database mirrors a reachable in-memory store, and the
    ledger of run bindings holds of its rows. *)

From Stdlib Require Import Ascii.
From S2P Require Import Prelude GoStrings Json GoTime TimeParse JsonValue Crypto Envelope MasterKey AuditEvent Spool Wire Credential Builtin Backend MemoryBackend Manager Vault Bindings Rotations Storage Postgres PostgresBindings PostgresRotation Audited Mirror.

(** What the server documents of its types: a lower-case hyphenated uuid is
    its own text form, and a [timestamptz] resolves microseconds. *)
Class PgLaws `{PgTypes} : Prop := {
  uuid_kept s : validUUID s = true → canonical s;
  micro_kept t : t `mod` 1000 = 0 → kept t
}.

(** ** Calls of the manager *)

Section Calls.
Context `{CR : Crypto} `{UT : UnicodeTables} `{SR : SchemaRegistry} `{MO : MapOrder}.

Inductive call : Type → Type :=
  | CallCredential (c : command) (entropy : reader) (now : time) : call Metadata
  | CallRegister (caller : WorkloadIdentity) (request : RegisterBindingRequest) (now : time) : call Binding
  | CallInspect (caller : WorkloadIdentity) (runID : string) : call Binding
  | CallCancel (caller : WorkloadIdentity) (request : CancelBindingRequest) (now : time) : call Binding
  | CallResolve (caller : WorkloadIdentity) (request : ResolveRequest) (now : time) : call ResolvedCredential
  | CallStart (ids : reader) (now : time) : call Rotation
  | CallGetRotation (id : string) : call Rotation
  | CallRotateCredential (request : CredentialRotationRequest) (entropy : rotationRecord → reader) (now : time) : call unit
  | CallRegisterBackup (x : BackupSet) (now : time) : call BackupSet
  | CallExpireBackup (id : string) (now : time) : call BackupSet.

Definition perform {St A} (BE : Backend St) (m : Manager) (c : call A) : St → result CredError A * St :=
  match c in call A return St → result CredError A * St with
  | CallCredential c entropy now => manager_exec m c entropy now
  | CallRegister caller request now => Manager.RegisterBinding m caller request now
  | CallInspect caller runID => λ s, (InspectBinding caller runID s, s)
  | CallCancel caller request now => Manager.CancelBinding caller request now
  | CallResolve caller request now => Resolve m caller request now
  | CallStart ids now => StartMasterKeyRotation m ids now
  | CallGetRotation id => λ s, (GetMasterKeyRotation id s, s)
  | CallRotateCredential request entropy now => RotateCredentialKey m request entropy now
  | CallRegisterBackup x now => Manager.RegisterBackup x now
  | CallExpireBackup id now => Manager.ExpireBackup id now
  end.
End Calls.

(** ** Sealed records fit the columns *)

Section Storable.
Context `{CR : Crypto}.

Lemma EncodeToString_utf8 s : valid_utf8 (EncodeToString s) = true.
Proof. apply valid_utf8_ascii, lower_hex_ascii, EncodeToString_lower. Qed.

Definition storable_context (c : EnvContext) : Prop :=
  valid_utf8 (ctxCredentialID c) = true ∧ valid_utf8 (ctxOrganizationID c) = true ∧
  0 ≤ ctxSchemaVersion c < 2 ^ 32 ∧ 0 ≤ ctxCredentialVersion c < 2 ^ 64.

Lemma Encrypt_storable plaintext c master source r :
  valid_utf8 (mkID master) = true → storable_context c → Encrypt plaintext c master source = Ok r → storable_record r.
Proof.
  intros Hk (Hid & Ho & Hs & Hv) H. unfold Encrypt in H. apply guard_bind in H as [_ H].
  apply bind_Ok in H as ([recordID s1] & _ & H). apply bind_Ok in H as ([dataKey s2] & _ & H). cbv zeta in H.
  apply bind_Ok in H as ([] & _ & H). apply bind_Ok in H as ([nonce s3] & _ & H). apply bind_Ok in H as ([] & _ & H).
  apply bind_Ok in H as ([wrap s4] & _ & [= <-]). split; [|by split; [|split]].
  repeat apply Forall_cons_2; try done. cbn. apply EncodeToString_utf8.
Qed.

Lemma metadata_context m : storable_metadata m → storable_context (envelopeContext m).
Proof.
  intros (Ht & Hs & Hv & _). unfold metadata_texts in Ht. cbn [app] in Ht. apply Forall_cons in Ht as [H1 Ht]. apply Forall_cons in Ht as [H2 _].
  exact (conj H1 (conj H2 (conj Hs Hv))).
Qed.

Lemma encrypt_storable m entropy md inputs r :
  valid_utf8 (mkID (Current (keys m))) = true → storable_metadata md → encrypt m entropy md inputs = Ok r → storable_record r.
Proof.
  intros Hk Hm H. unfold encrypt in H. apply guard_bind in H as [_ H].
  apply map_err_Ok in H. eapply Encrypt_storable; [done|by apply metadata_context|exact H].
Qed.
End Storable.

(** ** Two runs of one call *)

Section Lifting.
Context `{PT : PgTypes}.

(** Checks and reads before the store is written: the database reports an
    error of its own or agrees. *)
Lemma on_store_agrees {A B} same (rp rm : result CredError A) (kp : A → database → result CredError B * database)
    (km : A → memoryBackend → result CredError B * memoryBackend) d b :
  mirrors d b → (∀ e, same (Err e) (Err e)) → rp = Err ErrStorage ∨ rp = rm →
  (∀ a, rm = Ok a → agrees unavailable same (kp a d) d (km a b)) →
  agrees unavailable same (on_store rp kp d) d (on_store rm km b).
Proof.
  intros Hm Hsame [->| ->] Hk; [by apply agrees_down|]. destruct rm as [a|e]; cbn [on_store]; [by apply Hk|]. right. by split; [apply Hsame|].
Qed.

Lemma agrees_weaken {A} (down down' : CredError → Prop) (same same' : result CredError A → result CredError A → Prop) x d y :
  (∀ e, down e → down' e) → (∀ r r', same r r' → same' r r') → agrees down same x d y → agrees down' same' x d y.
Proof. intros Hd Hs [(e & He & H)|[H1 H2]]; [left; exists e; auto|right; auto]. Qed.

Lemma read_agrees {A} (rp rm : result CredError A) (same : result CredError A → result CredError A → Prop) d b :
  mirrors d b → rp = Err ErrStorage ∨ same rp rm → agrees unavailable same (rp, d) d (rm, b).
Proof. intros Hm [->|H]; [by apply agrees_down|by right]. Qed.
End Lifting.

(** ** Calls whose values the database keeps *)

Section Parity.
Context `{CR : Crypto} `{UT : UnicodeTables} `{SR : SchemaRegistry} `{MO : MapOrder} `{JB : Jsonb} {JD : JsonbDocuments}
  `{PT : PgTypes} {PL : PgLaws} (o : world) (spool : option Spool) (ctx : option Request.t) (m : Manager).
Implicit Types (d : database) (b : memoryBackend).

(** A clock of whole microseconds, in the years of RFC 3339. *)
Definition ticks (now : time) : Prop := now `mod` 1000 = 0 ∧ printable_time now.
Definition utf8 (s : string) : Prop := valid_utf8 s = true.
(** The names of secret fields a schema returns are text. *)
Definition text_fields (type : string) (version : Z) (inputs : gmap string string) : Prop :=
  ∀ fields, validateSchema type version inputs = Ok fields → Forall utf8 fields.

(** What the transport and the client's identifiers guarantee of a call; and a
    registration does not have the digest of a binding of another run or
    dispatch (by [digest_names_or] the encodings of two requests would collide). *)
Definition regular {A} (c : call A) (b : memoryBackend) : Prop :=
  match c with
  | CallCredential c _ now => ticks now ∧
      match c with
      | CmdCreate q ids =>
          nul_free (crOrganizationID q) = true ∧ utf8 (crOrganizationID q) ∧ utf8 (crName q) ∧ utf8 (crCredentialType q) ∧
          0 ≤ crSchemaVersion q < 2 ^ 32 ∧ text_fields (crCredentialType q) (crSchemaVersion q) (crInputs q) ∧
          fresh_id (CmdCreate q ids) b
      | CmdGet org id => canonical id
      | CmdReplace q => canonical (riCredentialID q) ∧
          ∀ c, credentials b !! riCredentialID q = Some c →
            text_fields (mCredentialType (stMetadata c)) (mSchemaVersion (stMetadata c)) (riInputs q)
      | CmdUpdate q => canonical (umCredentialID q) ∧ utf8 (umName q)
      | CmdRetire q => canonical (rtCredentialID q)
      end
  | CallRegister _ q now => ticks now ∧ rbNotBefore q `mod` 1000 = 0 ∧ rbExpiresAt q `mod` 1000 = 0 ∧ unambiguous q b
  | CallInspect _ _ => True
  | CallCancel _ _ now => ticks now
  | CallResolve _ _ now => ticks now
  | CallStart ids now => ticks now ∧ ∀ id rest, newUUID ids = Some (id, rest) → rotations b !! id = None
  | CallGetRotation id => canonical id
  | CallRotateCredential q _ now => canonical (coCredentialID q) ∧ 0 ≤ coVersion q < 2 ^ 64
  | CallRegisterBackup x _ => buCreatedAt x `mod` 1000 = 0 ∧ buRetainUntil x `mod` 1000 = 0 ∧ buExpiredAt x = zero_time
  | CallExpireBackup _ now => ticks now ∧ now ≠ zero_time
  end.

Record regular_manager : Prop := {
  rm_key : utf8 (mkID (Current (keys m)));
  rm_window : AttemptRetryWindow (policy m) `mod` 1000 = 0;
  rm_limit : MaxResolutions (policy m) < 2 ^ 32
}.

Definition same_answer {A} (c : call A) : result CredError A → result CredError A → Prop :=
  match c in call A return result CredError A → result CredError A → Prop with
  | CallRegister _ _ _ => alike_registration
  | CallInspect _ _ | CallCancel _ _ _ => alike_result alike
  | _ => eq
  end.

(** What a call may answer without having looked: a resolution that cannot
    read the bound version is refused like one that must not be answered. *)
Definition silent_on {A} (c : call A) (e : CredError) : Prop :=
  match c with CallResolve _ _ _ => undecided e | _ => unavailable e end.

Abbreviation pg := (postgres_backend o spool ctx).

Lemma splits org key :
  nul_free org = true → org ≠ "" → key ≠ "" → splitIdempotencyID (org +:+ String (zb 0) key) = Some (org, key).
Proof.
  intros Hn Ho Hk. unfold splitIdempotencyID.
  assert (split_at_nul (org +:+ String (zb 0) key) = Some (org, key)) as ->.
  { clear Ho. induction org as [|a org IH]; [done|]. cbn [nul_free forall_bytes] in Hn. apply andb_true_iff in Hn as [Ha Hn].
    change (String a org +:+ ?k) with (String a (org +:+ k)). cbn [split_at_nul]. apply negb_true_iff in Ha. by rewrite Ha, IH. }
  cbn [mbind option_bind]. by rewrite (proj2 (String.eqb_neq _ _) Ho), (proj2 (String.eqb_neq _ _) Hk).
Qed.

Lemma ticks_kept now : ticks now → kept now.
Proof. intros [H _]. by apply micro_kept. Qed.

Lemma create_parity q ids entropy now d b :
  regular_manager → mirrors d b → regular (CallCredential (CmdCreate q ids) entropy now) b →
  agrees unavailable eq (perform pg m (CallCredential (CmdCreate q ids) entropy now) d) d
    (perform memory_backend m (CallCredential (CmdCreate q ids) entropy now) b).
Proof.
  intros [Hkey _ _] Hm (Hnow & Hnul & Ho & Hn & Ht & Hs & Hf & Hfresh). cbn [perform manager_exec].
  apply on_store_agrees; [done..|by right|]. intros [[[key digest] md] r] H.
  apply bind_Ok in H as ([] & Hv & H). apply bind_Ok in H as (fields & Hfields & H). cbv zeta in H.
  apply of_option_bind in H as ([id rest] & Hid & H). apply bind_Ok in H as (rec & Henc & [= <- <- <- <-]).
  apply newUUID_spec in Hid as Huuid. destruct Huuid as [Huuid _].
  assert (storable_metadata (mkMetadata id (crOrganizationID q) (crName q) (crCredentialType q) (crSchemaVersion q) 1 StateActive fields now now)) as Hst.
  { split; [|by repeat split; try apply Hnow; try apply Hs]. repeat apply Forall_cons_2; try done; [by apply validUUID_utf8|by apply Hf]. }
  unfold validateCreate in Hv. apply guard_err_Ok in Hv. repeat apply orb_false_elim in Hv as [Hv ?]. bool_facts.
  eapply create_agrees; [done|by apply splits|done|by eapply encrypt_storable|by apply uuid_kept|by apply ticks_kept..].
Qed.

Lemma get_parity org id entropy now d b :
  mirrors d b → binding_inv b → canonical id →
  agrees unavailable eq (perform pg m (CallCredential (CmdGet org id) entropy now) d) d
    (perform memory_backend m (CallCredential (CmdGet org id) entropy now) b).
Proof.
  intros Hm Hinv Hid. cbn [perform manager_exec]. apply read_agrees; [done|]. unfold GetContext. cbn [be_Get postgres_backend memory_backend].
  destruct (get_agrees o org id d b Hm (inv_current _ Hinv) Hid) as [-> | ->]; [by left|by right].
Qed.

(** *** Changes of a credential *)

Lemma bind_either {A B} (r : result CredError A) (f g : A → result CredError B) :
  (∀ a, f a = Err ErrStorage ∨ f a = g a) → (r ≫= f) = Err ErrStorage ∨ (r ≫= f) = (r ≫= g).
Proof. intros H. destruct r as [a|e]; [apply H|by right]. Qed.
Lemma get_either {B} org id d b (f : Metadata * EnvRecord → result CredError B) :
  mirrors d b → binding_inv b → canonical id →
  (be_Get (Backend:=pg) org id d ≫= f) = Err ErrStorage ∨
  (be_Get (Backend:=pg) org id d ≫= f) = (be_Get (Backend:=memory_backend) org id b ≫= f).
Proof.
  intros Hm Hinv Hid. cbn [be_Get postgres_backend memory_backend].
  destruct (get_agrees o org id d b Hm (inv_current _ Hinv) Hid) as [-> | ->]; [by left|by right].
Qed.

(** A change keeps what identifies the credential. *)
Lemma change_parity org id v next r op d b c :
  mirrors d b → canonical id → binding_inv b → credentials b !! id = Some c → mOrganizationID (stMetadata c) = org →
  Vault.same_identity (stMetadata c) next → storable_metadata next → storable_record r → kept (mUpdatedAt next) →
  agrees unavailable eq (be_Update (Backend:=pg) org id v next r op d) d (be_Update (Backend:=memory_backend) org id v next r op b).
Proof.
  intros Hm Hid Hinv Hc Ho Hsame Hst Hr Hu. apply update_agrees; [done..|]. intros c' [Hc' _]%owned_by_Some.
  rewrite Hc in Hc'. injection Hc' as <-. destruct (inv_current _ Hinv _ _ Hc) as [Hmid _]. unfold Vault.same_identity in Hsame.
  unfold Mirror.same_identity. naive_solver.
Qed.

Lemma next_storable md next :
  Vault.same_identity md next → storable_metadata md → utf8 (mName next) → Forall utf8 (mSecretFields next) →
  printable_time (mUpdatedAt next) → storable_metadata next.
Proof.
  intros (Hid & Ho & Hs & Ht & Hc & Hv) (Htx & Hsc & _ & Hpc & _) Hn Hf Hu. unfold storable_metadata, metadata_texts in *.
  cbn [app] in *. rewrite Hid, Ho, Hs, Ht, Hc, Hv. apply Forall_cons in Htx as [? Htx]. apply Forall_cons in Htx as [? Htx].
  apply Forall_cons in Htx as [? Htx]. apply Forall_cons in Htx as [? Htx]. split; [by repeat apply Forall_cons_2|].
  split; [done|]. split; [apply u64_range|done].
Qed.
Lemma stored_texts md : storable_metadata md → utf8 (mName md) ∧ Forall utf8 (mSecretFields md).
Proof.
  intros (Htx & _). unfold metadata_texts in Htx. cbn [app] in Htx. apply Forall_cons in Htx as [_ Htx]. apply Forall_cons in Htx as [_ Htx].
  apply Forall_cons in Htx as [? Htx]. by apply Forall_cons in Htx as [_ Htx].
Qed.

Lemma replace_parity q entropy now d b :
  regular_manager → mirrors d b → binding_inv b → regular (CallCredential (CmdReplace q) entropy now) b →
  agrees unavailable eq (perform pg m (CallCredential (CmdReplace q) entropy now) d) d
    (perform memory_backend m (CallCredential (CmdReplace q) entropy now) b).
Proof.
  intros [Hkey _ _] Hm Hinv (Hnow & Hid & Hf). cbn [perform manager_exec]. apply on_store_agrees; [done..| |].
  { apply bind_either. intros _. by apply get_either. }
  intros [next r] H. apply guard_bind in H as [_ H]. apply bind_Ok in H as ([current old] & (c & Hc & <- & Ho)%Get_Ok & H).
  apply guard_bind in H as [_ H]. apply guard_bind in H as [_ H]. apply bind_Ok in H as (fields & Hfields & H). cbv zeta in H.
  apply bind_Ok in H as (rec & Henc & [= <- <-]).
  assert (storable_metadata (with_inputs fields now (stMetadata c))) as Hst.
  { apply (next_storable (stMetadata c)); [by repeat split|by apply (mir_stored _ _ Hm _ _ Hc)|..]; [exact (proj1 (stored_texts _ (mir_stored _ _ Hm _ _ Hc)))|by eapply Hf|apply Hnow]. }
  apply (change_parity _ _ _ _ _ _ _ _ c); [done..|by repeat split|exact Hst|by eapply encrypt_storable|by apply ticks_kept].
Qed.

Lemma update_parity q entropy now d b :
  regular_manager → mirrors d b → binding_inv b → regular (CallCredential (CmdUpdate q) entropy now) b →
  agrees unavailable eq (perform pg m (CallCredential (CmdUpdate q) entropy now) d) d
    (perform memory_backend m (CallCredential (CmdUpdate q) entropy now) b).
Proof.
  intros [Hkey _ _] Hm Hinv (Hnow & Hid & Hn). cbn [perform manager_exec]. apply on_store_agrees; [done..| |].
  { apply bind_either. intros _. by apply get_either. }
  intros x H. apply guard_bind in H as [_ H]. apply bind_Ok in H as ([current old] & (c & Hc & <- & Ho)%Get_Ok & H).
  apply guard_bind in H as [_ H]. apply guard_bind in H as [_ H]. destruct (String.eqb _ _).
  { injection H as <-. right. by split. }
  apply bind_Ok in H as (inputs & _ & H). cbv zeta in H. apply bind_Ok in H as (rec & Henc & [= <-]).
  assert (storable_metadata (with_name (umName q) now (stMetadata c))) as Hst.
  { apply (next_storable (stMetadata c)); [by repeat split|by apply (mir_stored _ _ Hm _ _ Hc)|..]; [done|exact (proj2 (stored_texts _ (mir_stored _ _ Hm _ _ Hc)))|apply Hnow]. }
  apply (change_parity _ _ _ _ _ _ _ _ c); [done..|by repeat split|exact Hst|by eapply encrypt_storable|by apply ticks_kept].
Qed.

Lemma retire_parity q entropy now d b :
  regular_manager → mirrors d b → binding_inv b → regular (CallCredential (CmdRetire q) entropy now) b →
  agrees unavailable eq (perform pg m (CallCredential (CmdRetire q) entropy now) d) d
    (perform memory_backend m (CallCredential (CmdRetire q) entropy now) b).
Proof.
  intros [Hkey _ _] Hm Hinv (Hnow & Hid). cbn [perform manager_exec]. apply on_store_agrees; [done..| |].
  { apply bind_either. intros _. by apply get_either. }
  intros x H. apply guard_bind in H as [_ H]. apply bind_Ok in H as ([current old] & (c & Hc & <- & Ho)%Get_Ok & H).
  destruct (bool_decide _). { injection H as <-. right. by split. }
  apply guard_bind in H as [_ H]. apply guard_bind in H as [_ H].
  apply bind_Ok in H as (inputs & _ & H). cbv zeta in H. apply bind_Ok in H as (rec & Henc & [= <-]).
  assert (storable_metadata (retired now (stMetadata c))) as Hst.
  { pose proof (stored_texts _ (mir_stored _ _ Hm _ _ Hc)) as [? ?]. by apply (next_storable (stMetadata c)); [repeat split|by apply (mir_stored _ _ Hm _ _ Hc)|..|apply Hnow]. }
  apply (change_parity _ _ _ _ _ _ _ _ c); [done..|by repeat split|exact Hst|by eapply encrypt_storable|by apply ticks_kept].
Qed.

(** *** Bindings *)

Lemma alike_registration_refl e : alike_registration (Err e) (Err e).
Proof. by left. Qed.

Lemma register_parity caller q now d b :
  regular_manager → mirrors d b → binding_inv b → regular (CallRegister caller q now) b →
  agrees unavailable alike_registration (perform pg m (CallRegister caller q now) d) d
    (perform memory_backend m (CallRegister caller q now) b).
Proof.
  intros [_ _ Hlim] Hm Hinv (Hnow & Hnb & Hea & Hun). cbn [perform]. unfold Manager.RegisterBinding.
  destruct (isScheduler caller); cbn [negb guard_err mbind result_bind on_store]; [|by right; split; [apply alike_registration_refl|]].
  destruct (validBindingRequest q now (policy m)) eqn:Hv; cbn [negb guard_err mbind result_bind on_store];
    [|by right; split; [apply alike_registration_refl|]].
  destruct (bindingDigest q) as [dig|] eqn:Hd; cbn [of_option mbind result_bind on_store]; [|by right; split; [apply alike_registration_refl|]].
  pose proof (validBindingRequest_ok q now (policy m) dig Hv Hd Hlim) as Hg.
  apply register_agrees; [done|done|by apply unambiguous_names|].
  unfold validBindingRequest in Hv. repeat apply andb_true_iff in Hv as [Hv ?].
  constructor; cbn [brRequest brNow]; [by apply uuid_kept..|by apply micro_kept|by apply micro_kept|by apply ticks_kept].
Qed.

Lemma inspect_parity caller run d b :
  mirrors d b → 
  agrees unavailable (alike_result alike) (perform pg m (CallInspect caller run) d) d (perform memory_backend m (CallInspect caller run) b).
Proof.
  intros Hm. cbn [perform]. apply read_agrees; [done|]. unfold InspectBinding.
  destruct (isScheduler caller); cbn [negb guard_err mbind result_bind]; [|by right].
  destruct (validUUID run) eqn:Hv; cbn [negb guard_err mbind result_bind]; [|by right].
  apply get_binding_agrees; [done|by apply uuid_kept].
Qed.

Lemma cancel_parity caller q now d b :
  mirrors d b → regular (CallCancel caller q now) b →
  agrees unavailable (alike_result alike) (perform pg m (CallCancel caller q now) d) d (perform memory_backend m (CallCancel caller q now) b).
Proof.
  intros Hm Hnow. cbn [perform]. apply on_store_agrees; [done|done|by right|]. intros [] H.
  apply guard_bind in H as [_ H]. apply guard_err_Ok in H. apply orb_false_elim in H as [H _]. apply orb_false_elim in H as [H _]. bool_facts.
  apply cancel_agrees; [done|by apply uuid_kept|by apply ticks_kept].
Qed.

Lemma render_stampless inj : stampless (render_bound m inj).
Proof. intros p x v (_ & _ & Ho & Hc & Hv & _)%alike_fields. unfold render_bound. by rewrite Ho, Hc, Hv. Qed.

Lemma window_ticks now : AttemptRetryWindow (policy m) `mod` 1000 = 0 → ticks now → Add now (AttemptRetryWindow (policy m)) `mod` 1000 = 0.
Proof. intros Hw [Hn _]. unfold Add. rewrite Z.add_mod, Hn, Hw by done. done. Qed.

Lemma resolve_parity caller q now d b :
  regular_manager → mirrors d b → binding_inv b → regular (CallResolve caller q now) b →
  agrees undecided eq (perform pg m (CallResolve caller q now) d) d (perform memory_backend m (CallResolve caller q now) b).
Proof.
  intros [_ Hw _] Hm Hinv Hnow. cbn [perform]. unfold Resolve.
  destruct (_ || _); [by right|]. destruct (injector m) as [inj|]; [|by right]. destruct (_ || IsZero _) eqn:Hv; [by right|].
  apply orb_false_elim in Hv as [Hv _]. apply orb_false_elim in Hv as [Hrun Hat]. bool_facts. cbv zeta.
  set (claim := mkClaim _ _ _ _ _ _).
  pose proof (claim_agrees o spool ctx claim (render_bound m inj) d b Hm Hinv (render_stampless inj)
    (uuid_kept _ Hrun) (uuid_kept _ Hat) (ticks_kept _ Hnow) (micro_kept _ (window_ticks now Hw Hnow))) as H.
  cbn [be_ClaimResolution postgres_backend memory_backend].
  destruct (PostgresBindings.ClaimResolution _ _ _ _ _ _ _) as [rp d'], (MemoryBackend.ClaimResolution _ _ _ _) as [rm b'].
  destruct H as [(e & He & Hr & Hd)|[Hr Hd]]; cbn [fst snd] in *.
  - left. exists e. subst rp. cbn [fst snd]. split; [done|]. split; [by destruct He as [-> | ->]|done].
  - right. cbn [fst snd]. split; [|done]. destruct rp as [[[x t] y]|], rm as [[[x' t'] y']|]; cbn in Hr; try done; [|by subst].
    destruct Hr as (_ & Ht & Hy). cbn in Ht, Hy. by subst.
Qed.

(** *** Rotations and backups *)

Lemma start_parity ids now d b :
  mirrors d b → regular (CallStart ids now) b →
  agrees unavailable eq (perform pg m (CallStart ids now) d) d (perform memory_backend m (CallStart ids now) b).
Proof.
  intros Hm [Hnow Hfresh]. cbn [perform]. apply on_store_agrees; [done|done|by right|]. intros r H.
  apply of_option_bind in H as (previous & _ & H). apply guard_bind in H as [_ H]. apply of_option_bind in H as ([id rest] & Hid & [= <-]).
  apply start_rotation_agrees; [done|]. constructor; try done; [by apply uuid_kept; eapply newUUID_spec|by apply ticks_kept|by eapply Hfresh].
Qed.

Lemma get_rotation_parity id d b :
  mirrors d b → regular (CallGetRotation id) b →
  agrees unavailable eq (perform pg m (CallGetRotation id) d) d (perform memory_backend m (CallGetRotation id) b).
Proof.
  intros Hm Hid. cbn [perform]. apply read_agrees; [done|]. unfold GetMasterKeyRotation. apply bind_either. intros _. by apply get_rotation_agrees.
Qed.

Lemma rotate_credential_parity q entropy now d b :
  regular_manager → mirrors d b → regular (CallRotateCredential q entropy now) b →
  agrees unavailable eq (perform pg m (CallRotateCredential q entropy now) d) d (perform memory_backend m (CallRotateCredential q entropy now) b).
Proof.
  intros [Hkey _ _] Hm [Hid Hv]. cbn [perform]. apply on_store_agrees; [done|done|by right|]. intros [] _.
  apply rotate_credential_agrees; [done..|]. intros c r0 r Hc H. unfold reencrypt_item in H. apply map_err_Ok in H.
  unfold RotateDataKey in H. apply bind_Ok in H as (plain & _ & H). eapply Encrypt_storable; [done| |exact H].
  destruct (metadata_context _ (mir_stored _ _ Hm _ _ Hc)) as (H1 & H2 & H3 & _). exact (conj H1 (conj H2 (conj H3 Hv))).
Qed.

Lemma register_backup_parity x now d b :
  mirrors d b → regular (CallRegisterBackup x now) b →
  agrees unavailable eq (perform pg m (CallRegisterBackup x now) d) d (perform memory_backend m (CallRegisterBackup x now) b).
Proof.
  intros Hm (Hc & Hr & Hx). cbn [perform]. apply on_store_agrees; [done|done|by right|]. intros [] _.
  by apply register_backup_agrees; [|apply micro_kept|apply micro_kept|].
Qed.

Lemma expire_backup_parity id now d b :
  mirrors d b → regular (CallExpireBackup id now) b →
  agrees unavailable eq (perform pg m (CallExpireBackup id now) d) d (perform memory_backend m (CallExpireBackup id now) b).
Proof.
  intros Hm [Hnow Hz]. cbn [perform]. apply on_store_agrees; [done|done|by right|]. intros [] _.
  by apply expire_backup_agrees; [|apply ticks_kept|].
Qed.

Lemma call_agrees {A} (c : call A) d b :
  regular_manager → mirrors d b → binding_inv b → regular c b →
  agrees (silent_on c) (same_answer c) (perform pg m c d) d (perform memory_backend m c b).
Proof.
  intros Hmg Hm Hinv Hreg. destruct c as [[q ids|org id|q|q|q] entropy now|caller q now|caller run|caller q now|caller q now|ids now|id|q f now|x now|id now].
  - by apply create_parity.
  - apply get_parity; [done..|]. apply Hreg.
  - by apply replace_parity.
  - by apply update_parity.
  - by apply retire_parity.
  - by apply register_parity.
  - by apply inspect_parity.
  - by apply cancel_parity.
  - by apply resolve_parity.
  - by apply start_parity.
  - by apply get_rotation_parity.
  - by apply rotate_credential_parity.
  - by apply register_backup_parity.
  - by apply expire_backup_parity.
Qed.

(** On the in-memory store a call is at most one step. *)
Lemma call_steps {A} (c : call A) b :
  regular_manager → regular c b → steps b (perform memory_backend m c b).2.
Proof.
  intros [_ _ Hl] Hreg. destruct c; cbn [perform snd]; try apply rtc_refl; apply rtc_once.
  - apply step_credential. destruct c; try done. apply Hreg.
  - by apply (step_register MO m).
  - apply (step_cancel MO).
  - apply (step_resolve MO m).
  - apply (step_start MO m).
  - apply (step_rotate_credential MO m).
  - apply (step_register_backup MO).
  - apply (step_expire_backup MO).
Qed.
End Parity.

Section ParityTheorems.
Context `{CR : Crypto} `{UT : UnicodeTables} `{SR : SchemaRegistry} `{JB : Jsonb} {JD : JsonbDocuments} `{PT : PgTypes} {PL : PgLaws}.

(** C3: the PostgreSQL store answers like the in-memory store or not at all:
    from tables that mirror a reachable store, whatever round trips fail,
    however the commit ends and whether a spool is there, a [call] (on
    credentials, bindings and backups, and the start, lookup and single
    credentials of a rotation) either reports unavailable storage, or for a
    resolution that it failed, having left the tables alone or, when the
    acknowledgement of its commit was lost, the tables of the answered call;
    or gives the in-memory answer and leaves tables that mirror the in-memory
    result.  Answers may differ in the update time of an exhausted binding and
    in whether a conflicting registration of an unknown credential is a
    conflict or not found.  The call is [regular]: identifiers are canonical and
    not yet taken, texts are UTF-8, numbers have their widths, instants are on
    the microsecond, and a registration does not share its SHA-256 digest with a
    binding of another run or dispatch; the manager is [regular_manager]: its key
    identifier is UTF-8, its retry window in microseconds, its limit 32 bits. *)
Theorem postgres_parity (MO : MapOrder) o spool ctx m A (c : call A) d b :
  regular_manager m → mirrors d b → reachable b → regular c b →
  let '(r, d') := perform (postgres_backend o spool ctx) m c d in
  let '(r', b') := perform memory_backend m c b in
  (∃ e, silent_on c e ∧ r = Err e ∧ (d' = d ∨ mirrors d' b')) ∨ same_answer c r r' ∧ mirrors d' b'.
Proof.
  intros Hmg Hm Hr Hreg. pose proof (call_agrees o spool ctx m c d b Hmg Hm (reachable_binding_inv b Hr) Hreg) as H.
  destruct (perform _ m c d) as [r d'], (perform _ m c b) as [r' b']. exact H.
Qed.

(** Any number of calls, each with its own connection, spool, audit context
    and manager. *)
Inductive pg_step (d : database) : database → Prop :=
| pg_call (MO : MapOrder) o spool ctx m A (c : call A) :
    regular_manager m → (∀ b, mirrors d b → regular c b) →
    pg_step d (perform (postgres_backend o spool ctx) m c d).2.

Lemma pg_step_mirrored d d' b :
  pg_step d d' → mirrors d b → reachable b → ∃ b', reachable b' ∧ mirrors d' b'.
Proof.
  intros [MO o spool ctx m A c Hmg Hreg] Hm Hr.
  destruct (call_agrees o spool ctx m c d b) as [(e & _ & _ & [->|Hm'])|[_ Hm']]; [done..|by apply reachable_binding_inv|by apply Hreg| | |].
  - by exists b.
  - eexists. split; [|exact Hm']. unfold reachable, steps in *. etrans; [exact Hr|]. by apply call_steps, Hreg.
  - eexists. split; [|exact Hm']. unfold reachable, steps in *. etrans; [exact Hr|]. by apply call_steps, Hreg.
Qed.

Lemma pg_reachable_mirrored d : rtc pg_step empty_database d → ∃ b, reachable b ∧ mirrors d b.
Proof.
  assert (∀ d1 d2, rtc pg_step d1 d2 → (∃ b, reachable b ∧ mirrors d1 b) → ∃ b, reachable b ∧ mirrors d2 b) as H.
  { induction 1 as [|d1 d2 d3 Hs _ IH]; [done|]. intros (b & Hr & Hm). apply IH. by eapply pg_step_mirrored. }
  intros Hd. apply (H _ _ Hd). exists newMemoryBackend. split; [apply rtc_refl|apply mirrors_empty].
Qed.

Lemma attempts_mirror d b run :
  mirrors d b → size (filter (λ x : string * attempt_row, maRunID (atAttempt x.2) = run) (dbAttempts d)) =
    size (filter (λ x : string * memoryAttempt, maRunID x.2 = run) (attempts b)).
Proof.
  intros Hm. assert (attempts b = atAttempt <$> dbAttempts d) as ->.
  { apply map_eq. intros i. by rewrite lookup_fmap, (mir_attempts _ _ Hm). }
  rewrite map_filter_fmap. by rewrite map_size_fmap.
Qed.

(** C6: the ledger of run bindings in the database: in every database that
    calls of the manager can lead to, over connections that fail in whatever
    way, a row of [run_bindings] counts exactly the rows of its attempts,
    never more than its limit, is exhausted exactly at the limit, and names a
    stored version of a credential of its organization.  The calls
    and their managers are regular, as in [call] and [regular]: identifiers are
    canonical and not yet taken, texts are UTF-8, numbers have their widths,
    instants are on the microsecond, and no registration shares its SHA-256
    digest with a row of another run or dispatch. *)
Theorem postgres_ledger d run row :
  rtc pg_step empty_database d → dbBindings d !! run = Some row →
  bdRunID (mbBinding row) = run ∧
   bdResolutionCount (mbBinding row) =
     Z.of_nat (size (filter (λ x : string * attempt_row, maRunID (atAttempt x.2) = run) (dbAttempts d))) ∧
   bdResolutionCount (mbBinding row) ≤ bdMaxResolutions (mbBinding row) ∧
   (bdState (mbBinding row) = BindingExhausted ↔ bdResolutionCount (mbBinding row) = bdMaxResolutions (mbBinding row)) ∧
   is_Some (dbVersions d !! (bdCredentialID (mbBinding row), bdCredentialVersion (mbBinding row))) ∧
   (mOrganizationID <$> dbCredentials d !! bdCredentialID (mbBinding row)) = Some (bdOrganizationID (mbBinding row)).
Proof.
  intros Hd Hrow. destruct (pg_reachable_mirrored d Hd) as (b & Hr & Hm).
  destruct (mirrored_binding _ _ _ _ Hm Hrow) as (s & Hs & Ha & _). pose proof (alike_state _ _ Ha) as Hst.
  destruct (alike_fields _ _ Ha) as (-> & _ & -> & -> & -> & _ & _ & _ & -> & ->). rewrite Hst, (attempts_mirror _ _ _ Hm).
  destruct (inv_bindings _ (reachable_binding_inv b Hr) _ _ Hs) as [Hrun _ Hcount Hlimit Hex _ (c & Hc & [r Hv] & Ho) _].
  split; [done|]. split; [done|]. split; [done|]. split; [done|]. split.
  - pose proof (mir_versions _ _ Hm (bdCredentialID (mbBinding s)) (bdCredentialVersion (mbBinding s))) as H.
    unfold record_of in H. rewrite Hc in H. cbn in H. rewrite Hv in H. inversion H; eauto.
  - rewrite (mir_credentials _ _ Hm), Hc. cbn. by f_equal.
Qed.
End ParityTheorems.

(** ** Execution *)

Module ParityExample.
Import VaultExample BindingExample AuditedExample.
#[local] Existing Instances toy_crypto toy_crypto_laws canonical_order ascii_tables text_column text_column_laws generous.

#[local] Instance documents : JsonbDocuments.
Proof.
  split.
  - intros r s Hr [= <-]. by apply envelope_stored.
  - intros md s s' Hm Hs [= <-]. by eapply metadata_stored.
Qed.
#[local] Instance laws : PgLaws.
Proof.
  split.
  - intros s Hs s' H. unfold uuid_in in H. cbn in H. rewrite Hs in H. congruence.
  - intros t _ t' [= <-]. done.
Qed.

Definition store (ctx : Request.t) : Backend database := postgres_backend calm (Some AuditedExample.spool) (Some ctx).
Definition created_call : call Metadata := CallCredential create (stream 72 1) 1000.
Definition bound_call : call Binding := CallRegister scheduler registration BindingExample.start.
Definition resolved_call : call ResolvedCredential := CallResolve executor BindingExample.request (BindingExample.start + Second).
Definition d1 : database := (perform (store (AuditedExample.request OperationCredentialCreated)) manager created_call empty_database).2.
Definition d2 : database := (perform (store (AuditedExample.request OperationRunBindingRegistered)) manager bound_call d1).2.
Definition d3 : database := (perform (store (AuditedExample.request OperationCredentialResolved)) manager resolved_call d2).2.

Lemma manager_regular : regular_manager manager.
Proof. split; vm_compute; reflexivity. Qed.
Lemma created_regular b : mirrors empty_database b → regular created_call b.
Proof.
  intros Hm. split; [split; vm_compute; [reflexivity|split; discriminate]|].
  do 4 (split; [vm_compute; reflexivity|]). split; [split; vm_compute; [discriminate|reflexivity]|]. split.
  - intros fields H. vm_compute in H. injection H as <-. repeat constructor.
  - intros uid rest _. pose proof (mir_credentials _ _ Hm uid) as H. cbn in H. rewrite lookup_empty in H. by destruct (credentials b !! uid).
Qed.
Lemma bound_regular b : mirrors d1 b → regular bound_call b.
Proof.
  intros Hm. split; [split; vm_compute; [reflexivity|split; discriminate]|]. split; [vm_compute; reflexivity|]. split; [vm_compute; reflexivity|].
  intros k s Hs. exfalso. destruct (mirrored_row _ _ _ _ Hm Hs) as (row & Hrow & _).
  assert (dbBindings d1 = ∅) as E by (vm_compute; reflexivity). rewrite E in Hrow. exact (lookup_empty_Some _ _ Hrow).
Qed.
Lemma resolved_regular b : regular resolved_call b.
Proof. split; vm_compute; [reflexivity|split; discriminate]. Qed.

Lemma d3_reached : rtc pg_step empty_database d3.
Proof.
  eapply rtc_l. { apply (pg_call empty_database canonical_order calm (Some AuditedExample.spool) (Some (AuditedExample.request OperationCredentialCreated)) manager Metadata created_call); [exact manager_regular|exact created_regular]. }
  eapply rtc_l. { apply (pg_call d1 canonical_order calm (Some AuditedExample.spool) (Some (AuditedExample.request OperationRunBindingRegistered)) manager Binding bound_call); [exact manager_regular|exact bound_regular]. }
  eapply rtc_l. { apply (pg_call d2 canonical_order calm (Some AuditedExample.spool) (Some (AuditedExample.request OperationCredentialResolved)) manager ResolvedCredential resolved_call); [exact manager_regular|intros; apply resolved_regular]. }
  apply rtc_refl.
Qed.

Definition the_row : memoryBinding :=
  match dbBindings d3 !! run_id with Some row => row | None => mkMemBinding the_binding "" "" end.
Lemma the_row_found : dbBindings d3 !! run_id = Some the_row.
Proof. vm_compute. reflexivity. Qed.
Lemma the_row_count : bdResolutionCount (mbBinding the_row) = 1.
Proof. vm_compute. reflexivity. Qed.
Lemma created_ok : is_ok (perform (store (AuditedExample.request OperationCredentialCreated)) manager created_call empty_database).1 = true.
Proof. vm_compute. reflexivity. Qed.
End ParityExample.

Section ParityWitnesses.
Import VaultExample BindingExample AuditedExample ParityExample.
#[local] Existing Instances toy_crypto toy_crypto_laws canonical_order ascii_tables text_column text_column_laws generous documents laws.

Lemma postgres_parity_witness :
  mirrors d1 (perform memory_backend manager created_call newMemoryBackend).2.
Proof.
  pose proof (postgres_parity canonical_order calm (Some AuditedExample.spool) (Some (AuditedExample.request OperationCredentialCreated))
    manager Metadata created_call empty_database newMemoryBackend manager_regular mirrors_empty (rtc_refl _ _)
    (created_regular _ mirrors_empty)) as H.
  rewrite (surjective_pairing (perform _ manager created_call empty_database)) in H.
  rewrite (surjective_pairing (perform memory_backend _ _ _)) in H.
  destruct H as [(e & _ & He & _)|[_ H]]; [|exact H]. pose proof created_ok as Hok. unfold store in Hok. by rewrite He in Hok.
Defined.

Lemma postgres_ledger_witness :
  Z.of_nat (size (filter (λ x : string * attempt_row, maRunID (atAttempt x.2) = run_id) (dbAttempts d3))) = 1.
Proof.
  destruct (postgres_ledger d3 run_id the_row d3_reached the_row_found) as (_ & H & _).
  by rewrite <-H, the_row_count.
Defined.
End ParityWitnesses.
