(* ===== verification/Listener.v ===== *)
(** * The connection limit (limitListener of src/app/runtime.go and src/auditsink/runtime.go)

    Goroutines that accept and close connections share a buffered channel of
    tokens.  Every blocking point of the code is the boundary between two
    steps: the send and the receive on the channel, the accept of the network
    listener, and the [sync.Once] of a connection.  The processes differ in
    one thing: the listener of the audit sink also has a channel that its
    [Close] closes. *)

From S2P Require Import Prelude.

(** ** Totals over maps *)

Section Totals.
Context {A : Type}.
Implicit Types (f : A → Z) (m : gmap nat A).

Definition total f m : Z := sum_by (λ x, f x.2) (map_to_list m).

Lemma total_empty f : total f ∅ = 0.
Proof. unfold total. by rewrite map_to_list_empty. Qed.
Lemma total_insert f m k x : m !! k = None → total f (<[k := x]> m) = f x + total f m.
Proof. intros Hk. unfold total. by rewrite map_to_list_insert. Qed.
Lemma total_delete f m k x : m !! k = Some x → total f (delete k m) = total f m - f x.
Proof.
  intros Hk. unfold total. rewrite <-(insert_delete_id m k x Hk) at 2.
  rewrite map_to_list_insert by apply lookup_delete_eq. rewrite sum_by_cons. simpl. lia.
Qed.
Lemma total_update f m k x y : m !! k = Some x → total f (<[k := y]> m) = total f m - f x + f y.
Proof.
  intros Hk. rewrite <-insert_delete_eq, total_insert by apply lookup_delete_eq. rewrite (total_delete f m k x Hk). lia.
Qed.
Lemma total_nonneg f m : (∀ x, 0 ≤ f x) → 0 ≤ total f m.
Proof. intros Hf. apply sum_by_nonneg. intros [k x]. apply Hf. Qed.
Lemma total_at_least f m k x : (∀ x, 0 ≤ f x) → m !! k = Some x → f x ≤ total f m.
Proof. intros Hf Hk. pose proof (total_nonneg f (delete k m) Hf). rewrite (total_delete f m k x Hk) in *. lia. Qed.
Lemma total_le f g m : (∀ x, f x ≤ g x) → total f m ≤ total g m.
Proof.
  intros Hfg. unfold total. induction (map_to_list m) as [|[k x] l IH]; [done|]. rewrite !sum_by_cons. specialize (Hfg x). simpl. lia.
Qed.
End Totals.

(** ** State *)

Inductive variant : Type := AppListener | SinkListener.
Inductive once : Type := Fresh | Running | Finished.

(** Where a goroutine stands: at the send of a token in [Accept]; in the
    [Accept] of the network listener; at the receive that gives a token back
    after an error; in [Close] of a connection, at its [once]; in the released
    function, at the receive. *)
Inductive doing : Type := Sending | Accepting | Failing | Closing (c : nat) | Releasing (c : nat).
Record connection : Type := mkConnection { cnOpen : bool; cnOnce : once }.

Record limitListener : Type := mkListener {
  tokens : Z;
  lsDone : bool;
  lsOpen : bool;
  goroutines : gmap nat doing;
  connections : gmap nat connection
}.
Definition newLimitListener : limitListener := mkListener 0 false true ∅ ∅.

#[export] Instance variant_eq_dec : EqDecision variant.
Proof. solve_decision. Defined.
#[export] Instance once_eq_dec : EqDecision once.
Proof. solve_decision. Defined.
#[export] Instance doing_eq_dec : EqDecision doing.
Proof. solve_decision. Defined.

(** What can happen: [g] is a goroutine, [c] a connection. *)
Inductive action : Type :=
| CallAccept (g : nat)
| SendToken (g : nat)
| SeeDone (g : nat)
| InnerAccept (g c : nat)
| InnerError (g : nat)
| GiveBack (g : nat)
| CallClose (g c : nat)
| EnterOnce (g : nat)
| Release (g : nat)
| PassOnce (g : nat)
| CloseDone
| CloseInner.

Section Steps.
Context (v : variant) (maximum : Z).
Implicit Types s : limitListener.

Definition at_doing (g : nat) (d : doing) s : limitListener :=
  mkListener (tokens s) (lsDone s) (lsOpen s) (<[g := d]> (goroutines s)) (connections s).
Definition leaves (g : nat) s : limitListener :=
  mkListener (tokens s) (lsDone s) (lsOpen s) (delete g (goroutines s)) (connections s).
Definition with_connection (c : nat) (x : connection) s : limitListener :=
  mkListener (tokens s) (lsDone s) (lsOpen s) (goroutines s) (<[c := x]> (connections s)).
(** A send on the channel of capacity [maximum], and a receive; both block. *)
Definition send s : option limitListener :=
  if tokens s <? maximum then Some (mkListener (tokens s + 1) (lsDone s) (lsOpen s) (goroutines s) (connections s)) else None.
Definition receive_token s : option limitListener :=
  if 0 <? tokens s then Some (mkListener (tokens s - 1) (lsDone s) (lsOpen s) (goroutines s) (connections s)) else None.

(** [Accept]. *)
Definition accept_step (a : action) s : option limitListener :=
  match a with
  | CallAccept g => match goroutines s !! g with None => Some (at_doing g Sending s) | Some _ => None end
  | SendToken g => match goroutines s !! g with Some Sending => at_doing g Accepting <$> send s | _ => None end
  | SeeDone g =>
      match v, goroutines s !! g with
      | SinkListener, Some Sending => if lsDone s then Some (leaves g s) else None
      | _, _ => None
      end
  | InnerAccept g c =>
      match goroutines s !! g, connections s !! c with
      | Some Accepting, None => if lsOpen s then Some (with_connection c (mkConnection true Fresh) (leaves g s)) else None
      | _, _ => None
      end
  | InnerError g => match goroutines s !! g with Some Accepting => Some (at_doing g Failing s) | _ => None end
  | GiveBack g => match goroutines s !! g with Some Failing => leaves g <$> receive_token s | _ => None end
  | _ => None
  end.

(** [limitedConn.Close]: the connection is closed, then [once] runs the release. *)
Definition conn_close_step (a : action) s : option limitListener :=
  match a with
  | CallClose g c =>
      match goroutines s !! g, connections s !! c with
      | None, Some x => Some (at_doing g (Closing c) (with_connection c (mkConnection false (cnOnce x)) s))
      | _, _ => None
      end
  | EnterOnce g =>
      match goroutines s !! g with
      | Some (Closing c) =>
          match connections s !! c with
          | Some (mkConnection o Fresh) => Some (at_doing g (Releasing c) (with_connection c (mkConnection o Running) s))
          | _ => None
          end
      | _ => None
      end
  | Release g =>
      match goroutines s !! g with
      | Some (Releasing c) =>
          match connections s !! c with
          | Some x => (λ s, leaves g (with_connection c (mkConnection (cnOpen x) Finished) s)) <$> receive_token s
          | None => None
          end
      | _ => None
      end
  | PassOnce g =>
      match goroutines s !! g with
      | Some (Closing c) =>
          match connections s !! c with Some (mkConnection _ Finished) => Some (leaves g s) | _ => None end
      | _ => None
      end
  | _ => None
  end.

(** [Close] of the listener: the sink's own one closes [done] first; the
    service's is the one of the network listener. *)
Definition close_step (a : action) s : option limitListener :=
  match a with
  | CloseDone =>
      match v with
      | SinkListener => Some (mkListener (tokens s) true (lsOpen s) (goroutines s) (connections s))
      | AppListener => None
      end
  | CloseInner =>
      if match v with SinkListener => lsDone s | AppListener => true end
      then Some (mkListener (tokens s) (lsDone s) false (goroutines s) (connections s)) else None
  | _ => None
  end.

Definition step (a : action) s : option limitListener :=
  match a with
  | CallAccept _ | SendToken _ | SeeDone _ | InnerAccept _ _ | InnerError _ | GiveBack _ => accept_step a s
  | CallClose _ _ | EnterOnce _ | Release _ | PassOnce _ => conn_close_step a s
  | CloseDone | CloseInner => close_step a s
  end.

Fixpoint run (l : list action) s : option limitListener :=
  match l with [] => Some s | a :: l => s' ← step a s; run l s' end.

Inductive reachable : limitListener → Prop :=
| reachable_new : reachable newLimitListener
| reachable_step s a s' : reachable s → step a s = Some s' → reachable s'.
End Steps.

(** ** The invariant

    A token is in the channel for each goroutine between its send and its
    return, and for each connection whose release has not run. *)

Definition holding (d : doing) : Z := match d with Accepting | Failing => 1 | _ => 0 end.
Definition unreleased (x : connection) : Z := match cnOnce x with Finished => 0 | _ => 1 end.
Definition is_open (x : connection) : Z := if cnOpen x then 1 else 0.

(** Who is in the release of which connection. *)
Record linked (gs : gmap nat doing) (cs : gmap nat connection) : Prop := {
  li_releasing g c : gs !! g = Some (Releasing c) → ∃ o, cs !! c = Some (mkConnection o Running);
  li_unique g g' c : gs !! g = Some (Releasing c) → gs !! g' = Some (Releasing c) → g = g';
  li_running c o : cs !! c = Some (mkConnection o Running) → ∃ g, gs !! g = Some (Releasing c);
  li_closing g c : gs !! g = Some (Closing c) → ∃ t, cs !! c = Some (mkConnection false t);
  li_open c t : cs !! c = Some (mkConnection true t) → t = Fresh
}.
Record accounted (maximum : Z) (s : limitListener) : Prop := {
  acc_tokens : tokens s = total holding (goroutines s) + total unreleased (connections s);
  acc_max : tokens s ≤ maximum;
  acc_linked : linked (goroutines s) (connections s)
}.

Lemma holding_nonneg d : 0 ≤ holding d.
Proof. by destruct d. Qed.
Lemma unreleased_nonneg x : 0 ≤ unreleased x.
Proof. unfold unreleased. by destruct (cnOnce x). Qed.
#[local] Hint Resolve holding_nonneg unreleased_nonneg : core.

Ltac map_cases := repeat match goal with
  | H : <[_ := _]> _ !! _ = Some _ |- _ => apply lookup_insert_Some in H as [[? ?]|[? H]]
  | H : delete _ _ !! _ = Some _ |- _ => apply lookup_delete_Some in H as [? H]
  end; simplify_eq.

(** Where a goroutine stands. *)
Ltac known := match goal with H : goroutines ?s !! ?g = _ |- _ (goroutines ?s !! ?g) => rewrite H end.
(** Token counts of the changed maps. *)
Ltac totals := repeat match goal with
  | |- context [total ?f (<[?k := ?x]> ?m)] =>
      first [rewrite (total_insert f m k x) by (simplify_map_eq; done) | erewrite (total_update f m k _ x) by (simplify_map_eq; done)]
  | |- context [total ?f (delete ?k ?m)] => erewrite (total_delete f m k) by (simplify_map_eq; done)
  end.
Ltac count_tokens := totals; unfold unreleased in *; simpl in *; lia.

Section Invariant.
Context (v : variant) (maximum : Z).

Lemma accounted_new : 0 ≤ maximum → accounted maximum newLimitListener.
Proof. intros Hm. split; simpl; try done. Qed.

Lemma send_Some s s' : send maximum s = Some s' →
  tokens s < maximum ∧ s' = mkListener (tokens s + 1) (lsDone s) (lsOpen s) (goroutines s) (connections s).
Proof. unfold send. intros H. case_match eqn:Hlt; [|done]. apply Z.ltb_lt in Hlt. by simplify_eq. Qed.
Lemma receive_Some s s' : receive_token s = Some s' →
  0 < tokens s ∧ s' = mkListener (tokens s - 1) (lsDone s) (lsOpen s) (goroutines s) (connections s).
Proof. unfold receive_token. intros H. case_match eqn:Hlt; [|done]. apply Z.ltb_lt in Hlt. by simplify_eq. Qed.

Definition neutral (d : option doing) : Prop := match d with Some (Closing _) | Some (Releasing _) => False | _ => True end.

Lemma linked_frame gs gs' cs :
  (∀ g c, gs' !! g = Some (Releasing c) ↔ gs !! g = Some (Releasing c)) →
  (∀ g c, gs' !! g = Some (Closing c) → gs !! g = Some (Closing c)) → linked gs cs → linked gs' cs.
Proof.
  intros Hr Hc [H1 H2 H3 H4 H5]. split; [| | | |done].
  - intros g c Hg%Hr. eauto.
  - intros g g' c Hg%Hr Hg'%Hr. eauto.
  - intros c o Ho. destruct (H3 c o Ho) as [g Hg%Hr]. eauto.
  - intros g c Hg%Hc. eauto.
Qed.
Lemma linked_insert g d gs cs : neutral (gs !! g) → neutral (Some d) → linked gs cs → linked (<[g := d]> gs) cs.
Proof.
  intros Hg Hd. apply linked_frame; intros g' c; destruct (decide (g = g')) as [<-|Hne].
  - rewrite lookup_insert_eq. split; [intros [= ->]; done|]. intros H. by rewrite H in Hg.
  - by rewrite lookup_insert_ne.
  - rewrite lookup_insert_eq. by intros [= ->].
  - by rewrite lookup_insert_ne.
Qed.
Lemma linked_delete g gs cs : neutral (gs !! g) → linked gs cs → linked (delete g gs) cs.
Proof.
  intros Hg. apply linked_frame; intros g' c; destruct (decide (g = g')) as [<-|Hne].
  - rewrite lookup_delete_eq. split; [done|]. intros H. by rewrite H in Hg.
  - by rewrite lookup_delete_ne.
  - by rewrite lookup_delete_eq.
  - by rewrite lookup_delete_ne.
Qed.
Lemma linked_accepted c gs cs : cs !! c = None → linked gs cs → linked gs (<[c := mkConnection true Fresh]> cs).
Proof.
  intros Hc [H1 H2 H3 H4 H5]. split; [|done| | |].
  - intros g c' Hg. destruct (H1 g c' Hg) as [o Ho]. exists o. rewrite lookup_insert_ne; [done|congruence].
  - intros c' o Ho. map_cases. eauto.
  - intros g c' Hg. destruct (H4 g c' Hg) as [t Ht]. exists t. rewrite lookup_insert_ne; [done|congruence].
  - intros c' t Ho. map_cases; eauto.
Qed.

Lemma accept_accounted a s s' : accounted maximum s → accept_step v maximum a s = Some s' → accounted maximum s'.
Proof.
  intros [Ht Hm Hl] H. unfold accept_step in H.
  destruct a; simplify_eq; repeat (case_match; simplify_eq); try discriminate.
  - split; simpl; [count_tokens|done|]. apply linked_insert; [by known|done|done].
  - apply fmap_Some in H as (s1 & [Hlt ->]%send_Some & ->). split; simpl; [count_tokens|lia|].
    apply linked_insert; [by known|done|done].
  - split; simpl; [count_tokens|done|]. apply linked_delete; [by known|done].
  - split; simpl; [count_tokens|done|]. apply linked_accepted; [done|]. apply linked_delete; [by known|done].
  - split; simpl; [count_tokens|done|]. apply linked_insert; [by known|done|done].
  - apply fmap_Some in H as (s1 & [Hlt ->]%receive_Some & ->). split; simpl; [count_tokens|lia|].
    apply linked_delete; [by known|done].
Qed.

(** The [once] of a connection. *)
Lemma linked_call_close g c x gs cs : gs !! g = None → cs !! c = Some x → linked gs cs →
  linked (<[g := Closing c]> gs) (<[c := mkConnection false (cnOnce x)]> cs).
Proof.
  intros Hg Hc [H1 H2 H3 H4 H5]. destruct x as [o0 t0]. split; simpl.
  - intros g' c' Hg'. map_cases. destruct (H1 g' c' Hg') as [o Ho]. destruct (decide (c = c')) as [<-|Hne].
    + rewrite lookup_insert_eq. simplify_eq. eauto.
    + rewrite lookup_insert_ne by done. eauto.
  - intros g1 g2 c' Hg1 Hg2. map_cases. eauto.
  - intros c' o Ho. assert (∃ g, gs !! g = Some (Releasing c')) as [g' Hg'] by (map_cases; eauto).
    exists g'. rewrite lookup_insert_ne; [done|congruence].
  - intros g' c' Hg'. map_cases; [rewrite lookup_insert_eq; eauto|]. destruct (H4 g' c' Hg') as [t Ht].
    destruct (decide (c = c')) as [<-|Hne]; [rewrite lookup_insert_eq; eauto|rewrite lookup_insert_ne by done; eauto].
  - intros c' t Ho. map_cases; eauto.
Qed.
Lemma linked_enter g c o gs cs : gs !! g = Some (Closing c) → cs !! c = Some (mkConnection o Fresh) → linked gs cs →
  linked (<[g := Releasing c]> gs) (<[c := mkConnection o Running]> cs).
Proof.
  intros Hg Hc [H1 H2 H3 H4 H5]. destruct (H4 g c Hg) as [t0 Ht0]. simplify_eq.
  assert (∀ g', gs !! g' = Some (Releasing c) → False) as Hno by (intros g' Hg'; destruct (H1 g' c Hg'); congruence).
  split.
  - intros g' c' Hg'. map_cases; [rewrite lookup_insert_eq; eauto|]. destruct (H1 g' c' Hg') as [o Ho].
    rewrite lookup_insert_ne; [eauto|]. intros <-. eauto.
  - intros g1 g2 c' Hg1 Hg2. map_cases; first [done|exfalso; by eauto|by eauto].
  - intros c' o Ho. map_cases; [exists g; by rewrite lookup_insert_eq|]. destruct (H3 c' o Ho) as [g' Hg'].
    exists g'. rewrite lookup_insert_ne; [done|congruence].
  - intros g' c' Hg'. map_cases. destruct (H4 g' c' Hg') as [t Ht].
    destruct (decide (c = c')) as [<-|Hne]; [rewrite lookup_insert_eq; eauto|rewrite lookup_insert_ne by done; eauto].
  - intros c' t Ho. map_cases; eauto.
Qed.
Lemma linked_release g c o t gs cs : gs !! g = Some (Releasing c) → cs !! c = Some (mkConnection o t) → linked gs cs →
  linked (delete g gs) (<[c := mkConnection o Finished]> cs) ∧ t = Running.
Proof.
  intros Hg Hc [H1 H2 H3 H4 H5]. destruct (H1 g c Hg) as [o0 Ho0]. rewrite Hc in Ho0. injection Ho0 as <- ->. split; [|done].
  destruct o; [by specialize (H5 c Running Hc)|]. split.
  - intros g' c' Hg'. map_cases. destruct (H1 g' c' Hg') as [o Ho]. rewrite lookup_insert_ne; [eauto|]. intros <-.
    by rewrite (H2 g g' c Hg Hg') in *.
  - intros g1 g2 c' Hg1 Hg2. map_cases. eauto.
  - intros c' o Ho. map_cases. destruct (H3 c' o Ho) as [g' Hg']. exists g'. rewrite lookup_delete_ne; [done|congruence].
  - intros g' c' Hg'. map_cases. destruct (H4 g' c' Hg') as [t Ht].
    destruct (decide (c = c')) as [<-|Hne]; [rewrite lookup_insert_eq; eauto|rewrite lookup_insert_ne by done; eauto].
  - intros c' t Ho. map_cases. eauto.
Qed.
Lemma linked_pass g c gs cs o : gs !! g = Some (Closing c) → cs !! c = Some (mkConnection o Finished) → linked gs cs → linked (delete g gs) cs.
Proof.
  intros Hg Hc. apply linked_frame; intros g' c'; destruct (decide (g = g')) as [<-|Hne];
    rewrite ?lookup_delete_eq, ?(lookup_delete_ne _ _ _ Hne); naive_solver.
Qed.

Lemma conn_close_accounted a s s' : accounted maximum s → conn_close_step a s = Some s' → accounted maximum s'.
Proof.
  intros [Ht Hm Hl] H. unfold conn_close_step in H.
  destruct a; simplify_eq; repeat (case_match; simplify_eq); try discriminate.
  - split; simpl; [|done|by eapply linked_call_close]. count_tokens.
  - split; simpl; [count_tokens|done|by eapply linked_enter].
  - destruct c0 as [o t]. apply fmap_Some in H as (s1 & [Hlt ->]%receive_Some & ->).
    destruct (linked_release _ _ _ _ _ _ H0 H1 Hl) as [Hl' ->]. split; simpl; [count_tokens|lia|done].
  - split; simpl; [count_tokens|done|by eapply linked_pass].
Qed.

Lemma close_accounted a s s' : accounted maximum s → close_step v a s = Some s' → accounted maximum s'.
Proof.
  intros [Ht Hm Hl] H. unfold close_step in H. destruct a; simplify_eq; repeat (case_match; simplify_eq); by split.
Qed.
Lemma step_accounted a s s' : accounted maximum s → step v maximum a s = Some s' → accounted maximum s'.
Proof. intros Hs H. destruct a; cbn [step] in H; eauto using accept_accounted, conn_close_accounted, close_accounted. Qed.
Lemma reachable_accounted s : 0 ≤ maximum → reachable v maximum s → accounted maximum s.
Proof. intros Hm. induction 1; eauto using accounted_new, step_accounted. Qed.
Lemma run_reachable l s s' : reachable v maximum s → run v maximum l s = Some s' → reachable v maximum s'.
Proof.
  revert s. induction l as [|a l IH]; intros s Hs H; [by simplify_eq/=|]. cbn [run] in H.
  apply bind_Some in H as (s1 & Ha & H). eauto using reachable_step.
Qed.

(** A receive on the channel does not block when its token is accounted for. *)
Lemma receive_ready s : accounted maximum s →
  (∃ g, goroutines s !! g = Some Failing) ∨ (∃ c x, connections s !! c = Some x ∧ cnOnce x ≠ Finished) → is_Some (receive_token s).
Proof.
  intros [Ht _ _] Hex. unfold receive_token. rewrite (proj2 (Z.ltb_lt _ _)); [done|].
  pose proof (total_nonneg holding (goroutines s) holding_nonneg). pose proof (total_nonneg unreleased (connections s) unreleased_nonneg).
  destruct Hex as [[g Hg]|(c & x & Hc & Hx)].
  - pose proof (total_at_least _ _ _ _ holding_nonneg Hg). simpl in *. lia.
  - pose proof (total_at_least _ _ _ _ unreleased_nonneg Hc). unfold unreleased in *. destruct (cnOnce x); [lia|lia|done].
Qed.
Lemma open_unreleased s c x : accounted maximum s → connections s !! c = Some x → is_open x ≤ unreleased x.
Proof.
  intros [_ _ Hl] Hc. destruct x as [[] t]; [|apply unreleased_nonneg]. by rewrite (li_open _ _ Hl c t Hc).
Qed.
Lemma open_at_most s : accounted maximum s → total is_open (connections s) ≤ total unreleased (connections s).
Proof.
  intros Hs. unfold total. assert (Forall (λ y, is_open y.2 ≤ unreleased y.2) (map_to_list (connections s))) as Hall.
  { apply Forall_forall. intros [c x] Hx%elem_of_map_to_list. by eapply open_unreleased. }
  induction Hall as [|y l Hy _ IH]; [done|]. rewrite !sum_by_cons. lia.
Qed.
End Invariant.

(** C21: the limit holds: in every state that any interleaving of accepting
    and closing goroutines can reach, at most [maximum] accepted connections are
    open, and the channel holds exactly one token for each goroutine that has
    still to return from [Accept] with it and each connection not yet
    released, so that none is lost and none is given back twice.  Giving a
    token back never blocks, and a second [Close] of a connection waits for
    nothing but the first one's release. *)
Theorem limit_respected v maximum s :
  0 ≤ maximum → reachable v maximum s →
  total is_open (connections s) ≤ tokens s ≤ maximum ∧
  tokens s = total holding (goroutines s) + total unreleased (connections s) ∧
  (∀ g, goroutines s !! g = Some Failing → is_Some (step v maximum (GiveBack g) s)) ∧
  (∀ g c, goroutines s !! g = Some (Releasing c) → is_Some (step v maximum (Release g) s)) ∧
  (∀ g c, goroutines s !! g = Some (Closing c) →
    is_Some (step v maximum (EnterOnce g) s) ∨ is_Some (step v maximum (PassOnce g) s) ∨
    ∃ g', goroutines s !! g' = Some (Releasing c)).
Proof.
  intros Hm Hs%reachable_accounted; [|done]. pose proof Hs as [Ht Hmax Hl].
  pose proof (total_nonneg holding (goroutines s) holding_nonneg). pose proof (open_at_most _ _ Hs). split_and!; [lia|done|done|..].
  - intros g Hg. cbn [step accept_step]. rewrite Hg. apply fmap_is_Some, (receive_ready _ _ Hs). eauto.
  - intros g c Hg. destruct (li_releasing _ _ Hl g c Hg) as [o Ho]. cbn [step conn_close_step]. rewrite Hg, Ho.
    apply fmap_is_Some, (receive_ready _ _ Hs). right. eexists c, _. by split.
  - intros g c Hg. destruct (li_closing _ _ Hl g c Hg) as [t Hc]. cbn [step conn_close_step]. rewrite Hg, Hc.
    destruct t; [by left; eexists|right; right; by eapply li_running|by right; left; eexists].
Qed.

Definition full_house : list action :=
  [CallAccept 0; SendToken 0; InnerAccept 0 0; CallAccept 0; CallClose 1 0; CallClose 2 0; EnterOnce 1]%nat.
Lemma limit_respected_witness :
  ∃ s, run SinkListener 1 full_house newLimitListener = Some s ∧ tokens s = 1 ∧ is_Some (step SinkListener 1 (Release 1%nat) s).
Proof.
  eexists. split; [reflexivity|]. split; [reflexivity|].
  refine (proj1 (proj2 (proj2 (proj2 (limit_respected SinkListener 1 _ _ _)))) 1%nat 0%nat _); [lia| |reflexivity].
  apply (run_reachable SinkListener 1 full_house newLimitListener); [constructor|reflexivity].
Defined.

(** ** [Accept] after [Close] *)

(** The goroutine an action belongs to. *)
Definition acts (g : nat) (a : action) : bool :=
  match a with
  | CallAccept g' | SendToken g' | SeeDone g' | InnerAccept g' _ | InnerError g' | GiveBack g' => (g =? g')%nat
  | _ => false
  end.

(** Nobody is closing a connection, and the channel is full. *)
Definition waiting_room (maximum : Z) (s : limitListener) : Prop :=
  tokens s = maximum ∧ (∀ g d, goroutines s !! g = Some d → d = Sending).
Lemma waiting_room_step maximum a s s' :
  waiting_room maximum s → (∀ g c, a ≠ CallClose g c) → step AppListener maximum a s = Some s' →
  waiting_room maximum s' ∧ ∀ g, goroutines s !! g = Some Sending → goroutines s' !! g = Some Sending.
Proof.
  intros [Ht Hg] Ha H. destruct a as [g|g|g|g c|g|g|g c|g|g|g| |]; cbn in H; [..|done|].
  7: by destruct (Ha g c).
  all: try (destruct (goroutines s !! g) as [d|] eqn:Hd; [apply Hg in Hd as ->|]; try done).
  - injection H as <-. split; [split; [done|]|]; simpl.
    + intros g' d Hd'. map_cases; eauto.
    + intros g' Hg'. rewrite lookup_insert_ne; [done|congruence].
  - unfold send in H. rewrite (proj2 (Z.ltb_ge _ _)) in H by lia. discriminate.
  - injection H as <-. split; [by split|done].
Qed.

Lemma waiting_room_run maximum l s s' g :
  waiting_room maximum s → Forall (λ a, ∀ g c, a ≠ CallClose g c) l → run AppListener maximum l s = Some s' →
  goroutines s !! g = Some Sending → goroutines s' !! g = Some Sending.
Proof.
  intros Hs Hl. revert s Hs. induction Hl as [|a l Ha _ IH]; intros s Hs H Hg; [by simplify_eq/=|]. cbn [run] in H.
  apply bind_Some in H as (s1 & Hstep & H). destruct (waiting_room_step _ _ _ _ Hs Ha Hstep) as [Hs1 Hk]. eauto.
Qed.

(** Any number of connections up to the limit can be open with nobody busy. *)
Lemma fill maximum n : Z.of_nat n ≤ maximum →
  ∃ s, reachable AppListener maximum s ∧ tokens s = Z.of_nat n ∧ goroutines s = ∅ ∧ lsOpen s = true ∧
    ∀ c, (n ≤ c)%nat → connections s !! c = None.
Proof.
  induction n as [|n IH]; intros Hn.
  - exists newLimitListener. split_and!; try done. constructor.
  - destruct IH as ([t done open gs cs] & Hs & Ht & Hg & Ho & Hc); [lia|]. simpl in *. subst.
    assert (run AppListener maximum [CallAccept 0; SendToken 0; InnerAccept 0 n]%nat (mkListener (Z.of_nat n) done true ∅ cs) =
      Some (mkListener (Z.of_nat n + 1) done true (delete 0%nat (<[0%nat := Accepting]> (<[0%nat := Sending]> ∅)))
              (<[n := mkConnection true Fresh]> cs))) as Hrun.
    { cbn [run step accept_step goroutines connections]. rewrite lookup_empty. cbn [mbind option_bind at_doing goroutines connections].
      rewrite lookup_insert_eq. unfold send. cbn [tokens at_doing]. rewrite (proj2 (Z.ltb_lt _ _)) by lia.
      cbn [fmap option_fmap option_map mbind option_bind at_doing goroutines connections lsOpen leaves]. rewrite lookup_insert_eq, (Hc n) by lia. done. }
    eexists. split_and!; [eapply (run_reachable _ _ _ _ _ Hs Hrun)| | | |]; simpl.
    + lia.
    + by rewrite insert_insert_eq, delete_insert_id.
    + done.
    + intros c Hle. rewrite lookup_insert_ne by lia. apply Hc. lia.
Qed.

Lemma sink_accept_returns maximum s g d :
  accounted maximum s → lsDone s = true → goroutines s !! g = Some d → d ∈ [Sending; Accepting; Failing] →
  ∃ l s', Forall (λ a, acts g a = true) l ∧ (length l ≤ 2)%nat ∧ run SinkListener maximum l s = Some s' ∧ goroutines s' !! g = None.
Proof.
  intros Hs Hdone Hg Hd.
  assert (∀ s, accounted maximum s → goroutines s !! g = Some Failing →
            ∃ s', step SinkListener maximum (GiveBack g) s = Some s' ∧ goroutines s' !! g = None) as Hback.
  { clear s Hs Hdone Hg Hd. intros s Hs Hg. destruct (receive_ready maximum s Hs) as [s1 H1]; [eauto|].
    cbn [step accept_step]. rewrite Hg, H1. eexists. split; [done|]. apply receive_Some in H1 as [_ ->]. apply lookup_delete_eq. }
  assert (d = Sending ∨ d = Accepting ∨ d = Failing) as [-> | [-> | ->]] by set_solver.
  - exists [SeeDone g]. eexists. split_and!; [repeat constructor; cbn; apply Nat.eqb_refl|simpl; lia| |].
    + cbn. by rewrite Hg, Hdone.
    + apply lookup_delete_eq.
  - assert (step SinkListener maximum (InnerError g) s = Some (at_doing g Failing s)) as H1 by (cbn; by rewrite Hg).
    destruct (Hback (at_doing g Failing s)) as (s' & H2 & Hg'); [by eapply step_accounted|apply lookup_insert_eq|].
    exists [InnerError g; GiveBack g], s'. split_and!; [repeat constructor; cbn; apply Nat.eqb_refl|simpl; lia| |done].
    cbn [run]. rewrite H1. cbn [mbind option_bind]. by rewrite H2.
  - destruct (Hback s Hs Hg) as (s' & H & Hg'). exists [GiveBack g], s'.
    split_and!; [repeat constructor; cbn; apply Nat.eqb_refl|simpl; lia| |done]. cbn [run]. by rewrite H.
Qed.

Lemma app_accept_waits maximum : 0 ≤ maximum →
  ∃ s g, reachable AppListener maximum s ∧ lsOpen s = false ∧
    ∀ l s', Forall (λ a, ∀ g c, a ≠ CallClose g c) l → run AppListener maximum l s = Some s' → goroutines s' !! g = Some Sending.
Proof.
  intros Hm. destruct (fill maximum (Z.to_nat maximum)) as (s & Hs & Ht & Hg & Ho & _); [lia|].
  assert (run AppListener maximum [CallAccept 0; CloseInner]%nat s =
    Some (mkListener (tokens s) (lsDone s) false (<[0%nat := Sending]> (goroutines s)) (connections s))) as Hrun.
  { destruct s as [t done open gs cs]. simpl in *. subst. done. }
  eexists _, 0%nat. split_and!; [by eapply run_reachable|done|]. intros l s' Hl H.
  eapply waiting_room_run; [|done|done|apply lookup_insert_eq]. split; simpl; [lia|]. rewrite Hg. intros g d Hd. by map_cases.
Qed.

(** C26: [Accept] ends when the listener is closed: the audit sink's [Close]
    releases every goroutine that is in [Accept], by at most two steps of its
    own.  The service's does not: once its limit is reached, a goroutine that
    waits for a token stays there after the listener is closed, however the
    others proceed, until a connection is closed. *)
Theorem accept_after_close maximum :
  0 < maximum →
  (∀ s g d, reachable SinkListener maximum s → lsDone s = true → goroutines s !! g = Some d →
    d ∈ [Sending; Accepting; Failing] →
    ∃ l s', Forall (λ a, acts g a = true) l ∧ (length l ≤ 2)%nat ∧ run SinkListener maximum l s = Some s' ∧ goroutines s' !! g = None) ∧
  (∃ s g, reachable AppListener maximum s ∧ lsOpen s = false ∧
    ∀ l s', Forall (λ a, ∀ g c, a ≠ CallClose g c) l → run AppListener maximum l s = Some s' → goroutines s' !! g = Some Sending).
Proof.
  intros Hm. split.
  - intros s g d Hs Hdone Hg Hd. apply (sink_accept_returns maximum s g d); [|done..]. apply (reachable_accounted SinkListener); [lia|done].
  - apply app_accept_waits. lia.
Qed.

Lemma accept_after_close_witness :
  ∃ s g, reachable AppListener 2 s ∧ lsOpen s = false ∧
    ∀ l s', Forall (λ a, ∀ g c, a ≠ CallClose g c) l → run AppListener 2 l s = Some s' → goroutines s' !! g = Some Sending.
Proof. apply (accept_after_close 2). lia. Defined.
