(* ===== verification/Lifecycle.v ===== *)
(** * The life of a process (Runtime.Run of src/app/runtime.go and of
    src/auditsink/runtime.go)

    [Run] starts its servers, and in the service the delivery worker, as
    goroutines that report their end on a buffered channel; it waits for the
    first report or for its context, takes the process out of readiness, shuts
    both servers down, waits for every goroutine, and closes the connection
    pool.  A state says where each goroutine stands; a step is what one of them,
    or the environment, does next. *)

From S2P Require Import Prelude GoStrings JsonValue.

(** ** State *)

Inductive process : Type := ServiceProcess | SinkProcess.
Inductive role : Type := MainServer | HealthServer | AuditWorker.
#[export] Instance role_eq_dec : EqDecision role.
Proof. solve_decision. Defined.

(** What a goroutine ends with: [http.ErrServerClosed], no error, another error. *)
Inductive ended : Type := ServerClosed | NoError | Failed.
#[export] Instance ended_eq_dec : EqDecision ended.
Proof. solve_decision. Defined.

Inductive worker : Type := Working | Reporting (e : ended) | Done.

(** Where [Run] stands: in its [select]; past it with the error it noted, before
    [ready] is cleared; before the run context is canceled; before and in the
    shutdown of a server; in [workers.Wait]; before the pool is closed; after. *)
Inductive phase : Type :=
| Selecting
| Unready (failed : bool)
| Canceling (failed : bool)
| ShuttingMain (failed started : bool)
| ShuttingHealth (failed started : bool)
| Joining (failed : bool)
| Closing (failed : bool)
| Returned (failed : bool).

Record runtime : Type := mkRuntime {
  ready : bool;
  poolOpen : bool;
  ctxDone : bool;
  canceled : bool;
  mainShutdown : bool;
  healthShutdown : bool;
  workers : role → worker;
  errorsChannel : list ended;
  at_ : phase
}.

(** The number of goroutines is the capacity of the channel. *)
Definition capacity (p : process) : nat := match p with ServiceProcess => 3 | SinkProcess => 2 end.
(** After both listeners are open and the goroutines are started. *)
Definition started (p : process) : runtime :=
  mkRuntime true true false false false false
    (λ r, match p, r with SinkProcess, AuditWorker => Done | _, _ => Working end) [] Selecting.

(** [Run], given a context: without both listeners it returns an error, the
    pool closed. *)
Definition begin (p : process) (mainListens healthListens : bool) : runtime :=
  if mainListens && healthListens then started p
  else mkRuntime false false false false false false (λ _, Done) [] (Returned true).

Definition set_phase (x : phase) (s : runtime) : runtime :=
  mkRuntime (ready s) (poolOpen s) (ctxDone s) (canceled s) (mainShutdown s) (healthShutdown s) (workers s) (errorsChannel s) x.
Definition set_worker (r : role) (w : worker) (s : runtime) : runtime :=
  mkRuntime (ready s) (poolOpen s) (ctxDone s) (canceled s) (mainShutdown s) (healthShutdown s)
    (λ r', if decide (r = r') then w else workers s r') (errorsChannel s) (at_ s).
Definition set_channel (l : list ended) (s : runtime) : runtime :=
  mkRuntime (ready s) (poolOpen s) (ctxDone s) (canceled s) (mainShutdown s) (healthShutdown s) (workers s) l (at_ s).

(** [healthHandler]: the status and the body of /livez and /readyz.  [s] is the
    state in which the handler of /readyz loads the flag; [ping] is whether the
    database answers afterwards, within 250 milliseconds, in which the process
    may have taken further steps: an answer that left in time may still arrive
    after the flag was cleared. *)
Definition livez : Z * string := (200, "ok" +:+ newline).
Definition readyz (ping : bool) (s : runtime) : Z * string :=
  if negb (ready s) || negb ping then (503, "not ready" +:+ newline) else (200, "ready" +:+ newline).

(** ** Steps *)

Inductive action : Type :=
| ContextDone
| WorkerEnds (r : role) (e : ended)
| Report (r : role)
| SelectContext
| SelectError
| ClearReady
| CancelRun
| StartShutdown
| EndShutdown (failed : bool)
| Join
| ClosePool.

(** [Serve] always ends with an error, [ErrServerClosed] once it is shut down
    and not before; the delivery worker ends without one only when its context
    is done. *)
Definition may_end (r : role) (e : ended) (s : runtime) : bool :=
  match r, e with
  | MainServer, ServerClosed => mainShutdown s
  | HealthServer, ServerClosed => healthShutdown s
  | AuditWorker, NoError => canceled s || ctxDone s
  | _, Failed => true
  | _, _ => false
  end.

Section Steps.
Context (p : process).

Definition step (a : action) (s : runtime) : option runtime :=
  match a, at_ s with
  | ContextDone, _ =>
      if ctxDone s then None
      else Some (mkRuntime (ready s) (poolOpen s) true (canceled s) (mainShutdown s) (healthShutdown s) (workers s) (errorsChannel s) (at_ s))
  | WorkerEnds r e, _ =>
      match workers s r with
      | Working => if may_end r e s then Some (set_worker r (Reporting e) s) else None
      | _ => None
      end
  | Report r, _ =>
      match workers s r with
      | Reporting e =>
          if (length (errorsChannel s) <? capacity p)%nat
          then Some (set_channel (errorsChannel s ++ [e]) (set_worker r Done s)) else None
      | _ => None
      end
  | SelectContext, Selecting => if ctxDone s then Some (set_phase (Unready false) s) else None
  | SelectError, Selecting =>
      match errorsChannel s with
      | e :: l => Some (set_phase (Unready (bool_decide (e = Failed))) (set_channel l s))
      | [] => None
      end
  | ClearReady, Unready f =>
      Some (mkRuntime false (poolOpen s) (ctxDone s) (canceled s) (mainShutdown s) (healthShutdown s) (workers s) (errorsChannel s) (Canceling f))
  | CancelRun, Canceling f => (* the sink has no run context; nobody looks there *)
      Some (mkRuntime (ready s) (poolOpen s) (ctxDone s) true (mainShutdown s) (healthShutdown s) (workers s) (errorsChannel s) (ShuttingMain f false))
  | StartShutdown, ShuttingMain f false =>
      Some (mkRuntime (ready s) (poolOpen s) (ctxDone s) (canceled s) true (healthShutdown s) (workers s) (errorsChannel s) (ShuttingMain f true))
  | EndShutdown f', ShuttingMain f true => Some (set_phase (ShuttingHealth (f || f') false) s)
  | StartShutdown, ShuttingHealth f false =>
      Some (mkRuntime (ready s) (poolOpen s) (ctxDone s) (canceled s) (mainShutdown s) true (workers s) (errorsChannel s) (ShuttingHealth f true))
  | EndShutdown f', ShuttingHealth f true => Some (set_phase (Joining (f || f')) s)
  | Join, Joining f =>
      match workers s MainServer, workers s HealthServer, workers s AuditWorker with
      | Done, Done, Done => Some (set_phase (Closing f) s)
      | _, _, _ => None
      end
  | ClosePool, Closing f =>
      Some (mkRuntime (ready s) false (ctxDone s) (canceled s) (mainShutdown s) (healthShutdown s) (workers s) (errorsChannel s) (Returned f))
  | _, _ => None
  end.

Fixpoint run (l : list action) (s : runtime) : option runtime :=
  match l with [] => Some s | a :: l => s' ← step a s; run l s' end.
End Steps.

(** ** Invariants *)

Definition pending (w : worker) : nat := match w with Done => 0 | _ => 1 end.
Definition unfinished (s : runtime) : nat :=
  pending (workers s MainServer) + pending (workers s HealthServer) + pending (workers s AuditWorker).
Definition all_done (s : runtime) : Prop := ∀ r, workers s r = Done.
(** How far [Run] is: the shutdowns it has begun. *)
Definition main_begun (x : phase) : bool :=
  match x with Selecting | Unready _ | Canceling _ | ShuttingMain _ false => false | _ => true end.
Definition health_begun (x : phase) : bool :=
  match x with Joining _ | Closing _ | Returned _ | ShuttingHealth _ true => true | _ => false end.
Definition cancel_begun (x : phase) : bool := match x with Selecting | Unready _ | Canceling _ => false | _ => true end.
Definition is_ready (x : phase) : bool := match x with Selecting | Unready _ => true | _ => false end.
Definition joined (x : phase) : bool := match x with Closing _ | Returned _ => true | _ => false end.
Definition noted (x : phase) : option bool :=
  match x with
  | Selecting => None
  | Unready f | Canceling f | ShuttingMain f _ | ShuttingHealth f _ | Joining f | Closing f | Returned f => Some f
  end.

(** After the listeners were opened. *)
Record sane (p : process) (s : runtime) : Prop := {
  sn_room : (length (errorsChannel s) + unfinished s ≤ capacity p)%nat;
  sn_ready : ready s = is_ready (at_ s);
  sn_main : mainShutdown s = main_begun (at_ s);
  sn_health : healthShutdown s = health_begun (at_ s);
  sn_cancel : canceled s = cancel_begun (at_ s);
  sn_pool : poolOpen s = match at_ s with Returned _ => false | _ => true end;
  sn_joined : joined (at_ s) = true → all_done s;
  sn_reports : at_ s = Selecting → ctxDone s = false →
    Forall (λ e, e = Failed) (errorsChannel s) ∧ ∀ r e, workers s r = Reporting e → e = Failed;
  sn_clean : noted (at_ s) = Some false → ctxDone s = true
}.

Lemma sane_started p : sane p (started p).
Proof.
  split; try done; [by destruct p; cbn; lia|]. intros _ _. split; [constructor|]. intros r e. by destruct p, r.
Qed.

Lemma unfinished_set r w s : workers s r = w → (unfinished s = pending w + unfinished (set_worker r Done s))%nat.
Proof. intros <-. unfold unfinished. destruct r; simpl; lia. Qed.
Lemma unfinished_change r w w' s : workers s r = w → pending w = pending w' → unfinished (set_worker r w' s) = unfinished s.
Proof. intros <- H. unfold unfinished. destruct r; simpl; lia. Qed.

Lemma step_sane p a s s' : sane p s → step p a s = Some s' → sane p s'.
Proof.
  intros [Hroom Hready Hmain Hhealth Hcancel Hpool Hjoin Hrep Hclean] H.
  destruct a as [|r e|r| | | | | |f'| |]; cbn [step] in H.
  - case_match eqn:Hc; [done|]. injection H as <-. split; simpl; try done.
  - destruct (workers s r) eqn:Hw; try done. destruct (may_end r e s) eqn:He; [|done]. injection H as <-.
    split; simpl; try done.
    + by rewrite (unfinished_change r Working).
    + intros Hj. by rewrite (Hjoin Hj r) in Hw.
    + intros Hat Hctx. destruct (Hrep Hat Hctx) as [Hl Hr]. split; [done|]. intros r' e'. simpl. case_decide as Hrr; [|apply Hr].
      intros [= <-]. rewrite Hat in *. cbn in *. unfold may_end in He. rewrite Hmain, Hhealth, Hcancel, Hctx in He. by destruct r, e.
  - destruct (workers s r) as [|e|] eqn:Hw; try done. case_match eqn:Hlt; [|done]. injection H as <-. apply Nat.ltb_lt in Hlt.
    pose proof (unfinished_set r (Reporting e) s Hw) as Hu. cbn [pending] in Hu. split; simpl; try done.
    + change (unfinished (set_channel (errorsChannel s ++ [e]) (set_worker r Done s))) with (unfinished (set_worker r Done s)).
      rewrite length_app. simpl. lia.
    + intros Hj. by rewrite (Hjoin Hj r) in Hw.
    + intros Hat Hctx. destruct (Hrep Hat Hctx) as [Hl Hr]. split.
      * apply Forall_app. split; [done|]. constructor; [eauto|constructor].
      * intros r' e'. simpl. case_decide; [done|apply Hr].
  - destruct (at_ s) eqn:Hat; try done. case_match eqn:Hctx; [|done]. injection H as <-. split; simpl; try done.
  - destruct (at_ s) eqn:Hat; try done. destruct (errorsChannel s) as [|e l] eqn:Hl; [done|]. injection H as <-. simpl in *.
    split; simpl; try done; [unfold unfinished in *; simpl in *; lia|]. intros [= Hf%bool_decide_eq_false].
    destruct (ctxDone s) eqn:Hctx; [done|]. destruct (Hrep eq_refl eq_refl) as [Hall _]. by apply Forall_cons in Hall as [? _].
  - destruct (at_ s) eqn:Hat; try done. injection H as <-. by split.
  - destruct (at_ s) eqn:Hat; try done. injection H as <-. by split.
  - destruct (at_ s) as [| | |f []|f []| | |] eqn:Hat; try done; injection H as <-; by split.
  - destruct (at_ s) as [| | |f []|f []| | |] eqn:Hat; try done; injection H as <-; split; simpl; try done;
      intros [= Hf%orb_false_iff]; apply Hclean; simpl; f_equal; tauto.
  - destruct (at_ s) eqn:Hat; try done. destruct (workers s MainServer) eqn:H1, (workers s HealthServer) eqn:H2, (workers s AuditWorker) eqn:H3; try done.
    injection H as <-. split; simpl; try done. intros _ r. by destruct r.
  - destruct (at_ s) eqn:Hat; try done. injection H as <-. split; simpl; try done.
Qed.

Lemma run_sane p l s s' : sane p s → run p l s = Some s' → sane p s'.
Proof.
  revert s. induction l as [|a l IH]; intros s Hs H; [by simplify_eq/=|]. cbn [run] in H.
  apply bind_Some in H as (s1 & Ha & H). eauto using step_sane.
Qed.

(** Without its listeners the process has ended; at most its context ends too. *)
Lemma run_begin p mainListens healthListens l s : run p l (begin p mainListens healthListens) = Some s →
  sane p s ∨ (at_ s = Returned true ∧ all_done s ∧ ready s = false ∧ poolOpen s = false).
Proof.
  unfold begin. intros H; destruct (mainListens && healthListens); [left; eauto using run_sane, sane_started|right].
  set (s0 := mkRuntime _ _ _ _ _ _ _ _ _) in H.
  assert (at_ s0 = Returned true ∧ all_done s0 ∧ ready s0 = false ∧ poolOpen s0 = false) as H0 by done. clearbody s0.
  revert s0 H0 H. induction l as [|a l IH]; intros s0 (Hat & Hall & Hr & Hp) H; [by simplify_eq/=|]. cbn [run] in H.
  apply bind_Some in H as (s1 & Ha & H). refine (IH s1 _ H).
  destruct a as [|r e|r| | | | | |f'| |]; cbn [step] in Ha; rewrite ?Hat, ?Hall in Ha; try done.
  case_match; [done|]. by injection Ha as <-.
Qed.

(** C19: a process stops in order: at every point of every execution the pool
    is closed only when every goroutine has ended, and the health server answers
    that the process is ready only if, when its handler looked at the flag, the
    pool was open and no server was being shut down, and the ping that followed
    was answered; reporting the end of a goroutine never blocks, so that none is left behind;
    and [Run] returns without an error only if it was asked to stop, never
    because a server or the delivery worker failed. *)
Theorem run_in_order p mainListens healthListens l s :
  run p l (begin p mainListens healthListens) = Some s →
  (poolOpen s = false → all_done s ∧ ready s = false) ∧
  (∀ ping, (readyz ping s).1 = 200 → ping = true ∧ poolOpen s = true ∧ mainShutdown s = false ∧ healthShutdown s = false) ∧
  (∀ r e, workers s r = Reporting e → is_Some (step p (Report r) s)) ∧
  (at_ s = Returned false → ctxDone s = true).
Proof.
  intros [[Hroom Hready Hmain Hhealth _ Hpool Hjoin _ Hclean]|(Hat & Hall & Hr & Hp)]%run_begin.
  - split_and!.
    + intros Hp. rewrite Hp in Hpool. destruct (at_ s) eqn:Hat; try done.  split; [by apply Hjoin|by rewrite Hready].
    + intros ping. unfold readyz. destruct (ready s) eqn:Hr, ping; cbn [negb orb fst]; [|done..]. intros _. by destruct (at_ s) eqn:Hat.
    + intros r e Hw. cbn [step]. rewrite Hw. pose proof (unfinished_set r (Reporting e) s Hw) as Hu. cbn [pending] in Hu.
      rewrite (proj2 (Nat.ltb_lt _ _)) by lia. by eexists.
    + intros Hat. apply Hclean. by rewrite Hat.
  - split_and!; [done|intros ping; unfold readyz; by rewrite Hr|intros r e Hw; by rewrite Hall in Hw|by rewrite Hat].
Qed.

(** A service whose context ends while its delivery worker is still at work. *)
Definition orderly_stop : list action :=
  [ContextDone; SelectContext; ClearReady; CancelRun; StartShutdown; WorkerEnds MainServer ServerClosed; Report MainServer;
   EndShutdown false; StartShutdown; WorkerEnds AuditWorker NoError; WorkerEnds HealthServer ServerClosed; Report HealthServer;
   EndShutdown false; Report AuditWorker; Join; ClosePool].
Lemma orderly_stop_ends :
  (λ s, (at_ s, poolOpen s)) <$> run ServiceProcess orderly_stop (begin ServiceProcess true true) = Some (Returned false, false).
Proof. by vm_compute. Qed.
Lemma run_in_order_witness :
  ∃ s, run ServiceProcess orderly_stop (begin ServiceProcess true true) = Some s ∧ at_ s = Returned false ∧ all_done s ∧ ctxDone s = true.
Proof.
  destruct (proj1 (fmap_Some _ _ _) orderly_stop_ends) as (s & Hs & Hat). exists s.
  pose proof (run_in_order ServiceProcess true true orderly_stop s Hs) as (Hpool & _ & _ & Hclean).
  injection Hat as Hat Hp. split; [exact Hs|]. split; [by rewrite Hat|]. split; [exact (proj1 (Hpool (eq_sym Hp)))|exact (Hclean (eq_sym Hat))].
Defined.

(** ** Termination *)

Definition work (w : worker) : nat := match w with Working => 2 | Reporting _ => 1 | Done => 0 end.
Definition rank (x : phase) : nat :=
  match x with
  | Selecting => 9 | Unready _ => 8 | Canceling _ => 7 | ShuttingMain _ false => 6 | ShuttingMain _ true => 5
  | ShuttingHealth _ false => 4 | ShuttingHealth _ true => 3 | Joining _ => 2 | Closing _ => 1 | Returned _ => 0
  end.
Definition remaining (s : runtime) : nat :=
  (if ctxDone s then 0 else 1) + rank (at_ s) + (work (workers s MainServer) + work (workers s HealthServer) + work (workers s AuditWorker)).

Lemma step_decreases p a s s' : step p a s = Some s' → (remaining s' < remaining s)%nat.
Proof.
  intros H. unfold remaining. destruct a as [|r e|r| | | | | |f'| |]; cbn [step] in H.
  - case_match; [done|]. injection H as <-. simpl. lia.
  - destruct (workers s r) eqn:Hw; try done. case_match; [|done]. injection H as <-. destruct r; simpl; rewrite Hw; simpl; destruct (ctxDone s); lia.
  - destruct (workers s r) eqn:Hw; try done. case_match; [|done]. injection H as <-. destruct r; simpl; rewrite Hw; simpl; destruct (ctxDone s); lia.
  - destruct (at_ s); try done. case_match eqn:Hc; [|done]. injection H as <-. simpl. rewrite Hc. lia.
  - destruct (at_ s); try done. case_match; [done|]. injection H as <-. simpl. lia.
  - destruct (at_ s); try done. injection H as <-. simpl. lia.
  - destruct (at_ s); try done. injection H as <-. simpl. lia.
  - destruct (at_ s) as [| | |f []|f []| | |]; try done; injection H as <-; simpl; lia.
  - destruct (at_ s) as [| | |f []|f []| | |]; try done; injection H as <-; simpl; lia.
  - destruct (at_ s); try done. destruct (workers s MainServer) eqn:H1, (workers s HealthServer) eqn:H2, (workers s AuditWorker) eqn:H3; try done.
    injection H as <-. simpl. rewrite H1, H2, H3. simpl. lia.
  - destruct (at_ s); try done. injection H as <-. simpl. lia.
Qed.
Lemma run_bounded p l s s' : run p l s = Some s' → (length l + remaining s' ≤ remaining s)%nat.
Proof.
  revert s. induction l as [|a l IH]; intros s H; [simplify_eq/=; lia|]. cbn [run] in H.
  apply bind_Some in H as (s1 & Ha%step_decreases & H%IH). simpl. lia.
Qed.

(** A step that the process takes when its servers obey a shutdown and its
    worker a cancellation. *)
Definition orderly (a : action) : Prop := match a with ContextDone => False | WorkerEnds _ Failed => False | _ => True end.
(** The process has been asked to stop, or has a reason to. *)
Definition stopping (s : runtime) : Prop :=
  ctxDone s = true ∨ errorsChannel s ≠ [] ∨ (∃ r e, workers s r = Reporting e) ∨ at_ s ≠ Selecting.

Lemma worker_moves p s r : sane p s → workers s r ≠ Done → mainShutdown s = true → healthShutdown s = true → canceled s = true →
  ∃ a s', orderly a ∧ step p a s = Some s'.
Proof.
  intros Hs Hw Hm Hh Hc. destruct (workers s r) as [|e|] eqn:Hr; [| |done].
  - exists (WorkerEnds r (match r with AuditWorker => NoError | _ => ServerClosed end)).
    cbn [step]. rewrite Hr. destruct r; cbn [may_end]; rewrite ?Hm, ?Hh, ?Hc; by eexists.
  - exists (Report r). cbn [step]. rewrite Hr. pose proof (unfinished_set r (Reporting e) s Hr) as Hu. cbn [pending] in Hu.
    pose proof (sn_room _ _ Hs). rewrite (proj2 (Nat.ltb_lt _ _)) by lia. by eexists.
Qed.
Lemma stopping_moves p s : sane p s → stopping s → (∃ f, at_ s = Returned f) ∨ ∃ a s', orderly a ∧ step p a s = Some s'.
Proof.
  intros Hs Hstop. pose proof Hs as [Hroom _ Hmain Hhealth Hcancel _ Hjoin _ _].
  destruct (at_ s) as [|f|f|f b|f b|f|f|f] eqn:Hat; [| | | | | | |by left; eauto]; right.
  - destruct Hstop as [Hc|[Hl|[(r & e & Hr)|]]]; [| | |done].
    + exists SelectContext. cbn [step]. rewrite Hat, Hc. by eexists.
    + exists SelectError. cbn [step]. rewrite Hat. destruct (errorsChannel s); [done|by eexists].
    + exists (Report r). cbn [step]. rewrite Hr. pose proof (unfinished_set r (Reporting e) s Hr) as Hu. cbn [pending] in Hu.
      rewrite (proj2 (Nat.ltb_lt _ _)) by lia. by eexists.
  - exists ClearReady. cbn [step]. rewrite Hat. by eexists.
  - exists CancelRun. cbn [step]. rewrite Hat. by eexists.
  - exists (if b then EndShutdown false else StartShutdown). destruct b; cbn [step]; rewrite Hat; by eexists.
  - exists (if b then EndShutdown false else StartShutdown). destruct b; cbn [step]; rewrite Hat; by eexists.
  - simpl in *. destruct (workers s MainServer) as [|e|] eqn:H1; [apply (worker_moves p s MainServer); congruence..|].
    destruct (workers s HealthServer) as [|e|] eqn:H2; [apply (worker_moves p s HealthServer); congruence..|].
    destruct (workers s AuditWorker) as [|e|] eqn:H3; [apply (worker_moves p s AuditWorker); congruence..|].
    exists Join. cbn [step]. rewrite Hat, H1, H2, H3. by eexists.
  - exists ClosePool. cbn [step]. rewrite Hat. by eexists.
Qed.

(** C25: a process that is asked to stop, or one of whose goroutines has ended,
    stops: no execution has more than sixteen steps, and as long as [Run] has
    not returned there is a next one that needs neither another request to stop
    nor another failure, only that servers end when they are shut down and the
    worker when it is canceled. *)
Theorem run_returns p mainListens healthListens l s :
  run p l (begin p mainListens healthListens) = Some s →
  (length l ≤ 16)%nat ∧ (stopping s → (∃ f, at_ s = Returned f) ∨ ∃ a s', orderly a ∧ step p a s = Some s').
Proof.
  intros H. split.
  - apply run_bounded in H. assert (remaining (begin p mainListens healthListens) ≤ 16)%nat; [|lia].
    destruct p, mainListens, healthListens; cbn; lia.
  - intros Hs. apply run_begin in H as [H|(Hat & _)]; [by apply stopping_moves|left; eauto].
Qed.
Lemma broken_server_stopping :
  (λ s, (workers s MainServer, at_ s)) <$> run SinkProcess [WorkerEnds MainServer Failed] (begin SinkProcess true true) =
  Some (Reporting Failed, Selecting).
Proof. by vm_compute. Qed.
Lemma run_returns_witness :
  ∃ s a s', run SinkProcess [WorkerEnds MainServer Failed] (begin SinkProcess true true) = Some s ∧ orderly a ∧ step SinkProcess a s = Some s'.
Proof.
  destruct (proj1 (fmap_Some _ _ _) broken_server_stopping) as (s & Hs & Hat). injection Hat as Hw Hat. exists s.
  destruct (proj2 (run_returns SinkProcess true true [WorkerEnds MainServer Failed] s Hs)) as [[f Hf]|(a & s' & Ha & Hstep)].
  - right. right. left. exists MainServer, Failed. by rewrite <-Hw.
  - exfalso. congruence.
  - exists a, s'. by split.
Defined.
