(* ===== verification/Migrations.v ===== *)
(** * Schema migrations (ApplyPostgresMigrations of src/credential/postgres.go,
    ApplyMigration of src/audit/spool.go and of src/auditsink/store.go)

    A database before and after its tables exist.  The scripts under
    migrations/ create their tables with plain CREATE statements, which fail
    when a table is there already or one they refer to is not; one transaction,
    behind an advisory lock, runs those that a version table does not list.
    The lock makes the transactions of processes that start together run one
    after the other. *)

From S2P Require Import Prelude GoStrings GoTime TimeParse JsonValue Crypto Envelope Credential AuditEvent Spool Wire Backend MemoryBackend Storage AuditSink Postgres.

(** ** Databases *)

Definition version_table : Type := gmap Z time.

(** The database of the service: its two version tables, and the tables that
    each script creates, when they exist. *)
Record schema : Type := mkSchema {
  scVersions : option version_table;
  scAuditVersions : option version_table;
  scCredentials : option (gmap string Metadata * gmap (string * Z) version_row * gmap (string * string) idempotency_row);
  scBindings : option (gmap string memoryBinding * gmap string attempt_row);
  scRotations : option (gmap string Rotation);
  scBackups : option (gmap string backup_row);
  scAudit : option chain
}.
Definition no_schema : schema := mkSchema None None None None None None None.

(** The database of the audit sink. *)
Record sink_schema : Type := mkSinkSchema { ssVersions : option version_table; ssStore : option sink }.
Definition no_sink_schema : sink_schema := mkSinkSchema None None.

(** ** Scripts *)

Definition credentialMigration (s : schema) : option schema :=
  match scCredentials s with
  | None => Some (mkSchema (scVersions s) (scAuditVersions s) (Some (∅, ∅, ∅)) (scBindings s) (scRotations s) (scBackups s) (scAudit s))
  | Some _ => None
  end.
(** [run_bindings] refers to [credential_versions]. *)
Definition runBindingMigration (s : schema) : option schema :=
  match scCredentials s, scBindings s with
  | Some _, None => Some (mkSchema (scVersions s) (scAuditVersions s) (scCredentials s) (Some (∅, ∅)) (scRotations s) (scBackups s) (scAudit s))
  | _, _ => None
  end.
Definition rotationMigration (s : schema) : option schema :=
  match scRotations s with
  | None => Some (mkSchema (scVersions s) (scAuditVersions s) (scCredentials s) (scBindings s) (Some ∅) (scBackups s) (scAudit s))
  | Some _ => None
  end.
Definition recoveryMigration (s : schema) : option schema :=
  match scBackups s with
  | None => Some (mkSchema (scVersions s) (scAuditVersions s) (scCredentials s) (scBindings s) (scRotations s) (Some ∅) (scAudit s))
  | Some _ => None
  end.
Definition audit_migration (s : schema) : option schema :=
  match scAudit s with
  | None => Some (mkSchema (scVersions s) (scAuditVersions s) (scCredentials s) (scBindings s) (scRotations s) (scBackups s) (Some empty_chain))
  | Some _ => None
  end.
(** [at] is the server's [now()]. *)
Definition sink_migration (at_ : time) (s : sink_schema) : option sink_schema :=
  match ssStore s with None => Some (mkSinkSchema (ssVersions s) (Some (empty_sink at_))) | Some _ => None end.

(** ** The transaction *)

Section Apply.
Context {D : Type} `{PG : PgTypes} (o : world) (clock : nat → time).
(** How the version table is read and written. *)
Context (versions : D → option version_table) (set_versions : version_table → D → D).

(** [None] is any error: the transaction is rolled back. *)
Definition Sx (A : Type) : Type := D → nat → option (A * (D * nat)).
#[local] Instance sx_ret : MRet Sx := λ A a s n, Some (a, (s, n)).
#[local] Instance sx_bind : MBind Sx := λ A B f t s n, match t s n with Some (a, (s', n')) => f a s' n' | None => None end.
Definition sx {A} (f : D → option (A * D)) : Sx A := λ s n,
  if wNet o n then match f s with Some (a, s') => Some (a, (s', S n)) | None => None end else None.

Definition lock_table : Sx unit := sx (λ s, Some ((), s)).
(** CREATE TABLE IF NOT EXISTS. *)
Definition create_versions : Sx unit :=
  sx (λ s, Some ((), match versions s with None => set_versions ∅ s | Some _ => s end)).
Definition is_applied (version : Z) : Sx bool :=
  sx (λ s, t ← versions s; Some (bool_decide (is_Some (t !! version)), s)).
Definition run_script (script : D → option D) : Sx unit := sx (λ s, (λ s', ((), s')) <$> script s).
Definition record_version (version : Z) : Sx unit := λ s n,
  sx (λ s, t ← versions s; applied ← timestamptz (clock n);
           match t !! version with None => Some ((), set_versions (<[version := applied]> t) s) | Some _ => None end) s n.

Definition apply_one (version : Z) (script : D → option D) : Sx unit :=
  applied ← is_applied version;
  if (applied : bool) then mret () else
  _ ← run_script script;
  record_version version.
Fixpoint apply_all (l : list (Z * (D → option D))) : Sx unit :=
  match l with [] => mret () | (version, script) :: l => _ ← apply_one version script; apply_all l end.

(** Whether it succeeded, and the database after it. *)
Definition migrate (l : list (Z * (D → option D))) (s : D) : bool * D :=
  if negb (wNet o 0) then (false, s)
  else match (_ ← lock_table; _ ← create_versions; apply_all l) s 1%nat with
       | None => (false, s)
       | Some (_, (s', _)) =>
           match wCommit o with Committed => (true, s') | Refused => (false, s) | Unacknowledged => (false, s') end
       end.
End Apply.

Definition set_scVersions (t : version_table) (s : schema) : schema :=
  mkSchema (Some t) (scAuditVersions s) (scCredentials s) (scBindings s) (scRotations s) (scBackups s) (scAudit s).
Definition set_scAuditVersions (t : version_table) (s : schema) : schema :=
  mkSchema (scVersions s) (Some t) (scCredentials s) (scBindings s) (scRotations s) (scBackups s) (scAudit s).
Definition set_ssVersions (t : version_table) (s : sink_schema) : sink_schema := mkSinkSchema (Some t) (ssStore s).

Section Migrations.
Context `{PG : PgTypes} (o : world) (clock : nat → time).

Definition ApplyPostgresMigrations : schema → bool * schema :=
  migrate o clock scVersions set_scVersions
    [(1, credentialMigration); (2, runBindingMigration); (3, rotationMigration); (4, recoveryMigration)].
Definition ApplyAuditMigration : schema → bool * schema :=
  migrate o clock scAuditVersions set_scAuditVersions [(1, audit_migration)].
Definition ApplySinkMigration (at_ : time) : sink_schema → bool * sink_schema :=
  migrate o clock ssVersions set_ssVersions [(1, sink_migration at_)].
End Migrations.

(** ** What a transaction does when nothing fails, and otherwise *)

Section Rules.
Context {D : Type} `{PG : PgTypes} (o : world) (clock : nat → time).
Context (versions : D → option version_table) (set_versions : version_table → D → D).
#[local] Existing Instances sx_ret sx_bind.
Implicit Types (s : D).

(** Every round trip succeeds, and every instant can be stored. *)
Definition undisturbed : Prop := (∀ n, wNet o n = true) ∧ ∀ n, is_Some (timestamptz (clock n)).
(** Where it ends, it ends in [Q]; it ends unless disturbed. *)
Definition ends {A} (m : Sx A) s (Q : A → D → Prop) : Prop :=
  ∀ n, match m s n with Some (a, (s', _)) => Q a s' | None => ¬ undisturbed end.

Lemma ends_ret {A} (a : A) s (Q : A → D → Prop) : Q a s → ends (mret a) s Q.
Proof. by intros HQ n. Qed.
Lemma ends_bind {A B} (m : Sx A) (f : A → Sx B) s (Q : B → D → Prop) :
  ends m s (λ a s', ends (f a) s' Q) → ends (m ≫= f) s Q.
Proof.
  intros H n. specialize (H n). unfold mbind, sx_bind. destruct (m s n) as [[a [s' n']]|]; [|done]. apply H.
Qed.
Lemma ends_sx {A} f s a s' (Q : A → D → Prop) : f s = Some (a, s') → Q a s' → ends (sx o f) s Q.
Proof.
  intros Hf HQ n. unfold sx. rewrite Hf. destruct (wNet o n) eqn:Hn; [done|]. intros [H _]. by rewrite H in Hn.
Qed.
Lemma ends_record version t s (Q : unit → D → Prop) :
  versions s = Some t → t !! version = None → (∀ x, Q () (set_versions (<[version := x]> t) s)) →
  ends (record_version o clock versions set_versions version) s Q.
Proof.
  intros Ht Hv HQ n. unfold record_version, sx. rewrite Ht. cbn [mbind option_bind].
  destruct (timestamptz (clock n)) as [x|] eqn:Hx; cbn [mbind option_bind].
  - rewrite Hv. destruct (wNet o n) eqn:Hn; [apply HQ|]. intros [H _]. by rewrite H in Hn.
  - assert (¬ undisturbed) by (intros [_ H]; destruct (H n); congruence). by destruct (wNet o n).
Qed.

Lemma ends_applied version script t s (Q : unit → D → Prop) :
  versions s = Some t → is_Some (t !! version) → Q () s → ends (apply_one o clock versions set_versions version script) s Q.
Proof.
  intros Ht Hv HQ. apply ends_bind. eapply ends_sx; [rewrite Ht; done|]. rewrite bool_decide_eq_true_2 by done. by apply ends_ret.
Qed.
Lemma ends_new version (script : D → option D) t s s1 (Q : unit → D → Prop) :
  versions s = Some t → t !! version = None → script s = Some s1 → versions s1 = Some t →
  (∀ x, Q () (set_versions (<[version := x]> t) s1)) → ends (apply_one o clock versions set_versions version script) s Q.
Proof.
  intros Ht Hv Hs Ht1 HQ. apply ends_bind. eapply ends_sx; [rewrite Ht; done|].
  rewrite bool_decide_eq_false_2 by (rewrite Hv; by intros [? ?]).
  apply ends_bind. eapply ends_sx; [by rewrite Hs|]. by eapply ends_record.
Qed.

Lemma migrate_ends l s (P : D → Prop) :
  ends (_ ← create_versions o versions set_versions; apply_all o clock versions set_versions l) s (λ _, P) →
  let '(ok, s') := migrate o clock versions set_versions l s in
  (s' = s ∨ P s') ∧ (ok = true → P s') ∧ (undisturbed → wCommit o = Committed → ok = true).
Proof.
  intros H. unfold migrate. destruct (wNet o 0) eqn:H0; cbn [negb].
  2: { split_and!; [by left|done|]. intros [Hn _]. by rewrite Hn in H0. }
  assert (ends (_ ← lock_table o; _ ← create_versions o versions set_versions; apply_all o clock versions set_versions l) s (λ _, P)) as Hb.
  { apply ends_bind. by eapply ends_sx. }
  specialize (Hb 1%nat). cbv beta in *.
  destruct ((_ ← lock_table o; _ ← create_versions o versions set_versions; apply_all o clock versions set_versions l) s 1%nat) as [[a [s' n]]|].
  - destruct (wCommit o); split_and!; try done; auto.
  - split_and!; [by left|done|done].
Qed.
End Rules.

(** ** The service's database *)

(** The tables the backend works on. *)
Definition assemble (s : schema) : option database :=
  '(credentials, records, idempotency) ← scCredentials s;
  '(bindings, attempts) ← scBindings s;
  rotations ← scRotations s; backups ← scBackups s; audit ← scAudit s;
  Some (mkDatabase credentials records idempotency bindings attempts rotations backups audit).
Definition store_back (d : database) (s : schema) : schema :=
  mkSchema (scVersions s) (scAuditVersions s) (Some (dbCredentials d, dbVersions d, dbIdempotency d))
    (Some (dbBindings d, dbAttempts d)) (Some (dbRotations d)) (Some (dbBackups d)) (Some (dbAudit d)).

(** What happens to it: starts of the process, in which each migration may fail
    anywhere, and work on the tables, which needs all of them. *)
Inductive event : Type :=
| StartMigration (o : world) (clock : nat → time)
| StartAuditMigration (o : world) (clock : nat → time)
| Work (f : database → database).

Section History.
Context `{PG : PgTypes}.

Definition happens (e : event) (s : schema) : schema :=
  match e with
  | StartMigration o clock => (ApplyPostgresMigrations o clock s).2
  | StartAuditMigration o clock => (ApplyAuditMigration o clock s).2
  | Work f => match assemble s with Some d => store_back (f d) s | None => s end
  end.
Definition after (h : list event) (s : schema) : schema := foldl (λ s e, happens e s) s h.

Definition lists (t : version_table) (n : Z) : Prop := ∀ v, 1 ≤ v ≤ n → is_Some (t !! v).

Record service_absent (s : schema) : Prop := {
  sa_versions : scVersions s = None; sa_credentials : scCredentials s = None; sa_bindings : scBindings s = None;
  sa_rotations : scRotations s = None; sa_backups : scBackups s = None
}.
Record service_ready (s : schema) : Prop := {
  sr_versions : ∃ t, scVersions s = Some t ∧ lists t 4;
  sr_credentials : is_Some (scCredentials s); sr_bindings : is_Some (scBindings s);
  sr_rotations : is_Some (scRotations s); sr_backups : is_Some (scBackups s)
}.
Definition service_installed (s s' : schema) : Prop :=
  ∃ t, lists t 4 ∧ s' = mkSchema (Some t) (scAuditVersions s) (Some (∅, ∅, ∅)) (Some (∅, ∅)) (Some ∅) (Some ∅) (scAudit s).
Definition audit_absent (s : schema) : Prop := scAuditVersions s = None ∧ scAudit s = None.
Definition audit_ready (s : schema) : Prop := (∃ t, scAuditVersions s = Some t ∧ lists t 1) ∧ is_Some (scAudit s).
Definition audit_installed (s s' : schema) : Prop :=
  ∃ t, lists t 1 ∧
    s' = mkSchema (scVersions s) (Some t) (scCredentials s) (scBindings s) (scRotations s) (scBackups s) (Some empty_chain).

(** How a migration can end: nothing happened, or all of it. *)
Definition outcome_of (o : world) (clock : nat → time) (s : schema) (P : schema → Prop) (r : bool * schema) : Prop :=
  (r.2 = s ∨ P r.2) ∧ (r.1 = true → P r.2) ∧ (undisturbed o clock → wCommit o = Committed → r.1 = true).

Lemma outcome_from o clock s (P : schema → Prop) r :
  (let '(ok, s') := r in (s' = s ∨ P s') ∧ (ok = true → P s') ∧ (undisturbed o clock → wCommit o = Committed → ok = true)) →
  outcome_of o clock s P r.
Proof. by destruct r. Qed.

Lemma migrate_ready o clock s : service_ready s → outcome_of o clock s (λ s', s' = s) (ApplyPostgresMigrations o clock s).
Proof.
  intros [(t & Ht & Hl) _ _ _ _]. apply outcome_from, migrate_ends.
  apply ends_bind. eapply ends_sx; [done|]. rewrite Ht.
  cbn [apply_all]. repeat (apply ends_bind; eapply ends_applied; [done|apply Hl; lia|]). by apply ends_ret.
Qed.
Lemma migrate_absent o clock s :
  service_absent s → outcome_of o clock s (service_installed s) (ApplyPostgresMigrations o clock s).
Proof.
  destruct s as [v av c b r k au]. intros [Hv Hc Hb Hr Hk]. simpl in *. subst. apply outcome_from, migrate_ends.
  apply ends_bind. eapply ends_sx; [done|]. cbn [scVersions set_scVersions apply_all].
  do 4 (apply ends_bind; eapply ends_new; [done|by simplify_map_eq|done|done|]; intros ?; cbn [set_scVersions scVersions]).
  apply ends_ret. eexists. split; [|done]. intros w Hw.
  assert (w = 1 ∨ w = 2 ∨ w = 3 ∨ w = 4) as [-> | [-> | [-> | ->]]] by lia; by simplify_map_eq.
Qed.
Lemma migrate_audit_ready o clock s : audit_ready s → outcome_of o clock s (λ s', s' = s) (ApplyAuditMigration o clock s).
Proof.
  intros [(t & Ht & Hl) _]. apply outcome_from, migrate_ends. apply ends_bind. eapply ends_sx; [done|]. rewrite Ht.
  cbn [apply_all]. apply ends_bind. eapply ends_applied; [done|apply Hl; lia|]. by apply ends_ret.
Qed.
Lemma migrate_audit_absent o clock s :
  audit_absent s → outcome_of o clock s (audit_installed s) (ApplyAuditMigration o clock s).
Proof.
  destruct s as [v av c b r k au]. intros [Hv Ha]. simpl in *. subst. apply outcome_from, migrate_ends.
  apply ends_bind. eapply ends_sx; [done|]. cbn [scAuditVersions set_scAuditVersions apply_all].
  apply ends_bind. eapply ends_new; [done|by simplify_map_eq|done|done|]. intros x. cbn [set_scAuditVersions scAuditVersions].
  apply ends_ret. eexists. split; [|done]. intros w Hw. assert (w = 1) as -> by lia. by simplify_map_eq.
Qed.

(** The tables there are hold what the scripts left in them. *)
Definition untouched (s : schema) : Prop :=
  (service_ready s → scCredentials s = Some (∅, ∅, ∅) ∧ scBindings s = Some (∅, ∅) ∧ scRotations s = Some ∅ ∧ scBackups s = Some ∅) ∧
  (audit_ready s → scAudit s = Some empty_chain).
(** Before all tables exist, those that do are empty. *)
Record sound (s : schema) : Prop := {
  so_service : service_absent s ∨ service_ready s;
  so_audit : audit_absent s ∨ audit_ready s;
  so_empty : assemble s = None → untouched s
}.

Lemma assemble_Some s d : assemble s = Some d ↔
  scCredentials s = Some (dbCredentials d, dbVersions d, dbIdempotency d) ∧ scBindings s = Some (dbBindings d, dbAttempts d) ∧
  scRotations s = Some (dbRotations d) ∧ scBackups s = Some (dbBackups d) ∧ scAudit s = Some (dbAudit d).
Proof.
  destruct s as [v av c b r k au], d. unfold assemble. simpl.
  destruct c as [[[? ?] ?]|], b as [[? ?]|], r, k, au; simpl;
    (split; [intros H; split_and!; congruence|intros (? & ? & ? & ? & ?); by simplify_eq/=]).
Qed.
Lemma assemble_ready s : service_ready s → audit_ready s → is_Some (assemble s).
Proof.
  intros [_ [[[c r] i] Hc] [[b a] Hb] [ro Hr] [k Hk]] [_ [ch Ha]]. unfold assemble. by rewrite Hc, Hb, Hr, Hk, Ha.
Qed.
Lemma assemble_absent s : service_absent s ∨ audit_absent s → assemble s = None.
Proof.
  unfold assemble. intros [[_ Hc _ _ _]|[_ Ha]]; [by rewrite Hc|]. rewrite Ha.
  destruct (scCredentials s) as [[[? ?] ?]|], (scBindings s) as [[? ?]|], (scRotations s), (scBackups s); done.
Qed.

Lemma installed_sound s s' : sound s → service_absent s → service_installed s s' → sound s' ∧ service_ready s' ∧ untouched s'.
Proof.
  intros [_ Ha He] Habs (t & Hl & ->).
  assert (service_ready (mkSchema (Some t) (scAuditVersions s) (Some (∅, ∅, ∅)) (Some (∅, ∅)) (Some ∅) (Some ∅) (scAudit s))) as Hr.
  { split; simpl; [eauto|done..]. }
  assert (untouched (mkSchema (Some t) (scAuditVersions s) (Some (∅, ∅, ∅)) (Some (∅, ∅)) (Some ∅) (Some ∅) (scAudit s))) as Hu.
  { split; [done|]. intros Hau. apply (He (assemble_absent s (or_introl Habs))), Hau. }
  split; [|done]. split; [by right|done|by intros _].
Qed.
Lemma audit_installed_sound s s' : sound s → audit_absent s → audit_installed s s' → sound s' ∧ audit_ready s' ∧ untouched s'.
Proof.
  intros [Hs _ He] Habs (t & Hl & ->).
  assert (audit_ready (mkSchema (scVersions s) (Some t) (scCredentials s) (scBindings s) (scRotations s) (scBackups s) (Some empty_chain))) as Hr.
  { split; simpl; eauto. }
  assert (untouched (mkSchema (scVersions s) (Some t) (scCredentials s) (scBindings s) (scRotations s) (scBackups s) (Some empty_chain))) as Hu.
  { split; [|done]. intros Hsr. apply (He (assemble_absent s (or_intror Habs))). destruct Hsr. by split. }
  split; [|done]. split; [|by right|by intros _].
  destruct Hs as [[]|[]]; [left|right]; by split.
Qed.

(** A start of the process leaves a sound database; where it succeeds, ready. *)
Lemma migration_sound o clock s : sound s →
  let '(ok, s') := ApplyPostgresMigrations o clock s in
  sound s' ∧ (service_ready s → s' = s) ∧ (ok = true → service_ready s') ∧ (untouched s → untouched s') ∧ (undisturbed o clock → wCommit o = Committed → ok = true) ∧
  (audit_ready s → audit_ready s' ∧ scAudit s' = scAudit s).
Proof.
  intros Hs. pose proof Hs as [[Habs|Hr] _ _].
  - pose proof (migrate_absent o clock s Habs) as (He & Hok & Hcalm). destruct (ApplyPostgresMigrations o clock s) as [ok s']. simpl in *.
    assert (∀ P, service_installed s s' → (sound s' ∧ service_ready s' ∧ untouched s' → P) → P) as Hi by (intros P Hi HP; by eapply HP, installed_sound).
    assert (service_ready s → s' = s) as Hno.
    { intros [_ [x Hx] _ _ _]. destruct Habs as [_ Hc _ _ _]. congruence. }
    split_and!; [|done|intros H; apply (Hi _ (Hok H)); naive_solver| |done|].
    + destruct He as [->|He]; [done|]. apply (Hi _ He). naive_solver.
    + destruct He as [->|He]; [done|]. intros _. apply (Hi _ He). naive_solver.
    + intros Ha. destruct He as [->|(t & _ & ->)]; [done|]. simpl. destruct Ha. by split.
  - pose proof (migrate_ready o clock s Hr) as (He & Hok & Hcalm). destruct (ApplyPostgresMigrations o clock s) as [ok s']. simpl in *.
    assert (s' = s) as -> by naive_solver. by split_and!.
Qed.
Lemma audit_migration_sound o clock s : sound s →
  let '(ok, s') := ApplyAuditMigration o clock s in
  sound s' ∧ (audit_ready s → s' = s) ∧ (ok = true → audit_ready s') ∧ (untouched s → untouched s') ∧ (undisturbed o clock → wCommit o = Committed → ok = true) ∧
  (service_ready s → service_ready s').
Proof.
  intros Hs. pose proof Hs as [_ [Habs|Hr] _].
  - pose proof (migrate_audit_absent o clock s Habs) as (He & Hok & Hcalm). destruct (ApplyAuditMigration o clock s) as [ok s']. simpl in *.
    assert (∀ P, audit_installed s s' → (sound s' ∧ audit_ready s' ∧ untouched s' → P) → P) as Hi by (intros P Hi HP; by eapply HP, audit_installed_sound).
    assert (audit_ready s → s' = s) as Hno by (intros [_ [x Hx]]; destruct Habs as [_ Hc]; congruence).
    split_and!; [|done|intros H; apply (Hi _ (Hok H)); naive_solver| |done|].
    + destruct He as [->|He]; [done|]. apply (Hi _ He). naive_solver.
    + destruct He as [->|He]; [done|]. intros _. apply (Hi _ He). naive_solver.
    + intros Ha. destruct He as [->|(t & _ & ->)]; [done|]. destruct Ha. by split.
  - pose proof (migrate_audit_ready o clock s Hr) as (He & Hok & Hcalm). destruct (ApplyAuditMigration o clock s) as [ok s']. simpl in *.
    assert (s' = s) as -> by naive_solver. by split_and!.
Qed.

Lemma after_sound h s : sound s → sound (after h s).
Proof.
  revert s. induction h as [|e h IH]; intros s Hs; [done|]. apply IH. destruct e as [o clock|o clock|f]; simpl.
  - pose proof (migration_sound o clock s Hs) as Hm. destruct (ApplyPostgresMigrations o clock s) as [ok s']. apply Hm.
  - pose proof (audit_migration_sound o clock s Hs) as Hm. destruct (ApplyAuditMigration o clock s) as [ok s']. apply Hm.
  - destruct (assemble s) as [d|] eqn:Hd; [|done]. pose proof Hd as (Hc & Hb & Hr & Hk & Ha)%assemble_Some. destruct Hs as [[Hn|Hsr] Hau _].
    { destruct Hn. congruence. }
    assert (audit_ready s) as Har by (destruct Hau as [[? ?]|]; [congruence|done]). split.
    + right. destruct Hsr. by split.
    + right. destruct Har. by split.
    + intros Hnone. assert (is_Some (assemble (store_back (f d) s))) as [x Hx]; [|congruence].
      apply assemble_ready; [destruct Hsr|destruct Har]; split; simpl; eauto.
Qed.
Lemma no_schema_sound : sound no_schema.
Proof. split; [by left|by left|]. intros _. split; [by intros [(t & ? & _) _ _ _ _]|by intros [(t & ? & _) _]]. Qed.

Lemma ready_after_absent s d : assemble s = Some d → sound s → service_ready s ∧ audit_ready s.
Proof.
  intros Hd [[Hs|Hs] [Ha|Ha] _]; try done; exfalso; assert (assemble s = None); try congruence; apply assemble_absent; auto.
Qed.
Lemma fresh_database s : untouched s → service_ready s → audit_ready s → assemble s = Some empty_database.
Proof. intros [Hs Ha] Hsr Har. apply assemble_Some. destruct (Hs Hsr) as (-> & -> & -> & ->). by rewrite (Ha Har). Qed.

(** C20: the tables are created once and never again: after any history of
    starts, each of which may fail at any statement or lose the answer of its
    commit, and of work on the tables, another start of the service leaves an
    existing database exactly as it is; one that succeeds on a database without
    all its tables leaves them all, empty; and one that nothing disturbs
    succeeds. *)
Theorem migrations_once (h : list event) o clock o' clock' :
  let s := after h no_schema in
  let '(ok, s1) := ApplyPostgresMigrations o clock s in
  let '(ok', s2) := ApplyAuditMigration o' clock' s1 in
  (∀ d, assemble s = Some d → s2 = s) ∧
  (ok = true → ok' = true → assemble s = None → assemble s2 = Some empty_database) ∧
  (undisturbed o clock → wCommit o = Committed → undisturbed o' clock' → wCommit o' = Committed → ok = true ∧ ok' = true).
Proof.
  intros s. pose proof (after_sound h no_schema no_schema_sound) as Hs. fold s in Hs.
  pose proof (migration_sound o clock s Hs) as H1. destruct (ApplyPostgresMigrations o clock s) as [ok s1]. destruct H1 as (Hs1 & Hkeep & Hok & Hun & Hcalm & Hau).
  pose proof (audit_migration_sound o' clock' s1 Hs1) as H2. destruct (ApplyAuditMigration o' clock' s1) as [ok' s2]. destruct H2 as (Hs2 & Hkeep' & Hok' & Hun' & Hcalm' & Hse).
  split_and!.
  - intros d Hd. destruct (ready_after_absent s d Hd Hs) as [Hsr Har]. rewrite Hkeep' by (by apply Hau). auto.
  - intros Hr%Hok Hr'%Hok' Hn. apply fresh_database; [by apply Hun', Hun, Hs|by apply Hse|done].
  - auto.
Qed.

(** ** The audit sink's database *)

Definition sink_absent (s : sink_schema) : Prop := ssVersions s = None ∧ ssStore s = None.
Definition sink_ready (s : sink_schema) : Prop := (∃ t, ssVersions s = Some t ∧ lists t 1) ∧ is_Some (ssStore s).

(** Its store is created once, empty, and never again. *)
Lemma sink_migration_once o clock at_ s : sink_absent s ∨ sink_ready s →
  let '(ok, s') := ApplySinkMigration o clock at_ s in
  (sink_absent s' ∨ sink_ready s') ∧ (ok = true → sink_ready s') ∧
  (∀ x, ssStore s = Some x → s' = s) ∧ (ok = true → ssStore s = None → ssStore s' = Some (empty_sink at_)) ∧
  (undisturbed o clock → wCommit o = Committed → ok = true).
Proof.
  intros Hs. unfold ApplySinkMigration. destruct s as [v st]. destruct Hs as [[Hv Hst]|[(t & Ht & Hl) [x Hx]]]; simpl in *; subst.
  - pose proof (migrate_ends o clock ssVersions set_ssVersions [(1, sink_migration at_)] (mkSinkSchema None None)
      (λ s', ∃ t, lists t 1 ∧ s' = mkSinkSchema (Some t) (Some (empty_sink at_)))) as H.
    destruct (migrate _ _ _ _ _ _) as [ok s']. destruct H as (He & Hok & Hcalm).
    + apply ends_bind. eapply ends_sx; [done|]. cbn [ssVersions set_ssVersions apply_all].
      apply ends_bind. eapply ends_new; [done|by simplify_map_eq|done|done|]. intros x. cbn [set_ssVersions ssVersions].
      apply ends_ret. eexists. split; [|done]. intros w Hw. assert (w = 1) as -> by lia. by simplify_map_eq.
    + split_and!; [|intros H; destruct (Hok H) as (t & Hl & ->); split; simpl; eauto|done| |done].
      * destruct He as [->|(t & Hl & ->)]; [by left|right; split; simpl; eauto].
      * intros H _. by destruct (Hok H) as (t & _ & ->).
  - pose proof (migrate_ends o clock ssVersions set_ssVersions [(1, sink_migration at_)] (mkSinkSchema (Some t) (Some x))
      (λ s', s' = mkSinkSchema (Some t) (Some x))) as H.
    destruct (migrate _ _ _ _ _ _) as [ok s']. destruct H as (He & Hok & Hcalm).
    + apply ends_bind. eapply ends_sx; [done|]. cbn [ssVersions apply_all].
      apply ends_bind. eapply ends_applied; [done|apply Hl; lia|]. by apply ends_ret.
    + assert (s' = mkSinkSchema (Some t) (Some x)) as -> by naive_solver.
      assert (sink_ready (mkSinkSchema (Some t) (Some x))) by (split; simpl; eauto). split_and!; auto. done.
Qed.
End History.

(** ** Execution *)

Module MigrationExample.
(** A server that takes every text and keeps every instant. *)
#[local] Instance generous : PgTypes := {|
  uuid_in := λ s, if validUUID s then Some s else None; text_in := λ _, true; timestamptz := Some
|}.
Definition clock (n : nat) : time := Z.of_nat n.
(** The fourth statement of a first start fails; the second start loses the
    answer of its commit. *)
Definition troubled : list event :=
  [StartMigration (mkWorld (λ n, negb (Nat.eqb n 4)) (λ _, None) Committed (λ _, false)) clock;
   StartMigration (mkWorld (λ _, true) (λ _, None) Unacknowledged (λ _, false)) clock].
Lemma calm_undisturbed : undisturbed calm clock.
Proof. split; [done|]. intros n. by eexists. Qed.
Lemma troubled_incomplete : assemble (after troubled no_schema) = None.
Proof. by vm_compute. Qed.
End MigrationExample.

Lemma migrations_once_witness :
  let s := after (PG:=MigrationExample.generous) MigrationExample.troubled no_schema in
  let '(_, s1) := ApplyPostgresMigrations (PG:=MigrationExample.generous) calm MigrationExample.clock s in
  let '(_, s2) := ApplyAuditMigration (PG:=MigrationExample.generous) calm MigrationExample.clock s1 in
  assemble s2 = Some empty_database.
Proof.
  intros s. pose proof (migrations_once (PG:=MigrationExample.generous) MigrationExample.troubled calm MigrationExample.clock calm MigrationExample.clock) as H.
  cbv zeta in H. fold s in H. destruct (ApplyPostgresMigrations calm MigrationExample.clock s) as [ok s1].
  destruct (ApplyAuditMigration calm MigrationExample.clock s1) as [ok' s2]. destruct H as (_ & Hfresh & Hcalm).
  destruct (Hcalm MigrationExample.calm_undisturbed eq_refl MigrationExample.calm_undisturbed eq_refl) as [-> ->].
  exact (Hfresh eq_refl eq_refl MigrationExample.troubled_incomplete).
Defined.
