(* ===== verification/Process.v ===== *)
(** * The two processes (Build of src/app/runtime.go and src/auditsink/runtime.go,
    src/cmd, and what assembles the store: NewPostgresManager and
    RequireAuditSpool of src/credential/postgres.go, TLSConfig and
    NewHTTPServer of src/transport)

    [Build] turns a configuration into a runtime: it reads keys and certificates,
    opens the database, applies the migrations and puts the parts together.
    Everything outside the program is [outside]: the files, the clock, how the
    URLs parse, what the connection pool does and how each migration fares.  A
    [host] is what [Build] may leave behind: the database and the pools it has
    opened. *)

From Stdlib Require Import Ascii.
From S2P Require Import Prelude GoStrings GoTime TimeParse JsonValue Crypto Envelope MasterKey Credential Builtin AuditEvent Spool Wire Backend MemoryBackend Manager Storage Identity AuditSink Delivery Server GoParse Config Files Postgres Migrations.

(** ** The parts that are put together *)

(** What [tls.Config] says of client certificates and the version. *)
Record tls_config : Type := mkTLS { tcVerifyClients : bool; tcMinVersion : Z }.
Definition VersionTLS13 : Z := 0x0304.

(** [transport.TLSConfig], over a pool that is not nil; [None] is
    [ErrWorkloadIdentity]. *)
Definition TLSConfig (certificate : list string) : option tls_config :=
  if bool_decide (certificate = []) then None else Some (mkTLS true VersionTLS13).
Definition NewHTTPServer (address : string) (c : tls_config) : result CredError (string * tls_config) :=
  _ ← guard_err (String.eqb address "" || negb (tcVerifyClients c) || (tcMinVersion c <? VersionTLS13)) ErrInvalidInput;
  Ok (address, c).

(** The parts of a parsed URL that [NewHTTPSink] looks at, and how it is written. *)
Record sink_url : Type := mkSinkURL { suScheme : string; suHost : string; suUser : bool; suFragment : string; suString : string }.
Definition NewHTTPSink (endpoint : option sink_url) (minVersion : Z) : result AuditError string :=
  parsed ← of_option ErrSink endpoint;
  _ ← guard_err (negb (String.eqb (suScheme parsed) "https") || String.eqb (suHost parsed) "" || suUser parsed ||
        negb (String.eqb (suFragment parsed) "") || (minVersion <? VersionTLS13)) ErrSink;
  Ok (suString parsed).

(** A manager over the PostgreSQL backend, and the spool the backend writes to. *)
Record postgres_manager : Type := mkPostgresManager { pmManager : Manager; pmAudit : option Spool }.
Definition NewPostgresManager (k : KeySet) (injectors : list InjectorRegistry) : result CredError postgres_manager :=
  m ← NewManager k injectors; Ok (mkPostgresManager m None).
Definition RequireAuditSpool (spool : option Spool) (m : postgres_manager) : result CredError postgres_manager :=
  _ ← guard_err (bool_decide (spool = None)) ErrInvalidInput;
  Ok (mkPostgresManager (pmManager m) spool).

(** ** Outside the program *)

Record outside : Type := mkOutside {
  oFiles : gmap string file;
  oNow : nat → time;
  oParseURL : string → option sink_url;
  oReach : string → endpoint;
  oParsePool : string → bool;
  oNewPool : bool;
  oPing : bool;
  oMigration : Postgres.world;
  oAuditMigration : Postgres.world;
  oMigrationNow : nat → time
}.
Record host : Type := mkHost { hSchema : schema; hPools : Z }.

Definition maxDatabaseURLBytes : Z := 4096.
Definition maxCertificateBytes : Z := 1048576.

Section Certificates.
Context `{XC : X509} (w : outside).

(** A key pair from files, the key's private, whose leaf is valid now; the clock
    is read twice, from [n] on. *)
Definition certificate_at (n : nat) (certificate key : string) : option (list string) :=
  if negb (requireRestrictedFile (oFiles w) key) then None else
  chain ← LoadX509KeyPair (oFiles w) certificate key;
  leaf ← head chain;
  '(notBefore, notAfter) ← ParseCertificate leaf;
  if Before (oNow w n) notBefore || negb (Before (oNow w (S n)) notAfter) then None else Some chain.
(** A pool of certificates from a file. *)
Definition certificate_pool (path : string) : option string :=
  pem ← readBounded (oFiles w) path maxCertificateBytes;
  if AppendCertsFromPEM pem then Some pem else None.
End Certificates.

(** ** The service *)

Record Runtime : Type := mkRuntime {
  rtConfig : App.Config;
  rtDatabaseURL : string;
  rtMaxConns : Z;
  rtManager : postgres_manager;
  rtWorker : DeliveryWorker;
  rtServer : Server;
  rtTLS : tls_config;
  rtClientCAs : string
}.

Section Build.
Context `{CR : Crypto} `{XC : X509} `{PG : PgTypes} `{MO : MapOrder} (w : outside).

(** Up to the database: what is read, and the sink. *)
Record prepared : Type := mkPrepared {
  ppKeys : KeySet; ppSpool : Spool; ppDatabaseURL : string; ppTLS : tls_config; ppClientCAs : string; ppEndpoint : string
}.
Definition prepare (config : App.Config) : result ProcessError prepared :=
  keys ← map_err (λ _, ErrStartup) (Load (oFiles w) (MasterKey.mkConfig (App.MasterKeyFile config) (TrimSpace (App.PreviousKeyFile config))));
  auditKey ← map_err (λ _, ErrStartup) (LoadKey (oFiles w) (App.AuditKeyFile config));
  spool ← map_err (λ _, ErrStartup) (Spool.New auditKey (App.MaxPendingAuditEvents config));
  databaseURL ← of_option ErrStartup (readRestrictedText (oFiles w) (App.DatabaseURLFile config) maxDatabaseURLBytes);
  server ← of_option ErrStartup (certificate_at w 0 (App.TLSCertificateFile config) (App.TLSPrivateKeyFile config));
  clientCAs ← of_option ErrStartup (certificate_pool w (App.ClientCAFile config));
  tls ← of_option ErrStartup (TLSConfig server);
  _ ← of_option ErrStartup (certificate_at w 2 (App.AuditSinkCertificateFile config) (App.AuditSinkPrivateKeyFile config));
  _ ← of_option ErrStartup (certificate_pool w (App.AuditSinkCAFile config));
  sink ← map_err (λ _, ErrStartup) (NewHTTPSink (oParseURL w (App.AuditSinkURL config)) VersionTLS13);
  Ok (mkPrepared keys spool databaseURL tls clientCAs sink).

(** From the open pool on; the database is changed by the migrations only. *)
Definition assemble_runtime (config : App.Config) (p : prepared) : result ProcessError Runtime :=
  manager ← map_err (λ _, ErrStartup) (NewPostgresManager (ppKeys p) [builtin_injector]);
  manager ← map_err (λ _, ErrStartup) (RequireAuditSpool (Some (ppSpool p)) manager);
  worker ← map_err (λ _, ErrStartup) (NewDeliveryWorker (ppSpool p) (oReach w (ppEndpoint p))
    (mkDeliveryConfig (App.AuditDeliveryBatchSize config) (App.AuditDeliveryPollInterval config) (App.AuditDeliveryRequestTimeout config)));
  handler ← map_err (λ _, ErrStartup) (NewServer (mkMapper (App.TrustDomain config)) 1);
  server ← map_err (λ _, ErrStartup) (NewHTTPServer (App.ListenAddress config) (ppTLS p));
  Ok (mkRuntime config (ppDatabaseURL p) (App.MaxDatabaseConns config) manager worker handler server.2 (ppClientCAs p)).
Definition connected (config : App.Config) (p : prepared) (s : schema) : result ProcessError Runtime * schema :=
  if negb (oPing w) then (Err ErrStartup, s)
  else let '(migrated, s1) := ApplyPostgresMigrations (oMigration w) (oMigrationNow w) s in
       if negb migrated then (Err ErrStartup, s1)
       else let '(migrated, s2) := ApplyAuditMigration (oAuditMigration w) (oMigrationNow w) s1 in
            if negb migrated then (Err ErrStartup, s2) else (assemble_runtime config p, s2).

(** The deferred function closes the pool unless [Build] got to its end. *)
Definition Build (config : App.Config) (h : host) : result ProcessError Runtime * host :=
  match App.validateConfig config with
  | Err e => (Err e, h)
  | Ok _ =>
      match prepare config with
      | Err e => (Err e, h)
      | Ok p =>
          if negb (oParsePool w (ppDatabaseURL p)) || negb (oNewPool w) then (Err ErrStartup, h)
          else let '(r, s) := connected config p (hSchema h) in
               let pools := hPools h + 1 in
               (r, mkHost s (if is_ok r then pools else pools - 1))
      end
  end.
End Build.

(** ** What a service needs to start *)

Section Start.
Context `{CR : Crypto} `{XC : X509} `{PG : PgTypes} `{MO : MapOrder} (w : outside).

(** A private key file, and a chain whose leaf is valid at the two readings of
    the clock from [n] on. *)
Definition current_pair (n : nat) (certificate key : string) (chain : list string) : Prop :=
  requireRestrictedFile (oFiles w) key = true ∧ LoadX509KeyPair (oFiles w) certificate key = Some chain ∧
  ∃ leaf rest notBefore notAfter, chain = leaf :: rest ∧ ParseCertificate leaf = Some (notBefore, notAfter) ∧
    notBefore ≤ oNow w n ∧ oNow w (S n) < notAfter.
Definition authorities (path pem : string) : Prop :=
  AppendCertsFromPEM pem = true ∧ len pem ≤ maxCertificateBytes ∧
  ∃ f, oFiles w !! path = Some f ∧ fContent f = pem ∧ fFault f = false.
Definition sink_address (endpoint : string) (parsed : sink_url) : Prop :=
  oParseURL w endpoint = Some parsed ∧ suScheme parsed = "https" ∧ suHost parsed ≠ "" ∧ suUser parsed = false ∧ suFragment parsed = "".

Lemma certificate_at_Some n certificate key chain :
  certificate_at w n certificate key = Some chain ↔ current_pair n certificate key chain.
Proof.
  unfold certificate_at, current_pair, Before. split.
  - destruct (requireRestrictedFile _ _); [|done]. cbn [negb]. intros H. apply bind_Some in H as (c & Hc & H).
    apply bind_Some in H as (leaf & Hl & H). apply bind_Some in H as ([nb na] & Hp & H).
    case_match eqn:Hb; [done|]. injection H as <-. bool_facts. destruct c as [|l rest]; [done|]. injection Hl as ->.
    split_and!; try done. exists leaf, rest, nb, na. split_and!; try done; lia.
  - intros (-> & -> & leaf & rest & nb & na & -> & Hp & Hn & Ha). cbn. rewrite Hp. cbn.
    by rewrite (proj2 (Z.ltb_ge _ _)), (proj2 (Z.ltb_lt _ _)) by lia.
Qed.
Lemma certificate_pool_Some path pem : certificate_pool w path = Some pem ↔ authorities path pem.
Proof.
  unfold certificate_pool, authorities. rewrite bind_Some. setoid_rewrite readBounded_Some. split.
  - intros (c & (f & Hf & Hc & Hn & Hl) & H). case_match; [|done]. simplify_eq. split_and!; eauto.
  - intros (Ha & Hl & f & Hf & Hc & Hn). exists pem. split; [eauto|]. by rewrite Ha.
Qed.
Lemma NewHTTPSink_Ok endpoint s :
  NewHTTPSink (oParseURL w endpoint) VersionTLS13 = Ok s ↔ ∃ parsed, sink_address endpoint parsed ∧ s = suString parsed.
Proof.
  unfold NewHTTPSink, sink_address. rewrite of_option_bind. split.
  - intros (u & Hu & H). apply guard_bind in H as [Hg H]. rewrite !orb_false_iff, !negb_false_iff, !String.eqb_eq, !String.eqb_neq in Hg.
    injection H as <-. destruct_and! Hg. exists u. by split_and!.
  - intros (u & (Hu & Hs & Hh & Hus & Hf) & ->). exists u. split; [done|].
    by rewrite Hs, Hus, Hf, (proj2 (String.eqb_neq _ _) Hh).
Qed.

(** The files and addresses a configuration names are in order. *)
Record launchable (config : App.Config) (keys : KeySet) (auditKey url clientCAs : string) (parsed : sink_url) : Prop := {
  la_master : Load (oFiles w) (MasterKey.mkConfig (App.MasterKeyFile config) (TrimSpace (App.PreviousKeyFile config))) = Ok keys;
  la_audit : key_file (oFiles w) (App.AuditKeyFile config) auditKey;
  la_url : ∃ content, private_file (oFiles w) (App.DatabaseURLFile config) content ∧ len content ≤ maxDatabaseURLBytes ∧
    TrimSpace content = url ∧ url ≠ "" ∧ contains_byte (zb 0) url = false;
  la_server : ∃ chain, current_pair 0 (App.TLSCertificateFile config) (App.TLSPrivateKeyFile config) chain;
  la_clients : authorities (App.ClientCAFile config) clientCAs;
  la_sink_pair : ∃ chain, current_pair 2 (App.AuditSinkCertificateFile config) (App.AuditSinkPrivateKeyFile config) chain;
  la_sink_ca : ∃ pem, authorities (App.AuditSinkCAFile config) pem;
  la_sink : sink_address (App.AuditSinkURL config) parsed
}.
(** What is put together from them. *)
Definition prepared_of (config : App.Config) (keys : KeySet) (auditKey url clientCAs : string) (parsed : sink_url) : prepared :=
  mkPrepared keys (mkSpool auditKey (App.MaxPendingAuditEvents config)) url (mkTLS true VersionTLS13) clientCAs (suString parsed).
Definition runtime_of (config : App.Config) (p : prepared) : Runtime :=
  mkRuntime config (ppDatabaseURL p) (App.MaxDatabaseConns config)
    (mkPostgresManager (mkManager (ppKeys p) (Some builtin_injector) DefaultResolutionPolicy) (Some (ppSpool p)))
    (mkWorker (ppSpool p) (oReach w (ppEndpoint p)) (App.AuditDeliveryBatchSize config))
    (mkServer (mkMapper (App.TrustDomain config)) true) (ppTLS p) (ppClientCAs p).

Lemma LoadKey_key_file fs path key : path ≠ "" → LoadKey fs path = Ok key ↔ key_file fs path key.
Proof.
  intros Hp. rewrite LoadKey_Ok. unfold key_file, private_file. split.
  - intros (Hl & (f & perm & Hf & Hi & Hperm & Hc & Hn) & (f' & Hf' & Ha)). simplify_eq. split_and!; [done..|]. by exists f, perm.
  - intros (_ & Hl & f & perm & Hf & Hi & Hperm & Hc & Hn & Ha). split; [done|]. split; [by exists f, perm|]. by exists f.
Qed.
Lemma current_pair_chain n certificate key chain : current_pair n certificate key chain → TLSConfig chain = Some (mkTLS true VersionTLS13).
Proof. by intros (_ & _ & leaf & rest & _ & _ & -> & _). Qed.

Lemma prepare_Ok config p : app_acceptable config →
  prepare w config = Ok p ↔
  ∃ keys auditKey url clientCAs parsed, launchable config keys auditKey url clientCAs parsed ∧
    p = prepared_of config keys auditKey url clientCAs parsed.
Proof.
  intros Hc. pose proof (app_pending _ Hc) as Hpend. assert (App.AuditKeyFile config ≠ "") as Hkf.
  { pose proof (app_texts _ Hc) as Ht. rewrite !Forall_cons in Ht. destruct_and! Ht. by match goal with H : trimmed (App.AuditKeyFile _) |- _ => destruct H end. }
  assert (∀ k, len k = 32 → Spool.New k (App.MaxPendingAuditEvents config) = Ok (mkSpool k (App.MaxPendingAuditEvents config))) as Hnew.
  { intros k Hk. unfold Spool.New. by rewrite Hk, (proj2 (Z.ltb_ge _ _)) by lia. }
  unfold prepare. split.
  - intros H. apply bind_Ok in H as (keys & Hk%map_err_Ok & H). apply bind_Ok in H as (ak & Ha%map_err_Ok & H).
    apply bind_Ok in H as (spool & Hs%map_err_Ok & H). apply of_option_bind in H as (url & Hu & H).
    apply of_option_bind in H as (chain & Hsrv & H). apply of_option_bind in H as (pem & Hca & H).
    apply of_option_bind in H as (tls & Htls & H). apply of_option_bind in H as (chain' & Hsp & H).
    apply of_option_bind in H as (pem' & Hsca & H). apply bind_Ok in H as (sink & Hsink%map_err_Ok & H).
    apply LoadKey_key_file in Ha; [|done]. pose proof Ha as (_ & Hlen & _). rewrite Hnew in Hs by done.
    apply readRestrictedText_Some in Hu. apply certificate_at_Some in Hsrv, Hsp. apply certificate_pool_Some in Hca, Hsca.
    apply NewHTTPSink_Ok in Hsink as (parsed & Hparsed & ->). rewrite (current_pair_chain _ _ _ _ Hsrv) in Htls.
    exists keys, ak, url, pem, parsed. split; [by split; eauto|]. by simplify_eq.
  - intros (keys & ak & url & pem & parsed & [Hk Ha Hu [chain Hsrv] Hca [chain' Hsp] [pem' Hsca] Hparsed] & ->).
    pose proof Ha as (_ & Hlen & _). apply LoadKey_key_file in Ha; [|done].
    apply readRestrictedText_Some in Hu. pose proof (current_pair_chain _ _ _ _ Hsrv) as Htls.
    apply certificate_at_Some in Hsrv, Hsp. apply certificate_pool_Some in Hca, Hsca.
    assert (NewHTTPSink (oParseURL w (App.AuditSinkURL config)) VersionTLS13 = Ok (suString parsed)) as Hsink by (apply NewHTTPSink_Ok; eauto).
    rewrite Hk, Ha. cbn [map_err mbind result_bind]. rewrite Hnew by done. cbn [map_err mbind result_bind].
    rewrite Hu. cbn [of_option mbind result_bind]. rewrite Hsrv. cbn [of_option mbind result_bind]. rewrite Hca. cbn [of_option mbind result_bind].
    rewrite Htls. cbn [of_option mbind result_bind]. rewrite Hsp. cbn [of_option mbind result_bind]. rewrite Hsca. cbn [of_option mbind result_bind].
    by rewrite Hsink.
Qed.

(** No constructor refuses what a checked configuration and loaded keys give it. *)
Lemma assemble_runtime_Ok config p : app_acceptable config → set_ok (ppKeys p) → ppTLS p = mkTLS true VersionTLS13 →
  assemble_runtime w config p = Ok (runtime_of config p).
Proof.
  intros Hc [[Hid _] _ _] Htls. pose proof (app_texts _ Hc) as Ht. rewrite !Forall_cons in Ht. destruct_and! Ht.
  unfold assemble_runtime, NewPostgresManager, NewManager. rewrite (proj2 (String.eqb_neq _ _) Hid).
  cbn [length Nat.ltb Nat.leb orb guard_err mbind result_bind map_err RequireAuditSpool pmManager head].
  unfold RequireAuditSpool at 1. rewrite bool_decide_eq_false_2 by done. cbn [pmManager guard_err mbind result_bind map_err].
  unfold NewDeliveryWorker. rewrite (app_delivery _ Hc). cbn [mbind result_bind map_err].
  unfold NewServer. cbn [TrustDomain]. rewrite trimmed_nonempty by done. cbn [orb mbind result_bind map_err Z.of_nat Z.ltb Z.compare].
  unfold NewHTTPServer. rewrite trimmed_nonempty, Htls by done. cbn. unfold runtime_of. by rewrite Htls.
Qed.

(** Both migrations end well. *)
Definition migrates (s : schema) : Prop :=
  let '(ok, s1) := ApplyPostgresMigrations (oMigration w) (oMigrationNow w) s in
  ok = true ∧ (ApplyAuditMigration (oAuditMigration w) (oMigrationNow w) s1).1 = true.

Lemma connected_spec config p s : app_acceptable config → set_ok (ppKeys p) → ppTLS p = mkTLS true VersionTLS13 → sound s →
  let '(r, s') := connected w config p s in
  sound s' ∧ (∀ d, assemble s = Some d → assemble s' = Some d) ∧
  (r = Err ErrStartup ∨ r = Ok (runtime_of config p) ∧ is_Some (assemble s')) ∧
  (r = Ok (runtime_of config p) ↔ oPing w = true ∧ migrates s).
Proof.
  intros Hc Hk Htls Hs. unfold connected, migrates. destruct (oPing w); cbn [negb]; [|by split_and!; auto; split; naive_solver].
  pose proof (migration_sound (oMigration w) (oMigrationNow w) s Hs) as H1.
  destruct (ApplyPostgresMigrations _ _ s) as [ok s1]. destruct H1 as (Hs1 & Hkeep & Hok & _ & _ & Hau).
  assert (∀ d, assemble s = Some d → s1 = s) as Hsame by (intros d Hd; by apply Hkeep, (ready_after_absent s d)).
  destruct ok; cbn [negb].
  2: { split_and!; [done|intros d Hd; by rewrite (Hsame d Hd)|by left|]. split; naive_solver. }
  pose proof (audit_migration_sound (oAuditMigration w) (oMigrationNow w) s1 Hs1) as H2.
  destruct (ApplyAuditMigration _ _ s1) as [ok' s2]. destruct H2 as (Hs2 & Hkeep' & Hok' & _ & _ & Hse).
  assert (∀ d, assemble s = Some d → assemble s2 = Some d) as Hd2.
  { intros d Hd. rewrite Hkeep'; [by rewrite (Hsame d Hd)|]. rewrite (Hsame d Hd). by apply (ready_after_absent s d). }
  destruct ok'; cbn [negb fst snd].
  2: { split_and!; [done|done|by left|]. split; naive_solver. }
  rewrite assemble_runtime_Ok by done. split_and!; [done|done|right; split; [done|]|done]. apply assemble_ready; auto.
Qed.

Lemma launchable_keys config keys auditKey url clientCAs parsed : launchable config keys auditKey url clientCAs parsed → set_ok keys.
Proof. intros Hl. eapply Load_set_ok, la_master, Hl. Qed.
Lemma app_valid config : app_acceptable config → App.validateConfig config = Ok ().
Proof. apply app_validate. Qed.

(** C18: a service with a configuration that [LoadConfig] can return starts
    exactly when what the configuration names is in order: private files with
    the keys and the database URL, certificates that are valid now, authorities,
    an https sink, a reachable database whose migrations run.  Then it runs with
    those keys, and its store writes to the audit spool; the tables exist.
    Otherwise it fails with the startup error and leaves no connection pool
    open.  Either way the data in an existing database is untouched. *)
Theorem build_exact config h :
  app_acceptable config → sound (hSchema h) →
  let '(r, h') := Build w config h in
  (r = Err ErrStartup ∧ hPools h' = hPools h ∨
   ∃ keys auditKey url clientCAs parsed, launchable config keys auditKey url clientCAs parsed ∧
     r = Ok (runtime_of config (prepared_of config keys auditKey url clientCAs parsed)) ∧
     hPools h' = hPools h + 1 ∧ is_Some (assemble (hSchema h'))) ∧
  (∀ d, assemble (hSchema h) = Some d → assemble (hSchema h') = Some d) ∧
  (is_ok r = true ↔ ∃ keys auditKey url clientCAs parsed, launchable config keys auditKey url clientCAs parsed ∧
     oParsePool w url = true ∧ oNewPool w = true ∧ oPing w = true ∧ migrates (hSchema h)).
Proof.
  intros Hc Hs. unfold Build. rewrite app_validate by done. destruct (prepare w config) as [p|e] eqn:Hp.
  - destruct (proj1 (prepare_Ok config p Hc) Hp) as (keys & ak & url & pem & parsed & Hl & ->).
    assert (∀ keys' ak' url' pem' parsed', launchable config keys' ak' url' pem' parsed' → url' = url) as Huniq.
    { intros keys' ak' url' pem' parsed' Hl'. assert (prepare w config = Ok (prepared_of config keys' ak' url' pem' parsed')) as Hp'.
      { apply prepare_Ok; [done|]. by eexists _, _, _, _, _. }
      rewrite Hp in Hp'. unfold prepared_of in Hp'. congruence. }
    cbn [ppDatabaseURL prepared_of]. destruct (oParsePool w url) eqn:Hpool, (oNewPool w) eqn:Hnew; cbn [negb orb].
    2-4: split_and!; [by left|done|]; split; [done|]; intros (keys' & ak' & url' & pem' & parsed' & Hl' & Hpp & Hn & _);
      rewrite (Huniq _ _ _ _ _ Hl') in Hpp; congruence.
    pose proof (connected_spec config (prepared_of config keys ak url pem parsed) (hSchema h) Hc (launchable_keys _ _ _ _ _ _ Hl) eq_refl Hs) as H.
    destruct (connected _ _ _ _) as [r s']. destruct H as (_ & Hd & Hr & Hiff). cbn [hSchema hPools]. split_and!; [|done|].
    + destruct Hr as [->|[-> Ha]]; [left; cbn [is_ok]; split; [done|lia]|right]. exists keys, ak, url, pem, parsed. by split_and!.
    + split.
      * intros Hok. destruct Hr as [->|[-> _]]; [done|]. destruct (proj1 Hiff eq_refl) as [Hping Hmig].
        exists keys, ak, url, pem, parsed. by split_and!.
      * intros (keys' & ak' & url' & pem' & parsed' & _ & _ & _ & Hping & Hmig). by rewrite (proj2 Hiff (conj Hping Hmig)).
  - assert (e = ErrStartup) as ->.
    { revert Hp. clear. unfold prepare. intros H.
      repeat match type of H with
      | map_err _ ?m ≫= _ = Err _ => destruct m; cbn [map_err mbind result_bind] in H; [|congruence]
      | of_option _ ?m ≫= _ = Err _ => destruct m; cbn [of_option mbind result_bind] in H; [|congruence]
      end. discriminate. }
    split_and!; [by left|done|]. split; [done|]. intros (keys & ak & url & pem & parsed & Hl & _).
    assert (prepare w config = Ok (prepared_of config keys ak url pem parsed)); [|congruence].
    apply prepare_Ok; [done|]. by eexists _, _, _, _, _.
Qed.
End Start.

(** ** The audit sink *)

Record SinkRuntime : Type := mkSinkRuntime {
  srConfig : Sink.Config; srDatabaseURL : string; srMaxConns : Z; srHandler : string; srTLS : tls_config; srClientCAs : string
}.
Record sink_host : Type := mkSinkHost { shSchema : sink_schema; shPools : Z }.

Section SinkBuild.
Context `{XC : X509} `{PG : PgTypes} (w : outside) (serverNow : time).

Definition prepare_sink (config : Sink.Config) : result ProcessError (string * tls_config * string) :=
  databaseURL ← of_option ErrStartup (readRestrictedText (oFiles w) (Sink.DatabaseURLFile config) maxDatabaseURLBytes);
  certificate ← of_option ErrStartup (certificate_at w 0 (Sink.TLSCertificateFile config) (Sink.TLSPrivateKeyFile config));
  clientCAs ← of_option ErrStartup (certificate_pool w (Sink.ClientCAFile config));
  tls ← of_option ErrStartup (TLSConfig certificate);
  Ok (databaseURL, tls, clientCAs).
Definition BuildSink (config : Sink.Config) (h : sink_host) : result ProcessError SinkRuntime * sink_host :=
  match Sink.validateConfig config with
  | Err e => (Err e, h)
  | Ok _ =>
      match prepare_sink config with
      | Err e => (Err e, h)
      | Ok (databaseURL, tls, clientCAs) =>
          if negb (oParsePool w databaseURL) || negb (oNewPool w) then (Err ErrStartup, h)
          else
            let '(migrated, s) :=
              if oPing w then ApplySinkMigration (oMigration w) (oMigrationNow w) serverNow (shSchema h) else (false, shSchema h) in
            let r :=
              _ ← guard_err (negb migrated) ErrStartup;
              handler ← map_err (λ _, ErrStartup) (Sink.NewHandler (Sink.TrustDomain config));
              Ok (mkSinkRuntime config databaseURL (Sink.MaxDatabaseConns config) handler tls clientCAs) in
            let pools := shPools h + 1 in
            (r, mkSinkHost s (if is_ok r then pools else pools - 1))
      end
  end.

Record sink_launchable (config : Sink.Config) (url clientCAs : string) : Prop := {
  sl_url : ∃ content, private_file (oFiles w) (Sink.DatabaseURLFile config) content ∧ len content ≤ maxDatabaseURLBytes ∧
    TrimSpace content = url ∧ url ≠ "" ∧ contains_byte (zb 0) url = false;
  sl_server : ∃ chain, current_pair w 0 (Sink.TLSCertificateFile config) (Sink.TLSPrivateKeyFile config) chain;
  sl_clients : authorities w (Sink.ClientCAFile config) clientCAs
}.
Lemma prepare_sink_Ok config x :
  prepare_sink config = Ok x ↔ ∃ url pem, sink_launchable config url pem ∧ x = (url, mkTLS true VersionTLS13, pem).
Proof.
  unfold prepare_sink. split.
  - intros H. apply of_option_bind in H as (url & Hu%readRestrictedText_Some & H).
    apply of_option_bind in H as (chain & Hc%certificate_at_Some & H). apply of_option_bind in H as (pem & Hp%certificate_pool_Some & H).
    apply of_option_bind in H as (tls & Htls & H). rewrite (current_pair_chain _ _ _ _ _ Hc) in Htls. simplify_eq.
    exists url, pem. split; [by split; eauto|done].
  - intros (url & pem & [Hu%readRestrictedText_Some [chain Hc] Hp%certificate_pool_Some] & ->).
    pose proof (current_pair_chain _ _ _ _ _ Hc) as Htls. apply certificate_at_Some in Hc.
    rewrite Hu. cbn [of_option mbind result_bind]. rewrite Hc. cbn [of_option mbind result_bind]. rewrite Hp. cbn [of_option mbind result_bind].
    by rewrite Htls.
Qed.
Lemma prepare_sink_Err config e : prepare_sink config = Err e → e = ErrStartup.
Proof.
  unfold prepare_sink. intros H.
  repeat match type of H with of_option _ ?m ≫= _ = Err _ => destruct m; cbn [of_option mbind result_bind] in H; [|congruence] end. discriminate.
Qed.

(** The audit sink starts exactly when its files and its database are in order,
    and leaves no pool open when it does not. *)
Lemma sink_build_exact config h :
  sink_acceptable config → sink_absent (shSchema h) ∨ sink_ready (shSchema h) →
  let '(r, h') := BuildSink config h in
  (r = Err ErrStartup ∧ shPools h' = shPools h ∨
   ∃ url pem, sink_launchable config url pem ∧ shPools h' = shPools h + 1 ∧ sink_ready (shSchema h') ∧
     r = Ok (mkSinkRuntime config url (Sink.MaxDatabaseConns config) (Sink.TrustDomain config) (mkTLS true VersionTLS13) pem)) ∧
  (∀ x, ssStore (shSchema h) = Some x → shSchema h' = shSchema h) ∧
  (is_ok r = true ↔ ∃ url pem, sink_launchable config url pem ∧ oParsePool w url = true ∧ oNewPool w = true ∧ oPing w = true ∧
     (ApplySinkMigration (oMigration w) (oMigrationNow w) serverNow (shSchema h)).1 = true).
Proof.
  intros Hc Hs. unfold BuildSink. rewrite sink_validate_ok by done. destruct (prepare_sink config) as [x|e] eqn:Hp.
  2: { apply prepare_sink_Err in Hp as He. subst e. split_and!; [by left|done|]. split; [done|].
       intros (url & pem & Hl & _). assert (prepare_sink config = Ok (url, mkTLS true VersionTLS13, pem)); [|congruence].
       apply prepare_sink_Ok. eauto. }
  destruct (proj1 (prepare_sink_Ok config x) Hp) as (url & pem & Hl & ->).
  assert (∀ url' pem', sink_launchable config url' pem' → url' = url) as Huniq.
  { intros url' pem' Hl'. assert (prepare_sink config = Ok (url', mkTLS true VersionTLS13, pem')) as Hp' by (apply prepare_sink_Ok; eauto). congruence. }
  destruct (oParsePool w url) eqn:Hpool, (oNewPool w) eqn:Hnew; cbn [negb orb].
  2-4: split_and!; [by left|done|]; split; [done|]; intros (url' & pem' & Hl' & Hpp & Hn & _); rewrite (Huniq _ _ Hl') in Hpp; congruence.
  destruct (oPing w) eqn:Hping; cbn.
  2: { split_and!; [left; split; [done|lia]|done|]. split; [done|]. naive_solver. }
  pose proof (sink_migration_once (oMigration w) (oMigrationNow w) serverNow (shSchema h) Hs) as H.
  destruct (ApplySinkMigration _ _ _ _) as [ok s]. destruct H as (_ & Hok & Hkeep & _ & _). unfold Sink.NewHandler. rewrite (sink_trust _ Hc).
  destruct ok; cbn.
  - split_and!; [right; exists url, pem; by split_and!; auto|done|]. split; [|done]. intros _. exists url, pem. by split_and!.
  - split_and!; [left; split; [done|lia]|done|]. split; [done|]. naive_solver.
Qed.
End SinkBuild.

(** ** The commands *)

(** What is logged: a level, a message, an event.  No error is part of a line. *)
Inductive level : Type := Info | Error.
Definition log_line : Type := level * string * string.

Section Commands.
Context `{CR : Crypto} `{XC : X509} `{PG : PgTypes} `{MO : MapOrder} (w : outside).

(** [run] is whether [Run] returned without an error. *)
Definition service_main (lookup : environment) (run : Runtime → bool) (h : host) : list log_line * Z * host :=
  match App.LoadConfig (Some lookup) with
  | Err _ => ([(Error, "service configuration rejected", "startup_failed")], 1, h)
  | Ok config =>
      match Build w config h with
      | (Err _, h) => ([(Error, "service startup rejected", "startup_failed")], 1, h)
      | (Ok rt, h) =>
          let starting := (Info, "service starting", "service_starting") in
          if run rt then ([starting; (Info, "service stopped", "service_stopped")], 0, h)
          else ([starting; (Error, "service stopped unexpectedly", "runtime_failed")], 1, h)
      end
  end.
Definition sink_main (serverNow : time) (lookup : environment) (run : SinkRuntime → bool) (h : sink_host) : list log_line * Z * sink_host :=
  match Sink.LoadConfig (Some lookup) with
  | Err _ => ([(Error, "audit sink configuration rejected", "startup_failed")], 1, h)
  | Ok config =>
      match BuildSink w serverNow config h with
      | (Err _, h) => ([(Error, "audit sink startup rejected", "startup_failed")], 1, h)
      | (Ok rt, h) =>
          let starting := (Info, "audit sink starting", "service_starting") in
          if run rt then ([starting; (Info, "audit sink stopped", "service_stopped")], 0, h)
          else ([starting; (Error, "audit sink stopped unexpectedly", "runtime_failed")], 1, h)
      end
  end.

(** The commands log only lines of their own, and leave with status 0 exactly
    when the configuration loads, the service starts and it stops in order. *)
Definition service_lines : list log_line :=
  [(Error, "service configuration rejected", "startup_failed"); (Error, "service startup rejected", "startup_failed");
   (Info, "service starting", "service_starting"); (Error, "service stopped unexpectedly", "runtime_failed");
   (Info, "service stopped", "service_stopped")].
Lemma service_main_exact lookup run h :
  let '(lines, status, _) := service_main lookup run h in
  Forall (.∈ service_lines) lines ∧
  (status = 0 ↔ ∃ config rt, App.LoadConfig (Some lookup) = Ok config ∧ (Build w config h).1 = Ok rt ∧ run rt = true).
Proof.
  unfold service_main. destruct (App.LoadConfig _) as [config|e]; [|split; [repeat constructor; set_solver|naive_solver]].
  destruct (Build w config h) as [[rt|e] h'] eqn:HB.
  - destruct (run rt) eqn:Hr; (split; [repeat constructor; set_solver|]); split; try done.
    + intros _. exists config, rt. by rewrite HB.
    + intros (config' & rt' & [= <-] & Hrt & Hr'). rewrite HB in Hrt. cbn in Hrt. congruence.
  - split; [repeat constructor; set_solver|]. split; [done|]. intros (config' & rt' & [= <-] & Hrt & _). by rewrite HB in Hrt.
Qed.
End Commands.

(** ** Execution *)

Module ProcessExample.
Import ConfigExample.
#[local] Existing Instances toy_crypto toy_crypto_laws canonical_order MigrationExample.generous.
(** Every bundle with a byte is good, and every certificate is valid for a century. *)
#[local] Instance any_certificate : X509 := {|
  AppendCertsFromPEM := λ pem, negb (String.eqb pem "");
  X509KeyPair := λ c k, if String.eqb c "" || String.eqb k "" then None else Some [c];
  ParseCertificate := λ _, Some (0, 100 * 365 * 86400 * Second)
|}.
Definition secret (content : string) : file := mkFile (Some (true, 0x180)) content false ReadEOF.
Definition public (content : string) : file := mkFile (Some (true, 0x1A4)) content false ReadEOF.
Definition files : gmap string file := {[
  "/run/db" := secret ("postgres://db/secrets" +:+ String (zb 10) ""); "/run/master" := secret (stream 32 5); "/run/audit" := secret (stream 32 7);
  "/run/crt" := public "crt"; "/run/key" := secret "key"; "/run/ca" := public "ca";
  "/run/sca" := public "sca"; "/run/scrt" := public "scrt"; "/run/skey" := secret "skey" ]}.
Definition w : outside := mkOutside files (λ n, Z.of_nat n) (λ s, Some (mkSinkURL "https" "sink" false "" s))
  (λ _, mkEndpoint "/internal/v1/audit/events" "" None "praetor.example") (λ _, true) true true
  Postgres.calm Postgres.calm MigrationExample.clock.
Definition fresh : host := mkHost no_schema 0.
Definition started : result ProcessError Runtime * host := Build w app_config fresh.

Lemma starts : is_ok started.1 = true.
Proof. by vm_compute. Qed.
Lemma acceptable : app_acceptable app_config.
Proof. exact (app_load_acceptable _ _ app_loads). Qed.
(** With a key that others may read it does not start. *)
Example readable_key : (Build (mkOutside (<["/run/audit" := public (stream 32 7)]> files) (oNow w) (oParseURL w) (oReach w) (oParsePool w)
  true true Postgres.calm Postgres.calm MigrationExample.clock) app_config fresh).1 = Err ErrStartup.
Proof. by vm_compute. Qed.
End ProcessExample.

Lemma build_exact_witness :
  hPools ProcessExample.started.2 = 1 ∧ is_Some (assemble (hSchema ProcessExample.started.2)).
Proof.
  pose proof (build_exact (CR:=toy_crypto) (XC:=ProcessExample.any_certificate) (PG:=MigrationExample.generous) (MO:=canonical_order)
    ProcessExample.w ConfigExample.app_config ProcessExample.fresh ProcessExample.acceptable no_schema_sound) as H.
  fold ProcessExample.started in H. pose proof ProcessExample.starts as Hok. revert H Hok.
  generalize ProcessExample.started. intros [r h'] (Hr & _ & _) Hok. cbn [fst snd] in *.
  destruct Hr as [[Hr _]|(keys & ak & url & pem & parsed & _ & _ & Hp & Ha)]; [exfalso; rewrite Hr in Hok; discriminate Hok|].
  split; [exact Hp|exact Ha].
Defined.
