(* ===== verification/Trim.v ===== *)
(** * Trimming twice ([strings.TrimSpace])

    Cutting a text at rune boundaries does not change how the rest decodes, so
    that a trimmed text is its own trimming. *)

From Stdlib Require Import Ascii.
From S2P Require Import Prelude GoStrings TimeParse.

(** What a decoder sees of the first rune does not depend on what follows it. *)
Lemma decode_multi_prefix p q r w :
  decode_multi (p +:+ q) = Some (r, w) → (w ≤ String.length p)%nat → decode_multi p = Some (r, w).
Proof.
  intros H Hw. pose proof (decode_multi_width _ _ _ H) as [[Hl _] _].
  destruct p as [|a [|b [|c [|d p]]]]; cbn [String.length] in Hw; try lia; unfold decode_multi in *; rewrite ?app_cons in H; cbn in H.
  - destruct (decode_two a b); [done|]. exfalso. repeat go_step; simpl in *; lia.
  - destruct (decode_two a b); [done|]. destruct (decode_three a b c); [done|]. exfalso. repeat go_step; simpl in *; lia.
  - done.
Qed.
Lemma decode_multi_none p q : decode_multi (p +:+ q) = None → decode_multi p = None.
Proof.
  intros H. destruct p as [|a [|b [|c [|d p]]]]; try done; unfold decode_multi in *; rewrite ?app_cons in H; cbn in H; try done.
  - destruct (decode_two a b); done.
  - destruct (decode_two a b); [done|]. destruct (decode_three a b c); done.
Qed.
Lemma decode_rune_prefix p q r w :
  p ≠ "" → decode_rune (p +:+ q) = (r, w) → (w ≤ String.length p)%nat → decode_rune p = (r, w).
Proof.
  intros Hp H Hw. destruct p as [|a p]; [done|]. unfold decode_rune in *. rewrite app_cons in H. case_match; [done|].
  rewrite <-app_cons in H. destruct (decode_multi (String a p +:+ q)) as [[r' w']|] eqn:E; cbn in H; simplify_eq.
  - by rewrite (decode_multi_prefix _ _ _ _ E).
  - by rewrite (decode_multi_none _ _ E).
Qed.
Lemma decode_rune_width a s : (1 ≤ (decode_rune (String a s)).2 ≤ String.length (String a s))%nat.
Proof.
  unfold decode_rune. case_match; simpl; [lia|]. destruct (decode_multi _) as [[r w]|] eqn:E; simpl; [|lia].
  apply decode_multi_width in E. simpl in E. lia.
Qed.

(** The chunks of a text, one at a time. *)
Lemma chunks_skip n s : chunks_from n s = chunks_from 0 (drop_str n s).
Proof. revert s. induction n as [|n IH]; intros s; [done|]. destruct s; [done|]. simpl. apply IH. Qed.
Lemma chunks_cons a s : let '(r, w) := decode_rune (String a s) in
  chunks_from 0 (String a s) = (r, take_str w (String a s)) :: chunks_from 0 (drop_str w (String a s)).
Proof.
  pose proof (decode_rune_width a s) as Hw. cbn [chunks_from]. destruct (decode_rune (String a s)) as [r w]. simpl in Hw.
  destruct w as [|w]; [lia|]. cbn [pred]. by rewrite chunks_skip.
Qed.
Lemma chunks_ind (P : string → Prop) : P "" →
  (∀ a s, P (drop_str (decode_rune (String a s)).2 (String a s)) → P (String a s)) → ∀ s, P s.
Proof.
  intros H0 H1 s. remember (String.length s) as n eqn:Hn. revert s Hn. induction n as [n IH] using lt_wf_ind. intros s ->.
  destruct s as [|a s]; [done|]. apply H1. eapply IH; [|done]. pose proof (decode_rune_width a s). rewrite length_drop_str. simpl in *. lia.
Qed.
Lemma concat_chunks_all s : concat_chunks (chunks_from 0 s) = s.
Proof.
  induction s as [|a s IH] using chunks_ind; [done|]. pose proof (chunks_cons a s) as H. destruct (decode_rune (String a s)) as [r w].
  rewrite H. cbn [concat_chunks foldr snd] in *. fold (concat_chunks (chunks_from 0 (drop_str w (String a s)))). rewrite IH. apply take_drop_str.
Qed.
Lemma concat_chunks_app l k : concat_chunks (l ++ k) = concat_chunks l +:+ concat_chunks k.
Proof. induction l as [|x l IH]; [done|]. cbn [app concat_chunks foldr]. fold (concat_chunks (l ++ k)) (concat_chunks l). by rewrite IH, app_assoc_str. Qed.

Lemma chunks_tail l k s : chunks_from 0 s = l ++ k → chunks_from 0 (concat_chunks k) = k.
Proof.
  revert s. induction l as [|x l IH]; intros s H.
  - simpl in H. rewrite <-H. by rewrite concat_chunks_all.
  - destruct s as [|a s]; [done|]. pose proof (chunks_cons a s) as Hc. destruct (decode_rune _) as [r w]. rewrite Hc in H.
    injection H as _ H. by apply IH in H.
Qed.
Lemma chunks_head l k s : chunks_from 0 s = l ++ k → chunks_from 0 (concat_chunks l) = l.
Proof.
  revert s. induction l as [|x l IH]; intros s H; [done|].
  destruct s as [|a s]; [done|]. pose proof (chunks_cons a s) as Hc. pose proof (decode_rune_width a s) as Hw.
  pose proof (take_drop_str (decode_rune (String a s)).2 (String a s)) as Htd.
  pose proof (concat_chunks_all (String a s)) as Hall. rewrite H in Hall. rewrite concat_chunks_app in Hall.
  destruct (decode_rune (String a s)) as [r w] eqn:Er. cbn [snd] in *. rewrite Hc in H. injection H as <- H.
  assert (concat_chunks ((r, take_str w (String a s)) :: l) = take_str w (String a s) +:+ concat_chunks l) as Hl by done.
  pose proof (length_take_str w (String a s) (proj2 Hw)) as Hlen.
  destruct (take_str w (String a s)) as [|b t] eqn:Et; [simpl in Hlen; lia|].
  assert (decode_rune (concat_chunks ((r, String b t) :: l)) = (r, w)) as Hdec.
  { eapply (decode_rune_prefix _ (concat_chunks k)); [by rewrite Hl, app_cons|by rewrite Hall|].
    rewrite Hl, string_app_length, Hlen. lia. }
  rewrite Hl in *. rewrite app_cons in *. pose proof (chunks_cons b (t +:+ concat_chunks l)) as Hc2. rewrite Hdec in Hc2. rewrite Hc2.
  rewrite <-app_cons, take_str_app', drop_str_app' by done. f_equal. eauto.
Qed.

Lemma drop_space_suffix l : ∃ k, l = k ++ drop_space l.
Proof.
  induction l as [|[r c] l [k IH]]; [by exists []|]. simpl. case_match; [|by exists []]. exists ((r, c) :: k). simpl. by rewrite <-IH.
Qed.
Lemma drop_space_idem l : drop_space (drop_space l) = drop_space l.
Proof. induction l as [|[r c] l IH]; [done|]. simpl. case_match eqn:H; [done|]. simpl. by rewrite H. Qed.
(** Nothing is dropped in front of a list whose end was trimmed after its front. *)
Lemma drop_space_reverse l : drop_space l = l → drop_space (reverse (drop_space (reverse l))) = reverse (drop_space (reverse l)).
Proof.
  intros H. destruct (drop_space_suffix (reverse l)) as [k Hk]. apply (f_equal reverse) in Hk. rewrite reverse_involutive, reverse_app in Hk.
  destruct (reverse (drop_space (reverse l))) as [|[r c] m] eqn:Em; [done|]. subst l. simpl in H |- *.
  destruct (IsSpace r); [|done]. exfalso. apply (f_equal length) in H. destruct (drop_space_suffix (m ++ reverse k)) as [k' Hk'].
  apply (f_equal length) in Hk'. rewrite !length_app in *. simpl in H. rewrite length_app in H. lia.
Qed.

Lemma TrimSpace_idem s : TrimSpace (TrimSpace s) = TrimSpace s.
Proof.
  unfold TrimSpace at 1. set (l := chunks_from 0 s). set (m := drop_space l). set (n := reverse (drop_space (reverse m))).
  assert (chunks_from 0 (TrimSpace s) = n) as ->.
  { destruct (drop_space_suffix l) as [k Hk]. destruct (drop_space_suffix (reverse m)) as [k' Hk'].
    apply (f_equal reverse) in Hk'. rewrite reverse_involutive, reverse_app in Hk'. fold n in Hk'.
    assert (chunks_from 0 (concat_chunks m) = m) as Hm by (by eapply chunks_tail).
    eapply chunks_head. rewrite Hm. exact Hk'. }
  assert (drop_space n = n) as -> by (apply drop_space_reverse, drop_space_idem).
  unfold n at 1. rewrite reverse_involutive, drop_space_idem. done.
Qed.
Lemma len_TrimSpace s : len (TrimSpace s) ≤ len s.
Proof.
  rewrite <-(concat_chunks_all s) at 2. unfold TrimSpace. set (m := drop_space (chunks_from 0 s)).
  destruct (drop_space_suffix (chunks_from 0 s)) as [k Hk]. fold m in Hk.
  destruct (drop_space_suffix (reverse m)) as [k' Hk']. apply (f_equal reverse) in Hk'. rewrite reverse_involutive, reverse_app in Hk'.
  rewrite Hk, concat_chunks_app. rewrite Hk' at 2. rewrite concat_chunks_app. unfold len. rewrite !string_app_length. lia.
Qed.
