(* ===== verification/Bootstrap.v ===== *)
(** * Development bootstrap (src/devbootstrap/generate.go, src/cmd/praetor-dev-bootstrap)

    [Generate] makes the files a development deployment is started with: three
    certificate authorities, server and client certificates, two keys, and the
    database URLs it was given.  Keys and certificates are made by the [PKI];
    the output directory is a tree of files by their names relative to it, [None]
    as long as it does not exist. *)

From Stdlib Require Import Ascii.
From S2P Require Import Prelude GoStrings Json GoTime TimeParse JsonValue Crypto Envelope MasterKey Credential AuditEvent Spool Wire Identity AuditSink Delivery Server Config Files Postgres Migrations Process Trim.

(** ** crypto/x509, crypto/ecdsa, encoding/pem

    A certificate template; keys from the random source, whose [n]-th use the
    argument counts; a certificate in DER, signed by the key of the issuer
    ([None]: by itself); the PEM of both. *)
Record template : Type := mkTemplate {
  tpSerial : Z; tpCommonName : string; tpNotBefore : time; tpNotAfter : time; tpIsCA : bool;
  tpServerAuth : bool; tpClientAuth : bool; tpDNSNames : list string; tpURIs : list uri
}.
Class PKI : Type := {
  Random : nat → option string;
  GenerateKey : nat → option string;
  RandomInt : nat → option Z;
  CreateCertificate : template → option string → string → string → option string;
  MarshalPKCS8PrivateKey : string → option string;
  certificatePEM : string → string;
  privateKeyPEM : string → string;
  URIs : string → list uri
}.

(** ** Names and addresses *)

Definition validDNSName (value : string) : bool :=
  if String.eqb value "" || (253 <? len value) || negb (String.eqb value (ascii_lower value)) then false
  else forallb (λ label,
    negb (String.eqb label "" || (63 <? len label) || HasPrefix label "-" || HasSuffix label "-") &&
    forallb label_rune (runes label)) (split_on "." value).

(** The files of the caller, and how [url.Parse] reads what is in them: a scheme
    and a host. *)
Record surroundings : Type := mkSurroundings {
  suFiles : gmap string file;
  suParse : string → option (string * string);
  suNow : time;
  suUnixNano : nat → Z;
  suMkdir : bool;
  suWrites : string → bool;
  suChmod : bool;
  suRemoves : bool
}.

(** What [os.Stat] says of the size is the length of the content. *)
Definition readDatabaseURL (su : surroundings) (path : string) : option string :=
  f ← suFiles su !! path;
  '(regular, perm) ← fInfo f;
  if negb regular || negb (Z.land perm 0x3F =? 0) || (4096 <? len (fContent f)) then None
  else if fFault f then None
  else
    let trimmed := TrimSpace (fContent f) in
    '(scheme, host) ← suParse su trimmed;
    if negb (String.eqb scheme "postgres") && negb (String.eqb scheme "postgresql") || String.eqb host "" ||
       contains_byte (zb 0) trimmed then None
    else Some trimmed.

(** [url.Parse] of a SPIFFE identity whose trust domain is a DNS name. *)
Definition spiffe_identity (trustDomain workload : string) : uri := mkUri "spiffe" trustDomain ("/workload/" +:+ workload) "" "".

(** ** Certificates *)

Record certificateAuthority : Type := mkCA { caCertificate : string; caPrivateKey : string; caPEM : string }.

Section Issue.
Context `{PK : PKI} `{XC : X509} (su : surroundings).

Definition Hour : duration := 60 * Minute.
(** The fallback is [time.Now().UnixNano()]. *)
Definition randomSerial (n : nat) : Z :=
  match RandomInt n with None => suUnixNano su n | Some serial => if serial =? 0 then suUnixNano su n else serial end.

Definition newCA (n : nat) (name : string) : option certificateAuthority :=
  key ← GenerateKey n;
  let t := mkTemplate (randomSerial n) name (Add (suNow su) (- (5 * Minute))) (Add (suNow su) (30 * 24 * Hour)) true false false [] [] in
  der ← CreateCertificate t None key key;
  _ ← ParseCertificate der;
  Some (mkCA der key (certificatePEM der)).

Definition issue (ca : certificateAuthority) (n : nat) (dnsNames : list string) (identity : option uri) : option (string * string) :=
  key ← GenerateKey n;
  let t := mkTemplate (randomSerial n) "" (Add (suNow su) (- (5 * Minute))) (Add (suNow su) (7 * 24 * Hour)) false
    (bool_decide (identity = None)) (negb (bool_decide (identity = None))) dnsNames (match identity with Some u => [u] | None => [] end) in
  der ← CreateCertificate t (Some (caCertificate ca)) key (caPrivateKey ca);
  keyDER ← MarshalPKCS8PrivateKey key;
  Some (certificatePEM der, privateKeyPEM keyDER).
Definition issueServer (ca : certificateAuthority) (n : nat) (service namespace : string) : option (string * string) :=
  issue ca n [service; service +:+ "." +:+ namespace; service +:+ "." +:+ namespace +:+ ".svc";
              service +:+ "." +:+ namespace +:+ ".svc.cluster.local"] None.
Definition issueClient (ca : certificateAuthority) (n : nat) (identity : uri) : option (string * string) := issue ca n [] (Some identity).
End Issue.

(** ** The output directory *)

Abbreviation tree := (gmap string (Z * string)).

Record Config : Type := mkConfig {
  OutputDirectory : string; Namespace : string; TrustDomain : string; SchedulerServiceName : string;
  SecretsDatabaseURLFile : string; AuditDatabaseURLFile : string
}.

(** The name of a namespace needs no escaping in the [%q] of the script. *)
Definition kubectlScript (namespace : string) : string := between_quotes
  ["#!/bin/sh
set -eu
root="; "$(CDPATH= cd -- "; "$(dirname -- "; "$0"; ")"; " && pwd)"; "
namespace="; namespace; "
kubectl create namespace "; "$namespace"; " --dry-run=client -o yaml | kubectl apply -f -
kubectl -n "; "$namespace"; " create secret generic praetor-secrets-runtime --from-file="; "$root/praetor-secrets-runtime"; " --dry-run=client -o yaml | kubectl apply -f -
kubectl -n "; "$namespace"; " create secret generic praetor-secrets-server --from-file="; "$root/praetor-secrets-server"; " --dry-run=client -o yaml | kubectl apply -f -
kubectl -n "; "$namespace"; " create secret generic praetor-secrets-audit-client --from-file="; "$root/praetor-secrets-audit-client"; " --dry-run=client -o yaml | kubectl apply -f -
kubectl -n "; "$namespace"; " create secret generic praetor-audit-runtime --from-file="; "$root/praetor-audit-runtime"; " --dry-run=client -o yaml | kubectl apply -f -
kubectl -n "; "$namespace"; " create secret generic praetor-audit-server --from-file="; "$root/praetor-audit-server"; " --dry-run=client -o yaml | kubectl apply -f -
"].

(** The clients of the workload authority, and who they are. *)
Definition workloadClients (trustDomain : string) : gmap string uri := {[
  "praetor-api" := spiffe_identity trustDomain "praetor-api";
  "praetor-scheduler" := spiffe_identity trustDomain "praetor-scheduler";
  "praetor-executor" := spiffe_identity trustDomain "praetor-executor/development-1";
  "praetor-secrets-operator" := spiffe_identity trustDomain "praetor-secrets-operator";
  "praetor-secrets-auditor" := spiffe_identity trustDomain "praetor-secrets-auditor" ]}.

Section Generate.
Context `{PK : PKI} `{XC : X509} `{MO : MapOrder} (su : surroundings).

(** The client certificates, in the order of the map; the [n]-th key is next. *)
Fixpoint client_files (ca : certificateAuthority) (n : nat) (l : list (string * uri)) (files : gmap string string)
    : option (gmap string string) :=
  match l with
  | [] => Some files
  | (name, identity) :: l =>
      '(certificate, key) ← issueClient su ca n identity;
      client_files ca (S n) l
        (<["clients/" +:+ name +:+ "/ca.crt" := caPEM ca]> (<["clients/" +:+ name +:+ "/tls.key" := key]>
           (<["clients/" +:+ name +:+ "/tls.crt" := certificate]> files)))
  end.

(** Everything that is generated, before any of it is written. *)
Definition generated_files (config : Config) (secretsURL auditURL : string) : option (gmap string string) :=
  workloadCA ← newCA su 0 "praetor-development-workload-ca";
  auditServerCA ← newCA su 1 "praetor-development-audit-server-ca";
  auditClientCA ← newCA su 2 "praetor-development-audit-client-ca";
  '(secretsServer, secretsServerKey) ← issueServer su workloadCA 3 "praetor-secrets" (Namespace config);
  '(claimServer, claimServerKey) ← issueServer su workloadCA 4 (SchedulerServiceName config) (Namespace config);
  '(auditServer, auditServerKey) ← issueServer su auditServerCA 5 "praetor-audit-sink" (Namespace config);
  '(auditClient, auditClientKey) ← issueClient su auditClientCA 6 (spiffe_identity (TrustDomain config) "praetor-secrets");
  masterKey ← Random 0;
  auditKey ← Random 1;
  client_files workloadCA 7 (iterate (workloadClients (TrustDomain config))) (list_to_map [
    ("praetor-secrets-runtime/database-url", secretsURL);
    ("praetor-secrets-runtime/master-key", masterKey);
    ("praetor-secrets-runtime/audit-key", auditKey);
    ("praetor-secrets-server/tls.crt", secretsServer);
    ("praetor-secrets-server/tls.key", secretsServerKey);
    ("praetor-secrets-server/ca.crt", caPEM workloadCA);
    ("clients/praetor-scheduler/claim.crt", claimServer);
    ("clients/praetor-scheduler/claim.key", claimServerKey);
    ("clients/praetor-scheduler/executor-ca.crt", caPEM workloadCA);
    ("clients/praetor-executor/secrets-ca.crt", caPEM workloadCA);
    ("praetor-secrets-audit-client/tls.crt", auditClient);
    ("praetor-secrets-audit-client/tls.key", auditClientKey);
    ("praetor-secrets-audit-client/ca.crt", caPEM auditServerCA);
    ("praetor-audit-runtime/database-url", auditURL);
    ("praetor-audit-server/tls.crt", auditServer);
    ("praetor-audit-server/tls.key", auditServerKey);
    ("praetor-audit-server/ca.crt", caPEM auditClientCA)]).

(** A file that only its owner may read; [None] when the directory or the file
    cannot be written. *)
Definition writeRestricted (path value : string) (t : tree) : option tree :=
  if suWrites su path then Some (<[path := (0x180, value)]> t) else None.
Fixpoint write_all (l : list (string * string)) (t : tree) : option tree :=
  match l with [] => Some t | (path, value) :: l => t ← writeRestricted path value t; write_all l t end.
Definition write_tree (config : Config) (files : gmap string string) : option tree :=
  t ← write_all (iterate files) ∅;
  t ← writeRestricted "kubectl-secrets.sh" (kubectlScript (Namespace config)) t;
  t ← if suChmod su then Some (<["kubectl-secrets.sh" := (0x1C0, kubectlScript (Namespace config))]> t) else None;
  writeRestricted ".gitignore" ("*" +:+ newline +:+ "!.gitignore" +:+ newline) t.

Definition with_defaults (config : Config) : Config :=
  mkConfig (OutputDirectory config) (Namespace config) (TrustDomain config)
    (if String.eqb (SchedulerServiceName config) "" then "praetor-scheduler" else SchedulerServiceName config)
    (SecretsDatabaseURLFile config) (AuditDatabaseURLFile config).
Definition refused (config : Config) : bool :=
  negb (validDNSName (Namespace config)) || negb (validDNSName (TrustDomain config)) || String.eqb (OutputDirectory config) "" ||
  negb (validDNSName (SchedulerServiceName config)) || String.eqb (SecretsDatabaseURLFile config) "" ||
  String.eqb (AuditDatabaseURLFile config) "".

(** Whether it succeeded (every error is [ErrInvalid]) and the output directory
    afterwards; on an error the deferred function removes the directory, of
    which [left_behind] is what there is when that does not work.  The parent
    directories that [MkdirAll] makes, and that stay, are not part of the state. *)
Definition Generate (left_behind : tree) (config : Config) (before : option tree) : bool * option tree :=
  let config := with_defaults config in
  if refused config || bool_decide (is_Some before) then (false, before)
  else match readDatabaseURL su (SecretsDatabaseURLFile config), readDatabaseURL su (AuditDatabaseURLFile config) with
       | Some secretsURL, Some auditURL =>
           if negb (suMkdir su) then (false, before)
           else match files ← generated_files config secretsURL auditURL; write_tree config files with
                | Some t => (true, Some t)
                | None => (false, if suRemoves su then None else Some left_behind)
                end
       | _, _ => (false, before)
       end.
End Generate.

(** ** What is written *)

Section Written.
Context `{PK : PKI} `{XC : X509} `{MO : MapOrder} (su : surroundings).

Lemma write_all_lookup l t t' : NoDup l.*1 → write_all su l t = Some t' →
  (∀ path value, (path, value) ∈ l → t' !! path = Some (0x180, value)) ∧ (∀ path, path ∉ l.*1 → t' !! path = t !! path).
Proof.
  revert t. induction l as [|[p v] l IH]; intros t Hnd H; cbn [write_all] in H.
  - simplify_eq. split; [set_solver|done].
  - cbn [fmap list_fmap fst] in Hnd. apply NoDup_cons in Hnd as [Hp Hnd]. apply bind_Some in H as (t1 & H1 & H).
    unfold writeRestricted in H1. case_match; [|done]. injection H1 as <-. destruct (IH _ Hnd H) as [Hin Hout]. split.
    + intros path value [[= -> ->]|Hl]%elem_of_cons; [|eauto]. by rewrite Hout, lookup_insert_eq.
    + intros path Hne. cbn [fmap list_fmap fst] in Hne. rewrite not_elem_of_cons in Hne. destruct Hne as [Hn Hne].
      rewrite Hout by done. by rewrite lookup_insert_ne.
Qed.

(** The tree holds the generated files, for their owner only, the script and
    the list of what to ignore. *)
Lemma write_tree_lookup config files t :
  write_tree su config files = Some t →
  (∀ path, path ≠ "kubectl-secrets.sh" → path ≠ ".gitignore" → t !! path = (λ v, (0x180, v)) <$> files !! path) ∧
  t !! "kubectl-secrets.sh" = Some (0x1C0, kubectlScript (Namespace config)) ∧ is_Some (t !! ".gitignore") ∧
  ∀ path perm content, t !! path = Some (perm, content) → Z.land perm 0x3F = 0.
Proof.
  unfold write_tree. intros H. apply bind_Some in H as (t1 & H1 & H). apply bind_Some in H as (t2 & H2 & H).
  apply bind_Some in H as (t3 & H3 & H). unfold writeRestricted in *. case_match; [|done]. case_match; [|done]. case_match; [|done].
  injection H2 as <-. injection H3 as <-. injection H as <-.
  destruct (write_all_lookup _ _ _ (NoDup_iterate_keys files) H1) as [Hin Hout].
  assert (∀ path, t1 !! path = (λ v, (0x180, v)) <$> files !! path) as Hall.
  { intros path. destruct (files !! path) as [v|] eqn:E; simpl; [by apply Hin, elem_of_iterate|].
    rewrite Hout, lookup_empty; [done|]. intros ([p v] & -> & Hp)%list_elem_of_fmap. apply elem_of_iterate in Hp. simpl in E. congruence. }
  split_and!.
  - intros path Hk Hg. by rewrite !lookup_insert_ne.
  - by rewrite lookup_insert_ne, lookup_insert_eq.
  - rewrite lookup_insert_eq. by eexists.
  - intros path perm content Hp. rewrite !lookup_insert_Some, Hall, fmap_Some in Hp. naive_solver.
Qed.
End Written.

(** ** What is generated *)

Definition client_paths (name : string) : list string :=
  ["clients/" +:+ name +:+ "/tls.crt"; "clients/" +:+ name +:+ "/tls.key"; "clients/" +:+ name +:+ "/ca.crt"].
Definition client_names : list string :=
  ["praetor-api"; "praetor-scheduler"; "praetor-executor"; "praetor-secrets-operator"; "praetor-secrets-auditor"].
(** No two clients share a file. *)
Lemma client_paths_disjoint name name' path :
  name ∈ client_names → name' ∈ client_names → path ∈ client_paths name → path ∈ client_paths name' → name = name'.
Proof.
  assert (Forall (λ n, Forall (λ n', n = n' ∨ Forall (λ p, p ∉ client_paths n') (client_paths n)) client_names) client_names) as H.
  { apply (bool_decide_unpack _). by vm_compute. }
  intros Hn Hn' Hp Hp'. rewrite Forall_forall in H. specialize (H _ Hn). rewrite Forall_forall in H.
  destruct (H _ Hn') as [|Hd]; [done|]. rewrite Forall_forall in Hd. by destruct (Hd _ Hp).
Qed.

Section Generated.
Context `{PK : PKI} `{XC : X509} `{MO : MapOrder} (su : surroundings).

Lemma client_files_spec ca n l files files' :
  NoDup l.*1 → (∀ name, name ∈ l.*1 → name ∈ client_names) → client_files su ca n l files = Some files' →
  (∀ path, (∀ name, name ∈ l.*1 → path ∉ client_paths name) → files' !! path = files !! path) ∧
  ∀ name identity, (name, identity) ∈ l → ∃ k certificate key, issueClient su ca k identity = Some (certificate, key) ∧
    files' !! ("clients/" +:+ name +:+ "/tls.crt") = Some certificate ∧ files' !! ("clients/" +:+ name +:+ "/tls.key") = Some key ∧
    files' !! ("clients/" +:+ name +:+ "/ca.crt") = Some (caPEM ca).
Proof.
  revert n files. induction l as [|[name identity] l IH]; intros n files Hnd Hnames H.
  - cbn [client_files] in H. simplify_eq. split; [done|]. intros ? ? Hin. by apply elem_of_nil in Hin.
  - cbn [fmap list_fmap fst] in Hnd. apply NoDup_cons in Hnd as [Hn Hnd]. cbn [client_files] in H.
    apply bind_Some in H as ([certificate key] & Hi & H).
    destruct (IH _ _ Hnd (λ x Hx, Hnames x (list_elem_of_further _ _ _ Hx)) H) as [Hkeep Hall].
    assert (∀ path, path ∈ client_paths name → ∀ name', name' ∈ l.*1 → path ∉ client_paths name') as Hown.
    { intros path Hp name' Hn' Hp'. assert (name = name') as <-; [|done].
      eapply client_paths_disjoint; [| |exact Hp|exact Hp']; apply Hnames; [apply list_elem_of_here|by apply list_elem_of_further]. }
    split.
    + intros path Hp. rewrite Hkeep by (intros x Hx; apply Hp; by apply list_elem_of_further).
      specialize (Hp name (list_elem_of_here _ _)). unfold client_paths in Hp. rewrite !not_elem_of_cons in Hp. destruct Hp as (H1 & H2 & H3 & _).
      by rewrite !lookup_insert_ne.
    + intros name' identity' [[= -> ->]|Hin]%elem_of_cons; [|eauto]. exists n, certificate, key. split; [done|].
      rewrite !Hkeep by (apply Hown; unfold client_paths; set_solver).
      assert (∀ a b, a ≠ b → "clients/" +:+ name +:+ a ≠ "clients/" +:+ name +:+ b) as Hne by (intros a b Hab E%(inj _)%(inj _); done).
      assert ("/ca.crt" ≠ "/tls.crt" ∧ "/ca.crt" ≠ "/tls.key" ∧ "/tls.key" ≠ "/tls.crt") as (H1 & H2 & H3) by (split_and!; discriminate).
      split_and!.
      * by rewrite (lookup_insert_ne _ _ _ _ (Hne _ _ H1)), (lookup_insert_ne _ _ _ _ (Hne _ _ H3)), lookup_insert_eq.
      * by rewrite (lookup_insert_ne _ _ _ _ (Hne _ _ H2)), lookup_insert_eq.
      * by rewrite lookup_insert_eq.
Qed.
End Generated.

(** Everything that was generated, by the file it goes to. *)
Record contents : Type := mkContents {
  cnWorkload : certificateAuthority; cnAuditServer : certificateAuthority; cnAuditClient : certificateAuthority;
  cnServer : string * string; cnClaim : string * string; cnSink : string * string; cnSinkClient : string * string;
  cnMasterKey : string; cnAuditKey : string
}.
Definition contents_files (c : contents) (secretsURL auditURL : string) : list (string * string) := [
  ("praetor-secrets-runtime/database-url", secretsURL);
  ("praetor-secrets-runtime/master-key", cnMasterKey c);
  ("praetor-secrets-runtime/audit-key", cnAuditKey c);
  ("praetor-secrets-server/tls.crt", (cnServer c).1);
  ("praetor-secrets-server/tls.key", (cnServer c).2);
  ("praetor-secrets-server/ca.crt", caPEM (cnWorkload c));
  ("clients/praetor-scheduler/claim.crt", (cnClaim c).1);
  ("clients/praetor-scheduler/claim.key", (cnClaim c).2);
  ("clients/praetor-scheduler/executor-ca.crt", caPEM (cnWorkload c));
  ("clients/praetor-executor/secrets-ca.crt", caPEM (cnWorkload c));
  ("praetor-secrets-audit-client/tls.crt", (cnSinkClient c).1);
  ("praetor-secrets-audit-client/tls.key", (cnSinkClient c).2);
  ("praetor-secrets-audit-client/ca.crt", caPEM (cnAuditServer c));
  ("praetor-audit-runtime/database-url", auditURL);
  ("praetor-audit-server/tls.crt", (cnSink c).1);
  ("praetor-audit-server/tls.key", (cnSink c).2);
  ("praetor-audit-server/ca.crt", caPEM (cnAuditClient c))].
Definition content_paths : list string := (contents_files (mkContents (mkCA "" "" "") (mkCA "" "" "") (mkCA "" "" "") ("", "") ("", "") ("", "") ("", "") "" "") "" "").*1.
Lemma contents_files_paths c s a : (contents_files c s a).*1 = content_paths.
Proof. done. Qed.
(** None of these is a client's own file, the script or the list of what to
    ignore, and they are apart. *)
Lemma content_paths_apart :
  NoDup content_paths ∧
  Forall (λ path, Forall (λ name, path ∉ client_paths name) client_names ∧ path ≠ "kubectl-secrets.sh" ∧ path ≠ ".gitignore") content_paths.
Proof. split; apply (bool_decide_unpack _); by vm_compute. Qed.

Lemma workloadClients_names `{MO : MapOrder} trustDomain (name : string) :
  name ∈ (iterate (workloadClients trustDomain)).*1 → name ∈ client_names.
Proof.
  intros ([n u] & -> & Hn)%list_elem_of_fmap. apply elem_of_iterate in Hn. unfold workloadClients, client_names in *. cbn [fst].
  repeat (rewrite lookup_insert_Some in Hn; destruct Hn as [[<- _]|[_ Hn]]; [set_solver|]).
  rewrite lookup_singleton_Some in Hn. destruct Hn as [<- _]. set_solver.
Qed.

(** A file is where [contents_files] puts it. *)
Ltac by_member := repeat first [apply list_elem_of_here | apply list_elem_of_further].
Ltac by_contents H := apply H; by_member.

Section Contents.
Context `{PK : PKI} `{XC : X509} `{MO : MapOrder} (su : surroundings).

Record made_by (config : Config) (c : contents) : Prop := {
  mb_workload : newCA su 0 "praetor-development-workload-ca" = Some (cnWorkload c);
  mb_server_ca : newCA su 1 "praetor-development-audit-server-ca" = Some (cnAuditServer c);
  mb_client_ca : newCA su 2 "praetor-development-audit-client-ca" = Some (cnAuditClient c);
  mb_server : issueServer su (cnWorkload c) 3 "praetor-secrets" (Namespace config) = Some (cnServer c);
  mb_claim : issueServer su (cnWorkload c) 4 (SchedulerServiceName config) (Namespace config) = Some (cnClaim c);
  mb_sink : issueServer su (cnAuditServer c) 5 "praetor-audit-sink" (Namespace config) = Some (cnSink c);
  mb_sink_client : issueClient su (cnAuditClient c) 6 (spiffe_identity (TrustDomain config) "praetor-secrets") = Some (cnSinkClient c);
  mb_master : Random 0 = Some (cnMasterKey c);
  mb_audit : Random 1 = Some (cnAuditKey c)
}.

Lemma generated_files_spec config secretsURL auditURL files :
  generated_files su config secretsURL auditURL = Some files →
  ∃ c, made_by config c ∧
    (∀ path content, (path, content) ∈ contents_files c secretsURL auditURL → files !! path = Some content) ∧
    ∀ name identity, workloadClients (TrustDomain config) !! name = Some identity →
      ∃ k certificate key, issueClient su (cnWorkload c) k identity = Some (certificate, key) ∧
        files !! ("clients/" +:+ name +:+ "/tls.crt") = Some certificate ∧ files !! ("clients/" +:+ name +:+ "/tls.key") = Some key ∧
        files !! ("clients/" +:+ name +:+ "/ca.crt") = Some (caPEM (cnWorkload c)).
Proof.
  unfold generated_files. intros H.
  apply bind_Some in H as (wca & Hw & H). apply bind_Some in H as (sca & Hs & H). apply bind_Some in H as (cca & Hc & H).
  apply bind_Some in H as ([srv srvk] & Hsrv & H). apply bind_Some in H as ([clm clmk] & Hclm & H).
  apply bind_Some in H as ([snk snkk] & Hsnk & H). apply bind_Some in H as ([acl aclk] & Hacl & H).
  apply bind_Some in H as (mk & Hmk & H). apply bind_Some in H as (ak & Hak & H).
  set (c := mkContents wca sca cca (srv, srvk) (clm, clmk) (snk, snkk) (acl, aclk) mk ak).
  change (client_files su wca 7 (iterate (workloadClients (TrustDomain config))) (list_to_map (contents_files c secretsURL auditURL)) = Some files) in H.
  destruct content_paths_apart as [Hnd Hap]. rewrite <-(contents_files_paths c secretsURL auditURL) in Hnd, Hap.
  apply client_files_spec in H as [Hkeep Hall]; [|apply NoDup_iterate_keys|apply workloadClients_names].
  exists c. split; [by split|]. split.
  - intros path content Hin. rewrite Hkeep; [by apply elem_of_list_to_map_1|]. intros name Hn.
    rewrite Forall_forall in Hap. destruct (Hap path) as [Hp _]; [apply list_elem_of_fmap; by exists (path, content)|].
    rewrite Forall_forall in Hp. by eapply Hp, workloadClients_names.
  - intros name identity Hn. apply (Hall name identity). by apply elem_of_iterate.
Qed.
End Contents.

(** ** The output directory afterwards *)

Section Outcome.
Context `{PK : PKI} `{XC : X509} `{MO : MapOrder} (su : surroundings).

Lemma readDatabaseURL_Some path url :
  suParse su "" = Some ("", "") → readDatabaseURL su path = Some url →
  TrimSpace url = url ∧ url ≠ "" ∧ contains_byte (zb 0) url = false ∧ len url ≤ maxDatabaseURLBytes.
Proof.
  unfold readDatabaseURL. intros He H. apply bind_Some in H as (f & Hf & H). apply bind_Some in H as ([reg perm] & Hi & H).
  case_match eqn:Hg; [done|]. case_match; [done|]. cbv zeta in H. apply bind_Some in H as ([scheme host] & Hp & H).
  case_match eqn:Hu; [done|]. injection H as <-. rewrite !orb_false_iff in Hg, Hu. destruct Hg as [_ Hlen]. destruct Hu as [[Hsch Hhost] Hz].
  split_and!; [apply TrimSpace_idem| |done|].
  - intros Heq. rewrite Heq, He in Hp. injection Hp as <- <-. done.
  - pose proof (len_TrimSpace (fContent f)). unfold maxDatabaseURLBytes. bool_facts. lia.
Qed.

(** [Generate] either writes every file or, if the directory can be removed,
    leaves it as it was; only a directory that did not exist is
    written, and no file in it is for others. *)
Lemma Generate_spec left_behind config before :
  suRemoves su = true →
  let '(ok, after) := Generate su left_behind config before in
  (ok = false ∧ after = before) ∨
  (ok = true ∧ before = None ∧ refused (with_defaults config) = false ∧
   ∃ t files secretsURL auditURL, after = Some t ∧
     readDatabaseURL su (SecretsDatabaseURLFile config) = Some secretsURL ∧
     readDatabaseURL su (AuditDatabaseURLFile config) = Some auditURL ∧
     generated_files su (with_defaults config) secretsURL auditURL = Some files ∧
     write_tree su (with_defaults config) files = Some t).
Proof.
  intros Hrm. unfold Generate. cbn [SecretsDatabaseURLFile AuditDatabaseURLFile with_defaults].
  destruct (refused _) eqn:Href; [by left|]. destruct before as [b|]; [by left|]. cbn [orb].
  rewrite bool_decide_eq_false_2 by (by intros [? ?]).
  destruct (readDatabaseURL su (SecretsDatabaseURLFile config)) as [s|] eqn:Hs; [|by left].
  destruct (readDatabaseURL su (AuditDatabaseURLFile config)) as [a|] eqn:Ha; [|by left].
  destruct (suMkdir su); cbn [negb]; [|by left].
  destruct (generated_files su (with_defaults config) s a) as [files|] eqn:Hf; cbn [mbind option_bind]; [|left; by rewrite Hrm].
  destruct (write_tree su (with_defaults config) files) as [t|] eqn:Ht; [|left; by rewrite Hrm].
  right. split_and!; [done..|]. by exists t, files, s, a.
Qed.
End Outcome.

(** ** What the libraries promise

    A certificate that was created parses, to the second, and names the URIs of
    its template, those of this program at least; its PEM is a bundle, and a
    pair with the PEM of its key; the random source fills the buffer. *)
Definition workloads : list string :=
  ["praetor-api"; "praetor-scheduler"; "praetor-executor/development-1"; "praetor-secrets-operator"; "praetor-secrets-auditor"; "praetor-secrets"].
Definition to_second (t : time) : time := t / Second * Second.

Lemma to_second_bounds t : to_second t ≤ t < to_second t + Second.
Proof.
  unfold to_second. assert (0 < Second) as Hs by done. generalize dependent Second. intros s Hs.
  pose proof (Z.div_mod t s ltac:(lia)). pose proof (Z.mod_pos_bound t s Hs). lia.
Qed.

Class PKILaws `{PK : PKI} `{XC : X509} : Prop := {
  law_parse t issuer key signer der : CreateCertificate t issuer key signer = Some der →
    ParseCertificate der = Some (to_second (tpNotBefore t), to_second (tpNotAfter t));
  law_uris t issuer key signer der trustDomain workload : CreateCertificate t issuer key signer = Some der →
    validDNSName trustDomain = true → workload ∈ workloads → tpURIs t = [spiffe_identity trustDomain workload] →
    URIs der = tpURIs t;
  law_bundle t issuer key signer der : CreateCertificate t issuer key signer = Some der → AppendCertsFromPEM (certificatePEM der) = true;
  law_pair t issuer n key signer der keyDER : GenerateKey n = Some key → CreateCertificate t issuer key signer = Some der →
    MarshalPKCS8PrivateKey key = Some keyDER → X509KeyPair (certificatePEM der) (privateKeyPEM keyDER) = Some [der];
  law_random n key : Random n = Some key → len key = 32
}.

Section Issued.
Context `{PK : PKI} `{XC : X509} `{MO : MapOrder} `{PL : !PKILaws} (su : surroundings).

(** [der] was signed with the key of the authority. *)
Definition issued_by (ca : certificateAuthority) (der : string) : Prop :=
  ∃ t key, CreateCertificate t (Some (caCertificate ca)) key (caPrivateKey ca) = Some der.

Lemma issue_spec ca n names identity certificate key :
  issue su ca n names identity = Some (certificate, key) →
  ∃ der, certificate = certificatePEM der ∧ issued_by ca der ∧ X509KeyPair certificate key = Some [der] ∧
    ParseCertificate der = Some (to_second (Add (suNow su) (- (5 * Minute))), to_second (Add (suNow su) (7 * 24 * Hour))) ∧
    ∀ trustDomain workload, validDNSName trustDomain = true → workload ∈ workloads →
      identity = Some (spiffe_identity trustDomain workload) → URIs der = [spiffe_identity trustDomain workload].
Proof.
  unfold issue. intros H. apply bind_Some in H as (k & Hk & H). cbv zeta in H. apply bind_Some in H as (der & Hd & H).
  apply bind_Some in H as (kd & Hkd & H). injection H as <- <-. exists der. split_and!; [done| | | |].
  - by eexists _, _.
  - by eapply law_pair.
  - by rewrite (law_parse _ _ _ _ _ Hd).
  - intros td wl Htd Hwl ->. by rewrite (law_uris _ _ _ _ _ td wl Hd Htd Hwl).
Qed.

(** [ca] is an authority of the program's own: its PEM is that of a certificate
    of an authority which the [n]-th key, its private key, has signed itself. *)
Definition authority (n : nat) (ca : certificateAuthority) : Prop :=
  caPEM ca = certificatePEM (caCertificate ca) ∧ GenerateKey n = Some (caPrivateKey ca) ∧
  ∃ t, tpIsCA t = true ∧ CreateCertificate t None (caPrivateKey ca) (caPrivateKey ca) = Some (caCertificate ca).

Lemma newCA_authority n name ca : newCA su n name = Some ca → authority n ca.
Proof.
  unfold newCA. intros H. apply bind_Some in H as (k & Hk & H). cbv zeta in H. apply bind_Some in H as (der & Hd & H).
  apply bind_Some in H as (? & _ & H). injection H as <-. unfold authority. cbn [caPEM caPrivateKey caCertificate]. split; [done|]. split; [done|]. eexists. split; [|exact Hd]. done.
Qed.
Lemma newCA_bundle n name ca : newCA su n name = Some ca → AppendCertsFromPEM (caPEM ca) = true.
Proof.
  unfold newCA. intros H. apply bind_Some in H as (k & Hk & H). cbv zeta in H. apply bind_Some in H as (der & Hd & H).
  apply bind_Some in H as (? & _ & H). injection H as <-. by eapply law_bundle.
Qed.
End Issued.

(** Whom the service takes the holder of each client certificate for. *)
Definition client_roles : list (string * string * Credential.WorkloadIdentity) := [
  ("praetor-api", "praetor-api", mkIdentity RoleAPI "praetor-api");
  ("praetor-scheduler", "praetor-scheduler", mkIdentity RoleScheduler "praetor-scheduler");
  ("praetor-executor", "praetor-executor/development-1", mkIdentity RoleExecutor "praetor-executor:development-1");
  ("praetor-secrets-operator", "praetor-secrets-operator", mkIdentity RoleSecretsOperator "praetor-secrets-operator");
  ("praetor-secrets-auditor", "praetor-secrets-auditor", mkIdentity RoleSecretsAuditor "praetor-secrets-auditor")].

Lemma spiffe_identity_roles trustDomain : trustDomain ≠ "" →
  Forall (λ '(_, workload, identity), Identity (Identity.mkMapper trustDomain) [spiffe_identity trustDomain workload] = Some identity) client_roles ∧
  secretsServiceIdentity [spiffe_identity trustDomain "praetor-secrets"] trustDomain = true.
Proof.
  intros Htd%String.eqb_neq. split.
  - unfold client_roles. rewrite !Forall_cons, Forall_nil. split_and!; [..|done]; unfold Identity, spiffe_identity;
      cbn -[String.eqb split_on TrimPrefix]; rewrite Htd, (String.eqb_refl trustDomain); vm_compute; reflexivity.
  - unfold secretsServiceIdentity, spiffe_identity. cbn [uScheme uHost uEscapedPath uRawQuery uFragment]. rewrite (String.eqb_refl trustDomain). by vm_compute.
Qed.
Lemma client_roles_clients trustDomain name workload identity : (name, workload, identity) ∈ client_roles →
  workload ∈ workloads ∧ workloadClients trustDomain !! name = Some (spiffe_identity trustDomain workload).
Proof.
  unfold client_roles. intros H. rewrite !elem_of_cons in H.
  repeat (destruct H as [Heq|H]; [injection Heq as -> -> ->; split; [by_member|done]|]).
  by apply elem_of_nil in H.
Qed.

(** ** A deployment of what was generated

    The tree is mounted: each file is at its place, with its content, for the
    owner only; and the configurations name the places. *)
Definition mounted (fs : gmap string file) (place : string → string) (t : tree) : Prop :=
  ∀ path perm content, t !! path = Some (perm, content) →
    ∃ perm', fs !! place path = Some (mkFile (Some (true, perm')) content false ReadEOF) ∧ Z.land perm' 0x3F = 0.
Record service_at (place : string → string) (c : App.Config) : Prop := {
  sv_url : App.DatabaseURLFile c = place "praetor-secrets-runtime/database-url";
  sv_master : App.MasterKeyFile c = place "praetor-secrets-runtime/master-key";
  sv_previous : TrimSpace (App.PreviousKeyFile c) = "";
  sv_audit : App.AuditKeyFile c = place "praetor-secrets-runtime/audit-key";
  sv_certificate : App.TLSCertificateFile c = place "praetor-secrets-server/tls.crt";
  sv_key : App.TLSPrivateKeyFile c = place "praetor-secrets-server/tls.key";
  sv_ca : App.ClientCAFile c = place "praetor-secrets-server/ca.crt";
  sv_sink_certificate : App.AuditSinkCertificateFile c = place "praetor-secrets-audit-client/tls.crt";
  sv_sink_key : App.AuditSinkPrivateKeyFile c = place "praetor-secrets-audit-client/tls.key";
  sv_sink_ca : App.AuditSinkCAFile c = place "praetor-secrets-audit-client/ca.crt"
}.
Record sink_at (place : string → string) (c : Sink.Config) : Prop := {
  sk_url : Sink.DatabaseURLFile c = place "praetor-audit-runtime/database-url";
  sk_certificate : Sink.TLSCertificateFile c = place "praetor-audit-server/tls.crt";
  sk_key : Sink.TLSPrivateKeyFile c = place "praetor-audit-server/tls.key";
  sk_ca : Sink.ClientCAFile c = place "praetor-audit-server/ca.crt"
}.

Section Deployment.
Context `{CR : Crypto} `{PK : PKI} `{XC : X509} `{MO : MapOrder} `{PL : !PKILaws} (su : surroundings) (w : outside).
Variables (place : string → string) (t : tree).
Hypothesis Hmounted : mounted (oFiles w) place t.
Hypothesis Hsmall : ∀ path perm content, t !! path = Some (perm, content) → len content ≤ maxCertificateBytes.
(** The clock of the deployment is within the validity of the certificates. *)
Hypothesis Hclock : ∀ n, Add (suNow su) (- (5 * Minute)) ≤ oNow w n ∧ oNow w n + Second ≤ Add (suNow su) (7 * 24 * Hour).

Lemma mounted_private path perm content : t !! path = Some (perm, content) → private_file (oFiles w) (place path) content.
Proof. intros (perm' & Hf & Hp)%Hmounted. by eexists _, perm'. Qed.
Lemma mounted_key path perm content : t !! path = Some (perm, content) → place path ≠ "" → len content = 32 →
  key_file (oFiles w) (place path) content.
Proof. intros (perm' & Hf & Hp)%Hmounted Hne Hl. split_and!; [done..|]. by eexists _, perm'. Qed.
Lemma mounted_authorities path perm content : t !! path = Some (perm, content) → AppendCertsFromPEM content = true →
  authorities w (place path) content.
Proof. intros Ht Ha. destruct (Hmounted _ _ _ Ht) as (perm' & Hf & _). split_and!; [done|by eapply Hsmall|]. by eexists. Qed.
Lemma mounted_pair n ca k names identity pair cpath kpath perm perm' :
  issue su ca k names identity = Some pair →
  t !! cpath = Some (perm, pair.1) → t !! kpath = Some (perm', pair.2) →
  ∃ chain, current_pair w n (place cpath) (place kpath) chain.
Proof.
  destruct pair as [certificate key]. intros Hi Hc Hk. destruct (issue_spec su _ _ _ _ _ _ Hi) as (der & _ & _ & Hpair & Hparse & _).
  destruct (Hmounted _ _ _ Hc) as (p1 & Hf1 & _). destruct (Hmounted _ _ _ Hk) as (p2 & Hf2 & Hp2).
  exists [der]. split_and!.
  - apply requireRestrictedFile_true. by eexists _, p2.
  - unfold LoadX509KeyPair, ReadFile. by rewrite Hf1, Hf2.
  - exists der, [], (to_second (Add (suNow su) (- (5 * Minute)))), (to_second (Add (suNow su) (7 * 24 * Hour))).
    pose proof (Hclock n) as [Hn _]. pose proof (Hclock (S n)) as [_ Ha].
    pose proof (to_second_bounds (Add (suNow su) (- (5 * Minute)))). pose proof (to_second_bounds (Add (suNow su) (7 * 24 * Hour))).
    split_and!; [done..|lia|lia].
Qed.
Lemma mounted_text path perm url : t !! path = Some (perm, url) → 
  TrimSpace url = url → url ≠ "" → contains_byte (zb 0) url = false → len url ≤ maxDatabaseURLBytes →
  ∃ content, private_file (oFiles w) (place path) content ∧ len content ≤ maxDatabaseURLBytes ∧
    TrimSpace content = url ∧ url ≠ "" ∧ contains_byte (zb 0) url = false.
Proof. intros Ht Htrim Hne Hz Hl. exists url. split_and!; [by eapply mounted_private|done..]. Qed.

Variables (config : Config) (c : contents) (secretsURL auditURL : string).
Hypothesis Hmade : made_by su config c.
Hypothesis Hfiles : ∀ path content, (path, content) ∈ contents_files c secretsURL auditURL → t !! path = Some (0x180, content).
Hypothesis Hurls : Forall (λ url, TrimSpace url = url ∧ url ≠ "" ∧ contains_byte (zb 0) url = false ∧ len url ≤ maxDatabaseURLBytes) [secretsURL; auditURL].

Lemma service_launchable service parsed :
  app_acceptable service → service_at place service → sink_address w (App.AuditSinkURL service) parsed →
  ∃ keys, launchable w service keys (cnAuditKey c) secretsURL (caPEM (cnWorkload c)) parsed.
Proof.
  intros Hacc [Hu Hm Hpr Ha Hc Hk Hca Hsc Hsk Hsca] Hsink. pose proof (app_texts _ Hacc) as Ht. rewrite !Forall_cons in Ht.
  assert (App.MasterKeyFile service ≠ "" ∧ App.AuditKeyFile service ≠ "") as [Hmne Hane] by (destruct_and! Ht; split; by match goal with H : trimmed ?x |- ?x ≠ "" => destruct H end).
  rewrite !Forall_cons in Hurls. destruct Hurls as [(Hu1 & Hu2 & Hu3 & Hu4) _].
  eexists. split.
  - apply Load_spec. cbn [CurrentPath PreviousPath]. rewrite Hm. exists (cnMasterKey c). split; [|left; by split].
    eapply mounted_key; [by_contents Hfiles|congruence|]. eapply law_random, mb_master, Hmade.
  - rewrite Ha. eapply mounted_key; [by_contents Hfiles|congruence|]. eapply law_random, mb_audit, Hmade.
  - rewrite Hu. eapply mounted_text; [by_contents Hfiles|done..].
  - rewrite Hc, Hk. eapply mounted_pair; [exact (mb_server _ _ _ Hmade)|by_contents Hfiles..].
  - rewrite Hca. eapply mounted_authorities; [by_contents Hfiles|]. eapply newCA_bundle, mb_workload, Hmade.
  - rewrite Hsc, Hsk. eapply mounted_pair; [exact (mb_sink_client _ _ _ Hmade)|by_contents Hfiles..].
  - rewrite Hsca. exists (caPEM (cnAuditServer c)). eapply mounted_authorities; [by_contents Hfiles|]. eapply newCA_bundle, mb_server_ca, Hmade.
  - done.
Qed.
Lemma sink_service_launchable sink :
  sink_at place sink → sink_launchable w sink auditURL (caPEM (cnAuditClient c)).
Proof.
  intros [Hu Hc Hk Hca]. rewrite !Forall_cons in Hurls. destruct Hurls as [_ [(Hu1 & Hu2 & Hu3 & Hu4) _]]. split.
  - rewrite Hu. eapply mounted_text; [by_contents Hfiles|done..].
  - rewrite Hc, Hk. eapply mounted_pair; [exact (mb_sink _ _ _ Hmade)|by_contents Hfiles..].
  - rewrite Hca. eapply mounted_authorities; [by_contents Hfiles|]. eapply newCA_bundle, mb_client_ca, Hmade.
Qed.

(** The servers' certificates, and the authority the service's sink worker trusts. *)
Lemma servers_issued :
  (∃ der, t !! "praetor-secrets-server/tls.crt" = Some (0x180, certificatePEM der) ∧ issued_by (cnWorkload c) der) ∧
  ∃ der, t !! "praetor-audit-server/tls.crt" = Some (0x180, certificatePEM der) ∧ issued_by (cnAuditServer c) der.
Proof.
  pose proof (mb_server _ _ _ Hmade) as Hs. pose proof (mb_sink _ _ _ Hmade) as Hk. split.
  - destruct (cnServer c) as [certificate key] eqn:E. destruct (issue_spec su _ _ _ _ _ _ Hs) as (der & -> & Hby & _).
    exists der. split; [|done]. assert (certificatePEM der = (cnServer c).1) as -> by (by rewrite E). by_contents Hfiles.
  - destruct (cnSink c) as [certificate key] eqn:E. destruct (issue_spec su _ _ _ _ _ _ Hk) as (der & -> & Hby & _).
    exists der. split; [|done]. assert (certificatePEM der = (cnSink c).1) as -> by (by rewrite E). by_contents Hfiles.
Qed.
Lemma sink_authority service : service_at place service → authorities w (App.AuditSinkCAFile service) (caPEM (cnAuditServer c)).
Proof.
  intros [_ _ _ _ _ _ _ _ _ ->]. eapply mounted_authorities; [by_contents Hfiles|]. eapply newCA_bundle, mb_server_ca, Hmade.
Qed.
End Deployment.

(** C22: what [Generate] makes is a deployment that works.  It only ever writes
    an output directory that did not exist and only files for their owner, and
    when it fails and the directory can be removed, the output directory is as it
    was.  When it succeeds, a service and a sink whose other settings are
    acceptable and that find the tree mounted, in files of the size they read,
    where their configurations say are ready to start while the certificates are
    valid.  It makes three authorities, each of a key of its own that signed
    itself.  The first is the one the service trusts its clients by: every client
    certificate is signed with its key and is taken for the workload it was made
    for, and it also signed the service's server certificate and is the one
    every client is given.  The second signed the sink's server certificate, and
    is the one the service trusts the sink by.  The third is the one the sink
    trusts: it signed the certificate the service shows the sink, and the sink
    takes its holder for the service. *)
Theorem bootstrap_serves `{CR : Crypto} `{PK : PKI} `{XC : X509} `{MO : MapOrder} `{PL : !PKILaws} su left_behind config before :
  suRemoves su = true → suParse su "" = Some ("", "") →
  let '(ok, after) := Generate su left_behind config before in
  (ok = false ∧ after = before) ∨
  (ok = true ∧ before = None ∧ ∃ t, after = Some t ∧
   (∀ path perm content, t !! path = Some (perm, content) → Z.land perm 0x3F = 0) ∧
   ∀ w place service sink parsed,
     mounted (oFiles w) place t → (∀ path perm content, t !! path = Some (perm, content) → len content ≤ maxCertificateBytes) →
     (∀ n, Add (suNow su) (- (5 * Minute)) ≤ oNow w n ∧ oNow w n + Second ≤ Add (suNow su) (7 * 24 * Hour)) →
     app_acceptable service → service_at place service → sink_at place sink → sink_address w (App.AuditSinkURL service) parsed →
     ∃ keys auditKey secretsURL auditURL workloadCA sinkCA auditCA,
       launchable w service keys auditKey secretsURL (caPEM workloadCA) parsed ∧
       sink_launchable w sink auditURL (caPEM auditCA) ∧
       authority 0 workloadCA ∧ authority 1 sinkCA ∧ authority 2 auditCA ∧
       authorities w (App.AuditSinkCAFile service) (caPEM sinkCA) ∧
       (∃ der, t !! "praetor-secrets-server/tls.crt" = Some (0x180, certificatePEM der) ∧ issued_by workloadCA der) ∧
       (∃ der, t !! "praetor-audit-server/tls.crt" = Some (0x180, certificatePEM der) ∧ issued_by sinkCA der) ∧
       (∀ name workload identity, (name, workload, identity) ∈ client_roles →
          t !! ("clients/" +:+ name +:+ "/ca.crt") = Some (0x180, caPEM workloadCA) ∧
          ∃ der, t !! ("clients/" +:+ name +:+ "/tls.crt") = Some (0x180, certificatePEM der) ∧ issued_by workloadCA der ∧
            Identity (Identity.mkMapper (TrustDomain config)) (URIs der) = Some identity) ∧
       ∃ der, t !! "praetor-secrets-audit-client/tls.crt" = Some (0x180, certificatePEM der) ∧ issued_by auditCA der ∧
         secretsServiceIdentity (URIs der) (TrustDomain config) = true).
Proof.
  intros Hrm Hempty. pose proof (Generate_spec su left_behind config before Hrm) as H.
  destruct (Generate su left_behind config before) as [ok after]. destruct H as [H|(-> & -> & Href & t & files & su1 & au1 & -> & Hs & Ha & Hg & Ht)]; [by left|right].
  split_and!; [done|done|]. exists t. split; [done|]. destruct (write_tree_lookup su _ _ _ Ht) as (Hall & _ & _ & Hpriv). split; [done|].
  intros w place service sink parsed Hm Hsmall Hclock Hacc Hsv Hsk Haddr.
  destruct (generated_files_spec su _ _ _ _ Hg) as (c & Hmade & Hfixed & Hclients).
  assert (∀ path content, (path, content) ∈ contents_files c su1 au1 → t !! path = Some (0x180, content)) as Hfiles.
  { intros path content Hin. destruct content_paths_apart as [_ Hap]. rewrite <-(contents_files_paths c su1 au1), Forall_forall in Hap.
    destruct (Hap path) as (_ & H1 & H2); [apply list_elem_of_fmap; by exists (path, content)|]. by rewrite Hall, (Hfixed _ _ Hin). }
  assert (Forall (λ url, TrimSpace url = url ∧ url ≠ "" ∧ contains_byte (zb 0) url = false ∧ len url ≤ maxDatabaseURLBytes) [su1; au1]) as Hurls.
  { repeat constructor; eapply readDatabaseURL_Some; eauto. }
  assert (validDNSName (TrustDomain config) = true) as Htd.
  { unfold refused in Href. cbn [TrustDomain with_defaults] in Href. destruct (validDNSName (TrustDomain config)); [done|]. by rewrite orb_true_r in Href. }
  assert (TrustDomain config ≠ "") as Hne by (by intros E; rewrite E in Htd).
  destruct (spiffe_identity_roles _ Hne) as [Hroles Hsecrets].
  destruct (service_launchable su w place t Hm Hsmall Hclock _ _ _ _ Hmade Hfiles Hurls _ _ Hacc Hsv Haddr) as [keys Hl].
  destruct (servers_issued su t _ _ _ _ Hmade Hfiles) as [Hserver Hsink].
  exists keys, (cnAuditKey c), su1, au1, (cnWorkload c), (cnAuditServer c), (cnAuditClient c). split_and!.
  - done.
  - by eapply sink_service_launchable.
  - eapply newCA_authority, mb_workload, Hmade.
  - eapply newCA_authority, mb_server_ca, Hmade.
  - eapply newCA_authority, mb_client_ca, Hmade.
  - by eapply sink_authority.
  - done.
  - done.
  - intros name workload identity Hin. destruct (client_roles_clients (TrustDomain config) _ _ _ Hin) as [Hwl Hcl].
    destruct (Hclients name _ Hcl) as (k & certificate & key & Hi & Hcrt & _ & Hca). destruct (issue_spec su _ _ _ _ _ _ Hi) as (der & -> & Hby & _ & _ & Huri).
    split; [by rewrite Hall, Hca|]. exists der. split_and!; [by rewrite Hall, Hcrt|done|]. rewrite (Huri _ _ Htd Hwl eq_refl).
    rewrite Forall_forall in Hroles. exact (Hroles _ Hin).
  - pose proof (mb_sink_client _ _ _ Hmade) as Hi. destruct (cnSinkClient c) as [certificate key] eqn:E.
    destruct (issue_spec su _ _ _ _ _ _ Hi) as (der & Hder & Hby & _ & _ & Huri). exists der. split_and!; [|done|].
    + rewrite <-Hder. assert (certificate = (cnSinkClient c).1) as -> by (by rewrite E). by_contents Hfiles.
    + rewrite (Huri _ "praetor-secrets" Htd ltac:(by_member) eq_refl). exact Hsecrets.
Qed.

(** ** The command (src/cmd/praetor-dev-bootstrap)

    [flag.FlagSet.Parse] of its six string flags. *)
Definition default_flags : Config := mkConfig "" "praetor-secrets" "praetor.local" "praetor-scheduler" "" "".
Definition set_flag (name value : string) (c : Config) : option Config :=
  let '(mkConfig o n t s f a) := c in
  if String.eqb name "output" then Some (mkConfig value n t s f a)
  else if String.eqb name "namespace" then Some (mkConfig o value t s f a)
  else if String.eqb name "trust-domain" then Some (mkConfig o n value s f a)
  else if String.eqb name "scheduler-service-name" then Some (mkConfig o n t value f a)
  else if String.eqb name "secrets-database-url-file" then Some (mkConfig o n t s value a)
  else if String.eqb name "audit-database-url-file" then Some (mkConfig o n t s f value)
  else None.

(** A name and, after the first equals sign that does not begin it, a value. *)
Fixpoint cut_value (s : string) : string * option string :=
  match s with
  | "" => ("", None)
  | String a s => if bz a =? 61 then ("", Some s) else let '(name, value) := cut_value s in (String a name, value)
  end.
(** What an argument is: no flag, the end of the flags, or the text of a flag. *)
Definition flag_text (argument : string) : option (option string) :=
  match argument with
  | String a (String b s) =>
      if negb (bz a =? 45) then None
      else if bz b =? 45 then Some (if String.eqb s "" then None else Some s) else Some (Some (String b s))
  | _ => None
  end.
(** [None] is a parse error; otherwise the flags and how many arguments are left. *)
Fixpoint parse_flags (arguments : list string) (c : Config) : option (Config * nat) :=
  match arguments with
  | [] => Some (c, O)
  | argument :: rest =>
      match flag_text argument with
      | None => Some (c, S (length rest))
      | Some None => Some (c, length rest)
      | Some (Some text) =>
          if HasPrefix text "-" || HasPrefix text "=" then None
          else match cut_value text, rest with
               | (name, Some value), _ => c ← set_flag name value c; parse_flags rest c
               | (name, None), value :: rest => c ← set_flag name value c; parse_flags rest c
               | (_, None), [] => None
               end
      end
  end.

Section Command.
Context `{PK : PKI} `{XC : X509} `{MO : MapOrder} (su : surroundings).

(** The exit status and the output directory; [printed] is whether the line on
    standard output could be written. *)
Definition bootstrap_main (left_behind : tree) (printed : bool) (arguments : list string) (before : Config → option tree)
    : Z * option (option tree) :=
  match parse_flags arguments default_flags with
  | Some (config, O) =>
      let '(ok, after) := Generate su left_behind config (before config) in
      (if ok && printed then 0 else 1, Some after)
  | _ => (1, None)
  end.
End Command.

(** Every configuration is that of some arguments, whatever its texts hold. *)
Definition flag_arguments (c : Config) : list string :=
  ["-output"; OutputDirectory c; "--namespace"; Namespace c; "-trust-domain=" +:+ TrustDomain c;
   "--scheduler-service-name=" +:+ SchedulerServiceName c; "-secrets-database-url-file"; SecretsDatabaseURLFile c;
   "-audit-database-url-file"; AuditDatabaseURLFile c].
Lemma flag_arguments_parse c : parse_flags (flag_arguments c) default_flags = Some (c, O).
Proof. by destruct c. Qed.
Lemma bootstrap_main_status `{PK : PKI} `{XC : X509} `{MO : MapOrder} su left_behind printed arguments before :
  (bootstrap_main su left_behind printed arguments before).1 = 0 ↔
  ∃ config, parse_flags arguments default_flags = Some (config, O) ∧ (Generate su left_behind config (before config)).1 = true ∧ printed = true.
Proof.
  unfold bootstrap_main. destruct (parse_flags _ _) as [[config [|n]]|]; [|naive_solver..].
  destruct (Generate _ _ _ _) as [ok after] eqn:HG. cbn [fst]. split.
  - intros H. exists config. rewrite HG. by destruct ok, printed.
  - intros (c & [= <-] & Hok & ->). rewrite HG in Hok. cbn in Hok. by rewrite Hok.
Qed.

(** ** Execution *)

Module BootstrapExample.
Import ConfigExample.
#[local] Existing Instances toy_crypto canonical_order.

Definition now : time := 2000 * 365 * 86400 * Second.
(** An authority for one trust domain and one instant: what a certificate says
    is its DER, and its PEM has a letter in front. *)
Definition same_uri (u v : uri) : bool :=
  String.eqb (uScheme u) (uScheme v) && String.eqb (uHost u) (uHost v) && String.eqb (uEscapedPath u) (uEscapedPath v) &&
  String.eqb (uRawQuery u) (uRawQuery v) && String.eqb (uFragment u) (uFragment v).
Definition born : time := Add now (- (5 * Minute)).
Definition ca_end : time := Add now (30 * 24 * Hour).
Definition leaf_end : time := Add now (7 * 24 * Hour).
Definition create (t : template) (issuer : option string) (key signer : string) : option string :=
  if negb (tpNotBefore t =? born) then None
  else match tpURIs t with
       | [] => if tpNotAfter t =? ca_end then Some "c" else if tpNotAfter t =? leaf_end then Some "s" else None
       | [u] => let workload := drop_str 10 (uEscapedPath u) in
                if (tpNotAfter t =? leaf_end) && same_uri u (spiffe_identity "praetor.example" workload)
                then Some (String "u" workload) else None
       | _ => None
       end.
#[local] Instance toy_pki : PKI := {|
  Random := λ n, Some (stream 32 (Z.of_nat n + 5)); GenerateKey := λ n, Some (json_uint (Z.of_nat n)); RandomInt := λ n, None;
  CreateCertificate := create; MarshalPKCS8PrivateKey := Some; certificatePEM := λ der, "C" +:+ der; privateKeyPEM := λ key, "K" +:+ key;
  URIs := λ der, match der with String a workload => if bz a =? 117 then [spiffe_identity "praetor.example" workload] else [] | "" => [] end
|}.
#[local] Instance toy_x509 : X509 := {|
  AppendCertsFromPEM := λ pem, HasPrefix pem "C";
  X509KeyPair := λ c k, if HasPrefix c "C" && HasPrefix k "K" then Some [drop_str 1 c] else None;
  ParseCertificate := λ der, Some (born, if String.eqb der "c" then ca_end else leaf_end)
|}.
Lemma same_uri_eq u v : same_uri u v = true → u = v.
Proof. unfold same_uri. destruct u, v. cbn. intros H. bool_facts. by subst. Qed.
Lemma create_Some t issuer key signer der : create t issuer key signer = Some der →
  tpNotBefore t = born ∧
  (tpURIs t = [] ∧ tpNotAfter t = ca_end ∧ der = "c" ∨ tpURIs t = [] ∧ tpNotAfter t = leaf_end ∧ der = "s" ∨
   ∃ workload, tpURIs t = [spiffe_identity "praetor.example" workload] ∧ tpNotAfter t = leaf_end ∧ der = String "u" workload).
Proof.
  unfold create. generalize born ca_end leaf_end. intros b c l. destruct (tpNotBefore t =? b) eqn:Hb; [|discriminate]. apply Z.eqb_eq in Hb.
  destruct (tpURIs t) as [|u [|]]; cbn [negb]; [| |discriminate].
  - destruct (tpNotAfter t =? c) eqn:Hc; [apply Z.eqb_eq in Hc; intros [= <-]; split; [done|by left]|].
    destruct (tpNotAfter t =? l) eqn:Hl; [apply Z.eqb_eq in Hl; intros [= <-]; split; [done|by right; left]|discriminate].
  - cbv zeta. destruct (tpNotAfter t =? l) eqn:Hl; [|discriminate]. destruct (same_uri _ _) eqn:Hs; [|discriminate].
    apply Z.eqb_eq in Hl. apply same_uri_eq in Hs. intros [= <-]. split; [done|]. right. right. exists (drop_str 10 (uEscapedPath u)).
    by rewrite <-Hs.
Qed.
#[local] Instance toy_pki_laws : PKILaws (PK:=toy_pki) (XC:=toy_x509).
Proof.
  assert (to_second born = born ∧ to_second ca_end = ca_end ∧ to_second leaf_end = leaf_end) as (Hb & Hc & Hl) by (by vm_compute).
  split.
  - intros t issuer key signer der (-> & [(_ & -> & ->)|[(_ & -> & ->)|(wl & _ & -> & ->)]])%create_Some; cbn [ParseCertificate toy_x509];
      rewrite Hb, ?Hc, ?Hl; reflexivity.
  - intros t issuer key signer der td wl (_ & [(Hu & _)|[(Hu & _)|(wl' & Hu & _ & ->)]])%create_Some _ _ Hu'; rewrite Hu in *; [discriminate..|].
    reflexivity.
  - intros t issuer key signer der _. cbn. by destruct der.
  - intros t issuer n key signer der keyDER _ _ _. cbn. by destruct der, keyDER.
  - intros n key Hn. cbn [Random toy_pki] in Hn. injection Hn as <-. assert (∀ k z, String.length (stream k z) = k) as Hk; [|exact (f_equal Z.of_nat (Hk 32%nat _))].
    clear. induction k as [|k IH]; intros z; [done|]. cbn. by rewrite IH.
Qed.

Definition secret (content : string) : file := mkFile (Some (true, 0x180)) content false ReadEOF.
Definition su : surroundings := mkSurroundings {["urls/secrets" := secret " postgres://db/secrets "; "urls/audit" := secret "postgresql://db/audit"]}
  (λ s, Some (if HasPrefix s "postgres" then (if HasPrefix s "postgresql" then "postgresql" else "postgres", "db") else ("", "")))
  now (λ n, Z.of_nat n) true (λ _, true) true true.
Definition config : Config := mkConfig "out" "praetor" "praetor.example" "" "urls/secrets" "urls/audit".
Definition outcome : bool * option tree := Generate su ∅ config None.
Definition made : tree := default ∅ outcome.2.
Lemma outcome_made : outcome = (true, Some made).
Proof.
  assert ((outcome.1, if outcome.2 is Some _ then true else false) = (true, true)) as H by (vm_compute; reflexivity).
  revert H. unfold made. generalize outcome. intros [ok [t|]]; [|discriminate]. intros H. injection H as ->. reflexivity.
Qed.
(** An unwritable key leaves nothing behind. *)
Example unwritable : Generate (mkSurroundings (suFiles su) (suParse su) now (suUnixNano su) true
  (λ path, negb (String.eqb path "praetor-secrets-runtime/master-key")) true true) ∅ config None = (false, None).
Proof. vm_compute. reflexivity. Qed.

(** Where the files are mounted. *)
Definition places : gmap string string := {[
  "praetor-secrets-runtime/database-url" := "/run/db"; "praetor-secrets-runtime/master-key" := "/run/master";
  "praetor-secrets-runtime/audit-key" := "/run/audit"; "praetor-secrets-server/tls.crt" := "/run/crt";
  "praetor-secrets-server/tls.key" := "/run/key"; "praetor-secrets-server/ca.crt" := "/run/ca";
  "praetor-secrets-audit-client/tls.crt" := "/run/scrt"; "praetor-secrets-audit-client/tls.key" := "/run/skey";
  "praetor-secrets-audit-client/ca.crt" := "/run/sca" ]}.
Definition place (path : string) : string := default ("/out/" +:+ path) (places !! path).
Definition placed : list (string * file) := (λ x, (place x.1, mkFile (Some (true, x.2.1)) x.2.2 false ReadEOF)) <$> map_to_list made.
Definition w : outside := mkOutside (list_to_map placed) (λ _, now) (λ s, Some (mkSinkURL "https" "sink" false "" s))
  (λ _, mkEndpoint "/internal/v1/audit/events" "" None "praetor.example") (λ _, true) true true Postgres.calm Postgres.calm MigrationExample.clock.
Definition sink : Sink.Config := Sink.mkConfig "0.0.0.0:9443" "127.0.0.1:9081" "praetor.example" (place "praetor-audit-runtime/database-url")
  (place "praetor-audit-server/tls.crt") (place "praetor-audit-server/tls.key") (place "praetor-audit-server/ca.crt") (90 * Second) 10 100.

Lemma made_sound : map_Forall (λ _ x, Z.land x.1 0x3F = 0 ∧ len x.2 ≤ maxCertificateBytes) made.
Proof. apply (bool_decide_unpack _). by vm_compute. Qed.
Lemma placed_once : NoDup placed.*1.
Proof. apply (bool_decide_unpack _). by vm_compute. Qed.
Lemma made_mounted : mounted (oFiles w) place made.
Proof.
  intros path perm content Hp. exists perm. split.
  - apply elem_of_list_to_map_1; [exact placed_once|]. apply list_elem_of_fmap. exists (path, (perm, content)). split; [done|]. by apply elem_of_map_to_list.
  - by apply (made_sound _ _ Hp).
Qed.
Lemma made_small path perm content : made !! path = Some (perm, content) → len content ≤ maxCertificateBytes.
Proof. intros Hp. by apply (made_sound _ _ Hp). Qed.
Lemma clock_valid (n : nat) : Add (suNow su) (- (5 * Minute)) ≤ oNow w n ∧ oNow w n + Second ≤ Add (suNow su) (7 * 24 * Hour).
Proof. split; by apply Zle_bool_imp_le. Qed.
Definition parsed : sink_url := mkSinkURL "https" "sink" false "" "https://sink".
Lemma parsed_address : sink_address w (App.AuditSinkURL app_config) parsed.
Proof. by split_and!. Qed.
Lemma app_config_at : service_at place app_config.
Proof. by split; vm_compute. Qed.
Lemma sink_config_at : sink_at place sink.
Proof. by split. Qed.
End BootstrapExample.

Lemma bootstrap_serves_witness :
  ∃ keys auditKey secretsURL auditURL workloadCA sinkCA auditCA,
    launchable (CR:=toy_crypto) (XC:=BootstrapExample.toy_x509) BootstrapExample.w ConfigExample.app_config keys auditKey secretsURL
      (caPEM workloadCA) BootstrapExample.parsed ∧
    sink_launchable (XC:=BootstrapExample.toy_x509) BootstrapExample.w BootstrapExample.sink auditURL (caPEM auditCA) ∧
    authorities (XC:=BootstrapExample.toy_x509) BootstrapExample.w (App.AuditSinkCAFile ConfigExample.app_config) (caPEM sinkCA).
Proof.
  pose proof (bootstrap_serves (CR:=toy_crypto) (PK:=BootstrapExample.toy_pki) (XC:=BootstrapExample.toy_x509) (MO:=canonical_order)
    (PL:=BootstrapExample.toy_pki_laws) BootstrapExample.su ∅ BootstrapExample.config None eq_refl eq_refl) as H.
  fold BootstrapExample.outcome in H. rewrite BootstrapExample.outcome_made in H.
  destruct H as [[H _]|(_ & _ & t & Ht & _ & H)]; [discriminate H|]. apply (inj Some) in Ht as <-.
  destruct (H _ _ _ _ _ BootstrapExample.made_mounted BootstrapExample.made_small BootstrapExample.clock_valid ProcessExample.acceptable
    BootstrapExample.app_config_at BootstrapExample.sink_config_at BootstrapExample.parsed_address) as (keys & ak & s & a & wca & sca & aca & Hl & Hs & _ & _ & _ & Ha & _).
  exists keys, ak, s, a, wca, sca, aca. exact (conj Hl (conj Hs Ha)).
Defined.
