(* ===== verification/MutationGate.v ===== *)
(** * The mutation gate (src/scripts/mutationcheck/main.go)

    A build script that makes sure that the tests notice five faults: it copies
    the repository, puts one fault in, and runs tests that must fail.  Copying
    and testing are done by other commands and are arguments here. *)

From Stdlib Require Import Ascii.
From S2P Require Import Prelude GoStrings Json.

Record mutation : Type := mkMutation {
  name : string; file : string; before : string; after : string; testPackage : string; testPattern : string
}.
Definition mutations : list mutation := [
  mkMutation "executor role authorization" "transport/server.go"
    "if identity.Role != credential.RoleExecutor {" "if false {"
    "./transport" "TestEveryWorkloadRole|TestExecutorResolution";
  mkMutation "memory backend executor binding" "credential/backend_resolution.go"
    "if binding.ExecutorIdentity != claim.executorIdentity {" "if false {"
    "./credential" "Test.*Executor|TestRunScoped";
  mkMutation "postgres executor binding" "credential/postgres_resolution.go"
    "if binding.ExecutorIdentity != claim.executorIdentity {" "if false {"
    "./credential" "TestPostgres.*Executor|TestPostgresRunScoped";
  mkMutation "mandatory client certificate" "transport/identity.go"
    "ClientAuth:   tls.RequireAndVerifyClientCert," "ClientAuth:   tls.NoClientCert,"
    "./transport" "TestTLSConfig|TestUnsafeServerConfigurations";
  mkMutation "secret response cache prevention" "transport/server.go"
    (between_quotes ["writer.Header().Set("; "Cache-Control"; ", "; "no-store"; ")"])
    (between_quotes ["writer.Header().Set("; "Cache-Control"; ", "; "public"; ")"])
    "./transport" "TestExecutorResolutionAndRouteSeparation|TestSchedulerBindingRoutes"].

(** [strings.Count], of a text that is not empty, and [strings.Replace] of the
    first occurrence. *)
Fixpoint count_from (skip : nat) (s sub : string) : nat :=
  match s with
  | "" => 0
  | String _ s' =>
      match skip with
      | S k => count_from k s' sub
      | O => if HasPrefix s sub then S (count_from (pred (String.length sub)) s' sub) else count_from 0 s' sub
      end
  end.
Fixpoint replace_first (s old new : string) : string :=
  if HasPrefix s old then new +:+ drop_str (String.length old) s
  else match s with "" => "" | String a s' => String a (replace_first s' old new) end.

(** What the commands do: the working directory, a new one, the copy of the repository, its files,
    and a test of a package with one file changed: its output and whether it
    succeeded. *)
Record commands : Type := mkCommands {
  cmRoot : bool;
  cmTemp : bool;
  cmCopy : bool;
  cmRead : string → option string;
  cmWrite : string → bool;
  cmTest : string → string → string → string → string * bool
}.
Inductive gate_error : Type := TempFailed | CopyFailed | ReadFailed | WrongTarget | WriteFailed | NoTests | Survived.

Section Gate.
Context (c : commands).

Definition runMutation (mutant : mutation) : result gate_error unit :=
  _ ← guard_err (negb (cmTemp c)) TempFailed;
  _ ← guard_err (negb (cmCopy c)) CopyFailed;
  source ← of_option ReadFailed (cmRead c (file mutant));
  _ ← guard_err (negb (count_from 0 source (before mutant) =? 1)%nat) WrongTarget;
  _ ← guard_err (negb (cmWrite c (file mutant))) WriteFailed;
  let '(output, passed) := cmTest c (testPackage mutant) (testPattern mutant) (file mutant) (replace_first source (before mutant) (after mutant)) in
  _ ← guard_err (Contains output "[no tests to run]") NoTests;
  guard_err passed Survived.

(** The lines on standard output, and the exit status. *)
Fixpoint gate (l : list mutation) : list string * Z :=
  match l with
  | [] => ([], 0)
  | mutant :: l =>
      match runMutation mutant with
      | Err _ => ([], 1)
      | Ok _ => let '(lines, status) := gate l in (("PASS: tests killed mutation: " +:+ name mutant) :: lines, status)
      end
  end.
Definition main : list string * Z := if cmRoot c then gate mutations else ([], 1).
End Gate.

(** ** What the gate shows *)

Lemma count_from_skip sub p s : count_from (String.length p) (p +:+ s) sub = count_from 0 s sub.
Proof. induction p as [|a p IH]; [done|]. rewrite app_cons. cbn [String.length count_from]. apply IH. Qed.

(** Exactly one occurrence: the text is cut in two around it, and that is what
    is replaced. *)
Lemma replaced_once source old new : old ≠ "" → count_from 0 source old = 1%nat →
  ∃ p q, source = p +:+ old +:+ q ∧ replace_first source old new = p +:+ new +:+ q ∧ count_from 0 q old = 0%nat.
Proof.
  intros Hne. induction source as [|a s IH]; [done|]. destruct (HasPrefix (String a s) old) eqn:Hp.
  - apply HasPrefix_true in Hp as Hq. destruct Hq as [q Hq]. cbn [count_from replace_first]. rewrite Hp. intros H.
    destruct old as [|b old]; [done|]. rewrite app_cons in Hq. injection Hq as <- ->.
    exists "", q. cbn [String.length pred] in H. rewrite count_from_skip in H. split_and!; [done| |by injection H].
    cbn [String.length]. change (drop_str (S (String.length old)) (String a (old +:+ q))) with (drop_str (String.length old) (old +:+ q)).
    by rewrite drop_str_app.
  - cbn [count_from replace_first]. rewrite Hp. intros H. destruct (IH H) as (p & q & -> & -> & Hc). by exists (String a p), q.
Qed.

(** A mutant is killed: its fault has one place in the copy, and with the fault
    there some of the named tests ran and failed. *)
Definition killed (c : commands) (m : mutation) : Prop :=
  ∃ p q output, cmRead c (file m) = Some (p +:+ before m +:+ q) ∧
    cmTest c (testPackage m) (testPattern m) (file m) (p +:+ after m +:+ q) = (output, false) ∧
    Contains output "[no tests to run]" = false.
Lemma runMutation_killed c m : before m ≠ "" → runMutation c m = Ok () → killed c m.
Proof.
  intros Hne H. unfold runMutation in H. apply guard_bind in H as [_ H]. apply guard_bind in H as [_ H].
  apply of_option_bind in H as (source & Hs & H). apply guard_bind in H as [Hc H]. apply guard_bind in H as [_ H].
  apply negb_false_iff, Nat.eqb_eq in Hc. destruct (replaced_once _ _ (after m) Hne Hc) as (p & q & -> & Hr & _).
  rewrite Hr in H. destruct (cmTest _ _ _ _ _) as [output passed] eqn:Ht. apply guard_bind in H as [Ho H]. destruct passed; [done|].
  exists p, q, output. by split_and!.
Qed.

(** The script succeeds only if all five faults were noticed, and says so. *)
Lemma gate_passes c : (main c).2 = 0 →
  (main c).1 = (λ m, "PASS: tests killed mutation: " +:+ name m) <$> mutations ∧ Forall (killed c) mutations.
Proof.
  assert (Forall (λ m, before m ≠ "") mutations) as Hne by (repeat constructor; discriminate).
  unfold main. destruct (cmRoot c); [|done]. induction Hne as [|m l Hm _ IH]; cbn [gate]; [done|]. destruct (runMutation c m) as [[]|] eqn:Hr; [|done].
  destruct (gate c l) as [lines status]. cbn [fst snd] in *. intros H. destruct (IH H) as [-> Hall]. split; [done|].
  constructor; [by apply runMutation_killed|done].
Qed.

(** A repository whose tests fail with every change to these files. *)
Definition faulty_notes : commands := mkCommands true true true
  (λ path, Some (foldr (λ m s, if String.eqb (file m) path then before m +:+ s else s) "}" mutations)) (λ _, true)
  (λ _ _ _ _, ("FAIL", false)).
Example faulty_noticed : (main faulty_notes).2 = 0.
Proof. by vm_compute. Qed.
Example unnoticed : main (mkCommands true true true (cmRead faulty_notes) (λ _, true) (λ _ _ _ _, ("ok", true))) = ([], 1).
Proof. by vm_compute. Qed.
